(** * Swishpot betting engine: slip construction, odds aggregation,
      settlement ledger, leaderboard ranking and weekly period.

    Shallow embedding of
      - src/context/BetSlipContext.jsx  (addSelection, removeSelection,
        clearBetSlip, calculateCorrelationFactor, getConflicts and the values
        the provider derives from the slip),
      - services/appwrite.js, both revisions (getWeekBounds, getWeekNumber,
        getSeasonYear, getOrCreateUserBalance, placeBet, getLeaderboard), and
        of its later revision generateInviteCode, getLeagueByCode,
        createLeague, joinLeague, createWeekForLeague, getCurrentWeek,
        getUserBets, getMemberBets and getSeasonLeaderboard,
      - services/oddsApi.js (getNextApiKey, fetchWithKeyRotation,
        normalizeMarketType, normalizePropType, mapPropType,
        parsePlayerProps),
      - pages/Week.jsx (getDisplayGames, the guard of handlePlaceBet) and
        components/BetSlipPanel.jsx (the stake controls and the place-bet
        button).

    Conventions of the embedding.
      - A JavaScript number is an exact rational ([Q]): NaN, infinities and
        binary rounding are outside the model.  Array indices and counters are
        integers ([Z]).
      - A JavaScript string is a [string]; [===] on strings is [String.eqb].
      - An optional property is an [option]; [None] stands for
        undefined / null.
      - A plain object used as a map from string keys to arrays is an
        association list of its own properties in insertion order;
        [Object.entries] lists the canonical array-index keys first, in
        ascending numeric order, and then the other keys in insertion order.
        [JS.groupBy] is the grouping loop on keys none of which names a
        member of Object.prototype; [Prototype.groupBy] is the loop on any
        key, with the TypeError that such a name raises, and
        [Conflicts.getConflicts] is [getConflicts] on top of it.
      - The Appwrite database is an in-memory store of its collections; its
        calls always answer, [ID.unique()] draws from a counter, and an
        exception leaves in the store whatever was written before it.  A
        service call in the monad runs from start to end without another
        call in between; [Overlap] and [LeagueOverlap] hold the parts of a
        call around an [await] and schedules in which two calls overlap.
      - Case conversion and [\s] are those of ASCII; other characters are
        kept as they are. *)

From Stdlib Require Import List String Ascii Bool ZArith QArith Lia Lqa.
From Stdlib Require Import Permutation Sorted.
Import ListNotations.

(** ** JavaScript primitives used by the sources *)

Module JS.

(** [Array.prototype.findIndex]: the index of the first element that
    satisfies [p], or -1. *)
Fixpoint findIndexFrom {A : Type} (p : A -> bool) (l : list A) (i : Z) : Z :=
  match l with
  | [] => (-1)%Z
  | x :: r => if p x then i else findIndexFrom p r (i + 1)%Z
  end.

Definition findIndex {A : Type} (p : A -> bool) (l : list A) : Z :=
  findIndexFrom p l 0%Z.

(** [Array.prototype.filter] with a callback that reads the index. *)
Fixpoint filterFrom {A : Type} (p : A -> Z -> bool) (l : list A) (i : Z)
  : list A :=
  match l with
  | [] => []
  | x :: r =>
      if p x i then x :: filterFrom p r (i + 1)%Z
      else filterFrom p r (i + 1)%Z
  end.

Definition filteri {A : Type} (p : A -> Z -> bool) (l : list A) : list A :=
  filterFrom p l 0%Z.

(** [String.prototype.startsWith]. *)
Definition startsWith (pre s : string) : bool := String.prefix pre s.

(** [String.prototype.includes]. *)
Fixpoint includes (needle s : string) : bool :=
  String.prefix needle s
  || match s with
     | EmptyString => false
     | String _ rest => includes needle rest
     end.

(** [s.split(sep)[0]] for a one-character separator: the characters before
    the first occurrence of [sep] (all of [s] when there is none). *)
Fixpoint splitHead (sep : ascii) (s : string) : string :=
  match s with
  | EmptyString => EmptyString
  | String c rest =>
      if Ascii.eqb c sep then EmptyString else String c (splitHead sep rest)
  end.

(** A template literal prints an absent value as "undefined". *)
Definition template (v : option string) : string :=
  match v with
  | Some s => s
  | None => "undefined"%string
  end.

(** [v || null] on an optional string: the empty string is falsy. *)
Definition strOrNull (v : option string) : option string :=
  match v with
  | Some s => if String.eqb s EmptyString then None else Some s
  | None => None
  end.

(** [v || null] on an optional number: zero is falsy. *)
Definition numOrNull (v : option Q) : option Q :=
  match v with
  | Some q => if Qeq_bool q 0 then None else Some q
  | None => None
  end.

(** [a < b] on numbers. *)
Definition lt (a b : Q) : bool := negb (Qle_bool b a).

(** *** Objects used as maps *)

Definition obj (V : Type) : Type := list (string * V).

(** [if (!o[key]) o[key] = []; o[key].push(v)], for a key that does not
    name a member of Object.prototype ([Prototype.push] takes any key). *)
Fixpoint push {V : Type} (key : string) (v : V) (o : obj (list V))
  : obj (list V) :=
  match o with
  | [] => [(key, [v])]
  | (k, vs) :: r =>
      if String.eqb k key then (k, vs ++ [v]) :: r
      else (k, vs) :: push key v r
  end.

(** The grouping loop [for (const x of xs) { ... o[key(x)].push(x) }]. *)
Definition groupBy {V : Type} (key : V -> string) (xs : list V)
  : obj (list V) :=
  fold_left (fun o x => push (key x) x o) xs [].

(** What the grouping loop maintains after reading the items [pre]: keys
    are not repeated, each group is the sub-list of the items with its key,
    and every item read has its group. *)
Definition groups {V : Type} (key : V -> string) (pre : list V)
    (o : obj (list V)) : Prop :=
  NoDup (map fst o)
  /\ (forall k vs,
        In (k, vs) o -> vs = filter (fun x => String.eqb (key x) k) pre)
  /\ (forall x, In x pre -> In (key x) (map fst o)).

Definition digitOf (c : ascii) : option N :=
  let n := N_of_ascii c in
  if (48 <=? n)%N && (n <=? 57)%N then Some (n - 48)%N else None.

Fixpoint digitsFrom (s : string) (acc : N) : option N :=
  match s with
  | EmptyString => Some acc
  | String c rest =>
      match digitOf c with
      | Some d => digitsFrom rest (10 * acc + d)%N
      | None => None
      end
  end.

(** An array index is a canonical decimal numeral (no leading zero, no
    sign) whose value is at most 2^32 - 2. *)
Definition arrayIndex (s : string) : option N :=
  match s with
  | EmptyString => None
  | String c rest =>
      match digitOf c, rest with
      | Some 0%N, EmptyString => Some 0%N
      | Some 0%N, _ => None
      | Some _, _ =>
          match digitsFrom s 0 with
          | Some n => if (n <=? 4294967294)%N then Some n else None
          | None => None
          end
      | None, _ => None
      end
  end.

Fixpoint insertIndexed {V : Type} (n : N) (e : string * V)
    (l : list (N * (string * V))) : list (N * (string * V)) :=
  match l with
  | [] => [(n, e)]
  | (m, e') :: r =>
      if (n <=? m)%N then (n, e) :: l else (m, e') :: insertIndexed n e r
  end.

(** The array-index keys of [o], in ascending numeric order. *)
Fixpoint indexedEntries {V : Type} (o : obj V) : list (N * (string * V)) :=
  match o with
  | [] => []
  | (k, v) :: r =>
      match arrayIndex k with
      | Some n => insertIndexed n (k, v) (indexedEntries r)
      | None => indexedEntries r
      end
  end.

Definition isNamedKey {V : Type} (e : string * V) : bool :=
  match arrayIndex (fst e) with
  | Some _ => false
  | None => true
  end.

(** [Object.entries(o)]. *)
Definition entries {V : Type} (o : obj V) : list (string * V) :=
  map snd (indexedEntries o) ++ filter isNamedKey o.

(** [Array.prototype.sort(cmp)], a stable sort.  [cmp a b > 0] asks for [a]
    after [b].  The model is a stable insertion sort.  When [cmp] is a
    consistent comparator every stable sort returns this list; when it is
    not, ECMAScript leaves the order to the engine, and the model then
    follows what a run-detecting insertion sort does on a short array. *)
Fixpoint sortInsert {A : Type} (cmp : A -> A -> Q) (x : A) (l : list A)
  : list A :=
  match l with
  | [] => [x]
  | y :: r =>
      if Qle_bool (cmp x y) 0 then x :: l else y :: sortInsert cmp x r
  end.

Fixpoint sort {A : Type} (cmp : A -> A -> Q) (l : list A) : list A :=
  match l with
  | [] => []
  | x :: r => sortInsert cmp x (sort cmp r)
  end.

(** [Array.prototype.map] with a callback that reads the index. *)
Fixpoint mapFrom {A B : Type} (f : A -> Z -> B) (l : list A) (i : Z)
  : list B :=
  match l with
  | [] => []
  | x :: r => f x i :: mapFrom f r (i + 1)%Z
  end.

Definition mapi {A B : Type} (f : A -> Z -> B) (l : list A) : list B :=
  mapFrom f l 0%Z.

End JS.

(** ** The bet slip (src/context/BetSlipContext.jsx) *)

Module BetSlip.

Record SelectionItem : Type := mkSelection {
  gameId : string;
  gameDescription : string;
  gameTime : string;
  marketType : string;
  selection : string;
  odds : Q;
  line : option Q;
  playerName : option string
}.

(** The two pieces of provider state: [useState([])] and [useState(0)]. *)
Record State : Type := mkState {
  items : list SelectionItem;
  stake : Q
}.

Definition initial : State := mkState [] 0.

Definition sameSelection (sel item : SelectionItem) : bool :=
  String.eqb (gameId item) (gameId sel)
  && String.eqb (marketType item) (marketType sel)
  && String.eqb (selection item) (selection sel).

Definition sameMarket (sel item : SelectionItem) : bool :=
  String.eqb (gameId item) (gameId sel)
  && String.eqb (marketType item) (marketType sel).

(** The updater that [addSelection] passes to [setItems]. *)
Definition addItem (sel : SelectionItem) (prev : list SelectionItem)
  : list SelectionItem :=
  let existingIndex := JS.findIndex (sameSelection sel) prev in
  if (0 <=? existingIndex)%Z then
    JS.filteri (fun _ i => negb (i =? existingIndex)%Z) prev
  else
    let filtered := filter (fun item => negb (sameMarket sel item)) prev in
    filtered ++ [sel].

Definition addSelection (sel : SelectionItem) (st : State) : State :=
  mkState (addItem sel (items st)) (stake st).

Definition removeSelection (index : Z) (st : State) : State :=
  mkState (JS.filteri (fun _ i => negb (i =? index)%Z) (items st)) (stake st).

Definition clearBetSlip (st : State) : State := mkState [] 0.

Definition setStake (v : Q) (st : State) : State := mkState (items st) v.

Definition isSelected (g m s : string) (st : State) : bool :=
  existsb
    (fun item =>
       String.eqb (gameId item) g && String.eqb (marketType item) m
       && String.eqb (selection item) s)
    (items st).

(** *** Odds aggregation *)

Definition calculateCorrelationFactor (its : list SelectionItem) : Q :=
  let factor := 1 in
  let hasH2H := existsb (fun i => String.eqb (marketType i) "h2h") its in
  let hasSpread := existsb (fun i => String.eqb (marketType i) "spread") its in
  let hasTotal := existsb (fun i => String.eqb (marketType i) "total") its in
  let hasPlayerProps :=
    existsb (fun i => JS.startsWith "player_" (marketType i)) its in
  let factor :=
    if hasH2H && hasSpread then
      let h2hItem := find (fun i => String.eqb (marketType i) "h2h") its in
      let spreadItem :=
        find (fun i => String.eqb (marketType i) "spread") its in
      match h2hItem, spreadItem with
      | Some h, Some s =>
          if String.eqb (selection h) (JS.splitHead " " (selection s))
          then factor * (9 # 10)
          else factor
      | _, _ => factor
      end
    else factor in
  let factor :=
    if hasPlayerProps && (hasH2H || hasSpread || hasTotal)
    then factor * (95 # 100)
    else factor in
  factor.

Definition rawOdds (its : list SelectionItem) : Q :=
  fold_left (fun total item => total * odds item) its 1.

Definition isSGM (its : list SelectionItem) : bool :=
  (1 <? Z.of_nat (List.length its))%Z
  && match its with
     | [] => true
     | first :: _ =>
         forallb (fun item => String.eqb (gameId item) (gameId first)) its
     end.

Definition correlationFactor (its : list SelectionItem) : Q :=
  if isSGM its then calculateCorrelationFactor its else 1.

Definition totalOdds (its : list SelectionItem) : Q :=
  rawOdds its * correlationFactor its.

Definition potentialPayout (st : State) : Q :=
  stake st * totalOdds (items st).

(** *** Conflict detection *)

Record Conflict : Type := mkConflict {
  type : string;
  message : string
}.

Definition h2h_conflict : Conflict :=
  mkConflict "h2h_conflict" "Cannot select both teams to win the same game".

Definition total_conflict : Conflict :=
  mkConflict "total_conflict"
    "Cannot select both Over and Under for the same total".

Definition player_prop_conflict (p : SelectionItem) : Conflict :=
  mkConflict "player_prop_conflict"
    ("Cannot select both Over and Under for "
     ++ JS.template (playerName p))%string.

(** The key [`${prop.playerName}-${prop.marketType}`]. *)
Definition playerKey (prop : SelectionItem) : string :=
  (JS.template (playerName prop) ++ "-" ++ marketType prop)%string.

(** What one pass of the [for ... of Object.entries(playerGroups)] loop
    pushes: [props[0]] exists whenever [props.length > 1]. *)
Definition playerGroupConflicts (e : string * list SelectionItem)
  : list Conflict :=
  match snd e with
  | p0 :: _ :: _ => [player_prop_conflict p0]
  | _ => []
  end.

(** What one pass of the loop over [Object.entries(gameGroups)] pushes. *)
Definition gameConflicts (gameItems : list SelectionItem) : list Conflict :=
  let h2hItems :=
    filter (fun i => String.eqb (marketType i) "h2h") gameItems in
  let c1 :=
    if (1 <? Z.of_nat (List.length h2hItems))%Z then [h2h_conflict] else [] in
  let totalItems :=
    filter (fun i => String.eqb (marketType i) "total") gameItems in
  let c2 :=
    if (1 <? Z.of_nat (List.length totalItems))%Z then
      let hasOver :=
        existsb (fun i => JS.includes "Over" (selection i)) totalItems in
      let hasUnder :=
        existsb (fun i => JS.includes "Under" (selection i)) totalItems in
      if hasOver && hasUnder then [total_conflict] else []
    else [] in
  let playerProps :=
    filter (fun i => JS.startsWith "player_" (marketType i)) gameItems in
  let playerGroups := JS.groupBy playerKey playerProps in
  let c3 := flat_map playerGroupConflicts (JS.entries playerGroups) in
  c1 ++ c2 ++ c3.

(** The conflicts [getConflicts] returns when it returns, that is, when no
    game identifier names a member of Object.prototype
    ([Conflicts.getConflicts] takes any identifier). *)
Definition getConflicts (its : list SelectionItem) : list Conflict :=
  let gameGroups := JS.groupBy gameId its in
  flat_map (fun e => gameConflicts (snd e)) (JS.entries gameGroups).

Definition hasConflict (its : list SelectionItem) : bool :=
  (0 <? Z.of_nat (List.length (getConflicts its)))%Z.

Definition isEmpty (its : list SelectionItem) : bool :=
  (Z.of_nat (List.length its) =? 0)%Z.

(** *** Predicates used to state the properties of the slip *)

(** The slip states the interface can produce when every selection it is
    handed satisfies [ok]. *)
Inductive reachableVia (ok : SelectionItem -> Prop) : State -> Prop :=
| reach_initial : reachableVia ok initial
| reach_add : forall sel st,
    ok sel -> reachableVia ok st -> reachableVia ok (addSelection sel st)
| reach_remove : forall index st,
    reachableVia ok st -> reachableVia ok (removeSelection index st)
| reach_clear : forall st,
    reachableVia ok st -> reachableVia ok (clearBetSlip st)
| reach_stake : forall v st,
    reachableVia ok st -> reachableVia ok (setStake v st).

(** The slip states the interface can produce. *)
Definition reachable : State -> Prop := reachableVia (fun _ => True).

(** The market type has no hyphen, as every market type of the
    vocabulary (h2h, spread, total, player_points, ...). *)
Definition plainMarket (i : SelectionItem) : Prop :=
  JS.includes "-" (marketType i) = false.

Definition marketOf (i : SelectionItem) : string * string :=
  (gameId i, marketType i).

(** At most one pick per market per game. *)
Definition onePickPerMarket (its : list SelectionItem) : Prop :=
  NoDup (map marketOf its).

(** How many items of the slip carry the triple of [sel]. *)
Definition occurrences (sel : SelectionItem) (its : list SelectionItem)
  : nat :=
  List.length (filter (sameSelection sel) its).

Definition isPlayerProp (i : SelectionItem) : bool :=
  JS.startsWith "player_" (marketType i).

Definition isTeamMarket (i : SelectionItem) : bool :=
  String.eqb (marketType i) "h2h"
  || String.eqb (marketType i) "spread"
  || String.eqb (marketType i) "total".

(** All the selections are on game [g]. *)
Definition sameGame (g : string) (its : list SelectionItem) : Prop :=
  forall i, In i its -> gameId i = g.

(** The product of the individual odds. *)
Definition product (l : list Q) : Q := fold_right Qmult 1 l.

(** The head-to-head / spread correlation test of
    [calculateCorrelationFactor]: the first head-to-head pick names the
    first word of the first spread pick. *)
Definition h2hSpreadCorrelated (its : list SelectionItem) : bool :=
  match find (fun i => String.eqb (marketType i) "h2h") its,
        find (fun i => String.eqb (marketType i) "spread") its with
  | Some h, Some s =>
      String.eqb (selection h) (JS.splitHead " " (selection s))
  | _, _ => false
  end.

End BetSlip.

(** ** The settlement ledger and the leaderboard (services/appwrite.js) *)

Module WeekBalance.
(** A document of the week_balances collection; [id] is its [$id] and
    [lastwintime] the instant its date string denotes, when it has one. *)
Record t : Type := mk {
  id : nat;
  weekid : string;
  leagueid : string;
  userid : string;
  displayname : string;
  balance : Q;
  highestwinpayout : Q;
  totalbets : Z;
  lastwintime : option Z
}.
End WeekBalance.

Module Bet.
(** A document of the bets collection. *)
Record t : Type := mk {
  id : nat;
  userId : string;
  leagueId : string;
  weekId : string;
  betType : string;
  stake : Q;
  totalOdds : Q;
  potentialPayout : Q;
  status : string;
  settledAt : option string;
  createdAt : string
}.
End Bet.

Module BetLeg.
(** A document of the bet_legs collection. *)
Record t : Type := mk {
  id : nat;
  betId : nat;
  gameId : string;
  gameDescription : string;
  gameTime : string;
  marketType : string;
  selection : string;
  odds : Q;
  line : option Q;
  result : string;
  actualValue : option Q;
  playerName : option string
}.
End BetLeg.

Module Ledger.

Definition STARTING_BALANCE : Q := 1000.

(** The object handed to [placeBet] by the page. *)
Record Slip : Type := mkSlip {
  items : list BetSlip.SelectionItem;
  stake : Q;
  totalOdds : Q;
  potentialPayout : Q
}.

(** The database: three collections in fetch order, the next identifier
    [ID.unique()] returns, and the reading of [new Date().toISOString()]. *)
Record Store : Type := mkStore {
  week_balances : list WeekBalance.t;
  bets : list Bet.t;
  bet_legs : list BetLeg.t;
  nextId : nat;
  clock : string
}.

(** An asynchronous call either resolves or rejects with an [Error]. *)
Inductive outcome (A : Type) : Type :=
| Resolved : A -> outcome A
| Rejected : string -> outcome A.

Arguments Resolved {A} _.
Arguments Rejected {A} _.

Definition M (A : Type) : Type := Store -> outcome A * Store.

Definition ret {A : Type} (a : A) : M A := fun s => (Resolved a, s).

Definition throw {A : Type} (msg : string) : M A :=
  fun s => (Rejected msg, s).

Definition bind {A B : Type} (m : M A) (k : A -> M B) : M B :=
  fun s =>
    match m s with
    | (Resolved a, s') => k a s'
    | (Rejected msg, s') => (Rejected msg, s')
    end.

Notation "x <- m ;; k" := (bind m (fun x => k))
  (at level 61, m at next level, right associativity).
Notation "m ;;; k" := (bind m (fun _ => k))
  (at level 61, right associativity).

(** [for (const x of xs) { await body(x) }]. *)
Fixpoint forOf {A : Type} (xs : list A) (body : A -> M unit) : M unit :=
  match xs with
  | [] => ret tt
  | x :: r => body x ;;; forOf r body
  end.

(** *** Database calls *)

Definition fetchWeekBalances : M (list WeekBalance.t) :=
  fun s => (Resolved (week_balances s), s).

Definition now : M string := fun s => (Resolved (clock s), s).

Definition createWeekBalance (data : nat -> WeekBalance.t)
  : M WeekBalance.t :=
  fun s =>
    let d := data (nextId s) in
    (Resolved d,
     mkStore (week_balances s ++ [d]) (bets s) (bet_legs s)
       (S (nextId s)) (clock s)).

Definition createBet (data : nat -> Bet.t) : M Bet.t :=
  fun s =>
    let d := data (nextId s) in
    (Resolved d,
     mkStore (week_balances s) (bets s ++ [d]) (bet_legs s)
       (S (nextId s)) (clock s)).

Definition createBetLeg (data : nat -> BetLeg.t) : M unit :=
  fun s =>
    let d := data (nextId s) in
    (Resolved tt,
     mkStore (week_balances s) (bets s) (bet_legs s ++ [d])
       (S (nextId s)) (clock s)).

(** The patch [{balance, totalbets}] applied to the document [docId]. *)
Definition patchBalance (docId : nat) (newBalance : Q) (newTotalbets : Z)
    (d : WeekBalance.t) : WeekBalance.t :=
  if Nat.eqb (WeekBalance.id d) docId then
    WeekBalance.mk (WeekBalance.id d) (WeekBalance.weekid d)
      (WeekBalance.leagueid d) (WeekBalance.userid d)
      (WeekBalance.displayname d) newBalance
      (WeekBalance.highestwinpayout d) newTotalbets
      (WeekBalance.lastwintime d)
  else d.

(** [updateDocument(.., WEEK_BALANCES, id, {balance, totalbets})]; the
    document is in the collection whenever [placeBet] reaches the call. *)
Definition updateWeekBalance (docId : nat) (newBalance : Q)
    (newTotalbets : Z) : M unit :=
  fun s =>
    (Resolved tt,
     mkStore (map (patchBalance docId newBalance newTotalbets)
                (week_balances s))
       (bets s) (bet_legs s) (nextId s) (clock s)).

(** *** The operations *)

Definition balanceOf (weekId userId : string) (b : WeekBalance.t) : bool :=
  String.eqb (WeekBalance.weekid b) weekId
  && String.eqb (WeekBalance.userid b) userId.

(** The data of the document created on a user's first access to a
    week. *)
Definition firstBalance (weekId leagueId userId displayName : string)
    (id : nat) : WeekBalance.t :=
  WeekBalance.mk id weekId leagueId userId displayName
    STARTING_BALANCE 0 0%Z None.

Definition getOrCreateUserBalance
    (weekId leagueId userId displayName : string) : M WeekBalance.t :=
  allBalances <- fetchWeekBalances ;;
  match find (balanceOf weekId userId) allBalances with
  | Some balance => ret balance
  | None =>
      createWeekBalance (firstBalance weekId leagueId userId displayName)
  end.

Definition legOf (betId : nat) (item : BetSlip.SelectionItem) (id : nat)
  : BetLeg.t :=
  BetLeg.mk id betId
    (BetSlip.gameId item) (BetSlip.gameDescription item)
    (BetSlip.gameTime item) (BetSlip.marketType item)
    (BetSlip.selection item) (BetSlip.odds item)
    (JS.numOrNull (BetSlip.line item))
    "pending" None
    (JS.strOrNull (BetSlip.playerName item)).

Definition placeBet (betSlip : Slip)
    (userId leagueId weekId displayName : string) : M Bet.t :=
  balanceDoc <- getOrCreateUserBalance weekId leagueId userId displayName ;;
  if JS.lt (WeekBalance.balance balanceDoc) (stake betSlip) then
    throw "Insufficient balance"
  else
    createdAt <- now ;;
    bet <- createBet
             (fun id =>
                Bet.mk id userId leagueId weekId
                  (if (1 <? Z.of_nat (List.length (items betSlip)))%Z
                   then "SGM" else "Single")
                  (stake betSlip) (totalOdds betSlip)
                  (potentialPayout betSlip)
                  "pending" None createdAt) ;;
    forOf (items betSlip)
      (fun item => createBetLeg (legOf (Bet.id bet) item)) ;;;
    updateWeekBalance (WeekBalance.id balanceDoc)
      (WeekBalance.balance balanceDoc - stake betSlip)
      (WeekBalance.totalbets balanceDoc + 1)%Z ;;;
    ret bet.

(** The legs [placeBet] writes for the items of a slip, the first one
    under identifier [id]. *)
Fixpoint legsFrom (betId : nat) (its : list BetSlip.SelectionItem)
    (id : nat) : list BetLeg.t :=
  match its with
  | [] => []
  | item :: r => legOf betId item id :: legsFrom betId r (S id)
  end.

(** The leg records the item and is still to be graded. *)
Definition pendingLegOf (betId : nat) (leg : BetLeg.t)
    (item : BetSlip.SelectionItem) : Prop :=
  BetLeg.betId leg = betId
  /\ BetLeg.result leg = "pending"%string
  /\ BetLeg.gameId leg = BetSlip.gameId item
  /\ BetLeg.marketType leg = BetSlip.marketType item
  /\ BetLeg.selection leg = BetSlip.selection item
  /\ BetLeg.odds leg = BetSlip.odds item.

(** *** Weekly leaderboard *)

(** The comparator of [getLeaderboard]; [x || 0] leaves a number as it
    is. *)
Definition compareBalances (a b : WeekBalance.t) : Q :=
  let balDiff := WeekBalance.balance b - WeekBalance.balance a in
  if negb (Qeq_bool balDiff 0) then balDiff
  else
    let payDiff :=
      WeekBalance.highestwinpayout b - WeekBalance.highestwinpayout a in
    if negb (Qeq_bool payDiff 0) then payDiff
    else
      match WeekBalance.lastwintime a, WeekBalance.lastwintime b with
      | Some ta, Some tb => inject_Z (ta - tb)
      | _, _ => 0
      end.

(** The comparator of the earlier revision of [getLeaderboard]. *)
Definition compareBalances0 (a b : WeekBalance.t) : Q :=
  if negb (Qeq_bool (WeekBalance.balance b) (WeekBalance.balance a))
  then WeekBalance.balance b - WeekBalance.balance a
  else
    if negb (Qeq_bool (WeekBalance.highestwinpayout b)
               (WeekBalance.highestwinpayout a))
    then WeekBalance.highestwinpayout b - WeekBalance.highestwinpayout a
    else
      match WeekBalance.lastwintime a, WeekBalance.lastwintime b with
      | Some ta, Some tb => inject_Z (ta - tb)
      | _, _ => 0
      end.

(** An entry of the leaderboard: [{ ...b, rank }]. *)
Record Ranked : Type := mkRanked {
  entry : WeekBalance.t;
  rank : Z
}.

Definition getLeaderboard (weekId : string) : M (list Ranked) :=
  allBalances <- fetchWeekBalances ;;
  let balances :=
    filter (fun b => String.eqb (WeekBalance.weekid b) weekId) allBalances in
  let balances := JS.sort compareBalances balances in
  ret (JS.mapi (fun b i => mkRanked b (i + 1)%Z) balances).

(** [getLeaderboard] in the earlier revision of the service: the same
    pipeline around the earlier comparator. *)
Definition getLeaderboard0 (weekId : string) : M (list Ranked) :=
  allBalances <- fetchWeekBalances ;;
  let balances :=
    filter (fun b => String.eqb (WeekBalance.weekid b) weekId) allBalances in
  let balances := JS.sort compareBalances0 balances in
  ret (JS.mapi (fun b i => mkRanked b (i + 1)%Z) balances).

(** *** Predicates used to state the ordering *)

(** [a] may stand before [b]: higher balance, or the same balance and a
    higher payout, or both equal and, when both have a last win, a last win
    that is not later. *)
Definition ranksBefore (a b : WeekBalance.t) : Prop :=
  WeekBalance.balance b < WeekBalance.balance a
  \/ (WeekBalance.balance b == WeekBalance.balance a
      /\ (WeekBalance.highestwinpayout b < WeekBalance.highestwinpayout a
          \/ (WeekBalance.highestwinpayout b == WeekBalance.highestwinpayout a
              /\ forall ta tb,
                   WeekBalance.lastwintime a = Some ta ->
                   WeekBalance.lastwintime b = Some tb ->
                   (ta <= tb)%Z))).

(** [a] is not behind [b] on the first two keys: higher balance, or the
    same balance and a payout at least as high. *)
Definition aheadOnMoney (a b : WeekBalance.t) : Prop :=
  WeekBalance.balance b < WeekBalance.balance a
  \/ (WeekBalance.balance b == WeekBalance.balance a
      /\ WeekBalance.highestwinpayout b <= WeekBalance.highestwinpayout a).

Definition tied (a b : WeekBalance.t) : Prop :=
  WeekBalance.balance a == WeekBalance.balance b
  /\ WeekBalance.highestwinpayout a == WeekBalance.highestwinpayout b.

Definition hasLastWin (a : WeekBalance.t) : bool :=
  match WeekBalance.lastwintime a with
  | Some _ => true
  | None => false
  end.

(** Entries tied on balance and payout either all have a last win or none
    has. *)
Definition uniformTies (l : list WeekBalance.t) : Prop :=
  forall a b, In a l -> In b l -> tied a b -> hasLastWin a = hasLastWin b.

End Ledger.

(** ** Dates (ECMAScript 21.4.1, on local time values)

    A [Date] is its local time value: the milliseconds of the local wall clock
    since 1970-01-01T00:00 local.  The host zone is taken to have a constant
    offset, so local getters, local setters, comparison and subtraction of two
    dates all read the local time value. *)

Module JSDate.

Local Open Scope Z_scope.

Definition msPerDay : Z := 86400000.

Definition Day (t : Z) : Z := t / msPerDay.

Definition TimeWithinDay (t : Z) : Z := t mod msPerDay.

Definition DayFromYear (y : Z) : Z :=
  365 * (y - 1970) + (y - 1969) / 4 - (y - 1901) / 100 + (y - 1601) / 400.

Definition InLeapYear (y : Z) : bool :=
  DayFromYear (y + 1) - DayFromYear y =? 366.

(** The largest [y] with [DayFromYear y <= d]: an estimate from the mean
    length of a year, corrected by at most one year. *)
Definition YearFromDay (d : Z) : Z :=
  let y := 1970 + (400 * d) / 146097 in
  if DayFromYear (y + 1) <=? d then y + 1
  else if DayFromYear y <=? d then y
  else y - 1.

Definition YearFromTime (t : Z) : Z := YearFromDay (Day t).

Definition DayWithinYear (t : Z) : Z :=
  Day t - DayFromYear (YearFromTime t).

(** The day of the year on which month [m] (0 to 11) begins. *)
Definition monthStart (leap : bool) (m : Z) : Z :=
  let l := if leap then 1 else 0 in
  if m =? 0 then 0
  else if m =? 1 then 31
  else if m =? 2 then 59 + l
  else if m =? 3 then 90 + l
  else if m =? 4 then 120 + l
  else if m =? 5 then 151 + l
  else if m =? 6 then 181 + l
  else if m =? 7 then 212 + l
  else if m =? 8 then 243 + l
  else if m =? 9 then 273 + l
  else if m =? 10 then 304 + l
  else 334 + l.

Definition MonthFromTime (t : Z) : Z :=
  let d := DayWithinYear t in
  let leap := InLeapYear (YearFromTime t) in
  if d <? monthStart leap 1 then 0
  else if d <? monthStart leap 2 then 1
  else if d <? monthStart leap 3 then 2
  else if d <? monthStart leap 4 then 3
  else if d <? monthStart leap 5 then 4
  else if d <? monthStart leap 6 then 5
  else if d <? monthStart leap 7 then 6
  else if d <? monthStart leap 8 then 7
  else if d <? monthStart leap 9 then 8
  else if d <? monthStart leap 10 then 9
  else if d <? monthStart leap 11 then 10
  else 11.

Definition DateFromTime (t : Z) : Z :=
  DayWithinYear t
  - monthStart (InLeapYear (YearFromTime t)) (MonthFromTime t) + 1.

Definition WeekDay (t : Z) : Z := (Day t + 4) mod 7.

Definition MakeTime (hour min sec ms : Z) : Z :=
  hour * 3600000 + min * 60000 + sec * 1000 + ms.

Definition MakeDay (year month date : Z) : Z :=
  let ym := year + month / 12 in
  let mn := month mod 12 in
  DayFromYear ym + monthStart (InLeapYear ym) mn + date - 1.

Definition MakeDate (day time : Z) : Z := day * msPerDay + time.

(** *** The methods of [Date] the scheduler calls *)

Definition getDay (t : Z) : Z := WeekDay t.
Definition getDate (t : Z) : Z := DateFromTime t.
Definition getMonth (t : Z) : Z := MonthFromTime t.
Definition getFullYear (t : Z) : Z := YearFromTime t.

Definition setDate (t date : Z) : Z :=
  MakeDate (MakeDay (YearFromTime t) (MonthFromTime t) date)
    (TimeWithinDay t).

Definition setHours (t hour min sec ms : Z) : Z :=
  MakeDate (Day t) (MakeTime hour min sec ms).

Definition setFullYear (t year : Z) : Z :=
  MakeDate (MakeDay year (MonthFromTime t) (DateFromTime t))
    (TimeWithinDay t).

(** [new Date(year, month, date)]; a year from 0 to 99 means 1900 + year. *)
Definition fromFields (year month date : Z) : Z :=
  let yr := if (0 <=? year) && (year <=? 99) then 1900 + year else year in
  MakeDate (MakeDay yr month date) (MakeTime 0 0 0 0).

End JSDate.

(** ** The weekly period (services/appwrite.js) *)

Module Scheduler.

Local Open Scope Z_scope.

(** [getAESTDate()]: the Sydney wall clock of the evaluation instant, as
    printed by [toLocaleString] (to the second) and read back as a local
    date.  [wall] is the Sydney wall-clock reading of the instant, in
    milliseconds. *)
Definition getAESTDate (wall : Z) : Z := 1000 * (wall / 1000).

Definition getWeekBounds (wall : Z) : Z * Z :=
  let now := getAESTDate wall in
  let day := JSDate.getDay now in
  let daysFromTuesday := Z.rem (day + 5) 7 in
  let startDate := now in
  let startDate :=
    JSDate.setDate startDate (JSDate.getDate now - daysFromTuesday) in
  let startDate := JSDate.setHours startDate 0 0 0 0 in
  let endDate := startDate in
  let endDate := JSDate.setDate endDate (JSDate.getDate startDate + 6) in
  let endDate := JSDate.setHours endDate 23 59 59 999 in
  (startDate, endDate).

Definition getWeekNumber (wall : Z) : Z :=
  let now := getAESTDate wall in
  let startOfSeason := JSDate.fromFields (JSDate.getFullYear now) 9 22 in
  let startOfSeason :=
    if now <? startOfSeason then
      JSDate.setFullYear startOfSeason (JSDate.getFullYear startOfSeason - 1)
    else startOfSeason in
  let weekNum := (now - startOfSeason) / (7 * 24 * 60 * 60 * 1000) + 1 in
  Z.max 1 weekNum.

Definition getSeasonYear (wall : Z) : Z :=
  let now := getAESTDate wall in
  let month := JSDate.getMonth now in
  if 9 <=? month then JSDate.getFullYear now + 1 else JSDate.getFullYear now.

(** The week [createWeekForLeague] writes at an instant. *)
Record Week : Type := mkWeek {
  weekNumber : Z;
  seasonYear : Z;
  startDate : Z;
  endDate : Z
}.

Definition currentWeek (wall : Z) : Week :=
  let (s, e) := getWeekBounds wall in
  mkWeek (getWeekNumber wall) (getSeasonYear wall) s e.

Definition Tuesday : Z := 2.

End Scheduler.

(** ** Sample data *)

Module Samples.

Import BetSlip.

Definition game1 : string := "a3f9c2".
Definition tipoff : string := "2025-01-10T09:30:00Z".

Definition pick (market sel : string) (o : Q) (l : option Q)
    (player : option string) : SelectionItem :=
  mkSelection game1 "Lakers @ Celtics" tipoff market sel o l player.

Definition lakersH2H : SelectionItem :=
  pick "h2h" "Lakers" (19 # 10) None None.

Definition celticsH2H : SelectionItem :=
  pick "h2h" "Celtics" (2 # 1) None None.

Definition lakersSpread : SelectionItem :=
  pick "spread" "Lakers +5.5" (19 # 10) (Some (11 # 2)) None.

Definition celticsSpread : SelectionItem :=
  pick "spread" "Celtics -5.5" (19 # 10) (Some (- (11 # 2))) None.

Definition overTotal : SelectionItem :=
  pick "total" "Over 220.5" (19 # 10) (Some (441 # 2)) None.

Definition lebronOver : SelectionItem :=
  pick "player_points" "LeBron James Over 25.5" (185 # 100)
    (Some (51 # 2)) (Some "LeBron James"%string).

Definition lebronUnder : SelectionItem :=
  pick "player_points" "LeBron James Under 25.5" (195 # 100)
    (Some (51 # 2)) (Some "LeBron James"%string).

Definition lebronOverAlt : SelectionItem :=
  pick "player_points" "LeBron James Over 27.5" (23 # 10)
    (Some (55 # 2)) (Some "LeBron James"%string).

(** Two picks on different markets whose player keys coincide. *)
Definition hyphenA : SelectionItem :=
  pick "player_y" "A-player_x Over 1.5" (2 # 1) (Some (3 # 2))
    (Some "A-player_x"%string).

Definition hyphenB : SelectionItem :=
  pick "player_x-player_y" "A Over 1.5" (2 # 1) (Some (3 # 2))
    (Some "A"%string).

Definition slipOf (l : list SelectionItem) : State := mkState l 0.

Definition row (id : nat) (user : string) (bal pay : Q) (n : Z)
    (win : option Z) : WeekBalance.t :=
  WeekBalance.mk id "w1" "l1" user user bal pay n win.

(** A store in which Ann holds 200 and Bob holds 50 in week w1. *)
Definition store0 : Ledger.Store :=
  Ledger.mkStore
    [row 1 "ann" 200 0 3%Z None; row 2 "bob" 50 0 9%Z None]
    [] [] 3 "2025-01-09T22:00:00.000Z".

Definition slip100 : Ledger.Slip :=
  Ledger.mkSlip [lakersH2H; lebronOver] 100
    (totalOdds [lakersH2H; lebronOver])
    (100 * totalOdds [lakersH2H; lebronOver]).

Definition slip2000 : Ledger.Slip :=
  Ledger.mkSlip [lakersH2H] 2000 (totalOdds [lakersH2H])
    (2000 * totalOdds [lakersH2H]).

(** The week of the leaderboard example: A and B on 1200, B with the
    higher payout, C on 900. *)
Definition rowA : WeekBalance.t := row 1 "A" 1200 300 4%Z (Some 1000%Z).
Definition rowB : WeekBalance.t := row 2 "B" 1200 450 2%Z (Some 2000%Z).
Definition rowC : WeekBalance.t := row 3 "C" 900 0 5%Z None.

Definition storeABC : Ledger.Store :=
  Ledger.mkStore
    [rowA; rowB; WeekBalance.mk 9 "w0" "l1" "Z" "Z" 5000 0 0%Z None; rowC]
    [] [] 10 "2025-01-09T22:00:00.000Z".

(** Three rows tied on balance and payout, the middle one without a last
    win. *)
Definition late : WeekBalance.t := row 1 "late" 1000 100 1%Z (Some 2000%Z).
Definition never : WeekBalance.t := row 2 "never" 1000 100 1%Z None.
Definition early : WeekBalance.t := row 3 "early" 1000 100 1%Z (Some 1000%Z).

Definition storeTies : Ledger.Store :=
  Ledger.mkStore [late; never; early] [] [] 4 "2025-01-09T22:00:00.000Z".

End Samples.

(** ** Views of the slip used to state further properties *)

Module SlipViews.

Import BetSlip.

(** The picks of the slip on market [m] of game [g]. *)
Definition picksOn (g m : string) (its : list SelectionItem)
  : list SelectionItem :=
  filter
    (fun i => String.eqb (gameId i) g && String.eqb (marketType i) m) its.

(** The three current factors and the one for both discounts. *)
Definition factors : list Q :=
  [1; 9 # 10; 95 # 100; (9 # 10) * (95 # 100)].

End SlipViews.

(** ** Strings: case conversion (ASCII letters; other characters are kept) *)

Module JSString.

Definition lowerChar (c : ascii) : ascii :=
  let n := nat_of_ascii c in
  if (65 <=? n)%nat && (n <=? 90)%nat then ascii_of_nat (n + 32) else c.

Definition upperChar (c : ascii) : ascii :=
  let n := nat_of_ascii c in
  if (97 <=? n)%nat && (n <=? 122)%nat then ascii_of_nat (n - 32) else c.

(** [String.prototype.toLowerCase]. *)
Fixpoint toLowerCase (s : string) : string :=
  match s with
  | EmptyString => EmptyString
  | String c rest => String (lowerChar c) (toLowerCase rest)
  end.

(** [String.prototype.toUpperCase]. *)
Fixpoint toUpperCase (s : string) : string :=
  match s with
  | EmptyString => EmptyString
  | String c rest => String (upperChar c) (toUpperCase rest)
  end.

(** [a || b] on optional strings: the first one that is present and not
    empty. *)
Definition orElse (a b : option string) : option string :=
  match JS.strOrNull a with
  | Some s => Some s
  | None => b
  end.

(** [a || d] with a string default. *)
Definition orDefault (a : option string) (d : string) : string :=
  match JS.strOrNull a with
  | Some s => s
  | None => d
  end.

End JSString.

(** ** The odds feed (services/oddsApi.js): vocabulary *)

Module OddsVocabulary.

(** [normalizeMarketType] of [getCachedOdds]. *)
Definition normalizeMarketType (type : option string) : string :=
  match JS.strOrNull type with
  | None => EmptyString
  | Some ty =>
      let t := JSString.toLowerCase ty in
      if String.eqb t "spread" then "spreads"
      else if String.eqb t "total" then "totals"
      else t
  end.

(** The own keys of [propTypeMap] in [normalizePropType]. *)
Definition propTypeMap : JS.obj string :=
  [("playerpoints", "player_points");
   ("playerrebounds", "player_rebounds");
   ("playerassists", "player_assists");
   ("playerthrees", "player_threes");
   ("playerpra", "player_pra");
   ("player_points_rebounds_assists", "player_pra")]%string.

(** [o[key]] on an object of strings. *)
Fixpoint lookup (key : string) (o : JS.obj string) : option string :=
  match o with
  | [] => None
  | (k, v) :: r => if String.eqb k key then Some v else lookup key r
  end.

(** [normalizePropType] of [getCachedOdds]. *)
Definition normalizePropType (type : option string) : string :=
  match JS.strOrNull type with
  | None => EmptyString
  | Some ty =>
      let t := JSString.toLowerCase ty in
      JSString.orDefault (lookup t propTypeMap) t
  end.

(** [MARKET_TYPES] of config.js. *)
Definition H2H : string := "h2h".
Definition SPREAD : string := "spread".
Definition TOTAL : string := "total".
Definition PLAYER_POINTS : string := "player_points".
Definition PLAYER_REBOUNDS : string := "player_rebounds".
Definition PLAYER_ASSISTS : string := "player_assists".
Definition PLAYER_THREES : string := "player_threes".
Definition PLAYER_PRA : string := "player_pra".

(** [mapPropType]: the market key of the feed to the prop type. *)
Definition mapPropType (apiMarket : string) : option string :=
  JS.strOrNull
    (lookup apiMarket
       [("player_points"%string, PLAYER_POINTS);
        ("player_rebounds"%string, PLAYER_REBOUNDS);
        ("player_assists"%string, PLAYER_ASSISTS);
        ("player_threes"%string, PLAYER_THREES);
        ("player_points_rebounds_assists"%string, PLAYER_PRA)]).

End OddsVocabulary.

(** ** The ledger: what the store keeps *)

Module LedgerViews.

Import Ledger.

Definition rowKey (b : WeekBalance.t) : string * string :=
  (WeekBalance.weekid b, WeekBalance.userid b).

Definition betOf (weekId userId : string) (b : Bet.t) : bool :=
  String.eqb (Bet.weekId b) weekId && String.eqb (Bet.userId b) userId.

(** The sum of the stakes of the bets of a user in a week. *)
Definition staked (weekId userId : string) (l : list Bet.t) : Q :=
  fold_right (fun b acc => Bet.stake b + acc) 0
    (filter (betOf weekId userId) l).

(** Every identifier in use was drawn from the counter. *)
Definition idsBelow (s : Store) : Prop :=
  (forall d, In d (week_balances s) -> (WeekBalance.id d < nextId s)%nat)
  /\ (forall b, In b (bets s) -> (Bet.id b < nextId s)%nat)
  /\ (forall l, In l (bet_legs s) ->
        (BetLeg.id l < nextId s)%nat /\ (BetLeg.betId l < nextId s)%nat).

(** Rows have distinct identifiers and distinct (week, user) pairs; bets
    have distinct identifiers. *)
Definition wellKeyed (s : Store) : Prop :=
  NoDup (map WeekBalance.id (week_balances s))
  /\ NoDup (map rowKey (week_balances s))
  /\ NoDup (map Bet.id (bets s)).

(** What a user holds and what the user has staked add up to the starting
    balance. *)
Definition balanced (s : Store) : Prop :=
  forall wb,
    In wb (week_balances s) ->
    WeekBalance.balance wb
    + staked (WeekBalance.weekid wb) (WeekBalance.userid wb) (bets s)
    == STARTING_BALANCE.

Definition betsHaveRow (s : Store) : Prop :=
  forall b,
    In b (bets s) ->
    exists wb,
      In wb (week_balances s) /\ rowKey wb = (Bet.weekId b, Bet.userId b).

(** The counter of a row is the number of bets the user placed in the
    week. *)
Definition counted (s : Store) : Prop :=
  forall wb,
    In wb (week_balances s) ->
    WeekBalance.totalbets wb
    = Z.of_nat
        (List.length
           (filter (betOf (WeekBalance.weekid wb) (WeekBalance.userid wb))
              (bets s))).

Definition ledgerInv (s : Store) : Prop :=
  idsBelow s /\ wellKeyed s /\ balanced s /\ betsHaveRow s /\ counted s.

(** The stores that first accesses and placements produce from an empty
    database when they run one after another, each call ending before the
    next begins. *)
Inductive ledgerReach : Store -> Prop :=
| reach_empty : forall n c, ledgerReach (mkStore [] [] [] n c)
| reach_balance : forall s weekId leagueId userId displayName,
    ledgerReach s ->
    ledgerReach
      (snd (getOrCreateUserBalance weekId leagueId userId displayName s))
| reach_bet : forall s betSlip userId leagueId weekId displayName,
    ledgerReach s ->
    ledgerReach
      (snd (placeBet betSlip userId leagueId weekId displayName s)).

(** The bet document [placeBet] writes in store [s1]. *)
Definition betFor (betSlip : Slip) (userId leagueId weekId : string)
    (s1 : Store) : Bet.t :=
  Bet.mk (nextId s1) userId leagueId weekId
    (if (1 <? Z.of_nat (List.length (items betSlip)))%Z
     then "SGM" else "Single")
    (stake betSlip) (totalOdds betSlip) (potentialPayout betSlip)
    "pending" None (clock s1).

(** The store a successful placement leaves, [s1] being the store after the
    balance document [wb] was read. *)
Definition storeAfterBet (betSlip : Slip) (userId leagueId weekId : string)
    (wb : WeekBalance.t) (s1 : Store) : Store :=
  mkStore
    (map (patchBalance (WeekBalance.id wb)
            (WeekBalance.balance wb - stake betSlip)
            (WeekBalance.totalbets wb + 1)%Z)
       (week_balances s1))
    (bets s1 ++ [betFor betSlip userId leagueId weekId s1])
    (bet_legs s1
     ++ legsFrom (nextId s1) (items betSlip) (S (nextId s1)))
    (S (nextId s1) + List.length (items betSlip))
    (clock s1).

End LedgerViews.

(** ** Reading bets back (services/appwrite.js) *)

Module Bets.

Import Ledger.

Section WithDates.

(** [new Date(s).getTime()]: the instant a date string denotes, [None] for
    an invalid date. *)
Variable parseDate : string -> option Z.

(** [new Date(b) - new Date(a)] as a comparator result: an invalid date
    makes the difference NaN, which a sort reads as 0. *)
Definition dateDiff (b a : string) : Q :=
  match parseDate b, parseDate a with
  | Some tb, Some ta => inject_Z (tb - ta)
  | _, _ => 0
  end.

(** [{ ...bet, legs }]. *)
Record BetWithLegs : Type := mkBetWithLegs {
  bet : Bet.t;
  legs : list BetLeg.t
}.

(** [{ ...bet, legs, showDetails }]. *)
Record MemberBet : Type := mkMemberBet {
  shown : BetWithLegs;
  showDetails : bool
}.

Definition fetchBets : M (list Bet.t) := fun s => (Resolved (bets s), s).

Definition fetchBetLegs : M (list BetLeg.t) :=
  fun s => (Resolved (bet_legs s), s).

Definition getUserBets (weekId userId : string) : M (list BetWithLegs) :=
  allBets <- fetchBets ;;
  allLegs <- fetchBetLegs ;;
  let userBets :=
    JS.sort (fun a b => dateDiff (Bet.createdAt b) (Bet.createdAt a))
      (filter
         (fun b =>
            String.eqb (Bet.weekId b) weekId
            && String.eqb (Bet.userId b) userId)
         allBets) in
  ret (map
         (fun bet =>
            mkBetWithLegs bet
              (filter (fun leg => Nat.eqb (BetLeg.betId leg) (Bet.id bet))
                 allLegs))
         userBets).

(** [new Date(leg.gameTime) < new Date()], [today] being the instant of the
    call. *)
Definition started (today : Z) (leg : BetLeg.t) : bool :=
  match parseDate (BetLeg.gameTime leg) with
  | Some t => (t <? today)%Z
  | None => false
  end.

Definition getMemberBets (today : Z)
    (weekId memberId viewerId visibilityMode : string)
  : M (list MemberBet) :=
  bets <- getUserBets weekId memberId ;;
  ret (map
         (fun b =>
            let showDetails := true in
            let showDetails :=
              if negb (String.eqb memberId viewerId) then
                if String.eqb visibilityMode "Hidden" then
                  negb (String.eqb (Bet.status (bet b)) "pending")
                else if String.eqb visibilityMode "VisibleWhenLocked" then
                  let allGamesStarted := forallb (started today) (legs b) in
                  allGamesStarted
                  || negb (String.eqb (Bet.status (bet b)) "pending")
                else showDetails
              else showDetails in
            mkMemberBet b showDetails)
         bets).

End WithDates.

End Bets.

(** ** Sample stores *)

Module Samples2.

Import BetSlip Samples.

Definition emptyStore : Ledger.Store :=
  Ledger.mkStore [] [] [] 0 "2025-01-09T22:00:00.000Z".

(** After Ann's first bet and Bob's first access to week w1. *)
Definition storeAnnBob : Ledger.Store :=
  snd (Ledger.getOrCreateUserBalance "w1" "l1" "bob" "Bob"
         (snd (Ledger.placeBet slip100 "ann" "l1" "w1" "Ann" emptyStore))).

(** A head-to-head pick on a second game. *)
Definition sunsH2H : SelectionItem :=
  mkSelection "b71e00" "Suns @ Heat" tipoff "h2h" "Suns" (21 # 10) None None.

Definition slipTwoGames : Ledger.Slip :=
  Ledger.mkSlip [lakersH2H; sunsH2H] 50
    (totalOdds [lakersH2H; sunsH2H])
    (50 * totalOdds [lakersH2H; sunsH2H]).

End Samples2.

(** ** Leagues, members and weeks (services/appwrite.js) *)

Module League.
(** A document of the leagues collection. *)
Record t : Type := mk {
  id : nat;
  name : string;
  inviteCode : string;
  createdBy : string;
  maxMembers : Z;
  createdAt : string;
  leagueType : string;
  seasonYear : Z;
  betVisibilityMode : string;
  isPaused : bool
}.
End League.

Module LeagueMember.
(** A document of the league_members collection.  [leagueId] is the [$id]
    of the league as a string; [displayName] and [displayname] are the two
    spellings found in the collection; [seasonPoints] is what [parseFloat]
    reads from the field, [None] when that is NaN. *)
Record t : Type := mk {
  id : nat;
  leagueId : string;
  userId : string;
  displayName : option string;
  displayname : option string;
  seasonPoints : option Q;
  isAdmin : bool;
  joinedAt : string
}.
End LeagueMember.

Module WeekDoc.
(** A document of the weeks collection; the two dates are kept as the
    instants their ISO strings denote. *)
Record t : Type := mk {
  id : nat;
  leagueId : string;
  weekNumber : Z;
  seasonYear : Z;
  startDate : Z;
  endDate : Z;
  status : string;
  winnerId : option string
}.
End WeekDoc.

Module Leagues.

(** The database seen by the league functions: the ledger collections,
    whose counter and clock are those of the whole database, and the three
    collections on leagues. *)
Record Store : Type := mkStore {
  db : Ledger.Store;
  leagues : list League.t;
  league_members : list LeagueMember.t;
  weeks : list WeekDoc.t
}.

Definition M (A : Type) : Type := Store -> Ledger.outcome A * Store.

Definition ret {A : Type} (a : A) : M A := fun s => (Ledger.Resolved a, s).

Definition throw {A : Type} (msg : string) : M A :=
  fun s => (Ledger.Rejected msg, s).

Definition bind {A B : Type} (m : M A) (k : A -> M B) : M B :=
  fun s =>
    match m s with
    | (Ledger.Resolved a, s') => k a s'
    | (Ledger.Rejected msg, s') => (Ledger.Rejected msg, s')
    end.

Notation "x <- m ;; k" := (bind m (fun x => k))
  (at level 61, m at next level, right associativity).
Notation "m ;;; k" := (bind m (fun _ => k))
  (at level 61, right associativity).

(** *** Database calls *)

(** The ledger after [ID.unique()] was drawn once. *)
Definition drawn (d : Ledger.Store) : Ledger.Store :=
  Ledger.mkStore (Ledger.week_balances d) (Ledger.bets d)
    (Ledger.bet_legs d) (S (Ledger.nextId d)) (Ledger.clock d).

Definition fetchLeagues : M (list League.t) :=
  fun s => (Ledger.Resolved (leagues s), s).

Definition fetchLeagueMembers : M (list LeagueMember.t) :=
  fun s => (Ledger.Resolved (league_members s), s).

Definition fetchWeeks : M (list WeekDoc.t) :=
  fun s => (Ledger.Resolved (weeks s), s).

Definition fetchWeekBalances : M (list WeekBalance.t) :=
  fun s => (Ledger.Resolved (Ledger.week_balances (db s)), s).

Definition now : M string :=
  fun s => (Ledger.Resolved (Ledger.clock (db s)), s).

Definition createLeagueDoc (data : nat -> League.t) : M League.t :=
  fun s =>
    let d := data (Ledger.nextId (db s)) in
    (Ledger.Resolved d,
     mkStore (drawn (db s)) (leagues s ++ [d]) (league_members s) (weeks s)).

Definition createLeagueMember (data : nat -> LeagueMember.t) : M unit :=
  fun s =>
    let d := data (Ledger.nextId (db s)) in
    (Ledger.Resolved tt,
     mkStore (drawn (db s)) (leagues s) (league_members s ++ [d]) (weeks s)).

Definition createWeekDoc (data : nat -> WeekDoc.t) : M WeekDoc.t :=
  fun s =>
    let d := data (Ledger.nextId (db s)) in
    (Ledger.Resolved d,
     mkStore (drawn (db s)) (leagues s) (league_members s) (weeks s ++ [d])).

(** *** Invite codes *)

Definition INVITE_CODE_LENGTH : nat := 6.

Definition chars : string := "ABCDEFGHIJKLMNOPQRSTUVWXYZ0123456789".

(** [s.charAt(n)]: the empty string past the end. *)
Definition charAt (s : string) (n : nat) : string :=
  match String.get n s with
  | Some c => String c EmptyString
  | None => EmptyString
  end.

(** The loop of [generateInviteCode] from counter [i] with [n] rounds to
    go; [draw i] is the value of
    [Math.floor(Math.random() * chars.length)] in round [i]. *)
Fixpoint codeFrom (draw : nat -> nat) (i n : nat) (code : string) : string :=
  match n with
  | O => code
  | S n' => codeFrom draw (S i) n' (code ++ charAt chars (draw i))
  end.

Definition generateInviteCode (draw : nat -> nat) : string :=
  codeFrom draw 0 INVITE_CODE_LENGTH EmptyString.

Section WithIds.

(** The string form of the identifier [ID.unique()] returns. *)
Variable docId : nat -> string.

Definition getLeagueByCode (inviteCode : string) : M (option League.t) :=
  allLeagues <- fetchLeagues ;;
  ret (find
         (fun l =>
            String.eqb (League.inviteCode l)
              (JSString.toUpperCase inviteCode))
         allLeagues).

(** [createWeekForLeague]; [wall] is the Sydney wall-clock reading of the
    instant of the call. *)
Definition createWeekForLeague (wall : Z) (leagueId : string)
  : M WeekDoc.t :=
  let (startDate, endDate) := Scheduler.getWeekBounds wall in
  let weekNumber := Scheduler.getWeekNumber wall in
  let seasonYear := Scheduler.getSeasonYear wall in
  createWeekDoc
    (fun id =>
       WeekDoc.mk id leagueId weekNumber seasonYear startDate endDate
         "Active" None).

Definition createLeague (draw : nat -> nat) (wall : Z)
    (name userId displayName : string) (leagueType : option string)
  : M League.t :=
  let leagueType :=
    match leagueType with Some t => t | None => "Season"%string end in
  let inviteCode := generateInviteCode draw in
  let seasonYear := Scheduler.getSeasonYear wall in
  createdAt <- now ;;
  league <- createLeagueDoc
              (fun id =>
                 League.mk id name inviteCode userId 10 createdAt leagueType
                   seasonYear "Visible" false) ;;
  joinedAt <- now ;;
  createLeagueMember
    (fun id =>
       LeagueMember.mk id (docId (League.id league)) userId
         (Some displayName) None (Some 0) true joinedAt) ;;;
  createWeekForLeague wall (docId (League.id league)) ;;;
  ret league.

Definition memberOf (leagueId userId : string) (m : LeagueMember.t) : bool :=
  String.eqb (LeagueMember.leagueId m) leagueId
  && String.eqb (LeagueMember.userId m) userId.

Definition joinLeague (inviteCode userId displayName : string)
  : M League.t :=
  league <- getLeagueByCode inviteCode ;;
  match league with
  | None => throw "League not found"
  | Some league =>
      allMembers <- fetchLeagueMembers ;;
      let alreadyMember :=
        existsb (memberOf (docId (League.id league)) userId) allMembers in
      if alreadyMember then throw "Already a member of this league"
      else
        joinedAt <- now ;;
        createLeagueMember
          (fun id =>
             LeagueMember.mk id (docId (League.id league)) userId
               (Some displayName) None (Some 0) false joinedAt) ;;;
        ret league
  end.

Definition currentWeekOf (wall : Z) (leagueId : string) (w : WeekDoc.t)
  : bool :=
  String.eqb (WeekDoc.leagueId w) leagueId
  && Z.eqb (WeekDoc.weekNumber w) (Scheduler.getWeekNumber wall)
  && Z.eqb (WeekDoc.seasonYear w) (Scheduler.getSeasonYear wall).

(** [{ ...week, balances }]. *)
Record WeekWithBalances : Type := mkWeekWithBalances {
  week : WeekDoc.t;
  balances : list WeekBalance.t
}.

Definition getCurrentWeek (wall : Z) (leagueId : string)
  : M WeekWithBalances :=
  allWeeks <- fetchWeeks ;;
  week <- match find (currentWeekOf wall leagueId) allWeeks with
          | Some w => ret w
          | None => createWeekForLeague wall leagueId
          end ;;
  allBalances <- fetchWeekBalances ;;
  let balances :=
    filter
      (fun b => String.eqb (WeekBalance.weekid b) (docId (WeekDoc.id week)))
      allBalances in
  ret (mkWeekWithBalances week balances).

End WithIds.

(** *** Season leaderboard *)

(** [parseFloat(m.seasonPoints) || 0]. *)
Definition points (m : LeagueMember.t) : Q :=
  match LeagueMember.seasonPoints m with
  | Some q => q
  | None => 0
  end.

(** [{ ...m, displayName, rank }]. *)
Record RankedMember : Type := mkRankedMember {
  member : LeagueMember.t;
  shownName : string;
  rank : Z
}.

Definition getSeasonLeaderboard (leagueId : string)
  : M (list RankedMember) :=
  allMembers <- fetchLeagueMembers ;;
  let members :=
    filter (fun m => String.eqb (LeagueMember.leagueId m) leagueId)
      allMembers in
  let members := JS.sort (fun a b => points b - points a) members in
  ret (JS.mapi
         (fun m i =>
            mkRankedMember m
              (JSString.orDefault
                 (JSString.orElse (LeagueMember.displayName m)
                    (LeagueMember.displayname m))
                 "Unknown")
              (i + 1)%Z)
         members).

(** *** Views used to state properties *)

Definition membersOf (leagueId : string) (s : Store)
  : list LeagueMember.t :=
  filter (fun m => String.eqb (LeagueMember.leagueId m) leagueId)
    (league_members s).

Definition memberKey (m : LeagueMember.t) : string * string :=
  (LeagueMember.leagueId m, LeagueMember.userId m).

End Leagues.

(** ** Leagues: what the store keeps *)

Module LeagueViews.

Import Leagues.

Section WithIds.

Variable docId : nat -> string.

(** The member document [joinLeague] and [createLeague] write. *)
Definition memberFor (lg : League.t) (userId displayName : string)
    (admin : bool) (s : Store) : LeagueMember.t :=
  LeagueMember.mk (Ledger.nextId (db s)) (docId (League.id lg)) userId
    (Some displayName) None (Some 0) admin (Ledger.clock (db s)).

(** The store after a successful [joinLeague]. *)
Definition storeAfterJoin (lg : League.t) (userId displayName : string)
    (s : Store) : Store :=
  mkStore (drawn (db s)) (leagues s)
    (league_members s ++ [memberFor lg userId displayName false s])
    (weeks s).

(** The league document [createLeague] writes. *)
Definition leagueFor (draw : nat -> nat) (wall : Z)
    (name userId : string) (leagueType : option string) (s : Store)
  : League.t :=
  League.mk (Ledger.nextId (db s)) name (generateInviteCode draw) userId 10
    (Ledger.clock (db s))
    match leagueType with Some t => t | None => "Season"%string end
    (Scheduler.getSeasonYear wall) "Visible" false.

(** The week document [createWeekForLeague] writes under identifier
    [id]. *)
Definition weekFor (wall : Z) (leagueId : string) (id : nat) : WeekDoc.t :=
  WeekDoc.mk id leagueId (Scheduler.getWeekNumber wall)
    (Scheduler.getSeasonYear wall)
    (fst (Scheduler.getWeekBounds wall)) (snd (Scheduler.getWeekBounds wall))
    "Active" None.

Definition weekKey (w : WeekDoc.t) : string * Z * Z :=
  (WeekDoc.leagueId w, WeekDoc.weekNumber w, WeekDoc.seasonYear w).

(** The stores the league functions produce from a database without
    leagues when they run one after another, each call ending before the
    next begins, the ledger moving on in between. *)
Inductive leaguesReach : Store -> Prop :=
| reach_none : forall d, leaguesReach (mkStore d [] [] [])
| reach_ledger : forall s d,
    leaguesReach s ->
    (Ledger.nextId (db s) <= Ledger.nextId d)%nat ->
    leaguesReach (mkStore d (leagues s) (league_members s) (weeks s))
| reach_create : forall s draw wall name userId displayName leagueType,
    leaguesReach s ->
    leaguesReach
      (snd (createLeague docId draw wall name userId displayName
              leagueType s))
| reach_join : forall s inviteCode userId displayName,
    leaguesReach s ->
    leaguesReach (snd (joinLeague docId inviteCode userId displayName s))
| reach_week : forall s wall lg,
    leaguesReach s ->
    In lg (leagues s) ->
    leaguesReach (snd (getCurrentWeek docId wall (docId (League.id lg)) s)).

Definition leagueInv (s : Store) : Prop :=
  (forall l, In l (leagues s) -> (League.id l < Ledger.nextId (db s))%nat)
  /\ NoDup (map League.id (leagues s))
  /\ (forall m,
        In m (league_members s) ->
        exists l,
          In l (leagues s)
          /\ LeagueMember.leagueId m = docId (League.id l)
          /\ (LeagueMember.isAdmin m = true ->
              LeagueMember.userId m = League.createdBy l))
  /\ NoDup (map memberKey (league_members s))
  /\ (forall l,
        In l (leagues s) ->
        exists m,
          In m (league_members s)
          /\ memberKey m = (docId (League.id l), League.createdBy l)
          /\ LeagueMember.isAdmin m = true)
  /\ (forall w,
        In w (weeks s) ->
        exists l,
          In l (leagues s) /\ WeekDoc.leagueId w = docId (League.id l))
  /\ NoDup (map weekKey (weeks s))
  /\ (forall l,
        In l (leagues s) ->
        exists w,
          In w (weeks s) /\ WeekDoc.leagueId w = docId (League.id l)).

End WithIds.

(** A rendering of identifiers that tells them apart. *)
Fixpoint tally (n : nat) : string :=
  match n with
  | O => "0"
  | S k => String "i" (tally k)
  end.

Definition noLeagues : Store := mkStore Samples2.emptyStore [] [] [].

(** The string form of the identifier of the first league made in
    [noLeagues]. *)
Definition firstLeagueId : string := tally 0.

(** Sunday 2024-10-27 01:02:03.123 on the Sydney wall clock. *)
Definition sunday : Z := 1729990923123.

(** The store after Ann created a league with code "AB12YZ" and Bob
    joined it. *)
Definition drawAB12YZ (i : nat) : nat :=
  nth i [0; 1; 27; 28; 24; 25]%nat 0%nat.

Definition storeLeague : Store :=
  snd (joinLeague tally "ab12yz" "bob" "Bob"
         (snd (createLeague tally drawAB12YZ sunday "Hoops" "ann" "Ann" None
                 noLeagues))).

End LeagueViews.

(** ** Sample leagues *)

Module Samples3.

Import Leagues LeagueViews.

(** A league that is full by its own [maxMembers] and paused. *)
Definition tiny : League.t :=
  League.mk 7 "Tiny" "TINY01" "ann" 1 "2024-10-01T00:00:00.000Z" "Season"
    2025 "Visible" true.

Definition annInTiny : LeagueMember.t :=
  LeagueMember.mk 8 (tally 7) "ann" (Some "Ann"%string) None (Some 0) true
    "2024-10-01T00:00:00.000Z".

Definition storeTiny : Store :=
  mkStore
    (Ledger.mkStore [] [] [] 9 "2024-10-27T01:02:03.123Z")
    [tiny] [annInTiny] [].

(** Wednesday 2025-10-22 09:00 and Tuesday 2025-10-28 09:00 on the Sydney
    wall clock. *)
Definition wednesday : Z := 1761123600000.
Definition nextTuesday : Z := 1761642000000.

End Samples3.

(** ** The weekly period: views *)

Module SchedulerViews.

Local Open Scope Z_scope.

(** The Tuesday on or before day [d], days being counted from the epoch. *)
Definition tuesdayOf (d : Z) : Z := d - (d + 2) mod 7.

End SchedulerViews.

(** ** The season: views *)

Module SeasonViews.

Local Open Scope Z_scope.

(** The extra day of a leap year. *)
Definition leapDay (y : Z) : Z := if JSDate.InLeapYear y then 1 else 0.

(** The day, counted from the epoch, of 22 October of year [y]. *)
Definition seasonStartDay (y : Z) : Z :=
  JSDate.DayFromYear y + 294 + leapDay y.

Definition msPerWeek : Z := 7 * 24 * 60 * 60 * 1000.

(** Wednesday 2025-10-01 12:00 and Wednesday 2026-09-30 12:00 on the
    Sydney wall clock. *)
Definition firstOfOctober : Z := 1759320000000.
Definition lastOfSeptember : Z := 1790769600000.

End SeasonViews.

(** ** The odds feed (services/oddsApi.js): requests with key rotation *)

Module OddsFetch.

(** [s.split(sep)] for a one-character separator, [cur] being the piece
    read so far. *)
Fixpoint splitOn (sep : ascii) (s : string) (cur : string) : list string :=
  match s with
  | EmptyString => [cur]
  | String c r =>
      if Ascii.eqb c sep then cur :: splitOn sep r EmptyString
      else splitOn sep r (cur ++ String c EmptyString)
  end.

Definition split (sep : ascii) (s : string) : list string :=
  splitOn sep s EmptyString.

(** [ODDS_API_KEYS] of config.js, [env] being the value of
    VITE_ODDS_API_KEYS. *)
Definition ODDS_API_KEYS (env : option string) : list string :=
  filter (fun k => negb (String.eqb k EmptyString))
    (split "," (JSString.orDefault env EmptyString)).

Section WithKeys.

(** The parsed body of a response. *)
Variable J : Type.

Variable keys : list string.

(** What [fetch] and [response.json()] give: a response with its status
    and its body, or the error either of them throws. *)
Inductive reply : Type :=
| Response : Z -> J + string -> reply
| NetworkError : string -> reply.

(** The errors [fetchWithKeyRotation] rejects with: the one it makes for a
    status that is not ok, one thrown by [fetch] or [json], and the one for
    a rotation without any error. *)
Inductive failure : Type :=
| ApiError : Z -> failure
| Thrown : string -> failure
| AllKeysExhausted : failure.

(** [response.ok]. *)
Definition ok (status : Z) : bool :=
  (200 <=? status)%Z && (status <=? 299)%Z.

(** [getNextApiKey] at cursor [currentKeyIndex]: the key and the new
    cursor. *)
Definition getNextApiKey (currentKeyIndex : nat) : option string * nat :=
  (nth_error keys currentKeyIndex,
   (currentKeyIndex + 1) mod List.length keys)%nat.

(** The loop of [fetchWithKeyRotation] from round [i] with [rounds] rounds
    to go; [fetch i u] is the outcome of the request of round [i] to
    address [u]. *)
Fixpoint rotation (fetch : nat -> string -> reply) (url : string)
    (i rounds : nat) (currentKeyIndex : nat) (lastError : option failure)
  : (J + failure) * nat :=
  match rounds with
  | O =>
      (inr match lastError with
           | Some e => e
           | None => AllKeysExhausted
           end,
       currentKeyIndex)
  | S rounds' =>
      let (apiKey, cursor) := getNextApiKey currentKeyIndex in
      let fullUrl := (url ++ "&apiKey=" ++ JS.template apiKey)%string in
      match fetch i fullUrl with
      | NetworkError e =>
          rotation fetch url (S i) rounds' cursor (Some (Thrown e))
      | Response status body =>
          if (status =? 401)%Z || (status =? 429)%Z then
            rotation fetch url (S i) rounds' cursor lastError
          else if negb (ok status) then
            rotation fetch url (S i) rounds' cursor (Some (ApiError status))
          else
            match body with
            | inl data => (inl data, cursor)
            | inr e =>
                rotation fetch url (S i) rounds' cursor (Some (Thrown e))
            end
      end
  end.

Definition fetchWithKeyRotation (fetch : nat -> string -> reply)
    (url : string) (currentKeyIndex : nat) : (J + failure) * nat :=
  rotation fetch url 0 (List.length keys) currentKeyIndex None.

(** *** Views used to state properties *)

(** The address of the request of round [i] of a call that starts at
    cursor [start]. *)
Definition request (url : string) (start i : nat) : string :=
  (url ++ "&apiKey="
       ++ JS.template (nth_error keys ((start + i) mod List.length keys)))
  %string.

(** The reply is a usable answer. *)
Definition usable (r : reply) : option J :=
  match r with
  | Response status (inl data) =>
      if ok status then Some data else None
  | _ => None
  end.

(** The reply only says that the key is refused or spent. *)
Definition keyRefused (r : reply) : bool :=
  match r with
  | Response status _ => (status =? 401)%Z || (status =? 429)%Z
  | NetworkError _ => false
  end.

End WithKeys.

Arguments Response {J} _ _.
Arguments NetworkError {J} _.
Arguments usable {J} _.
Arguments keyRefused {J} _.

(** *** Sample replies *)

Definition threeKeys : list string := ["k1"; "k2"; "k3"]%string.

(** Key k2 is spent, the server fails for k3, k1 is served. *)
Definition sampleFetch (i : nat) (u : string) : reply nat :=
  if String.eqb u "odds?x=1&apiKey=k2" then
    Response 429 (inr "no body"%string)
  else if String.eqb u "odds?x=1&apiKey=k3" then
    Response 500 (inr "no body"%string)
  else Response 200 (inl 7%nat).

End OddsFetch.

(** ** Key rotation: views *)

Module OddsFetchViews.

Import OddsFetch.

(** The error a reply that is not usable leaves in [lastError], when it
    leaves one. *)
Definition failureOf {J : Type} (r : reply J) : failure :=
  match r with
  | NetworkError e => Thrown e
  | Response status body =>
      if ok status then
        match body with
        | inr e => Thrown e
        | inl _ => AllKeysExhausted
        end
      else ApiError status
  end.

Definition commaFree (k : string) : bool :=
  forallb (fun c => negb (Ascii.eqb c ",")) (list_ascii_of_string k).

End OddsFetchViews.

(** ** The week page and the slip panel (pages/Week.jsx,
       components/BetSlipPanel.jsx) *)

Module Page.

Import BetSlip.

(** [Math.min] on two numbers. *)
Definition min (a b : Q) : Q := if Qle_bool a b then a else b.

(** [balance?.balance || 0], the balance handed to the panel and read by
    the guard; [balance] is the page's copy of the user's row. *)
Definition balanceProp (balance : option WeekBalance.t) : Q :=
  match balance with
  | Some b => WeekBalance.balance b
  | None => 0
  end.

(** [handleStakeChange]; [parsed] is what [parseInt] reads from the input,
    [None] for NaN. *)
Definition handleStakeChange (parsed : option Z) (balance : Q) (st : State)
  : State :=
  let value := match parsed with Some v => inject_Z v | None => 0 end in
  setStake (min value balance) st.

(** A quick-stake button; it is disabled when the amount exceeds the
    balance, and a click then does nothing. *)
Definition quickStake (amount balance : Q) (st : State) : State :=
  if JS.lt balance amount then st else setStake (min amount balance) st.

(** The MAX button. *)
Definition maxStake (balance : Q) (st : State) : State :=
  setStake balance st.

(** The panel is rendered. *)
Definition rendered (st : State) : bool := negb (isEmpty (items st)).

(** The [disabled] attribute of the place-bet button. *)
Definition placeDisabled (isPlacing : bool) (balance : Q) (st : State)
  : bool :=
  isPlacing || hasConflict (items st) || Qle_bool (stake st) 0
  || JS.lt balance (stake st).

(** [userProfile?.displayName || user.name || "Player"]. *)
Definition displayNameOf (profileName userName : option string) : string :=
  JSString.orDefault (JSString.orElse profileName userName) "Player".

(** The object handed to [placeBet]. *)
Definition slipObject (st : State) : Ledger.Slip :=
  Ledger.mkSlip (items st) (stake st) (totalOdds (items st))
    (potentialPayout st).

(** [handlePlaceBet] up to its call of [placeBet]: [None] when the handler
    returns early, the call otherwise. *)
Definition handlePlaceBet (st : State) (placingBet : bool)
    (balance : option WeekBalance.t)
    (userId leagueId weekId : string)
    (profileName userName : option string)
  : option (Ledger.M Bet.t) :=
  if isEmpty (items st) || hasConflict (items st) || placingBet then None
  else if Qle_bool (stake st) 0 || JS.lt (balanceProp balance) (stake st)
  then None
  else
    let displayName := displayNameOf profileName userName in
    Some (Ledger.placeBet (slipObject st) userId leagueId weekId
            displayName).

(** The stake controls of the panel. *)
Inductive control : Type :=
| Typed : option Z -> control
| Quick : Q -> control
| Max : control.

Definition press (c : control) (balance : Q) (st : State) : State :=
  match c with
  | Typed parsed => handleStakeChange parsed balance st
  | Quick amount => quickStake amount balance st
  | Max => maxStake balance st
  end.

(** The stores the page produces from an empty database: rows are made on
    first access and bets are placed through [handlePlaceBet]. *)
Inductive pageReach : Ledger.Store -> Prop :=
| page_empty : forall n c, pageReach (Ledger.mkStore [] [] [] n c)
| page_balance : forall s weekId leagueId userId displayName,
    pageReach s ->
    pageReach
      (snd (Ledger.getOrCreateUserBalance weekId leagueId userId displayName
              s))
| page_bet : forall s st placing balance userId leagueId weekId pn un call,
    pageReach s ->
    handlePlaceBet st placing balance userId leagueId weekId pn un
    = Some call ->
    pageReach (snd (call s)).

End Page.

(** ** The odds feed (services/oddsApi.js): player props *)

Module Outcome.
(** An outcome of a market of the feed. *)
Record t : Type := mk {
  name : string;
  description : string;
  price : option Q;
  point : option Q
}.
End Outcome.

Module Market.
Record t : Type := mk {
  key : string;
  outcomes : list Outcome.t
}.
End Market.

Module Bookmaker.
Record t : Type := mk {
  key : string;
  markets : list Market.t
}.
End Bookmaker.

Module PlayerProps.

Record PlayerProp : Type := mkPlayerProp {
  playerId : string;
  playerName : string;
  propType : string;
  line : option Q;
  overOdds : option Q;
  underOdds : option Q
}.

(** [\s] on the characters of the model: space, tab, line feed, vertical
    tab, form feed, carriage return. *)
Definition isSpace (c : ascii) : bool :=
  let n := nat_of_ascii c in
  Nat.eqb n 32 || ((9 <=? n)%nat && (n <=? 13)%nat).

(** [s.replace(/\s+/g, "_")]; [inRun] tells that the character before was
    white space. *)
Fixpoint replaceSpaces (s : string) (inRun : bool) : string :=
  match s with
  | EmptyString => EmptyString
  | String c r =>
      if isSpace c then
        if inRun then replaceSpaces r true
        else String "_" (replaceSpaces r true)
      else String c (replaceSpaces r false)
  end.

Definition preferredBooks : list string :=
  ["tab"; "sportsbet"; "pointsbet"]%string.

Definition preferred (b : Bookmaker.t) : bool :=
  existsb (fun p => JS.includes p (JSString.toLowerCase (Bookmaker.key b)))
    preferredBooks.

(** A boolean read as a number. *)
Definition num (b : bool) : Q := if b then 1 else 0.

(** The comparator of the sort: [bPreferred - aPreferred]. *)
Definition byPreference (a b : Bookmaker.t) : Q :=
  num (preferred b) - num (preferred a).

(** *** The Map [seenPlayers], in insertion order *)

Definition PropMap : Type := list (string * PlayerProp).

Fixpoint has (key : string) (m : PropMap) : bool :=
  match m with
  | [] => false
  | (k, _) :: r => String.eqb k key || has key r
  end.

(** [m.set(key, v)] for a key the Map does not hold yet. *)
Definition set (key : string) (v : PlayerProp) (m : PropMap) : PropMap :=
  m ++ [(key, v)].

(** A write to a property of [m.get(key)]. *)
Fixpoint update (key : string) (f : PlayerProp -> PlayerProp) (m : PropMap)
  : PropMap :=
  match m with
  | [] => []
  | (k, v) :: r =>
      if String.eqb k key then (k, f v) :: r else (k, v) :: update key f r
  end.

(** A value that passes [&&]: a number other than 0. *)
Definition truthy (v : option Q) : bool :=
  match JS.numOrNull v with
  | Some _ => true
  | None => false
  end.

Definition keyOf (description propType : string) : string :=
  (description ++ "-" ++ propType)%string.

(** The prop made for the first outcome seen under a key. *)
Definition create (propType : string) (outcome : Outcome.t) : PlayerProp :=
  mkPlayerProp
    (JSString.toLowerCase
       (replaceSpaces (Outcome.description outcome) false))
    (Outcome.description outcome)
    propType
    (Outcome.point outcome)
    (if String.eqb (Outcome.name outcome) "Over"
     then Outcome.price outcome else None)
    (if String.eqb (Outcome.name outcome) "Under"
     then Outcome.price outcome else None).

(** The write made for a later outcome under the same key. *)
Definition overwrite (outcome : Outcome.t) (existing : PlayerProp)
  : PlayerProp :=
  if String.eqb (Outcome.name outcome) "Over" then
    mkPlayerProp (playerId existing) (playerName existing)
      (propType existing) (line existing) (Outcome.price outcome)
      (underOdds existing)
  else
    mkPlayerProp (playerId existing) (playerName existing)
      (propType existing) (line existing) (overOdds existing)
      (Outcome.price outcome).

(** The body of the innermost loop. *)
Definition visit (propType : string) (seenPlayers : PropMap)
    (outcome : Outcome.t) : PropMap :=
  let key := keyOf (Outcome.description outcome) propType in
  if negb (has key seenPlayers) then
    set key (create propType outcome) seenPlayers
  else update key (overwrite outcome) seenPlayers.

Definition visitMarket (seenPlayers : PropMap) (market : Market.t)
  : PropMap :=
  match OddsVocabulary.mapPropType (Market.key market) with
  | None => seenPlayers
  | Some propType =>
      fold_left (visit propType) (Market.outcomes market) seenPlayers
  end.

Definition visitBookmaker (seenPlayers : PropMap) (bookmaker : Bookmaker.t)
  : PropMap :=
  fold_left visitMarket (Bookmaker.markets bookmaker) seenPlayers.

Definition parsePlayerProps (bookmakers : list Bookmaker.t)
  : list PlayerProp :=
  let sortedBookmakers := JS.sort byPreference bookmakers in
  let seenPlayers := fold_left visitBookmaker sortedBookmakers [] in
  filter (fun p => truthy (overOdds p) && truthy (underOdds p))
    (map snd seenPlayers).

(** *** Views used to state properties *)

(** The outcomes in the order the loops visit them, each with the prop
    type of its market. *)
Definition marketEntries (market : Market.t) : list (string * Outcome.t) :=
  match OddsVocabulary.mapPropType (Market.key market) with
  | None => []
  | Some propType => map (pair propType) (Market.outcomes market)
  end.

Definition visited (bookmakers : list Bookmaker.t)
  : list (string * Outcome.t) :=
  flat_map (fun b => flat_map marketEntries (Bookmaker.markets b))
    (JS.sort byPreference bookmakers).

(** The entry is about the player and the prop type of [p]. *)
Definition about (p : PlayerProp) (e : string * Outcome.t) : bool :=
  String.eqb (Outcome.description (snd e)) (playerName p)
  && String.eqb (fst e) (propType p).

Definition isOver (e : string * Outcome.t) : bool :=
  String.eqb (Outcome.name (snd e)) "Over".

Definition propTypes : list string :=
  [OddsVocabulary.PLAYER_POINTS; OddsVocabulary.PLAYER_REBOUNDS;
   OddsVocabulary.PLAYER_ASSISTS; OddsVocabulary.PLAYER_THREES;
   OddsVocabulary.PLAYER_PRA].

(** *** Sample feed: the preferred bookmaker quotes a line of 25.5, another
    one a line of 27.5 *)

Definition tab : Bookmaker.t :=
  Bookmaker.mk "tab"
    [Market.mk "player_points"
       [Outcome.mk "Over" "LeBron James" (Some (19 # 10)) (Some (51 # 2));
        Outcome.mk "Under" "LeBron James" (Some (19 # 10)) (Some (51 # 2))]].

Definition other : Bookmaker.t :=
  Bookmaker.mk "betright"
    [Market.mk "player_points"
       [Outcome.mk "Over" "LeBron James" (Some (21 # 10)) (Some (55 # 2));
        Outcome.mk "Under" "LeBron James" (Some (17 # 10)) (Some (55 # 2))]].

End PlayerProps.

(** ** Player props: views on the Map *)

Module PlayerPropViews.

Import PlayerProps.

Definition entry : Type := (string * Outcome.t)%type.

(** The loop body on an entry. *)
Definition step (m : PropMap) (e : entry) : PropMap :=
  visit (fst e) m (snd e).

Definition entryKey (e : entry) : string :=
  keyOf (Outcome.description (snd e)) (fst e).

Fixpoint get (key : string) (m : PropMap) : option PlayerProp :=
  match m with
  | [] => None
  | (k, v) :: r => if String.eqb k key then Some v else get key r
  end.

(** The prop the loops end with for the entries of one key. *)
Definition summarise (es : list entry) : option PlayerProp :=
  match es with
  | [] => None
  | e :: r =>
      Some (fold_left (fun p e' => overwrite (snd e') p) r
              (create (fst e) (snd e)))
  end.

Definition hyphenFree (s : string) : bool :=
  forallb (fun c => negb (Ascii.eqb c "-")) (list_ascii_of_string s).

End PlayerPropViews.

(** ** The week page: the games shown (pages/Week.jsx) *)

Module Game.
(** A game of the odds feed, as far as the page reads it here. *)
Record t : Type := mk {
  id : string;
  homeTeam : string;
  awayTeam : string;
  commenceTime : option string
}.
End Game.

Module WeekPage.

Section WithDates.

(** [new Date(s)] as a local time value, [None] for an invalid date. *)
Variable parseLocal : string -> option Z.

(** [league?.leagueType === "Season" || !league?.leagueType]. *)
Definition isSeasonLeague (leagueType : option string) : bool :=
  match JS.strOrNull leagueType with
  | Some t => String.eqb t "Season"
  | None => true
  end.

(** [game => ...] of the filter; a comparison with an invalid date is
    false. *)
Definition onGameDay (gameDayStart gameDayEnd : option Z) (game : Game.t)
  : bool :=
  match JS.strOrNull (Game.commenceTime game) with
  | None => false
  | Some ct =>
      match parseLocal ct, gameDayStart, gameDayEnd with
      | Some gameTime, Some a, Some b =>
          (a <=? gameTime)%Z && (gameTime <? b)%Z
      | _, _, _ => false
      end
  end.

(** [getDisplayGames]; [leagueType] is [league?.leagueType] and
    [startDate] is [week?.startDate]. *)
Definition getDisplayGames (games : list Game.t)
    (leagueType startDate : option string) : list Game.t :=
  match games with
  | [] => []
  | _ =>
      if isSeasonLeague leagueType then games
      else
        match JS.strOrNull startDate with
        | None => games
        | Some sd =>
            let gameDayStart :=
              option_map (fun t => JSDate.setHours t 0 0 0 0)
                (parseLocal sd) in
            let gameDayEnd :=
              option_map
                (fun t => JSDate.setDate t (JSDate.getDate t + 1))
                gameDayStart in
            filter (onGameDay gameDayStart gameDayEnd) games
        end
  end.

End WithDates.

(** *** Sample games *)

(** The instants of three date strings: the start of a week and two
    tip-offs, one on the day of the start and one the day after. *)
Definition sampleDates (s : string) : option Z :=
  if String.eqb s "2024-10-22T00:00" then Some 1729555200000%Z
  else if String.eqb s "2024-10-22T19:30" then Some 1729625400000%Z
  else if String.eqb s "2024-10-23T19:30" then Some 1729711800000%Z
  else None.

Definition tuesdayGame : Game.t :=
  Game.mk "g1" "Boston Celtics" "New York Knicks"
    (Some "2024-10-22T19:30"%string).

Definition wednesdayGame : Game.t :=
  Game.mk "g2" "Los Angeles Lakers" "Phoenix Suns"
    (Some "2024-10-23T19:30"%string).

End WeekPage.

(** ** Plain objects read through Object.prototype *)

Module Prototype.

(** The property names a plain object ([{}]) inherits from
    [Object.prototype]. *)
Definition inheritedNames : list string :=
  ["constructor"; "__defineGetter__"; "__defineSetter__"; "hasOwnProperty";
   "__lookupGetter__"; "__lookupSetter__"; "isPrototypeOf";
   "propertyIsEnumerable"; "toString"; "valueOf"; "__proto__";
   "toLocaleString"]%string.

Definition inherited (key : string) : bool :=
  existsb (String.eqb key) inheritedNames.

(** What [o[key]] reads on an object whose own values are arrays: the
    array under an own key; for a name that is not an own key, the member
    of [Object.prototype] of that name (a function or an object: truthy,
    and without a [push] method), or [undefined]. *)
Inductive reading (V : Type) : Type :=
| Own : list V -> reading V
| Inherited : reading V
| Undefined : reading V.

Arguments Own {V} _.
Arguments Inherited {V}.
Arguments Undefined {V}.

Definition get {V : Type} (key : string) (o : JS.obj (list V)) : reading V :=
  match find (fun e => String.eqb (fst e) key) o with
  | Some e => Own (snd e)
  | None => if inherited key then Inherited else Undefined
  end.

(** [if (!o[key]) o[key] = []; o[key].push(v)].  An inherited member is
    truthy, so nothing is assigned, and calling its [push] raises a
    TypeError: [None]. *)
Definition push {V : Type} (key : string) (v : V) (o : JS.obj (list V))
  : option (JS.obj (list V)) :=
  match get key o with
  | Inherited => None
  | Own _ => Some (JS.push key v o)
  | Undefined => Some (JS.push key v o)
  end.

(** The grouping loop [for (const x of xs) { ... o[key(x)].push(x) }],
    from the object [o]. *)
Fixpoint groupFrom {V : Type} (key : V -> string) (xs : list V)
    (o : JS.obj (list V)) : option (JS.obj (list V)) :=
  match xs with
  | [] => Some o
  | x :: r =>
      match push (key x) x o with
      | Some o' => groupFrom key r o'
      | None => None
      end
  end.

Definition groupBy {V : Type} (key : V -> string) (xs : list V)
  : option (JS.obj (list V)) :=
  groupFrom key xs [].

End Prototype.

(** ** Conflict detection, with its two grouping objects read through
       Object.prototype (src/context/BetSlipContext.jsx)

    A result of [None] is the TypeError that leaves [getConflicts]. *)

Module Conflicts.

Import BetSlip.

(** What one pass of the loop over [Object.entries(gameGroups)] pushes. *)
Definition gameConflicts (gameItems : list SelectionItem)
  : option (list Conflict) :=
  let h2hItems :=
    filter (fun i => String.eqb (marketType i) "h2h") gameItems in
  let c1 :=
    if (1 <? Z.of_nat (List.length h2hItems))%Z then [h2h_conflict] else [] in
  let totalItems :=
    filter (fun i => String.eqb (marketType i) "total") gameItems in
  let c2 :=
    if (1 <? Z.of_nat (List.length totalItems))%Z then
      let hasOver :=
        existsb (fun i => JS.includes "Over" (selection i)) totalItems in
      let hasUnder :=
        existsb (fun i => JS.includes "Under" (selection i)) totalItems in
      if hasOver && hasUnder then [total_conflict] else []
    else [] in
  let playerProps :=
    filter (fun i => JS.startsWith "player_" (marketType i)) gameItems in
  match Prototype.groupBy playerKey playerProps with
  | Some playerGroups =>
      Some (c1 ++ c2
            ++ flat_map playerGroupConflicts (JS.entries playerGroups))
  | None => None
  end.

(** The loop [for (const [gameId, gameItems] of Object.entries(gameGroups))],
    pushing to [conflicts]. *)
Fixpoint eachGame (es : list (string * list SelectionItem))
    (conflicts : list Conflict) : option (list Conflict) :=
  match es with
  | [] => Some conflicts
  | e :: r =>
      match gameConflicts (snd e) with
      | Some cs => eachGame r (conflicts ++ cs)
      | None => None
      end
  end.

Definition getConflicts (its : list SelectionItem) : option (list Conflict) :=
  match Prototype.groupBy gameId its with
  | Some gameGroups => eachGame (JS.entries gameGroups) []
  | None => None
  end.

(** [conflicts.length > 0], when [getConflicts] returns. *)
Definition hasConflict (its : list SelectionItem) : option bool :=
  match getConflicts its with
  | Some conflicts => Some (0 <? Z.of_nat (List.length conflicts))%Z
  | None => None
  end.

End Conflicts.

(** ** Views of the conflicts used to state their properties *)

Module ConflictViews.

Import BetSlip.

(** The display strings pages/Week.jsx gives the two sides of a player
    prop: [`${prop.playerName} Over ${prop.line}`] and
    [`${prop.playerName} Under ${prop.line}`]. *)
Definition overPick (i : SelectionItem) : bool :=
  JS.startsWith (JS.template (playerName i) ++ " Over ") (selection i).

Definition underPick (i : SelectionItem) : bool :=
  JS.startsWith (JS.template (playerName i) ++ " Under ") (selection i).

(** The slip holds, on game [g], an Over pick and an Under pick of player
    [p] on the prop type [t]. *)
Definition overAndUnder (g p t : string) (its : list SelectionItem) : Prop :=
  exists x y,
    In x its /\ In y its
    /\ gameId x = g /\ gameId y = g
    /\ playerName x = Some p /\ playerName y = Some p
    /\ marketType x = t /\ marketType y = t
    /\ overPick x = true /\ underPick y = true.

(** [getConflicts] returns, and one of the conflicts it reports is the
    player-prop conflict of player [p]. *)
Definition reportsPlayerConflict (p : string) (its : list SelectionItem)
  : Prop :=
  exists cs,
    Conflicts.getConflicts its = Some cs
    /\ In (mkConflict "player_prop_conflict"
             ("Cannot select both Over and Under for " ++ p)) cs.

(** No game identifier of the slip names a member of
    [Object.prototype]. *)
Definition ownGames (its : list SelectionItem) : bool :=
  negb (existsb (fun i => Prototype.inherited (gameId i)) its).

(** A head-to-head pick on a game whose identifier is "constructor". *)
Definition constructorH2H : SelectionItem :=
  mkSelection "constructor" "Lakers @ Celtics" Samples.tipoff "h2h" "Lakers"
    (19 # 10) None None.

End ConflictViews.

(** ** The correlation condition in the words of the specification *)

Module CorrelationSpec.

Import BetSlip.

(** The part of [s] before its last occurrence of [sep]; the empty string
    when [sep] does not occur. *)
Fixpoint beforeLast (sep : ascii) (s : string) : string :=
  match s with
  | EmptyString => EmptyString
  | String c rest =>
      if JS.includes (String sep EmptyString) rest
      then String c (beforeLast sep rest)
      else EmptyString
  end.

(** The team a spread pick references.  pages/Week.jsx writes the display
    string of a spread pick as
    [`${outcome.name} ${outcome.line > 0 ? "+" : ""}${outcome.line}`]: the
    team name, a space and the line. *)
Definition spreadTeam (s : SelectionItem) : string :=
  beforeLast " " (selection s).

(** The spread pick [s] references the team of the head-to-head pick [h],
    whose display string is the team name ([outcome.name]). *)
Definition sameTeam (h s : SelectionItem) : bool :=
  String.eqb (selection h) (spreadTeam s).

(** A head-to-head pick and a spread pick on a team whose name has
    several words. *)
Definition losAngelesH2H : SelectionItem :=
  Samples.pick "h2h" "Los Angeles Lakers" (19 # 10) None None.

Definition losAngelesSpread : SelectionItem :=
  Samples.pick "spread" "Los Angeles Lakers +5.5" (19 # 10)
    (Some (11 # 2)) None.

End CorrelationSpec.

(** ** Calls that overlap (services/appwrite.js)

    Every [await] of a service function is a point where another call can
    run.  The definitions below are the part of a call that runs after such
    a point, with what the call read before it, and schedules of two calls
    built from these parts. *)

Module Overlap.

Import Ledger.

(** [getOrCreateUserBalance] from the point where its fetch has answered
    [allBalances]. *)
Definition getOrCreateUserBalanceFrom (allBalances : list WeekBalance.t)
    (weekId leagueId userId displayName : string) : M WeekBalance.t :=
  match find (balanceOf weekId userId) allBalances with
  | Some balance => ret balance
  | None =>
      createWeekBalance (firstBalance weekId leagueId userId displayName)
  end.

(** [placeBet] from the point where [getOrCreateUserBalance] has answered
    [balanceDoc]. *)
Definition placeBetFrom (balanceDoc : WeekBalance.t) (betSlip : Slip)
    (userId leagueId weekId : string) : M Bet.t :=
  if JS.lt (WeekBalance.balance balanceDoc) (stake betSlip) then
    throw "Insufficient balance"
  else
    createdAt <- now ;;
    bet <- createBet
             (fun id =>
                Bet.mk id userId leagueId weekId
                  (if (1 <? Z.of_nat (List.length (items betSlip)))%Z
                   then "SGM" else "Single")
                  (stake betSlip) (totalOdds betSlip)
                  (potentialPayout betSlip)
                  "pending" None createdAt) ;;
    forOf (items betSlip)
      (fun item => createBetLeg (legOf (Bet.id bet) item)) ;;;
    updateWeekBalance (WeekBalance.id balanceDoc)
      (WeekBalance.balance balanceDoc - stake betSlip)
      (WeekBalance.totalbets balanceDoc + 1)%Z ;;;
    ret bet.

(** Two first accesses of one user to one week: both fetches are answered
    from the store [s], then the first call goes on, then the second. *)
Definition twoFirstAccesses (weekId leagueId userId displayName : string)
    (s : Store) : Store :=
  let allBalances1 := week_balances s in
  let allBalances2 := week_balances s in
  let s1 :=
    snd (getOrCreateUserBalanceFrom allBalances1 weekId leagueId userId
           displayName s) in
  snd (getOrCreateUserBalanceFrom allBalances2 weekId leagueId userId
         displayName s1).

(** Two placements of one user in one week: the first call reads its
    balance document, the second call runs from start to end, then the
    first call goes on with the document it read. *)
Definition twoPlacements (betSlip1 betSlip2 : Slip)
    (userId leagueId weekId displayName : string) (s : Store) : Store :=
  match getOrCreateUserBalance weekId leagueId userId displayName s with
  | (Resolved balanceDoc, s1) =>
      let s2 :=
        snd (placeBet betSlip2 userId leagueId weekId displayName s1) in
      snd (placeBetFrom balanceDoc betSlip1 userId leagueId weekId s2)
  | (Rejected _, s1) => s1
  end.

End Overlap.

Module LeagueOverlap.

Import Leagues.

Section WithIds.

Variable docId : nat -> string.

(** [joinLeague] from the point where the league was found and the fetch
    of the members has answered [allMembers]. *)
Definition joinLeagueFrom (league : League.t)
    (allMembers : list LeagueMember.t) (userId displayName : string)
  : M League.t :=
  let alreadyMember :=
    existsb (memberOf (docId (League.id league)) userId) allMembers in
  if alreadyMember then throw "Already a member of this league"
  else
    joinedAt <- now ;;
    createLeagueMember
      (fun id =>
         LeagueMember.mk id (docId (League.id league)) userId
           (Some displayName) None (Some 0) false joinedAt) ;;;
    ret league.

(** Two calls of [joinLeague] by one user with one code: both find the
    league and fetch the members in the store [s], then the first call
    goes on, then the second. *)
Definition twoJoins (inviteCode userId displayName : string) (s : Store)
  : Store :=
  match getLeagueByCode inviteCode s with
  | (Ledger.Resolved (Some league), _) =>
      let allMembers1 := league_members s in
      let allMembers2 := league_members s in
      let s1 :=
        snd (joinLeagueFrom league allMembers1 userId displayName s) in
      snd (joinLeagueFrom league allMembers2 userId displayName s1)
  | _ => s
  end.

End WithIds.

End LeagueOverlap.

(** * Properties *)

(** ** Arrays and strings *)

Section ArrayFacts.

Context {A : Type}.

Lemma findIndexFrom_absent (p : A -> bool) (l : list A) (i : Z) :
  existsb p l = false -> JS.findIndexFrom p l i = (-1)%Z.
Proof.
  revert i; induction l as [|x r IH]; intros i H; simpl in *.
  - reflexivity.
  - apply orb_false_iff in H as [Hx Hr]. rewrite Hx. now apply IH.
Qed.

Lemma findIndexFrom_first (p : A -> bool) (l1 l2 : list A) (x : A) (i : Z) :
  existsb p l1 = false -> p x = true ->
  JS.findIndexFrom p (l1 ++ x :: l2) i = (i + Z.of_nat (List.length l1))%Z.
Proof.
  revert i; induction l1 as [|y r IH]; intros i H Hx; simpl in *.
  - rewrite Hx. lia.
  - apply orb_false_iff in H as [Hy Hr]. rewrite Hy.
    rewrite IH by assumption. lia.
Qed.

Lemma existsb_first (p : A -> bool) (l : list A) :
  existsb p l = true ->
  exists l1 x l2,
    l = l1 ++ x :: l2 /\ existsb p l1 = false /\ p x = true.
Proof.
  induction l as [|y r IH]; simpl; intros H.
  - discriminate.
  - destruct (p y) eqn:Hy.
    + exists [], y, r. repeat split; trivial.
    + destruct (IH H) as (l1 & x & l2 & -> & H1 & Hx).
      exists (y :: l1), x, l2. simpl. rewrite Hy. repeat split; trivial.
Qed.

Lemma filterFrom_keep (l : list A) (i k : Z) :
  (k < i \/ i + Z.of_nat (List.length l) <= k)%Z ->
  JS.filterFrom (fun _ j => negb (j =? k)%Z) l i = l.
Proof.
  revert i; induction l as [|x r IH]; intros i H; simpl in *.
  - reflexivity.
  - destruct (i =? k)%Z eqn:E.
    + apply Z.eqb_eq in E. lia.
    + simpl. f_equal. apply IH. apply Z.eqb_neq in E. lia.
Qed.

Lemma filterFrom_drop (l1 l2 : list A) (x : A) (i : Z) :
  JS.filterFrom (fun _ j => negb (j =? i + Z.of_nat (List.length l1))%Z)
    (l1 ++ x :: l2) i = l1 ++ l2.
Proof.
  revert i; induction l1 as [|y r IH]; intros i; simpl.
  - replace (i + 0)%Z with i by lia. rewrite Z.eqb_refl. simpl.
    apply filterFrom_keep. lia.
  - destruct (i =? i + Z.pos (Pos.of_succ_nat (List.length r)))%Z eqn:E.
    + apply Z.eqb_eq in E. lia.
    + simpl. f_equal.
      replace (i + Z.pos (Pos.of_succ_nat (List.length r)))%Z
        with ((i + 1) + Z.of_nat (List.length r))%Z by lia.
      apply IH.
Qed.

Lemma filterFrom_In (p : A -> Z -> bool) (l : list A) (i : Z) (x : A) :
  In x (JS.filterFrom p l i) -> In x l.
Proof.
  revert i; induction l as [|y r IH]; intros i; simpl.
  - trivial.
  - destruct (p y i); simpl; intros H.
    + destruct H as [H|H]; [now left | right; eapply IH; eassumption].
    + right; eapply IH; eassumption.
Qed.

Lemma filterFrom_NoDup {B : Type} (f : A -> B) (p : A -> Z -> bool)
    (l : list A) (i : Z) :
  NoDup (map f l) -> NoDup (map f (JS.filterFrom p l i)).
Proof.
  revert i; induction l as [|y r IH]; intros i H; simpl in *.
  - constructor.
  - inversion H as [|? ? Hnot Hr]; subst.
    destruct (p y i); simpl.
    + constructor.
      * intros Hin. apply Hnot. apply in_map_iff in Hin as (z & Hz & Hin).
        apply in_map_iff. exists z. split; [assumption|].
        eapply filterFrom_In; eassumption.
      * now apply IH.
    + now apply IH.
Qed.

Lemma filter_NoDup_map {B : Type} (f : A -> B) (q : A -> bool)
    (l : list A) :
  NoDup (map f l) -> NoDup (map f (filter q l)).
Proof.
  induction l as [|y r IH]; simpl; intros H.
  - constructor.
  - inversion H as [|? ? Hnot Hr]; subst.
    destruct (q y); simpl.
    + constructor.
      * intros Hin. apply Hnot. apply in_map_iff in Hin as (z & Hz & Hin).
        apply in_map_iff. exists z. split; [assumption|].
        apply filter_In in Hin. tauto.
      * now apply IH.
    + now apply IH.
Qed.

(** Of the items a test accepts, at most one remains when the accepted
    items all have the same key and keys are not repeated in the list. *)
Lemma NoDup_map_filter_le1 {B : Type} (f : A -> B) (q : A -> bool)
    (l : list A) :
  NoDup (map f l) ->
  (forall x y, In x l -> In y l -> q x = true -> q y = true -> f x = f y) ->
  (List.length (filter q l) <= 1)%nat.
Proof.
  induction l as [|y r IH]; simpl; intros H Hq.
  - lia.
  - inversion H as [|? ? Hnot Hr]; subst.
    destruct (q y) eqn:Ey; simpl.
    + assert (Hnil : filter q r = []).
      { destruct (filter q r) as [|z zs] eqn:E; [reflexivity|].
        exfalso. apply Hnot.
        assert (Hz : In z (filter q r)) by (rewrite E; now left).
        apply filter_In in Hz as [Hz1 Hz2].
        apply in_map_iff. exists z. split; [|assumption].
        apply Hq; auto. }
      rewrite Hnil. simpl. lia.
    + apply IH; [assumption|]. intros x z Hx Hz. apply Hq; now right.
Qed.

Lemma flat_map_nil {B : Type} (f : A -> list B) (l : list A) :
  (forall x, In x l -> f x = []) -> flat_map f l = [].
Proof.
  induction l as [|y r IH]; simpl; intros H.
  - reflexivity.
  - rewrite (H y) by now left. simpl. apply IH. intros x Hx. apply H.
    now right.
Qed.

Lemma filter_all (q : A -> bool) (l : list A) :
  (forall x, In x l -> q x = true) -> filter q l = l.
Proof.
  induction l as [|y r IH]; simpl; intros H.
  - reflexivity.
  - rewrite (H y) by now left. f_equal. apply IH. intros x Hx. apply H.
    now right.
Qed.

Lemma filter_none (q : A -> bool) (l : list A) :
  (forall x, In x l -> q x = false) -> filter q l = [].
Proof.
  induction l as [|y r IH]; simpl; intros H.
  - reflexivity.
  - rewrite (H y) by now left. apply IH. intros x Hx. apply H. now right.
Qed.

End ArrayFacts.

(** ** The bet slip *)

Section SlipFacts.

Import BetSlip.

Lemma sameMarket_iff (sel item : SelectionItem) :
  sameMarket sel item = true <-> marketOf item = marketOf sel.
Proof.
  unfold sameMarket, marketOf.
  rewrite andb_true_iff, !String.eqb_eq. split.
  - intros [-> ->]. reflexivity.
  - intros H. inversion H. split; reflexivity.
Qed.

Lemma sameSelection_iff (sel item : SelectionItem) :
  sameSelection sel item = true <->
  marketOf item = marketOf sel /\ selection item = selection sel.
Proof.
  unfold sameSelection, marketOf.
  rewrite !andb_true_iff, !String.eqb_eq. split.
  - intros [[-> ->] ->]. split; reflexivity.
  - intros [H ->]. inversion H. repeat split; reflexivity.
Qed.

Lemma sameSelection_sameMarket (sel item : SelectionItem) :
  sameSelection sel item = true -> sameMarket sel item = true.
Proof.
  rewrite sameSelection_iff, sameMarket_iff. tauto.
Qed.

Lemma existsb_occurrences (sel : SelectionItem) (l : list SelectionItem) :
  existsb (sameSelection sel) l = false <-> occurrences sel l = 0%nat.
Proof.
  unfold occurrences. induction l as [|y r IH]; simpl.
  - tauto.
  - destruct (sameSelection sel y); simpl.
    + split; [discriminate | lia].
    + exact IH.
Qed.

Lemma occurrences_app (t : SelectionItem) (l1 l2 : list SelectionItem) :
  occurrences t (l1 ++ l2) = (occurrences t l1 + occurrences t l2)%nat.
Proof.
  unfold occurrences. now rewrite filter_app, length_app.
Qed.

(** The two branches of [addSelection]. *)
Lemma addItem_found (sel : SelectionItem) (prev : list SelectionItem) :
  existsb (sameSelection sel) prev = true ->
  exists l1 x l2,
    prev = l1 ++ x :: l2
    /\ existsb (sameSelection sel) l1 = false
    /\ sameSelection sel x = true
    /\ addItem sel prev = l1 ++ l2.
Proof.
  intros H. destruct (existsb_first _ _ H) as (l1 & x & l2 & -> & H1 & Hx).
  exists l1, x, l2. repeat split; trivial.
  unfold addItem, JS.findIndex, JS.filteri.
  rewrite findIndexFrom_first by assumption.
  destruct (0 <=? 0 + Z.of_nat (List.length l1))%Z eqn:E.
  - apply filterFrom_drop.
  - apply Z.leb_gt in E. lia.
Qed.

Lemma addItem_fresh (sel : SelectionItem) (prev : list SelectionItem) :
  existsb (sameSelection sel) prev = false ->
  addItem sel prev
  = filter (fun item => negb (sameMarket sel item)) prev ++ [sel].
Proof.
  intros H. unfold addItem, JS.findIndex.
  rewrite findIndexFrom_absent by assumption. reflexivity.
Qed.

Lemma NoDup_map_inj {A B : Type} (f : A -> B) (l : list A) (a b : A) :
  NoDup (map f l) -> In a l -> In b l -> f a = f b -> a = b.
Proof.
  induction l as [|y r IH]; simpl; intros H Ha Hb E.
  - contradiction.
  - inversion H as [|? ? Hnot Hr]; subst.
    destruct Ha as [->|Ha], Hb as [->|Hb].
    + reflexivity.
    + exfalso. apply Hnot. rewrite E. now apply in_map.
    + exfalso. apply Hnot. rewrite <- E. now apply in_map.
    + now apply IH.
Qed.

Lemma addItem_onePick (sel : SelectionItem) (prev : list SelectionItem) :
  onePickPerMarket prev -> onePickPerMarket (addItem sel prev).
Proof.
  unfold onePickPerMarket, addItem. intros H.
  destruct (0 <=? JS.findIndex (sameSelection sel) prev)%Z.
  - now apply filterFrom_NoDup.
  - rewrite map_app. simpl.
    apply NoDup_app.
    + now apply filter_NoDup_map.
    + repeat constructor. simpl. tauto.
    + intros m Hm [<-|[]].
      apply in_map_iff in Hm as (y & Hy & Hin).
      apply filter_In in Hin as [_ Hneg].
      apply negb_true_iff in Hneg.
      apply sameMarket_iff in Hy. congruence.
Qed.

Lemma reachableVia_onePick (ok : SelectionItem -> Prop) (st : State) :
  reachableVia ok st -> onePickPerMarket (items st).
Proof.
  induction 1; simpl.
  - constructor.
  - now apply addItem_onePick.
  - now apply filterFrom_NoDup.
  - constructor.
  - assumption.
Qed.

Lemma reachableVia_weaken (ok : SelectionItem -> Prop) (st : State) :
  reachableVia ok st -> reachable st.
Proof.
  induction 1; constructor; trivial.
Qed.

(** Removing one item never raises the number of occurrences. *)
Lemma occurrences_remove (t x : SelectionItem)
    (l1 l2 : list SelectionItem) :
  (occurrences t (l1 ++ l2) <= occurrences t (l1 ++ x :: l2))%nat.
Proof.
  rewrite !occurrences_app.
  change (x :: l2) with ([x] ++ l2). rewrite occurrences_app. lia.
Qed.

Lemma occurrences_filter (t : SelectionItem) (q : SelectionItem -> bool)
    (l : list SelectionItem) :
  (occurrences t (filter q l) <= occurrences t l)%nat.
Proof.
  unfold occurrences. induction l as [|y r IH]; simpl.
  - lia.
  - destruct (q y); simpl; destruct (sameSelection t y); simpl; lia.
Qed.

Lemma occurrences_other_market (t sel : SelectionItem)
    (l : list SelectionItem) :
  sameSelection t sel = true ->
  occurrences t (filter (fun item => negb (sameMarket sel item)) l) = 0%nat.
Proof.
  intros Hts. apply existsb_occurrences.
  apply not_true_is_false. intros H.
  apply existsb_exists in H as (y & Hy & Hty).
  apply filter_In in Hy as [_ Hneg]. apply negb_true_iff in Hneg.
  apply sameSelection_iff in Hts as [Hm _].
  apply sameSelection_iff in Hty as [Hm' _].
  assert (sameMarket sel y = true) by (apply sameMarket_iff; congruence).
  congruence.
Qed.

End SlipFacts.

Section SlipClaims.

Import BetSlip Samples.

(** C7, as stated, fails.  With "Lakers" to win already in the slip,
    picking "Celtics" to win twice in a row first replaces the Lakers pick
    and then removes the Celtics pick: the slip ends empty, not in its prior
    state. *)
Lemma addSelection_twice_counterexample :
  reachable (addSelection lakersH2H initial)
  /\ items (addSelection lakersH2H initial) = [lakersH2H]
  /\ items (addSelection celticsH2H
              (addSelection celticsH2H (addSelection lakersH2H initial)))
     = []
  /\ items (addSelection celticsH2H
              (addSelection celticsH2H (addSelection lakersH2H initial)))
     <> items (addSelection lakersH2H initial).
Proof.
  split; [|split; [|split]].
  - apply reach_add; [exact I | apply reach_initial].
  - reflexivity.
  - reflexivity.
  - discriminate.
Qed.

(** C7, amended.  When the slip already holds an item with the triple of
    the selection, [addSelection] removes the first such item and adds
    nothing.  Adding the same selection twice in a row returns the slip to
    its prior state when the slip held no pick on that market of that game;
    when the triple was not in the slip, it leaves the slip without the
    picks of that market.  No triple that occurred at most once occurs
    twice afterwards. *)
Theorem addSelection_toggle (st : State) (sel : SelectionItem) :
  ((0 < occurrences sel (items st))%nat ->
     exists l1 x l2,
       items st = l1 ++ x :: l2
       /\ sameSelection sel x = true
       /\ occurrences sel l1 = 0%nat
       /\ items (addSelection sel st) = l1 ++ l2)
  /\ ((forall y, In y (items st) -> sameMarket sel y = false) ->
        items (addSelection sel (addSelection sel st)) = items st)
  /\ (occurrences sel (items st) = 0%nat ->
        items (addSelection sel (addSelection sel st))
        = filter (fun item => negb (sameMarket sel item)) (items st))
  /\ (forall t,
        (occurrences t (items st) <= 1)%nat ->
        (occurrences t (items (addSelection sel st)) <= 1)%nat).
Proof.
  assert (Htwice :
    occurrences sel (items st) = 0%nat ->
    items (addSelection sel (addSelection sel st))
    = filter (fun item => negb (sameMarket sel item)) (items st)).
  { intros H0. apply existsb_occurrences in H0. simpl.
    rewrite (addItem_fresh _ _ H0).
    set (kept := filter (fun item => negb (sameMarket sel item)) (items st)).
    assert (Hk : existsb (sameSelection sel) kept = false).
    { apply existsb_occurrences. apply occurrences_other_market.
      apply sameSelection_iff. split; reflexivity. }
    assert (Hs : sameSelection sel sel = true)
      by (apply sameSelection_iff; split; reflexivity).
    unfold addItem, JS.findIndex, JS.filteri.
    rewrite (findIndexFrom_first _ kept [] sel 0%Z Hk Hs).
    destruct (0 <=? 0 + Z.of_nat (List.length kept))%Z eqn:E.
    - rewrite filterFrom_drop. apply app_nil_r.
    - apply Z.leb_gt in E. lia. }
  split; [|split; [|split]].
  - intros Hpos.
    destruct (existsb (sameSelection sel) (items st)) eqn:E.
    + destruct (addItem_found _ _ E) as (l1 & x & l2 & Hl & H1 & Hx & Hr).
      exists l1, x, l2. repeat split; trivial.
      now apply existsb_occurrences.
    + apply existsb_occurrences in E. lia.
  - intros Hnone. rewrite Htwice.
    + apply filter_all. intros y Hy. now rewrite (Hnone y Hy).
    + apply existsb_occurrences. apply not_true_is_false. intros H.
      apply existsb_exists in H as (y & Hy & Hsy).
      apply sameSelection_sameMarket in Hsy.
      rewrite (Hnone y Hy) in Hsy. discriminate.
  - exact Htwice.
  - intros t Ht. simpl.
    destruct (existsb (sameSelection sel) (items st)) eqn:E.
    + destruct (addItem_found _ _ E) as (l1 & x & l2 & Hl & _ & _ & ->).
      rewrite Hl in Ht. pose proof (occurrences_remove t x l1 l2). lia.
    + rewrite (addItem_fresh _ _ E), occurrences_app.
      destruct (sameSelection t sel) eqn:Ets.
      * rewrite (occurrences_other_market _ _ _ Ets).
        unfold occurrences. simpl. rewrite Ets. simpl. lia.
      * pose proof (occurrences_filter t
                      (fun item => negb (sameMarket sel item)) (items st)).
        unfold occurrences at 2. simpl. rewrite Ets. simpl. lia.
Qed.

Lemma addSelection_toggle_witness :
  (exists l1 x l2,
      items (slipOf [celticsSpread; lakersH2H]) = l1 ++ x :: l2
      /\ sameSelection lakersH2H x = true
      /\ occurrences lakersH2H l1 = 0%nat
      /\ items (addSelection lakersH2H (slipOf [celticsSpread; lakersH2H]))
         = l1 ++ l2)
  /\ items (addSelection lakersH2H
              (addSelection lakersH2H (slipOf [celticsSpread])))
     = items (slipOf [celticsSpread])
  /\ items (addSelection celticsH2H
              (addSelection celticsH2H (slipOf [lakersH2H; overTotal])))
     = [overTotal]
  /\ (occurrences lakersH2H
        (items (addSelection lakersH2H (slipOf [celticsSpread]))) <= 1)%nat.
Proof.
  split; [|split; [|split]].
  - destruct (addSelection_toggle (slipOf [celticsSpread; lakersH2H])
                lakersH2H) as (Ha & _).
    apply Ha. vm_compute. lia.
  - destruct (addSelection_toggle (slipOf [celticsSpread]) lakersH2H)
      as (_ & Hb & _).
    apply Hb. intros y Hy. simpl in Hy. destruct Hy as [<-|[]].
    reflexivity.
  - destruct (addSelection_toggle (slipOf [lakersH2H; overTotal])
                celticsH2H) as (_ & _ & Hc & _).
    apply Hc. reflexivity.
  - destruct (addSelection_toggle (slipOf [celticsSpread]) lakersH2H)
      as (_ & _ & _ & Hd).
    apply Hd. vm_compute. lia.
Defined.

(** C8.  For every slip that holds a pick [x] on some market of some game,
    adding a selection on the same market of the same game whose selection
    string differs from the picks held on that market removes those picks,
    [x] among them, and appends the new selection, which is then the only
    pick on that market.  In a slip built through the interface [x] is the
    one prior pick, the rest of the slip keeps its order, and after any
    [addSelection] the slip holds at most one pick per market per game. *)
Theorem addSelection_replace (st : State) (sel x : SelectionItem) :
  In x (items st) ->
  sameMarket sel x = true ->
  (forall y,
      In y (items st) -> sameMarket sel y = true ->
      selection y <> selection sel) ->
  items (addSelection sel st)
  = filter (fun item => negb (sameMarket sel item)) (items st) ++ [sel]
  /\ ~ In x (items (addSelection sel st))
  /\ filter (sameMarket sel) (items (addSelection sel st)) = [sel]
  /\ (reachable st ->
      (exists l1 l2,
          items st = l1 ++ x :: l2
          /\ items (addSelection sel st) = l1 ++ l2 ++ [sel])
      /\ (forall sel', onePickPerMarket (items (addSelection sel' st)))).
Proof.
  intros Hin Hm Hneq.
  assert (Hfresh : existsb (sameSelection sel) (items st) = false).
  { apply not_true_is_false. intros H.
    apply existsb_exists in H as (y & Hy & Hsy).
    pose proof (sameSelection_sameMarket _ _ Hsy) as Hmy.
    apply sameSelection_iff in Hsy as [_ Hsel].
    exact (Hneq y Hy Hmy Hsel). }
  assert (Hself : sameMarket sel sel = true)
    by (apply sameMarket_iff; reflexivity).
  assert (Hrun : items (addSelection sel st)
                 = filter (fun item => negb (sameMarket sel item)) (items st)
                   ++ [sel])
    by (simpl; now apply addItem_fresh).
  split; [exact Hrun|]. split; [|split].
  - rewrite Hrun. intros H. apply in_app_or in H as [H|[H|[]]].
    + apply filter_In in H as [_ H]. rewrite Hm in H. discriminate.
    + subst x. now apply (Hneq sel Hin Hm).
  - rewrite Hrun, filter_app. simpl. rewrite Hself.
    rewrite filter_none; [reflexivity|].
    intros y Hy. apply filter_In in Hy as [_ Hy].
    now apply negb_true_iff in Hy.
  - intros Hreach.
    pose proof (reachableVia_onePick _ _ Hreach) as Hone.
    split; [|intros sel'; simpl; now apply addItem_onePick].
    destruct (in_split _ _ Hin) as (l1 & l2 & Hl).
    exists l1, l2. split; [assumption|].
    rewrite Hrun, Hl, filter_app. simpl.
    rewrite Hm. simpl. rewrite app_assoc. f_equal.
    unfold onePickPerMarket in Hone. rewrite Hl in Hone.
    assert (Hother : forall y, In y (l1 ++ l2) -> sameMarket sel y = false).
    { intros y Hy. apply not_true_is_false. intros Hmy.
      apply sameMarket_iff in Hmy. apply sameMarket_iff in Hm.
      rewrite map_app in Hone. simpl in Hone.
      apply NoDup_remove_2 in Hone. apply Hone.
      rewrite <- map_app. apply in_map_iff. exists y. split; congruence. }
    f_equal; apply filter_all; intros y Hy; rewrite Hother; trivial;
      apply in_or_app; tauto.
Qed.

Lemma addSelection_replace_witness :
  items (addSelection celticsH2H
           (addSelection overTotal (addSelection lakersH2H initial)))
  = [overTotal; celticsH2H]
  /\ (exists l1 l2,
        items (addSelection overTotal (addSelection lakersH2H initial))
        = l1 ++ lakersH2H :: l2
        /\ items (addSelection celticsH2H
                    (addSelection overTotal (addSelection lakersH2H initial)))
           = l1 ++ l2 ++ [celticsH2H])
  /\ (forall sel',
        onePickPerMarket
          (items (addSelection sel'
                    (addSelection overTotal
                       (addSelection lakersH2H initial))))).
Proof.
  destruct (addSelection_replace
              (addSelection overTotal (addSelection lakersH2H initial))
              celticsH2H lakersH2H) as (Hrun & _ & _ & Hreach).
  - simpl. left. reflexivity.
  - reflexivity.
  - intros y Hy Hmy. simpl in Hy. destruct Hy as [<-|[<-|[]]].
    + discriminate.
    + discriminate.
  - split; [exact Hrun|]. apply Hreach.
    apply reach_add; [exact I|].
    apply reach_add; [exact I | apply reach_initial].
Defined.

End SlipClaims.

(** ** Odds aggregation *)

(** Settles a goal about each member of a literal list. *)
Ltac each_member :=
  let i := fresh "i" in
  let H := fresh "H" in
  intros i H; simpl in H;
  repeat (destruct H as [<- | H]); try contradiction; reflexivity.

Section OddsFacts.

Import BetSlip Samples.

Lemma find_existsb {A : Type} (p : A -> bool) (l : list A) :
  existsb p l = match find p l with Some _ => true | None => false end.
Proof.
  induction l as [|y r IH]; simpl.
  - reflexivity.
  - destruct (p y); simpl; [reflexivity | exact IH].
Qed.

Lemma existsb_In {A : Type} (p : A -> bool) (l : list A) (x : A) :
  In x l -> p x = true -> existsb p l = true.
Proof.
  intros Hin Hp. apply existsb_exists. exists x. tauto.
Qed.

Lemma fold_odds (its : list SelectionItem) (a : Q) :
  fold_left (fun total item => total * odds item) its a
  == a * product (map odds its).
Proof.
  revert a. induction its as [|x r IH]; intros a; simpl.
  - ring.
  - rewrite IH. ring.
Qed.

(** [rawOdds] is the product of the individual odds. *)
Lemma rawOdds_product (its : list SelectionItem) :
  rawOdds its == product (map odds its).
Proof.
  unfold rawOdds. rewrite fold_odds. ring.
Qed.

Lemma isSGM_sameGame (g : string) (its : list SelectionItem) :
  (2 <= List.length its)%nat -> sameGame g its -> isSGM its = true.
Proof.
  intros Hlen Hg. unfold isSGM. apply andb_true_iff. split.
  - apply Z.ltb_lt. lia.
  - destruct its as [|first r]; [reflexivity|].
    apply forallb_forall. intros i Hi. apply String.eqb_eq.
    rewrite (Hg i Hi). symmetry. apply Hg. now left.
Qed.

(** The factor, by the two tests the function makes. *)
Lemma calculateCorrelationFactor_cases (its : list SelectionItem) :
  calculateCorrelationFactor its
  = let factor := if h2hSpreadCorrelated its then 1 * (9 # 10) else 1 in
    if existsb isPlayerProp its && existsb isTeamMarket its
    then factor * (95 # 100) else factor.
Proof.
  unfold calculateCorrelationFactor, h2hSpreadCorrelated.
  assert (Hteam :
    existsb isTeamMarket its
    = (existsb (fun i => String.eqb (marketType i) "h2h") its
       || existsb (fun i => String.eqb (marketType i) "spread") its
       || existsb (fun i => String.eqb (marketType i) "total") its)).
  { unfold isTeamMarket. induction its as [|y r IH]; simpl.
    - reflexivity.
    - rewrite IH.
      destruct (String.eqb (marketType y) "h2h"),
               (String.eqb (marketType y) "spread"),
               (String.eqb (marketType y) "total"); simpl;
        repeat rewrite orb_true_r; try reflexivity;
        destruct (existsb _ r); simpl; try reflexivity;
        destruct (existsb _ r); reflexivity. }
  rewrite Hteam, !find_existsb. unfold isPlayerProp.
  destruct (find (fun i => String.eqb (marketType i) "h2h") its) as [h|];
    destruct (find (fun i => String.eqb (marketType i) "spread") its)
      as [s|]; simpl; reflexivity.
Qed.

(** C3, as stated, fails.  The slip below has three selections on one game,
    a head-to-head pick "Lakers" and a spread pick "Lakers +5.5"; it also
    holds a player prop, so the two discounts multiply and the total odds
    are the product times 0.90 times 0.95. *)
Lemma h2h_spread_discount_counterexample :
  let its := [lakersH2H; lakersSpread; lebronOver] in
  sameGame game1 its
  /\ find (fun i => String.eqb (marketType i) "h2h") its = Some lakersH2H
  /\ find (fun i => String.eqb (marketType i) "spread") its
     = Some lakersSpread
  /\ selection lakersH2H = JS.splitHead " " (selection lakersSpread)
  /\ totalOdds its == product (map odds its) * (9 # 10) * (95 # 100)
  /\ ~ totalOdds its == product (map odds its) * (9 # 10).
Proof.
  cbv zeta. repeat split.
  - each_member.
  - vm_compute. intros H. discriminate H.
Qed.

(** C3, amended.  For a slip of at least two selections on one game and
    without player props, whose first head-to-head pick names the first
    word of its first spread pick ("Lakers" with "Lakers +5.5"), the total
    odds are the product of the individual odds times 0.90. *)
Theorem h2h_spread_discount (g : string) (its : list SelectionItem)
    (h s : SelectionItem) :
  (2 <= List.length its)%nat ->
  sameGame g its ->
  find (fun i => String.eqb (marketType i) "h2h") its = Some h ->
  find (fun i => String.eqb (marketType i) "spread") its = Some s ->
  selection h = JS.splitHead " " (selection s) ->
  (forall i, In i its -> isPlayerProp i = false) ->
  totalOdds its == product (map odds its) * (9 # 10).
Proof.
  intros Hlen Hg Hh Hs Hteam Hprops.
  unfold totalOdds, correlationFactor.
  rewrite (isSGM_sameGame g its Hlen Hg).
  rewrite calculateCorrelationFactor_cases.
  unfold h2hSpreadCorrelated. rewrite Hh, Hs, Hteam, String.eqb_refl.
  assert (Hnone : existsb isPlayerProp its = false).
  { apply not_true_is_false. intros H.
    apply existsb_exists in H as (i & Hi & Hp).
    rewrite (Hprops i Hi) in Hp. discriminate. }
  rewrite Hnone. cbv zeta. simpl andb. cbv iota.
  rewrite rawOdds_product. ring.
Qed.

Lemma h2h_spread_discount_witness :
  totalOdds [lakersH2H; lakersSpread]
  == product (map odds [lakersH2H; lakersSpread]) * (9 # 10).
Proof.
  apply (h2h_spread_discount game1 [lakersH2H; lakersSpread]
           lakersH2H lakersSpread).
  - simpl. lia.
  - each_member.
  - reflexivity.
  - reflexivity.
  - reflexivity.
  - each_member.
Defined.

(** For a slip of at least two selections on one game that holds a player
    prop together with a head-to-head, spread or total selection, the total
    odds are the product of the individual odds times 0.95, and times 0.90
    times 0.95 when the first-word test of [calculateCorrelationFactor]
    also succeeds. *)
Lemma player_prop_factor (g : string) (its : list SelectionItem)
    (p t : SelectionItem) :
  (2 <= List.length its)%nat ->
  sameGame g its ->
  In p its -> isPlayerProp p = true ->
  In t its -> isTeamMarket t = true ->
  totalOdds its
  == product (map odds its)
     * (if h2hSpreadCorrelated its then (9 # 10) * (95 # 100)
        else (95 # 100)).
Proof.
  intros Hlen Hg Hp Hpp Ht Htm.
  unfold totalOdds, correlationFactor.
  rewrite (isSGM_sameGame g its Hlen Hg).
  rewrite calculateCorrelationFactor_cases.
  rewrite (existsb_In isPlayerProp its p Hp Hpp).
  rewrite (existsb_In isTeamMarket its t Ht Htm).
  cbv zeta. simpl andb. cbv iota.
  rewrite rawOdds_product.
  destruct (h2hSpreadCorrelated its); ring.
Qed.

Example player_prop_factor_examples :
  totalOdds [lebronOver; lakersH2H]
  == product (map odds [lebronOver; lakersH2H]) * (95 # 100)
  /\ totalOdds [lakersH2H; lakersSpread; lebronOver]
     == product (map odds [lakersH2H; lakersSpread; lebronOver])
        * ((9 # 10) * (95 # 100)).
Proof.
  split; reflexivity.
Qed.

(** The first word of a string has no space in it. *)
Lemma splitHead_no_space (s : string) :
  JS.includes " " (JS.splitHead " " s) = false.
Proof.
  induction s as [|c rest IH]; [reflexivity|].
  cbn [JS.splitHead]. destruct (Ascii.eqb c " ") eqn:E; [reflexivity|].
  apply Ascii.eqb_neq in E.
  cbn [JS.includes String.prefix].
  destruct (ascii_dec " " c) as [<-|_]; [now elim E|].
  exact IH.
Qed.

Lemma product_pos (l : list Q) :
  (forall q, In q l -> 0 < q) -> 0 < product l.
Proof.
  induction l as [|q r IH]; simpl; intros H.
  - reflexivity.
  - apply Qmult_lt_0_compat; [apply H; now left|].
    apply IH. intros x Hx. apply H. now right.
Qed.

(** C9.  On a slip of at least two selections on one game that holds a
    player prop, a head-to-head pick on a team whose name has several words
    ("Los Angeles Lakers") and a spread pick that references the same team
    ("Los Angeles Lakers +5.5"), the first-word test fails and the
    head-to-head / spread factor is not applied: the total odds are the
    product of the individual odds times 0.95, and, the odds being
    positive, not the product times 0.90 times 0.95. *)
Theorem player_prop_multiword (g : string) (its : list SelectionItem)
    (h s p : SelectionItem) :
  (2 <= List.length its)%nat ->
  sameGame g its ->
  find (fun i => String.eqb (marketType i) "h2h") its = Some h ->
  find (fun i => String.eqb (marketType i) "spread") its = Some s ->
  CorrelationSpec.sameTeam h s = true ->
  JS.includes " " (selection h) = true ->
  In p its -> isPlayerProp p = true ->
  h2hSpreadCorrelated its = false
  /\ totalOdds its == product (map odds its) * (95 # 100)
  /\ ((forall i, In i its -> 0 < odds i) ->
      ~ totalOdds its == product (map odds its) * ((9 # 10) * (95 # 100))).
Proof.
  intros Hlen Hg Hh Hs _ Hwords Hp Hpp.
  assert (Hcorr : h2hSpreadCorrelated its = false).
  { unfold h2hSpreadCorrelated. rewrite Hh, Hs.
    apply String.eqb_neq. intros E.
    pose proof (splitHead_no_space (selection s)) as Hnone.
    rewrite <- E in Hnone. congruence. }
  assert (Htot : totalOdds its == product (map odds its) * (95 # 100)).
  { apply find_some in Hh as [Hin Hm].
    assert (Ht : isTeamMarket h = true)
      by (unfold isTeamMarket; now rewrite Hm).
    pose proof (player_prop_factor g its p h Hlen Hg Hp Hpp Hin Ht) as E.
    now rewrite Hcorr in E. }
  split; [exact Hcorr|]. split; [exact Htot|].
  intros Hpos E. rewrite Htot in E.
  assert (Hprod : 0 < product (map odds its)).
  { apply product_pos. intros q Hq.
    apply in_map_iff in Hq as (i & <- & Hi). now apply Hpos. }
  assert (E' : product (map odds its) * (95 # 100)
               == product (map odds its) * (855 # 1000))
    by (rewrite E; ring).
  nra.
Qed.

Lemma player_prop_multiword_witness :
  CorrelationSpec.sameTeam CorrelationSpec.losAngelesH2H
    CorrelationSpec.losAngelesSpread = true
  /\ totalOdds
       [CorrelationSpec.losAngelesH2H; CorrelationSpec.losAngelesSpread;
        lebronOver]
     == product
          (map odds
             [CorrelationSpec.losAngelesH2H;
              CorrelationSpec.losAngelesSpread; lebronOver])
        * (95 # 100)
  /\ ~ totalOdds
         [CorrelationSpec.losAngelesH2H; CorrelationSpec.losAngelesSpread;
          lebronOver]
       == product
            (map odds
               [CorrelationSpec.losAngelesH2H;
                CorrelationSpec.losAngelesSpread; lebronOver])
          * ((9 # 10) * (95 # 100)).
Proof.
  destruct (player_prop_multiword game1
              [CorrelationSpec.losAngelesH2H;
               CorrelationSpec.losAngelesSpread; lebronOver]
              CorrelationSpec.losAngelesH2H CorrelationSpec.losAngelesSpread
              lebronOver)
    as (_ & H1 & H2).
  - simpl. lia.
  - each_member.
  - reflexivity.
  - reflexivity.
  - reflexivity.
  - reflexivity.
  - simpl. tauto.
  - reflexivity.
  - split; [reflexivity|]. split; [exact H1|].
    apply H2. intros i Hi. simpl in Hi.
    destruct Hi as [<-|[<-|[<-|[]]]]; reflexivity.
Defined.

End OddsFacts.

(** ** Objects used as maps *)

Section ObjectFacts.

Context {V : Type}.

Lemma push_new (k : string) (v : V) (o : JS.obj (list V)) :
  ~ In k (map fst o) -> JS.push k v o = o ++ [(k, [v])].
Proof.
  induction o as [|[k' vs] r IH]; simpl; intros H.
  - reflexivity.
  - destruct (String.eqb k' k) eqn:E.
    + apply String.eqb_eq in E. tauto.
    + f_equal. apply IH. tauto.
Qed.

Lemma push_old (k : string) (v : V) (o : JS.obj (list V)) :
  In k (map fst o) ->
  exists o1 vs o2,
    o = o1 ++ (k, vs) :: o2
    /\ ~ In k (map fst o1)
    /\ JS.push k v o = o1 ++ (k, vs ++ [v]) :: o2.
Proof.
  induction o as [|[k' vs] r IH]; simpl; intros H.
  - contradiction.
  - destruct (String.eqb k' k) eqn:E.
    + apply String.eqb_eq in E. subst k'.
      exists [], vs, r. simpl. tauto.
    + apply String.eqb_neq in E.
      destruct H as [H|H]; [contradiction|].
      destruct (IH H) as (o1 & vs' & o2 & -> & Hnot & Hp).
      exists ((k', vs) :: o1), vs', o2. simpl. rewrite Hp.
      repeat split; trivial. intros [?|?]; tauto.
Qed.

Variable key : V -> string.

Local Abbreviation groups := (JS.groups key).

Lemma filter_snoc (q : V -> bool) (pre : list V) (x : V) :
  filter q (pre ++ [x]) = filter q pre ++ (if q x then [x] else []).
Proof.
  rewrite filter_app. reflexivity.
Qed.

Lemma push_groups (pre : list V) (x : V) (o : JS.obj (list V)) :
  groups pre o -> groups (pre ++ [x]) (JS.push (key x) x o).
Proof.
  intros (Hnd & Hgrp & Hall).
  destruct (in_dec string_dec (key x) (map fst o)) as [Hin|Hnew].
  - destruct (push_old (key x) x o Hin) as (o1 & vs & o2 & Ho & Hnot & ->).
    assert (Hkeys : map fst (o1 ++ (key x, vs ++ [x]) :: o2) = map fst o).
    { rewrite Ho, !map_app. reflexivity. }
    split; [|split].
    + now rewrite Hkeys.
    + intros k ws Hk. rewrite filter_snoc.
      apply in_app_or in Hk. simpl in Hk.
      assert (Hcase :
        (In (k, ws) o /\ k <> key x)
        \/ (k = key x /\ ws = vs ++ [x])).
      { rewrite Ho in Hnd. rewrite map_app in Hnd. simpl in Hnd.
        pose proof (NoDup_remove_2 _ _ _ Hnd) as Hfresh.
        destruct Hk as [Hk|[Hk|Hk]].
        - left. split.
          + rewrite Ho. apply in_or_app. now left.
          + intros ->. apply Hfresh. apply in_or_app. left.
            apply (in_map fst) in Hk. exact Hk.
        - right. inversion Hk. tauto.
        - left. split.
          + rewrite Ho. apply in_or_app. right. now right.
          + intros ->. apply Hfresh. apply in_or_app. right.
            apply (in_map fst) in Hk. exact Hk. }
      destruct Hcase as [[Hk' Hne]|[-> ->]].
      * rewrite (Hgrp k ws Hk').
        destruct (String.eqb (key x) k) eqn:E.
        -- apply String.eqb_eq in E. congruence.
        -- now rewrite app_nil_r.
      * rewrite String.eqb_refl. f_equal. apply Hgrp.
        rewrite Ho. apply in_or_app. right. now left.
    + intros y Hy. rewrite Hkeys. apply in_app_or in Hy as [Hy|[<-|[]]].
      * now apply Hall.
      * exact Hin.
  - rewrite (push_new _ _ _ Hnew).
    split; [|split].
    + rewrite map_app. simpl. apply NoDup_app; trivial.
      * repeat constructor. simpl. tauto.
      * intros k Hk [<-|[]]. contradiction.
    + intros k ws Hk. rewrite filter_snoc.
      apply in_app_or in Hk as [Hk|[Hk|[]]].
      * rewrite (Hgrp k ws Hk).
        destruct (String.eqb (key x) k) eqn:E.
        -- apply String.eqb_eq in E. subst k. exfalso. apply Hnew.
           apply (in_map fst) in Hk. exact Hk.
        -- now rewrite app_nil_r.
      * inversion Hk; subst. rewrite String.eqb_refl.
        rewrite filter_none; [reflexivity|].
        intros y Hy. apply not_true_is_false. intros E.
        apply String.eqb_eq in E. apply Hnew. rewrite <- E. now apply Hall.
    + intros y Hy. rewrite map_app. apply in_or_app.
      apply in_app_or in Hy as [Hy|[<-|[]]].
      * left. now apply Hall.
      * right. now left.
Qed.

Lemma fold_groups (xs pre : list V) (o : JS.obj (list V)) :
  groups pre o ->
  groups (pre ++ xs) (fold_left (fun o x => JS.push (key x) x o) xs o).
Proof.
  revert pre o. induction xs as [|x r IH]; intros pre o H; simpl.
  - now rewrite app_nil_r.
  - replace (pre ++ x :: r) with ((pre ++ [x]) ++ r)
      by (rewrite <- app_assoc; reflexivity).
    apply IH. now apply push_groups.
Qed.

(** Each group of [groupBy] is the sub-list of the items with its key. *)
Lemma groupBy_groups (xs : list V) : groups xs (JS.groupBy key xs).
Proof.
  unfold JS.groupBy. apply (fold_groups xs [] []).
  split; [constructor | split]; intros; contradiction.
Qed.

End ObjectFacts.

Section EntriesFacts.

Context {V : Type}.

Lemma insertIndexed_In (n m : N) (e e' : string * V)
    (l : list (N * (string * V))) :
  In (m, e') (JS.insertIndexed n e l) <-> (m, e') = (n, e) \/ In (m, e') l.
Proof.
  induction l as [|[k d] r IH]; simpl.
  - intuition congruence.
  - destruct (n <=? k)%N; simpl.
    + intuition congruence.
    + rewrite IH. intuition congruence.
Qed.

Lemma indexedEntries_In (o : JS.obj V) (n : N) (e : string * V) :
  In (n, e) (JS.indexedEntries o) <-> In e o /\ JS.arrayIndex (fst e) = Some n.
Proof.
  induction o as [|[k v] r IH]; simpl.
  - tauto.
  - destruct (JS.arrayIndex k) as [m|] eqn:E.
    + rewrite insertIndexed_In, IH. split.
      * intros [H|[H1 H2]].
        -- inversion H; subst. simpl. tauto.
        -- tauto.
      * intros [[H|H] Hn].
        -- subst e. simpl in Hn. left. congruence.
        -- tauto.
    + rewrite IH. split.
      * tauto.
      * intros [[H|H] Hn]; [|tauto].
        subst e. simpl in Hn. congruence.
Qed.

(** [Object.entries] lists exactly the entries of the object. *)
Lemma entries_In (o : JS.obj V) (e : string * V) :
  In e (JS.entries o) <-> In e o.
Proof.
  unfold JS.entries. rewrite in_app_iff, in_map_iff, filter_In. split.
  - intros [([n e'] & He & Hin)|[Hin _]].
    + simpl in He. subst e'. apply indexedEntries_In in Hin. tauto.
    + assumption.
  - intros Hin. unfold JS.isNamedKey.
    destruct (JS.arrayIndex (fst e)) as [n|] eqn:E.
    + left. exists (n, e). split; [reflexivity|].
      apply indexedEntries_In. tauto.
    + right. tauto.
Qed.

(** Array-index keys come first, in numeric order; "01" is not one. *)
Example entries_order :
  JS.entries
    [("b", 1%nat); ("10", 2%nat); ("9", 3%nat); ("01", 4%nat)]%string
  = [("9", 3%nat); ("10", 2%nat); ("b", 1%nat); ("01", 4%nat)]%string.
Proof.
  reflexivity.
Qed.

End EntriesFacts.

(** ** Conflict detection *)

Section ConflictFacts.

Import BetSlip Samples.

Lemma includes_hyphen_cons (c : ascii) (rest : string) :
  JS.includes "-" (String c rest) = false <->
  c <> "-"%char /\ JS.includes "-" rest = false.
Proof.
  change (JS.includes "-" (String c rest))
    with ((if ascii_dec "-" c then String.prefix EmptyString rest else false)
          || JS.includes "-" rest).
  destruct (ascii_dec "-" c) as [<-|Hc].
  - assert (E : String.prefix EmptyString rest = true)
      by (destruct rest; reflexivity).
    rewrite E. split; [discriminate | intros [H _]; now elim H].
  - rewrite orb_false_l. split.
    + intros H. split; [congruence | exact H].
    + tauto.
Qed.

Lemma includes_hyphen_app (p m : string) :
  JS.includes "-" (p ++ String "-" m) = true.
Proof.
  induction p as [|c p IH].
  - destruct (JS.includes "-" (EmptyString ++ String "-" m)) eqn:E;
      [reflexivity|].
    apply includes_hyphen_cons in E as [E _]. now elim E.
  - change ((String c p ++ String "-" m)%string)
      with (String c (p ++ String "-" m)%string).
    destruct (JS.includes "-" (String c (p ++ String "-" m))) eqn:E;
      [reflexivity|].
    apply includes_hyphen_cons in E as [_ E]. congruence.
Qed.

(** Two player keys over hyphen-free market types agree only when the
    market types agree. *)
Lemma playerKey_market (p1 p2 m1 m2 : string) :
  JS.includes "-" m1 = false ->
  JS.includes "-" m2 = false ->
  (p1 ++ "-" ++ m1 = p2 ++ "-" ++ m2)%string ->
  m1 = m2.
Proof.
  intros H1 H2. revert p2.
  change ("-" ++ m1)%string with (String "-" m1).
  change ("-" ++ m2)%string with (String "-" m2).
  induction p1 as [|c p1 IH]; intros [|d p2] E.
  - now inversion E.
  - change (String "-" m1 = String d (p2 ++ String "-" m2)) in E.
    inversion E as [[Hc Hm]]. subst m1.
    rewrite includes_hyphen_app in H1. discriminate.
  - change (String c (p1 ++ String "-" m1) = String "-" m2) in E.
    inversion E as [[Hc Hm]]. subst m2.
    rewrite includes_hyphen_app in H2. discriminate.
  - change (String c (p1 ++ String "-" m1)
            = String d (p2 ++ String "-" m2)) in E.
    inversion E. eapply IH; eassumption.
Qed.

Lemma addItem_In (sel x : SelectionItem) (prev : list SelectionItem) :
  In x (addItem sel prev) -> x = sel \/ In x prev.
Proof.
  unfold addItem.
  destruct (0 <=? JS.findIndex (sameSelection sel) prev)%Z; intros H.
  - right. eapply filterFrom_In; eassumption.
  - apply in_app_or in H as [H|[<-|[]]].
    + apply filter_In in H. tauto.
    + now left.
Qed.

Lemma reachableVia_items (ok : SelectionItem -> Prop) (st : State) :
  reachableVia ok st -> forall x, In x (items st) -> ok x.
Proof.
  induction 1; simpl; intros x Hx.
  - contradiction.
  - apply addItem_In in Hx as [->|Hx]; auto.
  - apply IHreachableVia. eapply filterFrom_In; eassumption.
  - contradiction.
  - auto.
Qed.

Lemma short_group_no_conflict (k : string) (vs : list SelectionItem) :
  (List.length vs <= 1)%nat -> playerGroupConflicts (k, vs) = [].
Proof.
  destruct vs as [|a [|b r]]; simpl; intros H; try reflexivity. lia.
Qed.

(** A game whose picks are on distinct, hyphen-free market types raises no
    conflict. *)
Lemma gameConflicts_nil (gs : list SelectionItem) :
  NoDup (map marketType gs) ->
  (forall x, In x gs -> plainMarket x) ->
  gameConflicts gs = [].
Proof.
  intros Hnd Hplain. unfold gameConflicts.
  assert (Hconst : forall m,
    (List.length (filter (fun i => String.eqb (marketType i) m) gs)
     <= 1)%nat).
  { intros m. apply (NoDup_map_filter_le1 marketType); [assumption|].
    intros x y _ _ Hx Hy.
    apply String.eqb_eq in Hx. apply String.eqb_eq in Hy. congruence. }
  pose proof (Hconst "h2h"%string) as Hh.
  pose proof (Hconst "total"%string) as Ht.
  destruct (1 <? Z.of_nat (List.length
              (filter (fun i => String.eqb (marketType i) "h2h") gs)))%Z
    eqn:Eh; [apply Z.ltb_lt in Eh; lia|].
  destruct (1 <? Z.of_nat (List.length
              (filter (fun i => String.eqb (marketType i) "total") gs)))%Z
    eqn:Et; [apply Z.ltb_lt in Et; lia|].
  simpl. apply flat_map_nil. intros [k vs] Hin.
  apply (proj1 (entries_In _ _)) in Hin.
  set (props := filter (fun i => JS.startsWith "player_" (marketType i)) gs)
    in *.
  destruct (groupBy_groups playerKey props) as (_ & Hgrp & _).
  rewrite (Hgrp k vs Hin).
  apply short_group_no_conflict.
  apply (NoDup_map_filter_le1 marketType).
  - unfold props. now apply filter_NoDup_map.
  - intros x y Hx Hy Ex Ey.
    apply String.eqb_eq in Ex. apply String.eqb_eq in Ey.
    unfold props in Hx, Hy.
    apply filter_In in Hx as [Hx _]. apply filter_In in Hy as [Hy _].
    apply (playerKey_market (JS.template (playerName x))
             (JS.template (playerName y))).
    + now apply Hplain.
    + now apply Hplain.
    + unfold playerKey in Ex, Ey. congruence.
Qed.

Lemma game_markets_NoDup (k : string) (its : list SelectionItem) :
  onePickPerMarket its ->
  NoDup (map marketType
           (filter (fun x => String.eqb (gameId x) k) its)).
Proof.
  unfold onePickPerMarket. intros H.
  apply (filter_NoDup_map marketOf
           (fun x => String.eqb (gameId x) k)) in H.
  assert (E : map marketOf (filter (fun x => String.eqb (gameId x) k) its)
              = map (pair k)
                  (map marketType
                     (filter (fun x => String.eqb (gameId x) k) its))).
  { rewrite map_map. apply map_ext_in. intros x Hx.
    apply filter_In in Hx as [_ Hx]. apply String.eqb_eq in Hx.
    unfold marketOf. now rewrite Hx. }
  rewrite E in H. now apply NoDup_map_inv in H.
Qed.

(** A slip with one pick per market per game and hyphen-free market types
    has no conflict. *)
Lemma getConflicts_nil (its : list SelectionItem) :
  onePickPerMarket its ->
  (forall x, In x its -> plainMarket x) ->
  getConflicts its = [].
Proof.
  intros Hone Hplain. unfold getConflicts.
  apply flat_map_nil. intros [k gs] Hin. simpl.
  apply (proj1 (entries_In _ _)) in Hin.
  destruct (groupBy_groups gameId its) as (_ & Hgrp & _).
  rewrite (Hgrp k gs Hin).
  apply gameConflicts_nil.
  - now apply game_markets_NoDup.
  - intros x Hx. apply filter_In in Hx as [Hx _]. now apply Hplain.
Qed.

(** Why the market types are taken without a hyphen: two picks on one
    game, on the market types "player_y" (player "A-player_x") and
    "player_x-player_y" (player "A"), are on different markets and have the
    same player key. *)
Example playerKey_collision :
  playerKey hyphenA = playerKey hyphenB
  /\ marketType hyphenA <> marketType hyphenB
  /\ plainMarket hyphenA /\ ~ plainMarket hyphenB.
Proof.
  split; [reflexivity|]. split; [discriminate|].
  split; [reflexivity|]. unfold plainMarket. simpl. discriminate.
Qed.

Lemma two_members {A : Type} (l : list A) (x y : A) :
  In x l -> In y l -> x <> y -> exists a b r, l = a :: b :: r.
Proof.
  destruct l as [|a [|b r]]; simpl; intros Hx Hy Hne.
  - contradiction.
  - destruct Hx as [<-|[]], Hy as [<-|[]]. now elim Hne.
  - now exists a, b, r.
Qed.

Lemma groupBy_entry {V : Type} (key : V -> string) (xs : list V) (x : V) :
  In x xs ->
  In (key x, filter (fun v => String.eqb (key v) (key x)) xs)
    (JS.entries (JS.groupBy key xs)).
Proof.
  intros Hx. apply entries_In.
  destruct (groupBy_groups key xs) as (_ & Hgrp & Hall).
  specialize (Hall x Hx). apply in_map_iff in Hall as ([k vs] & Hk & Hin).
  simpl in Hk. subst k. now rewrite <- (Hgrp _ _ Hin).
Qed.

(** Two different player-prop picks of one game under one player key, in
    particular an Over and an Under on the same prop of the same player,
    make the function report a player-prop conflict. *)
Lemma getConflicts_same_key (its : list SelectionItem)
    (x y : SelectionItem) :
  In x its -> In y its -> x <> y ->
  gameId x = gameId y ->
  isPlayerProp x = true -> isPlayerProp y = true ->
  playerKey x = playerKey y ->
  exists p, In (player_prop_conflict p) (getConflicts its).
Proof.
  intros Hx Hy Hne Hg Hpx Hpy Hk.
  set (gs := filter (fun v => String.eqb (gameId v) (gameId x)) its).
  set (props := filter (fun i => JS.startsWith "player_" (marketType i)) gs).
  set (vs := filter (fun v => String.eqb (playerKey v) (playerKey x)) props).
  assert (Hxv : In x vs).
  { unfold vs, props, gs. repeat (apply filter_In; split); trivial;
      apply String.eqb_refl. }
  assert (Hyv : In y vs).
  { unfold vs, props, gs. repeat (apply filter_In; split); trivial;
      apply String.eqb_eq; congruence. }
  destruct (two_members vs x y Hxv Hyv Hne) as (a & b & r & Hvs).
  exists a. unfold getConflicts. apply in_flat_map.
  exists (gameId x, gs). split; [now apply groupBy_entry|].
  simpl. unfold gameConflicts. fold props.
  apply in_or_app. right. apply in_or_app. right.
  apply in_flat_map. exists (playerKey x, vs). split.
  - apply groupBy_entry. unfold vs in Hxv. apply filter_In in Hxv. tauto.
  - unfold playerGroupConflicts. simpl. rewrite Hvs. now left.
Qed.

(** The player-prop branch counts the picks under one player key and does
    not read their sides: handed two Over picks on the points of one player
    in one game, at the lines 25.5 and 27.5 (a list the provider never
    holds, since the two picks are on one market), the function reports a
    player-prop conflict. *)
Example getConflicts_two_overs :
  getConflicts [lebronOver; lebronOverAlt] = [player_prop_conflict lebronOver]
  /\ existsb (fun i => JS.includes "Under" (selection i))
       [lebronOver; lebronOverAlt] = false
  /\ playerKey lebronOver = playerKey lebronOverAlt
  /\ gameId lebronOver = gameId lebronOverAlt.
Proof.
  repeat split.
Qed.

(** Two head-to-head picks on one game give exactly one conflict, of type
    h2h_conflict; an Over and an Under on one total give a total conflict;
    a head-to-head pick with a spread pick gives none. *)
Example getConflicts_examples :
  getConflicts [lakersH2H; celticsH2H] = [h2h_conflict]
  /\ getConflicts [overTotal; pick "total" "Under 220.5" 2 None None]
     = [total_conflict]
  /\ getConflicts [lebronOver; lebronUnder]
     = [player_prop_conflict lebronOver]
  /\ getConflicts [lakersH2H; lakersSpread; lebronOver] = [].
Proof.
  repeat split.
Qed.

End ConflictFacts.

(** ** Conflict detection through Object.prototype *)

Section PrototypeFacts.

Import BetSlip Samples ConflictViews.

(** No member of [Object.prototype] has a hyphen in its name. *)
Lemma inherited_hyphen (k : string) :
  Prototype.inherited k = true -> JS.includes "-" k = false.
Proof.
  unfold Prototype.inherited. intros H.
  apply existsb_exists in H as (n & Hin & E).
  apply String.eqb_eq in E. subst n. simpl in Hin.
  repeat (destruct Hin as [<-|Hin]; [reflexivity|]). contradiction.
Qed.

(** A player key is never the name of an inherited member. *)
Lemma playerKey_own (p : SelectionItem) :
  Prototype.inherited (playerKey p) = false.
Proof.
  destruct (Prototype.inherited (playerKey p)) eqn:E; [|reflexivity].
  apply inherited_hyphen in E. unfold playerKey in E.
  change ("-" ++ marketType p)%string with (String "-" (marketType p)) in E.
  rewrite includes_hyphen_app in E. discriminate E.
Qed.

Lemma push_keys {V : Type} (key : string) (v : V) (o : JS.obj (list V))
    (e : string * list V) :
  In e (JS.push key v o) -> fst e = key \/ In (fst e) (map fst o).
Proof.
  induction o as [|[k vs] r IH]; simpl.
  - intros [<-|[]]. now left.
  - destruct (String.eqb k key) eqn:E; simpl.
    + intros [<-|H]; simpl; [now right; left|].
      right. right. now apply in_map.
    + intros [<-|H]; simpl; [now right; left|].
      destruct (IH H); tauto.
Qed.

(** On an object none of whose own keys is an inherited name, the push
    raises exactly for an inherited key. *)
Lemma push_run {V : Type} (key : string) (v : V) (o : JS.obj (list V)) :
  (forall k, In k (map fst o) -> Prototype.inherited k = false) ->
  Prototype.push key v o
  = if Prototype.inherited key then None else Some (JS.push key v o).
Proof.
  intros Hown. unfold Prototype.push, Prototype.get.
  destruct (find (fun e => String.eqb (fst e) key) o) as [e|] eqn:F.
  - apply find_some in F as [Hin E]. apply String.eqb_eq in E.
    rewrite (Hown key); [reflexivity|].
    rewrite <- E. now apply in_map.
  - destruct (Prototype.inherited key); reflexivity.
Qed.

Lemma groupFrom_run {V : Type} (key : V -> string) (xs : list V)
    (o : JS.obj (list V)) :
  (forall k, In k (map fst o) -> Prototype.inherited k = false) ->
  Prototype.groupFrom key xs o
  = if existsb (fun x => Prototype.inherited (key x)) xs then None
    else Some (fold_left (fun o x => JS.push (key x) x o) xs o).
Proof.
  revert o. induction xs as [|x r IH]; intros o Hown; simpl.
  - reflexivity.
  - rewrite (push_run _ _ _ Hown).
    destruct (Prototype.inherited (key x)) eqn:E; simpl; [reflexivity|].
    apply IH. intros k Hk. apply in_map_iff in Hk as (e & <- & He).
    apply push_keys in He as [->|He]; [exact E | now apply Hown].
Qed.

(** The grouping loop raises exactly when some key is an inherited name,
    and otherwise builds the groups. *)
Lemma groupBy_run {V : Type} (key : V -> string) (xs : list V) :
  Prototype.groupBy key xs
  = if existsb (fun x => Prototype.inherited (key x)) xs then None
    else Some (JS.groupBy key xs).
Proof.
  unfold Prototype.groupBy, JS.groupBy. apply groupFrom_run.
  intros k [].
Qed.

Lemma gameConflicts_run (gs : list SelectionItem) :
  Conflicts.gameConflicts gs = Some (gameConflicts gs).
Proof.
  unfold Conflicts.gameConflicts, gameConflicts. cbv zeta.
  rewrite groupBy_run.
  assert (E : existsb (fun x => Prototype.inherited (playerKey x))
                (filter (fun i => JS.startsWith "player_" (marketType i)) gs)
              = false).
  { apply not_true_is_false. intros H.
    apply existsb_exists in H as (x & _ & Hx).
    rewrite playerKey_own in Hx. discriminate Hx. }
  rewrite E. reflexivity.
Qed.

Lemma eachGame_run (es : list (string * list SelectionItem))
    (acc : list Conflict) :
  Conflicts.eachGame es acc
  = Some (acc ++ flat_map (fun e => gameConflicts (snd e)) es).
Proof.
  revert acc. induction es as [|e r IH]; intros acc; simpl.
  - now rewrite app_nil_r.
  - rewrite gameConflicts_run, IH, app_assoc. reflexivity.
Qed.

(** [getConflicts] raises exactly when some game identifier names a member
    of [Object.prototype]; otherwise it returns the conflicts of the
    groups. *)
Lemma getConflicts_run (its : list SelectionItem) :
  Conflicts.getConflicts its
  = if ownGames its then Some (getConflicts its) else None.
Proof.
  unfold Conflicts.getConflicts, ownGames, getConflicts.
  rewrite groupBy_run.
  destruct (existsb (fun i => Prototype.inherited (gameId i)) its); simpl.
  - reflexivity.
  - now rewrite eachGame_run.
Qed.

Lemma prefix_cons (a : ascii) (p s : string) :
  String.prefix (String a p) s = true ->
  exists r, s = String a r /\ String.prefix p r = true.
Proof.
  destruct s as [|c r]; simpl; [discriminate|].
  destruct (ascii_dec a c) as [<-|]; [|discriminate].
  intros H. now exists r.
Qed.

Lemma prefix_over_under (p s : string) :
  String.prefix (p ++ " Over ") s = true ->
  String.prefix (p ++ " Under ") s = true ->
  False.
Proof.
  revert s. induction p as [|a p IH]; intros s Ho Hu.
  - change (EmptyString ++ " Over ")%string with " Over "%string in Ho.
    change (EmptyString ++ " Under ")%string with " Under "%string in Hu.
    apply prefix_cons in Ho as (r & -> & Ho).
    apply prefix_cons in Hu as (r' & E & Hu). inversion E; subst r'.
    apply prefix_cons in Ho as (r1 & -> & _).
    apply prefix_cons in Hu as (r2 & E2 & _). discriminate E2.
  - change (String a p ++ " Over ")%string
      with (String a (p ++ " Over ")) in Ho.
    change (String a p ++ " Under ")%string
      with (String a (p ++ " Under ")) in Hu.
    apply prefix_cons in Ho as (r & -> & Ho).
    apply prefix_cons in Hu as (r' & E & Hu). inversion E; subst r'.
    now apply (IH r).
Qed.

(** In a state built through the interface from market types without a
    hyphen, [getConflicts] returns the empty list unless a game identifier
    names a member of [Object.prototype], in which case it raises. *)
Lemma reachable_conflicts (st : State) :
  reachableVia plainMarket st ->
  onePickPerMarket (items st)
  /\ Conflicts.getConflicts (items st)
     = if ownGames (items st) then Some [] else None.
Proof.
  intros H.
  assert (Hone : onePickPerMarket (items st))
    by (eapply reachableVia_onePick; eassumption).
  split; [exact Hone|].
  rewrite getConflicts_run, getConflicts_nil; trivial.
  now apply reachableVia_items.
Qed.

(** C5.  A slip state reached by one [addSelection], of a head-to-head
    pick on a game whose identifier is "constructor", holds one selection
    per (gameId, marketType) pair, and [getConflicts] does not return the
    empty list on it: it raises a TypeError, so [hasConflict] is never
    computed. *)
Theorem getConflicts_inherited_game :
  reachableVia plainMarket (addSelection constructorH2H initial)
  /\ items (addSelection constructorH2H initial) = [constructorH2H]
  /\ onePickPerMarket (items (addSelection constructorH2H initial))
  /\ Prototype.get "constructor" ([] : JS.obj (list SelectionItem))
     = Prototype.Inherited
  /\ Conflicts.getConflicts (items (addSelection constructorH2H initial))
     = None
  /\ Conflicts.hasConflict (items (addSelection constructorH2H initial))
     = None.
Proof.
  assert (R : reachableVia plainMarket (addSelection constructorH2H initial))
    by (apply reach_add; [reflexivity | apply reach_initial]).
  split; [exact R|]. split; [reflexivity|].
  split; [apply (reachable_conflicts _ R)|].
  repeat split.
Qed.



End PrototypeFacts.

(** ** The settlement ledger *)

Section LedgerFacts.

Import Ledger Samples.

Lemma lt_true (a b : Q) : a < b -> JS.lt a b = true.
Proof.
  intros H. unfold JS.lt. apply negb_true_iff.
  apply not_true_is_false. intros E. apply Qle_bool_iff in E.
  now apply Qlt_not_le in H.
Qed.

Lemma lt_false (a b : Q) : b <= a -> JS.lt a b = false.
Proof.
  intros H. unfold JS.lt. apply negb_false_iff. now apply Qle_bool_iff.
Qed.

Variables (weekId leagueId userId displayName : string).

Local Abbreviation fresh :=
  (firstBalance weekId leagueId userId displayName).

Lemma getOrCreate_existing (s : Store) (wb : WeekBalance.t) :
  find (balanceOf weekId userId) (week_balances s) = Some wb ->
  getOrCreateUserBalance weekId leagueId userId displayName s
  = (Resolved wb, s).
Proof.
  intros H. unfold getOrCreateUserBalance, bind, fetchWeekBalances.
  now rewrite H.
Qed.

Lemma getOrCreate_absent (s : Store) :
  find (balanceOf weekId userId) (week_balances s) = None ->
  getOrCreateUserBalance weekId leagueId userId displayName s
  = (Resolved (fresh (nextId s)),
     mkStore (week_balances s ++ [fresh (nextId s)]) (bets s) (bet_legs s)
       (S (nextId s)) (clock s)).
Proof.
  intros H. unfold getOrCreateUserBalance, bind, fetchWeekBalances.
  now rewrite H.
Qed.

Lemma find_app_absent {A : Type} (p : A -> bool) (l : list A) (x : A) :
  find p l = None -> p x = true -> find p (l ++ [x]) = Some x.
Proof.
  induction l as [|y r IH]; simpl; intros H Hx.
  - now rewrite Hx.
  - destruct (p y); [discriminate | now apply IH].
Qed.

(** Whatever the branch, the document returned is the user's row of the
    store left behind, and no bet and no leg has been written. *)
Lemma getOrCreate_row (s s1 : Store) (wb : WeekBalance.t) :
  getOrCreateUserBalance weekId leagueId userId displayName s
  = (Resolved wb, s1) ->
  find (balanceOf weekId userId) (week_balances s1) = Some wb
  /\ bets s1 = bets s /\ bet_legs s1 = bet_legs s.
Proof.
  destruct (find (balanceOf weekId userId) (week_balances s)) as [d|] eqn:E.
  - rewrite (getOrCreate_existing s d E). intros H. inversion H; subst.
    tauto.
  - rewrite (getOrCreate_absent s E). intros H. inversion H; subst. simpl.
    repeat split. apply find_app_absent; [assumption|].
    unfold balanceOf, fresh. simpl. now rewrite !String.eqb_refl.
Qed.

Lemma forOf_legs (betId : nat) (its : list BetSlip.SelectionItem)
    (s : Store) :
  forOf its (fun item => createBetLeg (legOf betId item)) s
  = (Resolved tt,
     mkStore (week_balances s) (bets s)
       (bet_legs s ++ legsFrom betId its (nextId s))
       (nextId s + List.length its) (clock s)).
Proof.
  revert s. induction its as [|item r IH]; intros s; simpl.
  - unfold ret. rewrite app_nil_r, Nat.add_0_r. now destruct s.
  - unfold bind at 1. unfold createBetLeg at 1. rewrite IH. simpl.
    rewrite <- app_assoc. simpl. do 2 f_equal. lia.
Qed.

Lemma legsFrom_pending (betId : nat) (its : list BetSlip.SelectionItem)
    (id : nat) :
  Forall2 (pendingLegOf betId) (legsFrom betId its id) its.
Proof.
  revert id. induction its as [|item r IH]; intros id; simpl.
  - constructor.
  - constructor; [|apply IH]. unfold pendingLegOf, legOf. simpl. tauto.
Qed.

Lemma legsFrom_length (betId : nat) (its : list BetSlip.SelectionItem)
    (id : nat) :
  List.length (legsFrom betId its id) = List.length its.
Proof.
  revert id. induction its as [|item r IH]; intros id; simpl; auto.
Qed.

Lemma patchBalance_key (docId : nat) (b : Q) (n : Z) (d : WeekBalance.t) :
  balanceOf weekId userId (patchBalance docId b n d)
  = balanceOf weekId userId d.
Proof.
  unfold patchBalance.
  destruct (Nat.eqb (WeekBalance.id d) docId); reflexivity.
Qed.

Lemma patchBalance_hit (b : Q) (n : Z) (d : WeekBalance.t) :
  WeekBalance.balance (patchBalance (WeekBalance.id d) b n d) = b
  /\ WeekBalance.totalbets (patchBalance (WeekBalance.id d) b n d) = n.
Proof.
  unfold patchBalance. rewrite Nat.eqb_refl. split; reflexivity.
Qed.

(** Updating by identifier rewrites the user's row in place. *)
Lemma find_updated (l : list WeekBalance.t) (wb : WeekBalance.t)
    (b : Q) (n : Z) :
  find (balanceOf weekId userId) l = Some wb ->
  exists wb',
    find (balanceOf weekId userId)
      (map (patchBalance (WeekBalance.id wb) b n) l) = Some wb'
    /\ WeekBalance.balance wb' = b
    /\ WeekBalance.totalbets wb' = n.
Proof.
  induction l as [|y r IH]; simpl; intros H.
  - discriminate.
  - rewrite patchBalance_key.
    destruct (balanceOf weekId userId y) eqn:Ey.
    + inversion H; subst y.
      eexists. split; [reflexivity | apply patchBalance_hit].
    + now apply IH.
Qed.

(** C1.  When the user's row for the week holds less than the stake,
    [placeBet] rejects with "Insufficient balance" and the store is left as
    it was: the row keeps its balance and its totalbets, no bet and no leg
    is written.  When the user has no row yet and the stake exceeds the
    starting balance, the rejection is the same; the row of the first
    access, on the starting balance and with no bet counted, is all that has
    been written. *)
Theorem placeBet_insufficient (betSlip : Slip) (s : Store) :
  (forall wb,
      find (balanceOf weekId userId) (week_balances s) = Some wb ->
      WeekBalance.balance wb < stake betSlip ->
      placeBet betSlip userId leagueId weekId displayName s
      = (Rejected "Insufficient balance", s))
  /\ (find (balanceOf weekId userId) (week_balances s) = None ->
      STARTING_BALANCE < stake betSlip ->
      exists s',
        placeBet betSlip userId leagueId weekId displayName s
        = (Rejected "Insufficient balance", s')
        /\ week_balances s' = week_balances s ++ [fresh (nextId s)]
        /\ bets s' = bets s
        /\ bet_legs s' = bet_legs s).
Proof.
  split.
  - intros wb Hrow Hlt. unfold placeBet, bind.
    rewrite (getOrCreate_existing s wb Hrow).
    now rewrite (lt_true _ _ Hlt).
  - intros Hrow Hlt. unfold placeBet, bind.
    rewrite (getOrCreate_absent s Hrow).
    assert (E : JS.lt (WeekBalance.balance (fresh (nextId s)))
                  (stake betSlip) = true) by (apply lt_true; exact Hlt).
    rewrite E. eexists. split; [reflexivity|]. simpl. tauto.
Qed.

(** What a placement does once the balance document [wb] has been read
    and covers the stake. *)
Lemma placeBet_after_read (betSlip : Slip) (s s1 : Store)
    (wb : WeekBalance.t) :
  getOrCreateUserBalance weekId leagueId userId displayName s
  = (Resolved wb, s1) ->
  stake betSlip <= WeekBalance.balance wb ->
  exists bet s' wb',
    placeBet betSlip userId leagueId weekId displayName s
    = (Resolved bet, s')
    /\ find (balanceOf weekId userId) (week_balances s') = Some wb'
    /\ WeekBalance.balance wb' = WeekBalance.balance wb - stake betSlip
    /\ WeekBalance.totalbets wb' = (WeekBalance.totalbets wb + 1)%Z
    /\ bets s' = bets s ++ [bet]
    /\ Bet.status bet = "pending"%string
    /\ Bet.stake bet = stake betSlip
    /\ exists legs,
         bet_legs s' = bet_legs s ++ legs
         /\ List.length legs = List.length (items betSlip)
         /\ Forall2 (pendingLegOf (Bet.id bet)) legs (items betSlip).
Proof.
  intros Hread Hle.
  destruct (getOrCreate_row s s1 wb Hread) as (Hrow & Hb & Hl).
  destruct (find_updated (week_balances s1) wb
              (WeekBalance.balance wb - stake betSlip)
              (WeekBalance.totalbets wb + 1)%Z Hrow)
    as (wb' & Hfind & Hbal & Htot).
  unfold placeBet. unfold bind at 1. rewrite Hread.
  rewrite (lt_false _ _ Hle).
  unfold bind at 1. unfold now at 1.
  unfold bind at 1. unfold createBet at 1.
  unfold bind at 1. rewrite forOf_legs.
  unfold bind at 1. unfold updateWeekBalance at 1. unfold ret.
  simpl in Hfind |- *.
  do 3 eexists. split; [reflexivity|]. simpl.
  split; [exact Hfind|].
  split; [exact Hbal|]. split; [exact Htot|].
  split; [now rewrite Hb|]. split; [reflexivity|]. split; [reflexivity|].
  eexists. split; [now rewrite Hl|].
  split; [apply legsFrom_length | apply legsFrom_pending].
Qed.

(** C2.  For a slip of n >= 1 selections and a row of the user whose
    balance covers the stake, [placeBet] resolves; afterwards the row holds
    the previous balance minus the stake and one more bet, exactly one bet
    document has been written, with status pending, and exactly n leg
    documents, one per selection in order, each pointing to the bet and with
    result pending. *)
Theorem placeBet_succeeds (betSlip : Slip) (s : Store)
    (wb : WeekBalance.t) :
  (1 <= List.length (items betSlip))%nat ->
  find (balanceOf weekId userId) (week_balances s) = Some wb ->
  stake betSlip <= WeekBalance.balance wb ->
  exists bet s' wb',
    placeBet betSlip userId leagueId weekId displayName s
    = (Resolved bet, s')
    /\ find (balanceOf weekId userId) (week_balances s') = Some wb'
    /\ WeekBalance.balance wb' = WeekBalance.balance wb - stake betSlip
    /\ WeekBalance.totalbets wb' = (WeekBalance.totalbets wb + 1)%Z
    /\ bets s' = bets s ++ [bet]
    /\ Bet.status bet = "pending"%string
    /\ Bet.stake bet = stake betSlip
    /\ exists legs,
         bet_legs s' = bet_legs s ++ legs
         /\ List.length legs = List.length (items betSlip)
         /\ Forall2 (pendingLegOf (Bet.id bet)) legs (items betSlip).
Proof.
  intros _ Hrow Hle.
  apply (placeBet_after_read betSlip s s wb); [|assumption].
  now apply getOrCreate_existing.
Qed.

End LedgerFacts.

Section LedgerExamples.

Import Ledger Samples.

Lemma placeBet_insufficient_witness :
  placeBet slip100 "bob" "l1" "w1" "Bob" store0
  = (Rejected "Insufficient balance", store0)
  /\ exists s',
       placeBet slip2000 "cat" "l1" "w1" "Cat" store0
       = (Rejected "Insufficient balance", s')
       /\ week_balances s'
          = week_balances store0 ++ [firstBalance "w1" "l1" "cat" "Cat" 3]
       /\ bets s' = bets store0
       /\ bet_legs s' = bet_legs store0.
Proof.
  split.
  - destruct (placeBet_insufficient "w1" "l1" "bob" "Bob" slip100 store0)
      as [H _].
    apply (H (row 2 "bob" 50 0 9%Z None)); reflexivity.
  - destruct (placeBet_insufficient "w1" "l1" "cat" "Cat" slip2000 store0)
      as [_ H].
    apply H; reflexivity.
Defined.

Lemma placeBet_succeeds_witness :
  exists bet s' wb',
    placeBet slip100 "ann" "l1" "w1" "Ann" store0 = (Resolved bet, s')
    /\ find (balanceOf "w1" "ann") (week_balances s') = Some wb'
    /\ WeekBalance.balance wb' = 200 - 100
    /\ WeekBalance.totalbets wb' = (3 + 1)%Z
    /\ bets s' = bets store0 ++ [bet]
    /\ Bet.status bet = "pending"%string
    /\ Bet.stake bet = 100
    /\ exists legs,
         bet_legs s' = bet_legs store0 ++ legs
         /\ List.length legs = 2%nat
         /\ Forall2 (pendingLegOf (Bet.id bet)) legs (items slip100).
Proof.
  apply (placeBet_succeeds "w1" "l1" "ann" "Ann" slip100 store0
           (row 1 "ann" 200 0 3%Z None)).
  - simpl. lia.
  - reflexivity.
  - vm_compute. discriminate.
Defined.

(** The example of the specification: a stake of 100 against a balance of
    200 leaves 100. *)
Example placeBet_example :
  let (r, s') := placeBet slip100 "ann" "l1" "w1" "Ann" store0 in
  (exists bet, r = Resolved bet)
  /\ map (fun b => (WeekBalance.userid b,
                    Qred (WeekBalance.balance b),
                    WeekBalance.totalbets b)) (week_balances s')
     = [("ann"%string, 100, 4%Z); ("bob"%string, 50, 9%Z)]
  /\ List.length (bets s') = 1%nat
  /\ List.length (bet_legs s') = 2%nat.
Proof.
  vm_compute. split; [eexists; reflexivity | repeat split].
Qed.

End LedgerExamples.

(** ** Sorting *)

Section SortFacts.

Context {A : Type}.
Variable cmp : A -> A -> Q.

Lemma sortInsert_perm (x : A) (l : list A) :
  Permutation (x :: l) (JS.sortInsert cmp x l).
Proof.
  induction l as [|y r IH]; simpl.
  - apply Permutation_refl.
  - destruct (Qle_bool (cmp x y) 0).
    + apply Permutation_refl.
    + apply perm_trans with (y :: x :: r); [apply perm_swap|].
      now apply perm_skip.
Qed.

Lemma sort_perm (l : list A) : Permutation l (JS.sort cmp l).
Proof.
  induction l as [|x r IH]; simpl.
  - apply perm_nil.
  - apply perm_trans with (x :: JS.sort cmp r).
    + now apply perm_skip.
    + apply sortInsert_perm.
Qed.

Lemma sort_In (l : list A) (x : A) : In x (JS.sort cmp l) <-> In x l.
Proof.
  split; apply Permutation_in;
    [apply Permutation_sym|]; apply sort_perm.
Qed.

(** The sort orders by any transitive relation [R] that the comparator
    decides on the elements at hand. *)
Variable R : A -> A -> Prop.
Variable D : A -> Prop.

Hypothesis R_trans :
  forall x y z, D x -> D y -> D z -> R x y -> R y z -> R x z.
Hypothesis cmp_le :
  forall x y, D x -> D y -> Qle_bool (cmp x y) 0 = true -> R x y.
Hypothesis cmp_gt :
  forall x y, D x -> D y -> Qle_bool (cmp x y) 0 = false -> R y x.

Lemma sortInsert_sorted (x : A) (l : list A) :
  D x -> Forall D l ->
  StronglySorted R l -> StronglySorted R (JS.sortInsert cmp x l).
Proof.
  intros Dx Dl Hs. induction Hs as [|y r Hr IH Hy]; simpl.
  - repeat constructor.
  - inversion Dl as [|? ? Dy Dr]; subst.
    destruct (Qle_bool (cmp x y) 0) eqn:E.
    + constructor; [constructor; assumption|].
      constructor; [now apply cmp_le|].
      rewrite Forall_forall in *. intros z Hz.
      apply (R_trans x y z); auto.
    + constructor; [now apply IH|].
      rewrite Forall_forall. intros z Hz.
      apply (Permutation_in _ (Permutation_sym (sortInsert_perm x r))) in Hz.
      destruct Hz as [<-|Hz].
      * now apply cmp_gt.
      * rewrite Forall_forall in Hy. now apply Hy.
Qed.

Lemma sort_sorted (l : list A) :
  Forall D l -> StronglySorted R (JS.sort cmp l).
Proof.
  induction l as [|x r IH]; simpl; intros Dl.
  - constructor.
  - inversion Dl as [|? ? Dx Dr]; subst.
    apply sortInsert_sorted; trivial.
    + apply Forall_forall. intros z Hz.
      rewrite Forall_forall in Dr. apply Dr.
      exact (proj1 (sort_In _ _) Hz).
    + now apply IH.
Qed.

End SortFacts.

Lemma sort_ext {A : Type} (cmp cmp' : A -> A -> Q) (l : list A) :
  (forall x y, cmp x y = cmp' x y) -> JS.sort cmp l = JS.sort cmp' l.
Proof.
  intros H. induction l as [|x r IH]; simpl.
  - reflexivity.
  - rewrite IH. generalize (JS.sort cmp' r). intros m.
    induction m as [|y m IHm]; simpl.
    + reflexivity.
    + now rewrite H, IHm.
Qed.

(** The sort is stable: of two elements that compare equal the one fetched
    first stays first. *)
Example sort_stable :
  JS.sort (fun a b : Z * string => inject_Z (fst b - fst a))
    [(1%Z, "a"%string); (3%Z, "b"%string); (1%Z, "c"%string);
     (3%Z, "d"%string); (2%Z, "e"%string)]
  = [(3%Z, "b"%string); (3%Z, "d"%string); (2%Z, "e"%string);
     (1%Z, "a"%string); (1%Z, "c"%string)].
Proof.
  reflexivity.
Qed.

Section MapiFacts.

Context {A B : Type}.

Lemma mapFrom_nth (f : A -> Z -> B) (l : list A) (i : Z) (k : nat) (b : B) :
  nth_error (JS.mapFrom f l i) k = Some b ->
  exists a, nth_error l k = Some a /\ b = f a (i + Z.of_nat k)%Z.
Proof.
  revert i k. induction l as [|x r IH]; intros i k H.
  - destruct k; discriminate.
  - destruct k as [|k]; simpl in H.
    + inversion H; subst. exists x. split; [reflexivity|].
      f_equal. simpl. lia.
    + destruct (IH _ _ H) as (a & Ha & ->). exists a. split; [exact Ha|].
      f_equal. lia.
Qed.

Lemma mapFrom_map (g : B -> A) (f : A -> Z -> B) (l : list A) (i : Z) :
  (forall a j, g (f a j) = a) -> map g (JS.mapFrom f l i) = l.
Proof.
  intros H. revert i. induction l as [|x r IH]; intros i; simpl.
  - reflexivity.
  - now rewrite H, IH.
Qed.

End MapiFacts.

(** ** The weekly leaderboard *)

Section LeaderboardFacts.

Import Ledger Samples.

Lemma Qeq_bool_minus (x y : Q) : Qeq_bool (x - y) 0 = Qeq_bool x y.
Proof.
  destruct (Qeq_bool x y) eqn:E.
  - apply Qeq_bool_iff in E. apply Qeq_bool_iff. lra.
  - apply not_true_is_false. intros H. apply Qeq_bool_iff in H.
    apply Qeq_bool_neq in E. apply E. lra.
Qed.

(** The two revisions of the comparator agree. *)
Lemma compareBalances0_same (a b : WeekBalance.t) :
  compareBalances0 a b = compareBalances a b.
Proof.
  unfold compareBalances0, compareBalances. cbv zeta.
  now rewrite !Qeq_bool_minus.
Qed.

(** Both revisions of the service compute the same leaderboard. *)
Lemma getLeaderboard0_same (weekId : string) (s : Store) :
  getLeaderboard0 weekId s = getLeaderboard weekId s.
Proof.
  unfold getLeaderboard0, getLeaderboard, bind, fetchWeekBalances, ret.
  now rewrite (sort_ext compareBalances0 compareBalances _
                 compareBalances0_same).
Qed.

Lemma inject_Z_le0 (x y : Z) : inject_Z (x - y) <= 0 <-> (x <= y)%Z.
Proof.
  change 0 with (inject_Z 0). rewrite <- Zle_Qle. lia.
Qed.

Lemma compareBalances_le (a b : WeekBalance.t) :
  Qle_bool (compareBalances a b) 0 = true <-> ranksBefore a b.
Proof.
  rewrite Qle_bool_iff. unfold compareBalances, ranksBefore. cbv zeta.
  destruct (Qeq_bool (WeekBalance.balance b - WeekBalance.balance a) 0)
    eqn:E1; simpl.
  - apply Qeq_bool_iff in E1.
    destruct (Qeq_bool (WeekBalance.highestwinpayout b
                        - WeekBalance.highestwinpayout a) 0) eqn:E2; simpl.
    + apply Qeq_bool_iff in E2.
      destruct (WeekBalance.lastwintime a) as [ta|],
               (WeekBalance.lastwintime b) as [tb|].
      * rewrite inject_Z_le0. split.
        -- intros H. right. split; [lra|]. right. split; [lra|].
           intros ta' tb' Ha Hb. inversion Ha. inversion Hb. now subst.
        -- intros [H|[_ [H|[_ H]]]]; [lra | lra | now apply H].
      * split; [|lra]. intros _. right. split; [lra|]. right.
        split; [lra|]. intros; discriminate.
      * split; [|lra]. intros _. right. split; [lra|]. right.
        split; [lra|]. intros; discriminate.
      * split; [|lra]. intros _. right. split; [lra|]. right.
        split; [lra|]. intros; discriminate.
    + apply Qeq_bool_neq in E2. split.
      * intros H. right. split; [lra|]. left.
        apply Qle_lteq in H as [H|H]; [lra | contradiction].
      * intros [H|[_ [H|[H _]]]]; [lra | lra | exfalso; apply E2; lra].
  - apply Qeq_bool_neq in E1. split.
    + intros H. left. apply Qle_lteq in H as [H|H]; [lra | contradiction].
    + intros [H|[H _]]; [lra | exfalso; apply E1; lra].
Qed.

Lemma compareBalances_gt (a b : WeekBalance.t) :
  Qle_bool (compareBalances a b) 0 = false -> ranksBefore b a.
Proof.
  intros H.
  assert (Hpos : 0 < compareBalances a b).
  { apply Qnot_le_lt. intros Hle. apply Qle_bool_iff in Hle. congruence. }
  clear H. unfold compareBalances, ranksBefore in *. cbv zeta in Hpos.
  destruct (Qeq_bool (WeekBalance.balance b - WeekBalance.balance a) 0)
    eqn:E1; simpl in Hpos.
  - apply Qeq_bool_iff in E1.
    destruct (Qeq_bool (WeekBalance.highestwinpayout b
                        - WeekBalance.highestwinpayout a) 0) eqn:E2;
      simpl in Hpos.
    + apply Qeq_bool_iff in E2.
      destruct (WeekBalance.lastwintime a) as [ta|],
               (WeekBalance.lastwintime b) as [tb|]; try lra.
      right. split; [lra|]. right. split; [lra|].
      intros tb' ta' Hb Ha. inversion Ha. inversion Hb. subst.
      assert (~ (ta' <= tb')%Z).
      { intros Hle. apply inject_Z_le0 in Hle. lra. }
      lia.
    + right. split; [lra|]. left. lra.
  - left. lra.
Qed.

Lemma ranksBefore_money (a b : WeekBalance.t) :
  ranksBefore a b -> aheadOnMoney a b.
Proof.
  unfold ranksBefore, aheadOnMoney.
  intros [H|[H1 [H|[H _]]]]; [now left | right; split; lra
                              | right; split; lra].
Qed.

Lemma aheadOnMoney_trans (a b c : WeekBalance.t) :
  aheadOnMoney a b -> aheadOnMoney b c -> aheadOnMoney a c.
Proof.
  unfold aheadOnMoney.
  intros [H1|[H1 H1']] [H2|[H2 H2']];
    [left; lra | left; lra | left; lra | right; split; lra].
Qed.

(** With uniform ties the relation the comparator decides is transitive. *)
Lemma ranksBefore_trans (l : list WeekBalance.t) (a b c : WeekBalance.t) :
  uniformTies l -> In a l -> In b l -> In c l ->
  ranksBefore a b -> ranksBefore b c -> ranksBefore a c.
Proof.
  intros Hu Ha Hb Hc Hab Hbc. unfold ranksBefore in *.
  destruct Hab as [Hab|[Eab Hab]]; [left; destruct Hbc as [?|[? _]]; lra|].
  destruct Hbc as [Hbc|[Ebc Hbc]]; [left; lra|].
  right. split; [lra|].
  destruct Hab as [Hab|[Pab Hab]]; [left; destruct Hbc as [?|[? _]]; lra|].
  destruct Hbc as [Hbc|[Pbc Hbc]]; [left; lra|].
  right. split; [lra|].
  intros ta tc Hta Htc.
  assert (Hsame : hasLastWin a = hasLastWin b).
  { apply Hu; trivial. split; lra. }
  unfold hasLastWin in Hsame. rewrite Hta in Hsame.
  destruct (WeekBalance.lastwintime b) as [tb|] eqn:Htb; [|discriminate].
  pose proof (Hab ta tb Hta eq_refl).
  pose proof (Hbc tb tc eq_refl Htc). lia.
Qed.

Lemma getLeaderboard_run (weekId : string) (s : Store) :
  getLeaderboard weekId s
  = (Resolved
       (JS.mapi (fun b i => mkRanked b (i + 1)%Z)
          (JS.sort compareBalances
             (filter (fun b => String.eqb (WeekBalance.weekid b) weekId)
                (week_balances s)))),
     s).
Proof.
  reflexivity.
Qed.

(** C6, as stated, fails when a row without a last win stands between two
    rows that have one.  The three rows below are tied on balance and payout;
    the comparator returns 0 for each neighbouring pair, so the order of the
    fetch is kept and "early", whose last win is the earliest, is ranked
    after "late". *)
Lemma getLeaderboard_counterexample :
  getLeaderboard "w1" storeTies
  = (Resolved [mkRanked late 1; mkRanked never 2; mkRanked early 3],
     storeTies)
  /\ tied late early
  /\ WeekBalance.lastwintime late = Some 2000%Z
  /\ WeekBalance.lastwintime early = Some 1000%Z
  /\ ~ ranksBefore late early.
Proof.
  split; [reflexivity|]. split; [split; reflexivity|].
  split; [reflexivity|]. split; [reflexivity|].
  intros H. apply compareBalances_le in H. vm_compute in H. discriminate.
Qed.

(** C6, amended.  The weekly leaderboard lists exactly the rows of the week,
    each with rank = its 1-based position, ordered by balance descending and
    then by highestWinPayout descending.  When the rows tied on both either
    all have a last win or none has, rows tied on both are moreover in
    ascending order of last win.  For A on 1200, B on 1200 with the higher
    payout and C on 900 the order is B, A, C. *)
Theorem getLeaderboard_ranking (weekId : string) (s : Store) :
  exists board,
    getLeaderboard weekId s = (Resolved board, s)
    /\ Permutation (map entry board)
         (filter (fun b => String.eqb (WeekBalance.weekid b) weekId)
            (week_balances s))
    /\ (forall k r, nth_error board k = Some r -> rank r = (Z.of_nat k + 1)%Z)
    /\ StronglySorted aheadOnMoney (map entry board)
    /\ (uniformTies
          (filter (fun b => String.eqb (WeekBalance.weekid b) weekId)
             (week_balances s)) ->
        StronglySorted ranksBefore (map entry board))
    /\ getLeaderboard "w1" storeABC
       = (Resolved [mkRanked rowB 1; mkRanked rowA 2; mkRanked rowC 3],
          storeABC).
Proof.
  eexists. split; [apply getLeaderboard_run|].
  set (rows := filter (fun b => String.eqb (WeekBalance.weekid b) weekId)
                 (week_balances s)).
  unfold JS.mapi.
  rewrite (mapFrom_map entry) by reflexivity.
  split; [apply Permutation_sym, sort_perm|].
  split.
  { intros k r H. apply mapFrom_nth in H as (a & _ & ->). simpl. lia. }
  split.
  { apply (sort_sorted compareBalances aheadOnMoney (fun _ => True)).
    - intros x y z _ _ _. apply aheadOnMoney_trans.
    - intros x y _ _ H. now apply ranksBefore_money, compareBalances_le.
    - intros x y _ _ H. now apply ranksBefore_money, compareBalances_gt.
    - apply Forall_forall. trivial. }
  split; [|reflexivity].
  intros Hu.
  apply (sort_sorted compareBalances ranksBefore (fun x => In x rows)).
  - intros x y z Hx Hy Hz. now apply (ranksBefore_trans rows).
  - intros x y _ _ H. now apply compareBalances_le.
  - intros x y _ _ H. now apply compareBalances_gt.
  - apply Forall_forall. trivial.
Qed.

Lemma getLeaderboard_ranking_witness :
  exists board,
    getLeaderboard "w1" storeABC = (Resolved board, storeABC)
    /\ StronglySorted ranksBefore (map entry board).
Proof.
  destruct (getLeaderboard_ranking "w1" storeABC)
    as (board & Hrun & _ & _ & _ & Hsorted & _).
  exists board. split; [exact Hrun|].
  apply Hsorted. intros a b Ha Hb [Hbal Hpay].
  simpl in Ha, Hb.
  destruct Ha as [<-|[<-|[<-|[]]]], Hb as [<-|[<-|[<-|[]]]];
    try reflexivity; vm_compute in Hbal, Hpay; discriminate.
Defined.

End LeaderboardFacts.

(** ** Dates and the weekly period *)

Section DateFacts.

Import JSDate.
Local Open Scope Z_scope.

Lemma DayFromYear_bounds (y : Z) :
  146097 * (y - 1970) - 506 <= 400 * DayFromYear y
  <= 146097 * (y - 1970) + 589.
Proof.
  unfold DayFromYear.
  pose proof (Z.div_mod (y - 1969) 4 ltac:(lia)).
  pose proof (Z.mod_pos_bound (y - 1969) 4 ltac:(lia)).
  pose proof (Z.div_mod (y - 1901) 100 ltac:(lia)).
  pose proof (Z.mod_pos_bound (y - 1901) 100 ltac:(lia)).
  pose proof (Z.div_mod (y - 1601) 400 ltac:(lia)).
  pose proof (Z.mod_pos_bound (y - 1601) 400 ltac:(lia)).
  lia.
Qed.

(** [YearFromDay] meets its specification: the year found is the largest
    one that begins on or before the day. *)
Lemma YearFromDay_spec (d : Z) :
  DayFromYear (YearFromDay d) <= d < DayFromYear (YearFromDay d + 1).
Proof.
  unfold YearFromDay.
  set (y := 1970 + 400 * d / 146097).
  pose proof (DayFromYear_bounds (y + 1 + 1)) as Hup.
  pose proof (DayFromYear_bounds (y - 1)) as Hdown.
  pose proof (Z.div_mod (400 * d) 146097 ltac:(lia)) as Hdiv.
  pose proof (Z.mod_pos_bound (400 * d) 146097 ltac:(lia)) as Hmod.
  destruct (DayFromYear (y + 1) <=? d) eqn:E1.
  - apply Z.leb_le in E1. split; [exact E1|]. subst y. lia.
  - apply Z.leb_gt in E1.
    destruct (DayFromYear y <=? d) eqn:E2.
    + apply Z.leb_le in E2. lia.
    + apply Z.leb_gt in E2. replace (y - 1 + 1) with y by lia.
      split; [|exact E2]. subst y. lia.
Qed.

Lemma TimeWithinDay_range (t : Z) : 0 <= TimeWithinDay t < msPerDay.
Proof.
  unfold TimeWithinDay, msPerDay. apply Z.mod_pos_bound. lia.
Qed.

Lemma Day_MakeDate (d time : Z) :
  0 <= time < msPerDay ->
  Day (MakeDate d time) = d /\ TimeWithinDay (MakeDate d time) = time.
Proof.
  unfold Day, TimeWithinDay, MakeDate, msPerDay. intros H. split.
  - rewrite Z.add_comm, Z.div_add by lia. rewrite Z.div_small by lia. lia.
  - rewrite Z.add_comm, Z.mod_add by lia. apply Z.mod_small. lia.
Qed.

Lemma MonthFromTime_range (t : Z) : 0 <= MonthFromTime t <= 11.
Proof.
  unfold MonthFromTime. cbv zeta.
  repeat match goal with
         | |- context [if ?c then _ else _] => destruct c
         end; lia.
Qed.

(** Setting the day of the month moves the date by whole days and keeps the
    time of day. *)
Lemma setDate_shift (t date : Z) :
  Day (setDate t date) = Day t + (date - getDate t)
  /\ TimeWithinDay (setDate t date) = TimeWithinDay t.
Proof.
  unfold setDate.
  destruct (Day_MakeDate
              (MakeDay (YearFromTime t) (MonthFromTime t) date)
              (TimeWithinDay t) (TimeWithinDay_range t)) as [Hd Ht].
  split; [|exact Ht]. rewrite Hd.
  pose proof (MonthFromTime_range t) as Hm.
  unfold MakeDay, getDate, DateFromTime, DayWithinYear. cbv zeta.
  rewrite (Z.div_small (MonthFromTime t) 12) by lia.
  rewrite (Z.mod_small (MonthFromTime t) 12) by lia.
  rewrite Z.add_0_r. lia.
Qed.

Lemma setHours_day (t h m sec ms : Z) :
  0 <= MakeTime h m sec ms < msPerDay ->
  Day (setHours t h m sec ms) = Day t
  /\ TimeWithinDay (setHours t h m sec ms) = MakeTime h m sec ms.
Proof.
  intros H. unfold setHours. now apply Day_MakeDate.
Qed.

End DateFacts.

Section SchedulerFacts.

Import JSDate Scheduler.
Local Open Scope Z_scope.

(** C10.  At every evaluation instant the computed week starts at local
    midnight of the most recent Tuesday (the Tuesday of today or of one of
    the six days before) and ends six days later at 23:59:59.999, so the
    instant lies in the week; and two evaluations at the same instant give
    the same week number and season year. *)
Theorem getWeekBounds_week (wall : Z) :
  let now := getAESTDate wall in
  let startDate := fst (getWeekBounds wall) in
  let endDate := snd (getWeekBounds wall) in
  WeekDay startDate = Tuesday
  /\ TimeWithinDay startDate = 0
  /\ Day now - 6 <= Day startDate <= Day now
  /\ Day endDate = Day startDate + 6
  /\ TimeWithinDay endDate = msPerDay - 1
  /\ endDate - startDate = 7 * msPerDay - 1
  /\ startDate <= now <= endDate
  /\ (forall wall',
        wall' = wall ->
        weekNumber (currentWeek wall') = weekNumber (currentWeek wall)
        /\ seasonYear (currentWeek wall') = seasonYear (currentWeek wall)
        /\ startDate = Scheduler.startDate (currentWeek wall')
        /\ endDate = Scheduler.endDate (currentWeek wall')).
Proof.
  cbv zeta. unfold getWeekBounds. cbv zeta. cbn [fst snd].
  remember (getAESTDate wall) as now eqn:Enow.
  remember (Z.rem (getDay now + 5) 7) as k eqn:Ek.
  remember (setDate now (getDate now - k)) as moved eqn:Emoved.
  remember (setHours moved 0 0 0 0) as startDate eqn:Estart.
  remember (setDate startDate (getDate startDate + 6)) as moved' eqn:Emoved'.
  remember (setHours moved' 23 59 59 999) as endDate eqn:Eend.
  assert (Hw : 0 <= getDay now < 7)
    by (unfold getDay, WeekDay; apply Z.mod_pos_bound; lia).
  assert (Hk : k = (getDay now + 5) mod 7)
    by (rewrite Ek; apply Z.rem_mod_nonneg; lia).
  pose proof (Z.mod_pos_bound (getDay now + 5) 7 ltac:(lia)) as Hk6.
  rewrite <- Hk in Hk6.
  destruct (setDate_shift now (getDate now - k)) as [Hmd _].
  rewrite <- Emoved in Hmd.
  destruct (setHours_day moved 0 0 0 0) as [Hsd Hst];
    [unfold MakeTime, msPerDay; lia|].
  rewrite <- Estart in Hsd, Hst.
  destruct (setDate_shift startDate (getDate startDate + 6)) as [Hmd' _].
  rewrite <- Emoved' in Hmd'.
  destruct (setHours_day moved' 23 59 59 999) as [Hed Het];
    [unfold MakeTime, msPerDay; lia|].
  rewrite <- Eend in Hed, Het.
  assert (Hstart : Day startDate = Day now - k) by lia.
  assert (Hend : Day endDate = Day startDate + 6) by lia.
  assert (Htime : TimeWithinDay endDate = msPerDay - 1)
    by (rewrite Het; reflexivity).
  assert (Hdecomp : forall t, t = Day t * msPerDay + TimeWithinDay t).
  { intros t. unfold Day, TimeWithinDay, msPerDay.
    rewrite Z.mul_comm. apply Z.div_mod. lia. }
  pose proof (TimeWithinDay_range now) as Hnow.
  pose proof (Hdecomp now) as Dn.
  pose proof (Hdecomp startDate) as Ds.
  pose proof (Hdecomp endDate) as De.
  change (MakeTime 0 0 0 0) with 0 in Hst.
  split.
  { unfold WeekDay, Tuesday. rewrite Hstart, Hk.
    unfold getDay, WeekDay.
    pose proof (Z.div_mod (Day now + 4) 7 ltac:(lia)).
    pose proof (Z.mod_pos_bound (Day now + 4) 7 ltac:(lia)).
    pose proof (Z.div_mod ((Day now + 4) mod 7 + 5) 7 ltac:(lia)).
    pose proof (Z.mod_pos_bound ((Day now + 4) mod 7 + 5) 7 ltac:(lia)).
    pose proof (Z.div_mod
                  (Day now - ((Day now + 4) mod 7 + 5) mod 7 + 4) 7
                  ltac:(lia)).
    pose proof (Z.mod_pos_bound
                  (Day now - ((Day now + 4) mod 7 + 5) mod 7 + 4) 7
                  ltac:(lia)).
    lia. }
  split; [exact Hst|].
  split; [lia|].
  split; [exact Hend|].
  split; [exact Htime|].
  unfold msPerDay in *.
  split; [lia|].
  split; [lia|].
  intros wall' ->. unfold currentWeek, getWeekBounds. cbv zeta.
  cbn [weekNumber seasonYear Scheduler.startDate Scheduler.endDate].
  subst. split; [reflexivity|]. split; [reflexivity|].
  split; reflexivity.
Qed.

Lemma getWeekBounds_week_witness :
  weekNumber (currentWeek 1729990923123) = 1
  /\ seasonYear (currentWeek 1729990923123) = 2025
  /\ fst (getWeekBounds 1729990923123)
     = Scheduler.startDate (currentWeek 1729990923123)
  /\ snd (getWeekBounds 1729990923123)
     = Scheduler.endDate (currentWeek 1729990923123).
Proof.
  destruct (getWeekBounds_week 1729990923123)
    as (_ & _ & _ & _ & _ & _ & _ & H).
  apply (H 1729990923123). reflexivity.
Defined.

(** Sunday 2024-10-27 01:02:03.123 in Sydney: the week runs from Tuesday
    2024-10-22 00:00:00.000 to Monday 2024-10-28 23:59:59.999, and is week 1
    of the season that ends in 2025. *)
Example currentWeek_example :
  currentWeek 1729990923123 = mkWeek 1 2025 1729555200000 1730159999999.
Proof.
  reflexivity.
Qed.

End SchedulerFacts.

(** * Further properties *)

(** ** The slip: state space, selection marks, removal *)

Section SlipMore.

Import BetSlip SlipViews Samples.

Lemma addItem_new_market (sel : SelectionItem) (prev : list SelectionItem) :
  (forall y, In y prev -> sameMarket sel y = false) ->
  addItem sel prev = prev ++ [sel].
Proof.
  intros H. rewrite addItem_fresh.
  - f_equal. apply filter_all. intros y Hy. now rewrite (H y Hy).
  - apply not_true_is_false. intros E.
    apply existsb_exists in E as (y & Hy & Hs).
    apply sameSelection_sameMarket in Hs. rewrite (H y Hy) in Hs.
    discriminate.
Qed.

(** X1.  The slips the interface can produce are exactly the slips with at
    most one pick per market per game, whatever the stake. *)
Theorem reachable_iff_onePick (st : State) :
  reachable st <-> onePickPerMarket (items st).
Proof.
  split; [apply reachableVia_onePick|].
  destruct st as [l q]. simpl. revert q.
  induction l as [|x l IH] using rev_ind; intros q Hone.
  - exact (reach_stake _ q initial (reach_initial _)).
  - unfold onePickPerMarket in Hone. rewrite map_app in Hone. simpl in Hone.
    pose proof (NoDup_remove_1 _ _ _ Hone) as Hl.
    pose proof (NoDup_remove_2 _ _ _ Hone) as Hx.
    rewrite !app_nil_r in *.
    replace (mkState (l ++ [x]) q) with (addSelection x (mkState l q)).
    + apply reach_add; [exact I | now apply IH].
    + unfold addSelection. simpl. f_equal. apply addItem_new_market.
      intros y Hy. apply not_true_is_false. intros Hm.
      apply sameMarket_iff in Hm. apply Hx. rewrite <- Hm.
      now apply in_map.
Qed.

Lemma reachable_iff_onePick_witness :
  reachable (mkState [lakersH2H; lakersSpread; lebronOver] 25).
Proof.
  apply (reachable_iff_onePick
           (mkState [lakersH2H; lakersSpread; lebronOver] 25)).
  unfold onePickPerMarket. simpl.
  repeat constructor; simpl; intuition discriminate.
Defined.

End SlipMore.

Section SlipMarks.

Import BetSlip SlipViews Samples.

Lemma isSelected_occurrences (sel : SelectionItem) (st : State) :
  isSelected (gameId sel) (marketType sel) (selection sel) st
  = negb (Nat.eqb (occurrences sel (items st)) 0).
Proof.
  unfold isSelected, occurrences.
  change (fun item : SelectionItem =>
            String.eqb (gameId item) (gameId sel)
            && String.eqb (marketType item) (marketType sel)
            && String.eqb (selection item) (selection sel))
    with (sameSelection sel).
  induction (items st) as [|y r IH]; simpl.
  - reflexivity.
  - destruct (sameSelection sel y); simpl; [reflexivity | exact IH].
Qed.

Lemma occurrences_single (t x : SelectionItem) :
  occurrences t [x] = if sameSelection t x then 1%nat else 0%nat.
Proof.
  unfold occurrences. simpl. now destruct (sameSelection t x).
Qed.

Lemma onePick_occurrences (sel : SelectionItem) (its : list SelectionItem) :
  onePickPerMarket its -> (occurrences sel its <= 1)%nat.
Proof.
  intros H. unfold occurrences.
  apply (NoDup_map_filter_le1 marketOf); [exact H|].
  intros x y _ _ Hx Hy.
  apply sameSelection_iff in Hx as [Hx _].
  apply sameSelection_iff in Hy as [Hy _]. congruence.
Qed.

Lemma occurrences_addItem (sel : SelectionItem) (its : list SelectionItem) :
  occurrences sel (addItem sel its)
  = match occurrences sel its with
    | O => 1%nat
    | S n => n
    end.
Proof.
  destruct (existsb (sameSelection sel) its) eqn:E.
  - destruct (addItem_found _ _ E) as (l1 & x & l2 & -> & H1 & Hx & ->).
    apply existsb_occurrences in H1.
    rewrite !occurrences_app. change (x :: l2) with ([x] ++ l2).
    rewrite occurrences_app, H1, occurrences_single, Hx. reflexivity.
  - rewrite (addItem_fresh _ _ E), occurrences_app.
    rewrite occurrences_other_market
      by (apply sameSelection_iff; split; reflexivity).
    apply existsb_occurrences in E. rewrite E, occurrences_single.
    assert (Hs : sameSelection sel sel = true)
      by (apply sameSelection_iff; split; reflexivity).
    now rewrite Hs.
Qed.

(** X2.  In a slip built through the interface, [addSelection] toggles the
    mark of the selection it is given, clears the mark of every other
    selection string on the same market of the same game, and leaves the
    marks on other markets as they were. *)
Theorem isSelected_addSelection (st : State) (sel : SelectionItem)
    (g m s : string) :
  reachable st ->
  isSelected g m s (addSelection sel st)
  = if String.eqb g (gameId sel) && String.eqb m (marketType sel)
    then
      if String.eqb s (selection sel)
      then negb (isSelected g m s st)
      else false
    else isSelected g m s st.
Proof.
  intros Hreach. pose proof (reachableVia_onePick _ _ Hreach) as Hone.
  pose (t := mkSelection g EmptyString EmptyString m s 0 None None).
  assert (Ht : forall st', isSelected g m s st'
                           = negb (Nat.eqb (occurrences t (items st')) 0))
    by (intros st'; apply (isSelected_occurrences t)).
  destruct (String.eqb g (gameId sel) && String.eqb m (marketType sel))
    eqn:Emarket.
  - apply andb_true_iff in Emarket as [Eg Em].
    apply String.eqb_eq in Eg. apply String.eqb_eq in Em.
    destruct (String.eqb s (selection sel)) eqn:Es.
    + apply String.eqb_eq in Es.
      assert (Hsame : forall l, occurrences t l = occurrences sel l).
      { intros l. unfold occurrences. f_equal. apply filter_ext.
        intros y. unfold sameSelection. simpl. subst g m s. reflexivity. }
      rewrite !Ht, !Hsame. simpl. rewrite occurrences_addItem.
      pose proof (onePick_occurrences sel _ Hone).
      destruct (occurrences sel (items st)) as [|[|n]]; simpl;
        [reflexivity | reflexivity | lia].
    + rewrite Ht. simpl.
      assert (Hzero : occurrences t (addItem sel (items st)) = 0%nat).
      { apply existsb_occurrences. apply not_true_is_false. intros E.
        apply existsb_exists in E as (y & Hy & Hty).
        apply sameSelection_iff in Hty as [Hmy Hsy]. simpl in Hmy, Hsy.
        assert (Hone' : onePickPerMarket (addItem sel (items st)))
          by now apply addItem_onePick.
        apply String.eqb_neq in Es.
        destruct (existsb (sameSelection sel) (items st)) eqn:Ex.
        - destruct (addItem_found _ _ Ex)
            as (l1 & x & l2 & Hl & _ & Hx & Hr).
          rewrite Hr in Hy.
          assert (Hyin : In y (items st)).
          { rewrite Hl. apply in_app_or in Hy. apply in_or_app.
            destruct Hy; [now left | right; now right]. }
          assert (Hxin : In x (items st))
            by (rewrite Hl; apply in_or_app; right; now left).
          apply sameSelection_iff in Hx as [Hmx Hsx].
          assert (y = x).
          { apply (NoDup_map_inj marketOf (items st)); trivial.
            unfold marketOf in *. simpl in *. congruence. }
          subst y. congruence.
        - rewrite (addItem_fresh _ _ Ex) in Hy.
          apply in_app_or in Hy as [Hy|[<-|[]]].
          + apply filter_In in Hy as [_ Hy]. apply negb_true_iff in Hy.
            assert (sameMarket sel y = true).
            { apply sameMarket_iff. unfold marketOf in *. simpl in *.
              congruence. }
            congruence.
          + congruence. }
      now rewrite Hzero.
  - rewrite !Ht. simpl. f_equal. f_equal.
    assert (Hdiff : forall y, sameSelection t y = true ->
                              sameMarket sel y = false).
    { intros y Hy. apply sameSelection_iff in Hy as [Hmy _].
      apply not_true_is_false. intros Hm. apply sameMarket_iff in Hm.
      rewrite Hm in Hmy. unfold marketOf in Hmy. simpl in Hmy.
      inversion Hmy as [[Hg Hmk]].
      rewrite Hg, Hmk, !String.eqb_refl in Emarket. discriminate. }
    destruct (existsb (sameSelection sel) (items st)) eqn:Ex.
    + destruct (addItem_found _ _ Ex) as (l1 & x & l2 & -> & _ & Hx & ->).
      rewrite !occurrences_app. change (x :: l2) with ([x] ++ l2).
      rewrite occurrences_app, (occurrences_single t x).
      destruct (sameSelection t x) eqn:Etx; [|simpl; lia].
      apply Hdiff in Etx. apply sameSelection_sameMarket in Hx. congruence.
    + rewrite (addItem_fresh _ _ Ex), occurrences_app.
      rewrite (occurrences_single t sel).
      destruct (sameSelection t sel) eqn:Ets.
      * apply Hdiff in Ets.
        assert (sameMarket sel sel = true)
          by (apply sameMarket_iff; reflexivity).
        congruence.
      * rewrite Nat.add_0_r. unfold occurrences.
        f_equal. clear Ex Ht Hone Hreach.
        induction (items st) as [|y r IH]; simpl; [reflexivity|].
        destruct (sameMarket sel y) eqn:Ey; simpl.
        -- destruct (sameSelection t y) eqn:Ety; [|exact IH].
           apply Hdiff in Ety. congruence.
        -- destruct (sameSelection t y); simpl; now rewrite IH.
Qed.

Lemma isSelected_addSelection_witness :
  isSelected game1 "h2h" "Celtics"
    (addSelection celticsH2H (addSelection lakersH2H initial)) = true
  /\ isSelected game1 "h2h" "Lakers"
       (addSelection celticsH2H (addSelection lakersH2H initial)) = false.
Proof.
  assert (Hr : reachable (addSelection lakersH2H initial))
    by (apply reach_add; [exact I | apply reach_initial]).
  split.
  - rewrite (isSelected_addSelection (addSelection lakersH2H initial)
               celticsH2H game1 "h2h" "Celtics" Hr). reflexivity.
  - rewrite (isSelected_addSelection (addSelection lakersH2H initial)
               celticsH2H game1 "h2h" "Lakers" Hr). reflexivity.
Defined.

(** X3.  [removeSelection] with an index outside the slip changes nothing;
    with the index of an item it removes that item alone and keeps the
    others in order; the stake is kept in both cases. *)
Theorem removeSelection_spec (index : Z) (st : State) :
  stake (removeSelection index st) = stake st
  /\ ((index < 0 \/ Z.of_nat (List.length (items st)) <= index)%Z ->
      items (removeSelection index st) = items st)
  /\ (forall l1 x l2,
        items st = l1 ++ x :: l2 ->
        index = Z.of_nat (List.length l1) ->
        items (removeSelection index st) = l1 ++ l2).
Proof.
  split; [reflexivity|]. split.
  - intros H. simpl. unfold JS.filteri. apply filterFrom_keep. lia.
  - intros l1 x l2 Hl ->. simpl. rewrite Hl. unfold JS.filteri.
    apply (filterFrom_drop l1 l2 x 0).
Qed.

Lemma removeSelection_spec_witness :
  items (removeSelection 5 (slipOf [lakersH2H; overTotal; lebronOver]))
  = [lakersH2H; overTotal; lebronOver]
  /\ items (removeSelection 1 (slipOf [lakersH2H; overTotal; lebronOver]))
     = [lakersH2H; lebronOver].
Proof.
  destruct (removeSelection_spec 5
              (slipOf [lakersH2H; overTotal; lebronOver])) as (_ & H1 & _).
  destruct (removeSelection_spec 1
              (slipOf [lakersH2H; overTotal; lebronOver])) as (_ & _ & H2).
  split.
  - apply H1. simpl. lia.
  - apply (H2 [lakersH2H] overTotal [lebronOver]); reflexivity.
Defined.

End SlipMarks.

(** ** Odds aggregation: bounds, slips over several games, order *)

Section OddsMore.

Import BetSlip SlipViews Samples.

Lemma product_nonneg (l : list Q) :
  (forall q, In q l -> 0 <= q) -> 0 <= product l.
Proof.
  induction l as [|q r IH]; simpl; intros H.
  - lra.
  - apply Qmult_le_0_compat; [apply H; now left|].
    apply IH. intros x Hx. apply H. now right.
Qed.

Lemma correlationFactor_values (its : list SelectionItem) :
  In (correlationFactor its) factors
  \/ correlationFactor its = 1 * (9 # 10)
  \/ correlationFactor its = 1 * (95 # 100)
  \/ correlationFactor its = 1 * (9 # 10) * (95 # 100).
Proof.
  unfold correlationFactor. destruct (isSGM its).
  - rewrite calculateCorrelationFactor_cases. cbv zeta.
    destruct (h2hSpreadCorrelated its),
      (existsb isPlayerProp its && existsb isTeamMarket its); auto.
    + left. simpl. tauto.
  - left. simpl. tauto.
Qed.

(** X4.  The correlation adjustment is one of 1, 0.90, 0.95 and
    0.90 x 0.95; with odds that are not negative it never raises the
    combined odds and never takes more than 14.5 % of them, and the
    potential payout of a stake that is not negative is at most the stake
    times the product of the odds. *)
Theorem discount_bounds (st : State) :
  (forall i, In i (items st) -> 0 <= odds i) ->
  0 <= stake st ->
  (exists f, In f factors /\ totalOdds (items st) == rawOdds (items st) * f)
  /\ rawOdds (items st) * (855 # 1000) <= totalOdds (items st)
  /\ totalOdds (items st) <= rawOdds (items st)
  /\ potentialPayout st <= stake st * product (map odds (items st)).
Proof.
  intros Hodds Hstake.
  assert (Hraw : 0 <= rawOdds (items st)).
  { rewrite rawOdds_product. apply product_nonneg.
    intros q Hq. apply in_map_iff in Hq as (i & <- & Hi). now apply Hodds. }
  assert (Hf : exists f, In f factors /\ correlationFactor (items st) == f).
  { destruct (correlationFactor_values (items st)) as [H|[H|[H|H]]].
    - exists (correlationFactor (items st)). split; [exact H | reflexivity].
    - exists (9 # 10). split; [simpl; tauto | rewrite H; ring].
    - exists (95 # 100). split; [simpl; tauto | rewrite H; ring].
    - exists ((9 # 10) * (95 # 100)).
      split; [simpl; tauto | rewrite H; ring]. }
  destruct Hf as (f & Hin & Hf).
  assert (Hrange : (855 # 1000) <= f /\ f <= 1).
  { simpl in Hin. destruct Hin as [<-|[<-|[<-|[<-|[]]]]]; split;
      unfold Qle; simpl; lia. }
  assert (Htot : totalOdds (items st) == rawOdds (items st) * f)
    by (unfold totalOdds; now rewrite Hf).
  split; [exists f; split; assumption|].
  assert (Hup : totalOdds (items st) <= rawOdds (items st)).
  { rewrite Htot.
    setoid_replace (rawOdds (items st)) with (rawOdds (items st) * 1) at 2
      by ring.
    rewrite (Qmult_comm _ f), (Qmult_comm _ 1).
    apply Qmult_le_compat_r; tauto. }
  split; [|split; [exact Hup|]].
  - rewrite Htot.
    rewrite (Qmult_comm _ (855 # 1000)), (Qmult_comm _ f).
    apply Qmult_le_compat_r; tauto.
  - unfold potentialPayout. rewrite <- rawOdds_product.
    rewrite (Qmult_comm (stake st) (totalOdds _)).
    rewrite (Qmult_comm (stake st) (rawOdds _)).
    now apply Qmult_le_compat_r.
Qed.

Lemma discount_bounds_witness :
  rawOdds [lakersH2H; lakersSpread; lebronOver] * (855 # 1000)
  <= totalOdds [lakersH2H; lakersSpread; lebronOver]
  /\ totalOdds [lakersH2H; lakersSpread; lebronOver]
     <= rawOdds [lakersH2H; lakersSpread; lebronOver].
Proof.
  destruct (discount_bounds
              (mkState [lakersH2H; lakersSpread; lebronOver] 10))
    as (_ & H1 & H2 & _).
  - intros i H. simpl in H.
    destruct H as [<-|[<-|[<-|[]]]]; unfold Qle; simpl; lia.
  - unfold Qle; simpl; lia.
  - split; [exact H1 | exact H2].
Defined.

Lemma isSGM_false (its : list SelectionItem) :
  ((List.length its <= 1)%nat
   \/ exists x y, In x its /\ In y its /\ gameId x <> gameId y) ->
  isSGM its = false.
Proof.
  intros H. unfold isSGM. destruct H as [H|(x & y & Hx & Hy & Hne)].
  - apply andb_false_iff. left. apply Z.ltb_ge. lia.
  - apply andb_false_iff. right.
    destruct its as [|first r]; [contradiction|].
    apply not_true_is_false. intros Hall.
    rewrite forallb_forall in Hall.
    pose proof (Hall x Hx) as Ex. pose proof (Hall y Hy) as Ey.
    apply String.eqb_eq in Ex. apply String.eqb_eq in Ey. congruence.
Qed.

(** A slip with a single selection, or with selections on two
    different games, gets no correlation adjustment, whatever its markets:
    the total odds are the product of the odds. *)
Theorem totalOdds_no_discount (its : list SelectionItem) :
  ((List.length its <= 1)%nat
   \/ exists x y, In x its /\ In y its /\ gameId x <> gameId y) ->
  isSGM its = false /\ totalOdds its == product (map odds its).
Proof.
  intros H.
  pose proof (isSGM_false its H) as E.
  split; [exact E|].
  unfold totalOdds, correlationFactor. rewrite E, rawOdds_product. ring.
Qed.

Lemma totalOdds_no_discount_witness :
  totalOdds
    [lakersH2H;
     mkSelection "b71e00" "Suns @ Heat" tipoff "spread" "Lakers +5.5"
       (19 # 10) None None]
  == product
       (map odds
          [lakersH2H;
           mkSelection "b71e00" "Suns @ Heat" tipoff "spread" "Lakers +5.5"
             (19 # 10) None None]).
Proof.
  apply (totalOdds_no_discount
           [lakersH2H;
            mkSelection "b71e00" "Suns @ Heat" tipoff "spread" "Lakers +5.5"
              (19 # 10) None None]).
  right. eexists. eexists. split; [left; reflexivity|].
  split; [right; left; reflexivity | discriminate].
Defined.

Lemma product_perm (l l' : list Q) :
  Permutation l l' -> product l == product l'.
Proof.
  induction 1; simpl.
  - reflexivity.
  - now rewrite IHPermutation.
  - ring.
  - now rewrite IHPermutation1.
Qed.

Lemma existsb_perm {A : Type} (p : A -> bool) (l l' : list A) :
  Permutation l l' -> existsb p l = existsb p l'.
Proof.
  induction 1; simpl.
  - reflexivity.
  - now rewrite IHPermutation.
  - destruct (p x), (p y); reflexivity.
  - congruence.
Qed.

(** With one candidate at most, [find] does not depend on the order. *)
Lemma find_perm_unique {A : Type} (p : A -> bool) (l l' : list A) :
  Permutation l l' ->
  (List.length (filter p l) <= 1)%nat ->
  find p l = find p l'.
Proof.
  induction 1; simpl; intros Hle.
  - reflexivity.
  - destruct (p x) eqn:E; [reflexivity|]. now apply IHPermutation.
  - destruct (p x) eqn:Ex, (p y) eqn:Ey; simpl in *; try reflexivity.
    lia.
  - rewrite IHPermutation1 by assumption. apply IHPermutation2.
    assert (Hlen : List.length (filter p l') = List.length (filter p l)).
    { clear -H. induction H; simpl.
      - reflexivity.
      - destruct (p x); simpl; now rewrite IHPermutation.
      - destruct (p x), (p y); reflexivity.
      - congruence. }
    lia.
Qed.

Lemma isSGM_sameGame_inv (its : list SelectionItem) :
  isSGM its = true ->
  exists g, sameGame g its /\ (2 <= List.length its)%nat.
Proof.
  unfold isSGM. intros H. apply andb_true_iff in H as [Hlen Hall].
  apply Z.ltb_lt in Hlen.
  destruct its as [|first r]; [simpl in Hlen; lia|].
  exists (gameId first). split; [|lia].
  intros i Hi. rewrite forallb_forall in Hall.
  now apply String.eqb_eq, Hall.
Qed.

Lemma isSGM_perm (its its' : list SelectionItem) :
  Permutation its its' -> isSGM its = isSGM its'.
Proof.
  intros Hp.
  assert (Hdir : forall a b, Permutation a b ->
                             isSGM a = true -> isSGM b = true).
  { intros a b Hab Ha.
    destruct (isSGM_sameGame_inv a Ha) as (g & Hg & Hlen).
    apply (isSGM_sameGame g).
    - now rewrite <- (Permutation_length Hab).
    - intros i Hi. apply Hg.
      now apply (Permutation_in _ (Permutation_sym Hab)). }
  destruct (isSGM its) eqn:E1, (isSGM its') eqn:E2; trivial.
  - rewrite (Hdir _ _ Hp E1) in E2. discriminate.
  - rewrite (Hdir _ _ (Permutation_sym Hp) E2) in E1. discriminate.
Qed.

(** X5.  The order of the selections does not matter to the correlation
    adjustment of a slip with at most one pick per market per game:
    reordering it leaves the same-game flag as it is, and the correlation
    factor is the result of the same multiplications. *)
Theorem correlationFactor_order (its its' : list SelectionItem) :
  Permutation its its' ->
  onePickPerMarket its ->
  isSGM its = isSGM its'
  /\ correlationFactor its = correlationFactor its'.
Proof.
  intros Hp Hone.
  pose proof (isSGM_perm _ _ Hp) as Hsgm.
  split; [exact Hsgm|].
  unfold correlationFactor. rewrite <- Hsgm.
  destruct (isSGM its) eqn:E; [|reflexivity].
  destruct (isSGM_sameGame_inv its E) as (g & Hg & _).
  assert (Huniq : forall m,
    (List.length (filter (fun i => String.eqb (marketType i) m) its)
     <= 1)%nat).
  { intros m. apply (NoDup_map_filter_le1 marketOf); [exact Hone|].
    intros x y Hx Hy Ex Ey.
    apply String.eqb_eq in Ex. apply String.eqb_eq in Ey.
    unfold marketOf. now rewrite (Hg x Hx), (Hg y Hy), Ex, Ey. }
  assert (Hcorr : h2hSpreadCorrelated its = h2hSpreadCorrelated its').
  { unfold h2hSpreadCorrelated.
    now rewrite (find_perm_unique _ _ _ Hp (Huniq "h2h"%string)),
                (find_perm_unique _ _ _ Hp (Huniq "spread"%string)). }
  rewrite !calculateCorrelationFactor_cases, Hcorr.
  rewrite (existsb_perm isPlayerProp _ _ Hp).
  rewrite (existsb_perm isTeamMarket _ _ Hp).
  reflexivity.
Qed.

Lemma correlationFactor_order_witness :
  correlationFactor [lakersH2H; lakersSpread; lebronOver]
  = correlationFactor [lebronOver; lakersSpread; lakersH2H].
Proof.
  apply (correlationFactor_order [lakersH2H; lakersSpread; lebronOver]
           [lebronOver; lakersSpread; lakersH2H]).
  - apply perm_trans with [lakersSpread; lakersH2H; lebronOver];
      [apply perm_swap|].
    apply perm_trans with [lakersSpread; lebronOver; lakersH2H];
      [apply perm_skip, perm_swap | apply perm_swap].
  - unfold onePickPerMarket. simpl.
    repeat constructor; simpl; intuition discriminate.
Defined.

End OddsMore.

(** ** Conflicts: head-to-head and total *)

Section ConflictMore.

Import BetSlip SlipViews Samples.

Lemma filter_filter {A : Type} (p q : A -> bool) (l : list A) :
  filter q (filter p l) = filter (fun x => p x && q x) l.
Proof.
  induction l as [|y r IH]; simpl.
  - reflexivity.
  - destruct (p y); simpl; [destruct (q y); now rewrite IH | exact IH].
Qed.

(** The conflicts are those of the groups, and each group is the part of
    the slip on one game. *)
Lemma getConflicts_In (its : list SelectionItem) (c : Conflict) :
  In c (getConflicts its) <->
  exists g,
    In c (gameConflicts (filter (fun i => String.eqb (gameId i) g) its))
    /\ exists x, In x its /\ gameId x = g.
Proof.
  unfold getConflicts. rewrite in_flat_map. split.
  - intros ([g gs] & Hin & Hc). simpl in Hc.
    apply (proj1 (entries_In _ _)) in Hin.
    destruct (groupBy_groups gameId its) as (_ & Hgrp & _).
    pose proof (Hgrp g gs Hin) as E. subst gs.
    exists g. split; [exact Hc|].
    destruct (filter (fun i => String.eqb (gameId i) g) its) as [|x r] eqn:F.
    + simpl in Hc. contradiction.
    + assert (Hx : In x (filter (fun i => String.eqb (gameId i) g) its))
        by (rewrite F; now left).
      apply filter_In in Hx as [Hx Hg]. apply String.eqb_eq in Hg.
      now exists x.
  - intros (g & Hc & x & Hx & Hg). subst g.
    exists (gameId x, filter (fun i => String.eqb (gameId i) (gameId x)) its).
    split; [now apply groupBy_entry | exact Hc].
Qed.

Lemma player_conflicts_type (l : list (string * list SelectionItem))
    (c : Conflict) :
  In c (flat_map playerGroupConflicts l) ->
  type c = "player_prop_conflict"%string.
Proof.
  intros H. apply in_flat_map in H as ([k vs] & _ & Hc).
  unfold playerGroupConflicts in Hc. simpl in Hc.
  destruct vs as [|a [|b r]]; simpl in Hc; try contradiction.
  destruct Hc as [<-|[]]. reflexivity.
Qed.

Lemma gameConflicts_h2h (gs : list SelectionItem) :
  In h2h_conflict (gameConflicts gs) <->
  (2 <= List.length
          (filter (fun i => String.eqb (marketType i) "h2h") gs))%nat.
Proof.
  unfold gameConflicts. cbv zeta. rewrite !in_app_iff.
  destruct (1 <? Z.of_nat (List.length
              (filter (fun i => String.eqb (marketType i) "h2h") gs)))%Z
    eqn:E.
  - apply Z.ltb_lt in E. split; [lia | intros _; left; now left].
  - apply Z.ltb_ge in E. split; [|lia].
    intros [[]|[H|H]].
    + destruct (1 <? _)%Z; [|contradiction].
      destruct (_ && _); [|contradiction].
      destruct H as [H|[]]. discriminate H.
    + apply player_conflicts_type in H. discriminate H.
Qed.

Lemma gameConflicts_total (gs : list SelectionItem) :
  In total_conflict (gameConflicts gs) <->
  (2 <= List.length
          (filter (fun i => String.eqb (marketType i) "total") gs))%nat
  /\ existsb (fun i => JS.includes "Over" (selection i))
       (filter (fun i => String.eqb (marketType i) "total") gs) = true
  /\ existsb (fun i => JS.includes "Under" (selection i))
       (filter (fun i => String.eqb (marketType i) "total") gs) = true.
Proof.
  unfold gameConflicts. cbv zeta. rewrite !in_app_iff.
  set (totals := filter (fun i => String.eqb (marketType i) "total") gs).
  split.
  - intros [H|[H|H]].
    + destruct (1 <? _)%Z; [|contradiction].
      destruct H as [H|[]]. discriminate H.
    + destruct (1 <? Z.of_nat (List.length totals))%Z eqn:E;
        [|contradiction].
      apply Z.ltb_lt in E.
      destruct (existsb (fun i => JS.includes "Over" (selection i)) totals),
               (existsb (fun i => JS.includes "Under" (selection i)) totals);
        simpl in H; try contradiction.
      repeat split. lia.
    + apply player_conflicts_type in H. discriminate H.
  - intros (Hlen & Ho & Hu). right. left.
    assert (E : (1 <? Z.of_nat (List.length totals))%Z = true)
      by (apply Z.ltb_lt; lia).
    rewrite E, Ho, Hu. now left.
Qed.

(** Where the function returns, it reports a head-to-head conflict exactly
    when some game has two or more head-to-head picks, and a total conflict
    exactly when some game has two or more total picks of which one reads
    "Over" and one reads "Under". *)
Lemma returned_conflicts (its : list SelectionItem) :
  (In h2h_conflict (getConflicts its) <->
   exists g, (2 <= List.length (picksOn g "h2h" its))%nat)
  /\ (In total_conflict (getConflicts its) <->
      exists g,
        (2 <= List.length (picksOn g "total" its))%nat
        /\ existsb (fun i => JS.includes "Over" (selection i))
             (picksOn g "total" its) = true
        /\ existsb (fun i => JS.includes "Under" (selection i))
             (picksOn g "total" its) = true).
Proof.
  assert (Hpicks : forall g m,
    filter (fun i => String.eqb (marketType i) m)
      (filter (fun i => String.eqb (gameId i) g) its)
    = picksOn g m its)
    by (intros g m; apply filter_filter).
  assert (Hgame : forall g m,
    (2 <= List.length (picksOn g m its))%nat ->
    exists x, In x its /\ gameId x = g).
  { intros g m H. destruct (picksOn g m its) as [|x r] eqn:E;
      [simpl in H; lia|].
    assert (Hx : In x (picksOn g m its)) by (rewrite E; now left).
    apply filter_In in Hx as [Hx Hg].
    apply andb_true_iff in Hg as [Hg _]. apply String.eqb_eq in Hg.
    now exists x. }
  split.
  - rewrite getConflicts_In. split.
    + intros (g & Hc & _). exists g. apply gameConflicts_h2h in Hc.
      now rewrite Hpicks in Hc.
    + intros (g & H). exists g. split; [|now apply (Hgame g "h2h"%string)].
      apply gameConflicts_h2h. now rewrite Hpicks.
  - rewrite getConflicts_In. split.
    + intros (g & Hc & _). exists g. apply gameConflicts_total in Hc.
      now rewrite Hpicks in Hc.
    + intros (g & H). exists g.
      split; [|now apply (Hgame g "total"%string)].
      apply gameConflicts_total. now rewrite Hpicks.
Qed.

(** X6.  [getConflicts] raises a TypeError when a game identifier of the
    slip names a member of [Object.prototype].  Otherwise it returns, and
    it reports a head-to-head conflict exactly when some game has two or
    more head-to-head picks, and a total conflict exactly when some game
    has two or more total picks of which one reads "Over" and one reads
    "Under". *)
Theorem conflicts_h2h_total (its : list SelectionItem) :
  (ConflictViews.ownGames its = false -> Conflicts.getConflicts its = None)
  /\ (ConflictViews.ownGames its = true ->
      exists cs,
        Conflicts.getConflicts its = Some cs
        /\ (In h2h_conflict cs <->
            exists g, (2 <= List.length (picksOn g "h2h" its))%nat)
        /\ (In total_conflict cs <->
            exists g,
              (2 <= List.length (picksOn g "total" its))%nat
              /\ existsb (fun i => JS.includes "Over" (selection i))
                   (picksOn g "total" its) = true
              /\ existsb (fun i => JS.includes "Under" (selection i))
                   (picksOn g "total" its) = true)).
Proof.
  rewrite getConflicts_run. split; intros E; rewrite E; [reflexivity|].
  exists (getConflicts its). split; [reflexivity|].
  apply returned_conflicts.
Qed.

(** Two head-to-head picks on the game "constructor" raise; the same two
    picks on another game give the head-to-head conflict. *)
Example conflicts_h2h_total_examples :
  Conflicts.getConflicts
    [ConflictViews.constructorH2H;
     mkSelection "constructor" "Lakers @ Celtics" tipoff "h2h" "Celtics"
       (2 # 1) None None]
  = None
  /\ Conflicts.getConflicts [lakersH2H; celticsH2H] = Some [h2h_conflict].
Proof.
  split; reflexivity.
Qed.

End ConflictMore.

(** ** Market types of the feed against the market types of the slip *)

Section VocabularyFacts.

Import BetSlip SlipViews OddsVocabulary.

Lemma normalizeMarketType_not_spread_total (type : option string) :
  normalizeMarketType type <> "spread"%string
  /\ normalizeMarketType type <> "total"%string.
Proof.
  unfold normalizeMarketType.
  destruct (JS.strOrNull type) as [ty|]; [|split; discriminate].
  cbv zeta.
  destruct (String.eqb (JSString.toLowerCase ty) "spread") eqn:E1;
    [split; discriminate|].
  destruct (String.eqb (JSString.toLowerCase ty) "total") eqn:E2;
    [split; discriminate|].
  apply String.eqb_neq in E1. apply String.eqb_neq in E2. tauto.
Qed.

Lemma isPlayerProp_not_team (i : SelectionItem) :
  isPlayerProp i = true ->
  marketType i <> "spread"%string /\ marketType i <> "total"%string.
Proof.
  unfold isPlayerProp, JS.startsWith. intros H.
  split; intros E; rewrite E in H; discriminate H.
Qed.

(** X7.  On a slip whose team markets carry the market types
    [normalizeMarketType] produces ("spreads", "totals") and whose other
    picks are player props, the head-to-head / spread discount is never
    applied and no total conflict is ever reported: the slip code tests for
    "spread" and "total". *)
Theorem normalized_markets_inert (its : list SelectionItem) :
  (forall i,
      In i its ->
      isPlayerProp i = true
      \/ exists raw, marketType i = normalizeMarketType raw) ->
  h2hSpreadCorrelated its = false
  /\ ~ In total_conflict (getConflicts its)
  /\ (correlationFactor its = 1
      \/ correlationFactor its = 1 * (95 # 100)).
Proof.
  intros H.
  assert (Hnot : forall i, In i its ->
            marketType i <> "spread"%string
            /\ marketType i <> "total"%string).
  { intros i Hi. destruct (H i Hi) as [Hp|(raw & ->)].
    - now apply isPlayerProp_not_team.
    - apply normalizeMarketType_not_spread_total. }
  assert (Hcorr : h2hSpreadCorrelated its = false).
  { unfold h2hSpreadCorrelated.
    destruct (find (fun i => String.eqb (marketType i) "spread") its)
      as [s|] eqn:E.
    - apply find_some in E as [Hs Es]. apply String.eqb_eq in Es.
      destruct (Hnot s Hs). contradiction.
    - destruct (find (fun i => String.eqb (marketType i) "h2h") its);
        reflexivity. }
  split; [exact Hcorr|]. split.
  - intros Hc. apply (proj1 (getConflicts_In _ _)) in Hc as (g & Hc & _).
    apply (proj1 (gameConflicts_total _)) in Hc as (Hlen & _).
    set (totals := filter (fun i => String.eqb (marketType i) "total")
                     (filter (fun i => String.eqb (gameId i) g) its)) in *.
    destruct totals as [|x r] eqn:E; [simpl in Hlen; lia|].
    assert (Hx : In x totals) by (rewrite E; now left).
    apply filter_In in Hx as [Hx Hm]. apply filter_In in Hx as [Hx _].
    apply String.eqb_eq in Hm.
    destruct (Hnot x Hx). contradiction.
  - unfold correlationFactor. destruct (isSGM its); [|now left].
    rewrite calculateCorrelationFactor_cases, Hcorr. cbv zeta.
    destruct (existsb isPlayerProp its && existsb isTeamMarket its); auto.
Qed.

Lemma normalized_markets_inert_witness :
  h2hSpreadCorrelated
    [mkSelection "g" "d" "t" (normalizeMarketType (Some "H2H")) "Lakers"
       2 None None;
     mkSelection "g" "d" "t" (normalizeMarketType (Some "Spread"))
       "Lakers +5.5" 2 None None]%string
  = false.
Proof.
  apply (normalized_markets_inert
    [mkSelection "g" "d" "t" (normalizeMarketType (Some "H2H")) "Lakers"
       2 None None;
     mkSelection "g" "d" "t" (normalizeMarketType (Some "Spread"))
       "Lakers +5.5" 2 None None]%string).
  intros i Hi. right. simpl in Hi.
  destruct Hi as [<-|[<-|[]]]; eexists; reflexivity.
Defined.

End VocabularyFacts.

(** ** The ledger: first access, placement and what the store keeps *)

Section LedgerMore.

Import Ledger LedgerViews Samples.

Lemma getOrCreate_cases (weekId leagueId userId displayName : string)
    (s : Store) :
  (exists wb,
      find (balanceOf weekId userId) (week_balances s) = Some wb
      /\ getOrCreateUserBalance weekId leagueId userId displayName s
         = (Resolved wb, s))
  \/ (find (balanceOf weekId userId) (week_balances s) = None
      /\ getOrCreateUserBalance weekId leagueId userId displayName s
         = (Resolved
              (firstBalance weekId leagueId userId displayName (nextId s)),
            mkStore
              (week_balances s
               ++ [firstBalance weekId leagueId userId displayName
                     (nextId s)])
              (bets s) (bet_legs s) (S (nextId s)) (clock s))).
Proof.
  destruct (find (balanceOf weekId userId) (week_balances s)) as [wb|] eqn:E.
  - left. exists wb. split; [reflexivity|].
    now apply getOrCreate_existing.
  - right. split; [reflexivity|]. now apply getOrCreate_absent.
Qed.

(** What [placeBet] does, by the test it makes on the balance read. *)
Lemma placeBet_cases (betSlip : Slip)
    (userId leagueId weekId displayName : string) (s s1 : Store)
    (wb : WeekBalance.t) :
  getOrCreateUserBalance weekId leagueId userId displayName s
  = (Resolved wb, s1) ->
  placeBet betSlip userId leagueId weekId displayName s
  = if JS.lt (WeekBalance.balance wb) (stake betSlip)
    then (Rejected "Insufficient balance", s1)
    else (Resolved (betFor betSlip userId leagueId weekId s1),
          storeAfterBet betSlip userId leagueId weekId wb s1).
Proof.
  intros Hread. unfold placeBet. unfold bind at 1. rewrite Hread.
  destruct (JS.lt (WeekBalance.balance wb) (stake betSlip));
    [reflexivity|].
  unfold bind at 1. unfold now at 1.
  unfold bind at 1. unfold createBet at 1.
  unfold bind at 1. rewrite forOf_legs.
  unfold bind at 1. unfold updateWeekBalance at 1. unfold ret.
  reflexivity.
Qed.

Lemma find_balance_In (weekId userId : string) (l : list WeekBalance.t)
    (wb : WeekBalance.t) :
  find (balanceOf weekId userId) l = Some wb ->
  In wb l /\ rowKey wb = (weekId, userId).
Proof.
  intros H. apply find_some in H as [Hin Hk]. split; [exact Hin|].
  unfold balanceOf in Hk. apply andb_true_iff in Hk as [H1 H2].
  apply String.eqb_eq in H1. apply String.eqb_eq in H2.
  unfold rowKey. now rewrite H1, H2.
Qed.

Lemma find_balance_none (weekId userId : string) (l : list WeekBalance.t) :
  find (balanceOf weekId userId) l = None ->
  ~ In (weekId, userId) (map rowKey l).
Proof.
  intros H Hin. apply in_map_iff in Hin as (d & Hk & Hd).
  apply (find_none _ _ H) in Hd. unfold balanceOf, rowKey in *.
  inversion Hk. subst. now rewrite !String.eqb_refl in Hd.
Qed.

Lemma staked_nil (weekId userId : string) (l : list Bet.t) :
  (forall b, In b l -> betOf weekId userId b = false) ->
  staked weekId userId l = 0.
Proof.
  intros H. unfold staked. now rewrite filter_none.
Qed.

Lemma staked_snoc (weekId userId : string) (l : list Bet.t) (b : Bet.t) :
  staked weekId userId (l ++ [b])
  == staked weekId userId l
     + (if betOf weekId userId b then Bet.stake b else 0).
Proof.
  unfold staked. rewrite filter_app. simpl.
  induction (filter (betOf weekId userId) l) as [|x r IH]; simpl.
  - destruct (betOf weekId userId b); simpl; ring.
  - rewrite IH. ring.
Qed.

Lemma betOf_key (weekId userId : string) (b : Bet.t) :
  betOf weekId userId b = true <->
  (Bet.weekId b, Bet.userId b) = (weekId, userId).
Proof.
  unfold betOf. rewrite andb_true_iff, !String.eqb_eq. split.
  - intros [-> ->]. reflexivity.
  - intros H. inversion H. tauto.
Qed.

Lemma getOrCreate_inv (weekId leagueId userId displayName : string)
    (s s1 : Store) (wb : WeekBalance.t) :
  ledgerInv s ->
  getOrCreateUserBalance weekId leagueId userId displayName s
  = (Resolved wb, s1) ->
  ledgerInv s1 /\ In wb (week_balances s1) /\ rowKey wb = (weekId, userId).
Proof.
  intros (Hids & Hkeys & Hbal & Hrows & Hcount) Hrun.
  destruct (getOrCreate_cases weekId leagueId userId displayName s)
    as [(d & Hfind & Heq)|(Hfind & Heq)];
    rewrite Heq in Hrun; inversion Hrun; subst; clear Hrun.
  - split; [exact (conj Hids (conj Hkeys (conj Hbal (conj Hrows Hcount))))|].
    now apply find_balance_In.
  - pose proof (find_balance_none _ _ _ Hfind) as Hnew.
    destruct Hids as (Hi1 & Hi2 & Hi3).
    destruct Hkeys as (Hk1 & Hk2 & Hk3).
    assert (Hnone : forall b, In b (bets s) ->
                      betOf weekId userId b = false).
    { intros b Hb. apply not_true_is_false. intros Hk.
      apply betOf_key in Hk.
      destruct (Hrows b Hb) as (r & Hr & Hrk).
      apply Hnew. rewrite <- Hk, <- Hrk. now apply in_map. }
    split; [|split; [apply in_or_app; right; now left | reflexivity]].
    split; [|split; [|split; [|split]]].
    + split; [|split]; simpl.
      * intros d Hd. apply in_app_or in Hd as [Hd|[<-|[]]].
        -- apply Hi1 in Hd. lia.
        -- simpl. lia.
      * intros b Hb. apply Hi2 in Hb. lia.
      * intros l Hl. apply Hi3 in Hl. lia.
    + split; [|split]; simpl; trivial.
      * rewrite map_app. simpl. apply NoDup_app; trivial.
        -- repeat constructor. simpl. tauto.
        -- intros n Hn [<-|[]].
           apply in_map_iff in Hn as (d & Hd & Hin).
           apply Hi1 in Hin. lia.
      * rewrite map_app. simpl. apply NoDup_app; trivial.
        -- repeat constructor. simpl. tauto.
        -- intros k Hk [<-|[]]. contradiction.
    + intros d Hd. simpl in Hd |- *.
      apply in_app_or in Hd as [Hd|[<-|[]]]; [now apply Hbal|].
      simpl. rewrite (staked_nil _ _ _ Hnone).
      unfold STARTING_BALANCE. ring.
    + intros b Hb. simpl in Hb |- *.
      destruct (Hrows b Hb) as (r & Hr & Hrk).
      exists r. split; [apply in_or_app; now left | exact Hrk].
    + intros d Hd. simpl in Hd |- *.
      apply in_app_or in Hd as [Hd|[<-|[]]]; [now apply Hcount|].
      simpl. now rewrite (filter_none _ _ Hnone).
Qed.

Lemma patchBalance_id (docId : nat) (b : Q) (n : Z) (d : WeekBalance.t) :
  WeekBalance.id (patchBalance docId b n d) = WeekBalance.id d
  /\ rowKey (patchBalance docId b n d) = rowKey d.
Proof.
  unfold patchBalance.
  destruct (Nat.eqb (WeekBalance.id d) docId); split; reflexivity.
Qed.

Lemma patchBalance_other (docId : nat) (b : Q) (n : Z) (d : WeekBalance.t) :
  WeekBalance.id d <> docId -> patchBalance docId b n d = d.
Proof.
  intros H. unfold patchBalance.
  apply Nat.eqb_neq in H. now rewrite H.
Qed.

Lemma legsFrom_ids (betId : nat) (its : list BetSlip.SelectionItem)
    (start : nat) (l : BetLeg.t) :
  In l (legsFrom betId its start) ->
  (start <= BetLeg.id l < start + List.length its)%nat
  /\ BetLeg.betId l = betId.
Proof.
  revert start. induction its as [|it r IH]; simpl; intros start H.
  - contradiction.
  - destruct H as [<-|H].
    + simpl. lia.
    + apply IH in H. lia.
Qed.

Lemma storeAfterBet_inv (betSlip : Slip) (userId leagueId weekId : string)
    (wb : WeekBalance.t) (s1 : Store) :
  ledgerInv s1 ->
  In wb (week_balances s1) ->
  rowKey wb = (weekId, userId) ->
  ledgerInv (storeAfterBet betSlip userId leagueId weekId wb s1).
Proof.
  intros ((Hi1 & Hi2 & Hi3) & (Hk1 & Hk2 & Hk3) & Hbal & Hrows & Hcount)
    Hwb Hkey.
  set (patch := patchBalance (WeekBalance.id wb)
                  (WeekBalance.balance wb - stake betSlip)
                  (WeekBalance.totalbets wb + 1)%Z).
  assert (Hmapid : map WeekBalance.id (map patch (week_balances s1))
                   = map WeekBalance.id (week_balances s1)).
  { rewrite map_map. apply map_ext. intros d. apply patchBalance_id. }
  assert (Hmapkey : map rowKey (map patch (week_balances s1))
                    = map rowKey (week_balances s1)).
  { rewrite map_map. apply map_ext. intros d. apply patchBalance_id. }
  assert (Hbetkey : betOf weekId userId
                      (betFor betSlip userId leagueId weekId s1) = true).
  { apply betOf_key. reflexivity. }
  unfold storeAfterBet. fold patch.
  split; [|split; [|split; [|split]]].
  - split; [|split]; simpl.
    + intros d Hd. apply in_map_iff in Hd as (r & <- & Hr). unfold patch.
      destruct (patchBalance_id (WeekBalance.id wb)
                  (WeekBalance.balance wb - stake betSlip)
                  (WeekBalance.totalbets wb + 1)%Z r) as [-> _].
      apply Hi1 in Hr. lia.
    + intros b Hb. apply in_app_or in Hb as [Hb|[<-|[]]].
      * apply Hi2 in Hb. lia.
      * simpl. lia.
    + intros l Hl. apply in_app_or in Hl as [Hl|Hl].
      * apply Hi3 in Hl. lia.
      * apply legsFrom_ids in Hl. lia.
  - split; [|split]; simpl.
    + now rewrite Hmapid.
    + now rewrite Hmapkey.
    + rewrite map_app. simpl. apply NoDup_app; trivial.
      * repeat constructor. simpl. tauto.
      * intros n Hn [<-|[]]. apply in_map_iff in Hn as (b & Hb & Hin).
        apply Hi2 in Hin. lia.
  - intros d Hd. simpl in Hd |- *.
    apply in_map_iff in Hd as (r & <- & Hr).
    destruct (Nat.eq_dec (WeekBalance.id r) (WeekBalance.id wb)) as [E|E].
    + assert (r = wb)
        by (apply (NoDup_map_inj WeekBalance.id (week_balances s1));
            assumption).
      subst r. unfold patch, patchBalance. rewrite Nat.eqb_refl. simpl.
      inversion Hkey as [[Hw Hu]]. rewrite Hw, Hu.
      rewrite staked_snoc, Hbetkey. simpl.
      pose proof (Hbal wb Hwb) as Hb. rewrite Hw, Hu in Hb.
      rewrite <- Hb. ring.
    + unfold patch. rewrite (patchBalance_other _ _ _ _ E).
      rewrite staked_snoc.
      destruct (betOf (WeekBalance.weekid r) (WeekBalance.userid r)
                  (betFor betSlip userId leagueId weekId s1)) eqn:Ek.
      * apply betOf_key in Ek. simpl in Ek.
        exfalso. apply E. f_equal.
        apply (NoDup_map_inj rowKey (week_balances s1)); trivial.
        rewrite Hkey. unfold rowKey. now rewrite Ek.
      * pose proof (Hbal r Hr) as Hb. lra.
  - intros b Hb. simpl in Hb |- *.
    assert (Hrow : forall r, In r (week_balances s1) ->
              In (patch r) (map patch (week_balances s1))
              /\ rowKey (patch r) = rowKey r).
    { intros r Hr. split; [now apply in_map | apply patchBalance_id]. }
    apply in_app_or in Hb as [Hb|[<-|[]]].
    + destruct (Hrows b Hb) as (r & Hr & Hrk).
      exists (patch r). destruct (Hrow r Hr) as [H1 H2].
      split; [exact H1 | now rewrite H2].
    + exists (patch wb). destruct (Hrow wb Hwb) as [H1 H2].
      split; [exact H1 | now rewrite H2].
  - intros d Hd. simpl in Hd |- *.
    apply in_map_iff in Hd as (r & <- & Hr).
    rewrite filter_app, length_app. simpl.
    destruct (Nat.eq_dec (WeekBalance.id r) (WeekBalance.id wb)) as [E|E].
    + assert (r = wb)
        by (apply (NoDup_map_inj WeekBalance.id (week_balances s1));
            assumption).
      subst r. unfold patch, patchBalance. rewrite Nat.eqb_refl. simpl.
      inversion Hkey as [[Hw Hu]]. rewrite Hw, Hu, Hbetkey. simpl.
      pose proof (Hcount wb Hwb) as Hc. rewrite Hw, Hu in Hc. lia.
    + unfold patch. rewrite (patchBalance_other _ _ _ _ E).
      destruct (betOf (WeekBalance.weekid r) (WeekBalance.userid r)
                  (betFor betSlip userId leagueId weekId s1)) eqn:Ek.
      * apply betOf_key in Ek. simpl in Ek.
        exfalso. apply E. f_equal.
        apply (NoDup_map_inj rowKey (week_balances s1)); trivial.
        rewrite Hkey. unfold rowKey. now rewrite Ek.
      * simpl. rewrite (Hcount r Hr). lia.
Qed.

End LedgerMore.

Section LedgerTheorems.

Import Ledger LedgerViews Samples Samples2.

(** What [getOrCreateUserBalance] returns and writes. *)
Lemma getOrCreate_writes (weekId leagueId userId displayName : string)
    (s : Store) :
  exists wb s1,
    getOrCreateUserBalance weekId leagueId userId displayName s
    = (Resolved wb, s1)
    /\ (forall r,
          find (balanceOf weekId userId) (week_balances s) = Some r ->
          wb = r /\ s1 = s)
    /\ (find (balanceOf weekId userId) (week_balances s) = None ->
        week_balances s1 = week_balances s ++ [wb]
        /\ WeekBalance.balance wb = STARTING_BALANCE
        /\ WeekBalance.totalbets wb = 0%Z)
    /\ bets s1 = bets s
    /\ bet_legs s1 = bet_legs s.
Proof.
  destruct (getOrCreate_cases weekId leagueId userId displayName s)
    as [(d & Hfind & Heq)|(Hfind & Heq)].
  - exists d, s. split; [exact Heq|].
    split; [intros r Hr; rewrite Hfind in Hr; inversion Hr; tauto|].
    split; [intros Hn; rewrite Hfind in Hn; discriminate|]. tauto.
  - eexists. eexists. split; [exact Heq|].
    split; [intros r Hr; rewrite Hfind in Hr; discriminate|].
    simpl. tauto.
Qed.

(** X8.  [getOrCreateUserBalance] always resolves; a second call for the
    same week and user, whatever league and display name it is given,
    returns the same document and leaves the store as it is.  The first call
    writes nothing when the row exists and exactly one row, on the starting
    balance with no bet counted, when it does not; it never writes a bet or
    a leg. *)
Theorem getOrCreateUserBalance_idempotent
    (weekId leagueId userId displayName leagueId' displayName' : string)
    (s : Store) :
  exists wb s1,
    getOrCreateUserBalance weekId leagueId userId displayName s
    = (Resolved wb, s1)
    /\ getOrCreateUserBalance weekId leagueId' userId displayName' s1
       = (Resolved wb, s1)
    /\ (forall r,
          find (balanceOf weekId userId) (week_balances s) = Some r ->
          wb = r /\ s1 = s)
    /\ (find (balanceOf weekId userId) (week_balances s) = None ->
        week_balances s1 = week_balances s ++ [wb]
        /\ WeekBalance.balance wb = STARTING_BALANCE
        /\ WeekBalance.totalbets wb = 0%Z)
    /\ bets s1 = bets s
    /\ bet_legs s1 = bet_legs s.
Proof.
  destruct (getOrCreate_cases weekId leagueId userId displayName s)
    as [(d & Hfind & Heq)|(Hfind & Heq)].
  - exists d, s. split; [exact Heq|].
    split; [now apply getOrCreate_existing|].
    split; [intros r Hr; rewrite Hfind in Hr; inversion Hr; tauto|].
    split; [intros Hn; rewrite Hfind in Hn; discriminate|]. tauto.
  - eexists. eexists. split; [exact Heq|].
    split.
    + apply getOrCreate_existing. simpl.
      apply find_app_absent; [exact Hfind|].
      unfold balanceOf, firstBalance. simpl. now rewrite !String.eqb_refl.
    + split; [intros r Hr; rewrite Hfind in Hr; discriminate|].
      simpl. tauto.
Qed.

(** The stores placements and first accesses produce keep the ledger
    invariant. *)
Lemma ledgerReach_inv (s : Store) : ledgerReach s -> ledgerInv s.
Proof.
  induction 1 as [n c | s w l u d Hs IH | s slip u l w d Hs IH].
  - unfold ledgerInv, idsBelow, wellKeyed, balanced, betsHaveRow, counted.
    simpl. repeat split; try apply NoDup_nil; intros; contradiction.
  - destruct (getOrCreate_writes w l u d s) as (wb & s1 & Hrun & _).
    rewrite Hrun. simpl. now apply (getOrCreate_inv w l u d s s1 wb).
  - destruct (getOrCreate_writes w l u d s) as (wb & s1 & Hrun & _).
    destruct (getOrCreate_inv w l u d s s1 wb IH Hrun) as (Hinv & Hin & Hk).
    rewrite (placeBet_cases slip u l w d s s1 wb Hrun).
    destruct (JS.lt (WeekBalance.balance wb) (stake slip)); simpl.
    + exact Hinv.
    + now apply storeAfterBet_inv.
Qed.

(** A call is its first read followed by the part that runs after it. *)
Lemma getOrCreateUserBalance_parts
    (weekId leagueId userId displayName : string) (s : Store) :
  getOrCreateUserBalance weekId leagueId userId displayName s
  = Overlap.getOrCreateUserBalanceFrom (week_balances s) weekId leagueId
      userId displayName s.
Proof.
  reflexivity.
Qed.

Lemma placeBet_parts (betSlip : Slip)
    (userId leagueId weekId displayName : string) (s : Store) :
  placeBet betSlip userId leagueId weekId displayName s
  = match getOrCreateUserBalance weekId leagueId userId displayName s with
    | (Resolved balanceDoc, s1) =>
        Overlap.placeBetFrom balanceDoc betSlip userId leagueId weekId s1
    | (Rejected msg, s1) => (Rejected msg, s1)
    end.
Proof.
  unfold placeBet. unfold bind at 1.
  destruct (getOrCreateUserBalance weekId leagueId userId displayName s)
    as [[balanceDoc|msg] s1]; reflexivity.
Qed.

Lemma placeBetFrom_run (wb : WeekBalance.t) (betSlip : Slip)
    (userId leagueId weekId : string) (s1 : Store) :
  Overlap.placeBetFrom wb betSlip userId leagueId weekId s1
  = if JS.lt (WeekBalance.balance wb) (stake betSlip)
    then (Rejected "Insufficient balance", s1)
    else (Resolved (betFor betSlip userId leagueId weekId s1),
          storeAfterBet betSlip userId leagueId weekId wb s1).
Proof.
  unfold Overlap.placeBetFrom.
  destruct (JS.lt (WeekBalance.balance wb) (stake betSlip));
    [reflexivity|].
  unfold bind at 1. unfold now at 1.
  unfold bind at 1. unfold createBet at 1.
  unfold bind at 1. rewrite forOf_legs.
  unfold bind at 1. unfold updateWeekBalance at 1. unfold ret.
  reflexivity.
Qed.

(** Updating by the identifier of the user's row rewrites that row. *)
Lemma find_patched (weekId userId : string) (l : list WeekBalance.t)
    (wb : WeekBalance.t) (b : Q) (n : Z) :
  find (balanceOf weekId userId) l = Some wb ->
  find (balanceOf weekId userId)
    (map (patchBalance (WeekBalance.id wb) b n) l)
  = Some (patchBalance (WeekBalance.id wb) b n wb).
Proof.
  induction l as [|y r IH]; simpl; intros H.
  - discriminate.
  - rewrite patchBalance_key.
    destruct (balanceOf weekId userId y) eqn:Ey.
    + inversion H; subst y. reflexivity.
    + now apply IH.
Qed.

(** X9.  In every store that first accesses and placements produce from an
    empty database when they run one after another, a user has at most one
    balance row per week, rows and bets have distinct identifiers, and
    every bet belongs to a user who has a row for that week.  Two first
    accesses of a user to a week that overlap, both reading before either
    writes, store two rows for that user and week. *)
Theorem one_row_per_user_week (s : Store) :
  (ledgerReach s ->
   (forall a b,
       In a (week_balances s) -> In b (week_balances s) ->
       WeekBalance.weekid a = WeekBalance.weekid b ->
       WeekBalance.userid a = WeekBalance.userid b ->
       a = b)
   /\ NoDup (map WeekBalance.id (week_balances s))
   /\ NoDup (map Bet.id (bets s))
   /\ (forall b,
         In b (bets s) ->
         exists wb,
           find (balanceOf (Bet.weekId b) (Bet.userId b)) (week_balances s)
           = Some wb))
  /\ (forall weekId leagueId userId displayName,
        find (balanceOf weekId userId) (week_balances s) = None ->
        exists a b,
          week_balances
            (Overlap.twoFirstAccesses weekId leagueId userId displayName s)
          = week_balances s ++ [a; b]
          /\ a <> b
          /\ rowKey a = (weekId, userId)
          /\ rowKey b = (weekId, userId)).
Proof.
  split.
  - intros H. destruct (ledgerReach_inv s H)
      as (_ & (Hk1 & Hk2 & Hk3) & _ & Hrows & _).
    split; [|split; [exact Hk1 | split; [exact Hk3|]]].
    + intros a b Ha Hb Hw Hu.
      apply (NoDup_map_inj rowKey (week_balances s)); trivial.
      unfold rowKey. now rewrite Hw, Hu.
    + intros b Hb. destruct (Hrows b Hb) as (wb & Hwb & Hkey).
      destruct (find (balanceOf (Bet.weekId b) (Bet.userId b))
                  (week_balances s)) as [r|] eqn:E; [now exists r|].
      apply (find_none _ _ E) in Hwb. unfold balanceOf, rowKey in *.
      inversion Hkey as [[Hw Hu]].
      now rewrite Hw, Hu, !String.eqb_refl in Hwb.
  - intros weekId leagueId userId displayName Hnone.
    unfold Overlap.twoFirstAccesses, Overlap.getOrCreateUserBalanceFrom.
    cbv zeta. rewrite Hnone. unfold createWeekBalance. simpl.
    exists (firstBalance weekId leagueId userId displayName (nextId s)),
      (firstBalance weekId leagueId userId displayName (S (nextId s))).
    split; [now rewrite <- app_assoc|].
    split; [|split; reflexivity].
    intros E. apply (f_equal WeekBalance.id) in E. simpl in E. lia.
Qed.

Lemma storeAnnBob_reach : ledgerReach storeAnnBob.
Proof.
  apply reach_balance. apply reach_bet. apply reach_empty.
Qed.

Lemma one_row_per_user_week_witness :
  NoDup (map WeekBalance.id (week_balances storeAnnBob))
  /\ NoDup (map Bet.id (bets storeAnnBob))
  /\ List.length
       (filter (balanceOf "w1" "cat")
          (week_balances
             (Overlap.twoFirstAccesses "w1" "l1" "cat" "Cat" storeAnnBob)))
     = 2%nat.
Proof.
  destruct (one_row_per_user_week storeAnnBob) as (Hseq & _).
  destruct Hseq as (_ & H1 & H2 & _).
  - apply reach_balance. apply reach_bet. apply reach_empty.
  - split; [exact H1|]. split; [exact H2 | reflexivity].
Defined.

(** X10.  In every such store, for every balance row, the balance plus the
    stakes of the user's bets of the week is the starting balance, and
    totalbets is the number of those bets.  Two placements of a user in a
    week that overlap, the second running while the first waits with the
    balance document it has read, both within the balance, store two bets
    and debit and count only the first: the balance plus the stakes then
    exceeds the starting balance by the stake of the second. *)
Theorem ledger_conservation (s : Store) :
  ledgerReach s ->
  (forall wb,
      In wb (week_balances s) ->
      WeekBalance.balance wb
      + staked (WeekBalance.weekid wb) (WeekBalance.userid wb) (bets s)
      == STARTING_BALANCE
      /\ WeekBalance.totalbets wb
         = Z.of_nat
             (List.length
                (filter
                   (betOf (WeekBalance.weekid wb) (WeekBalance.userid wb))
                   (bets s))))
  /\ (forall betSlip1 betSlip2 userId leagueId weekId displayName wb,
        find (balanceOf weekId userId) (week_balances s) = Some wb ->
        stake betSlip1 <= WeekBalance.balance wb ->
        stake betSlip2 <= WeekBalance.balance wb ->
        exists wb' bet1 bet2,
          find (balanceOf weekId userId)
            (week_balances
               (Overlap.twoPlacements betSlip1 betSlip2 userId leagueId
                  weekId displayName s))
          = Some wb'
          /\ bets
               (Overlap.twoPlacements betSlip1 betSlip2 userId leagueId
                  weekId displayName s)
             = bets s ++ [bet2; bet1]
          /\ Bet.stake bet1 = stake betSlip1
          /\ Bet.stake bet2 = stake betSlip2
          /\ WeekBalance.balance wb'
             = WeekBalance.balance wb - stake betSlip1
          /\ WeekBalance.totalbets wb' = (WeekBalance.totalbets wb + 1)%Z
          /\ WeekBalance.balance wb'
             + staked weekId userId
                 (bets
                    (Overlap.twoPlacements betSlip1 betSlip2 userId
                       leagueId weekId displayName s))
             == STARTING_BALANCE + stake betSlip2
          /\ (WeekBalance.totalbets wb' + 1)%Z
             = Z.of_nat
                 (List.length
                    (filter (betOf weekId userId)
                       (bets
                          (Overlap.twoPlacements betSlip1 betSlip2 userId
                             leagueId weekId displayName s))))).
Proof.
  intros H. destruct (ledgerReach_inv s H) as (_ & _ & Hbal & _ & Hc).
  split; [intros wb Hin; split; [now apply Hbal | now apply Hc]|].
  intros slip1 slip2 u l w d wb Hfind Hle1 Hle2.
  pose proof (getOrCreate_existing w l u d s wb Hfind) as Hread.
  unfold Overlap.twoPlacements. rewrite Hread.
  rewrite (placeBet_cases slip2 u l w d s s wb Hread).
  rewrite (lt_false _ _ Hle2). cbv zeta. cbn [snd].
  rewrite placeBetFrom_run, (lt_false _ _ Hle1). cbn [snd].
  set (s2 := storeAfterBet slip2 u l w wb s).
  set (b := WeekBalance.balance wb - stake slip1).
  set (n := (WeekBalance.totalbets wb + 1)%Z).
  assert (Hfind2 :
    find (balanceOf w u) (week_balances s2)
    = Some (patchBalance (WeekBalance.id wb)
              (WeekBalance.balance wb - stake slip2) n wb))
    by (apply find_patched; exact Hfind).
  set (wb2 := patchBalance (WeekBalance.id wb)
                (WeekBalance.balance wb - stake slip2) n wb) in Hfind2.
  assert (Hid : WeekBalance.id wb2 = WeekBalance.id wb)
    by apply patchBalance_id.
  pose proof (find_patched w u (week_balances s2) wb2 b n Hfind2) as Hfind3.
  rewrite Hid in Hfind3.
  destruct (patchBalance_hit b n wb2) as [Hb Hn]. rewrite Hid in Hb, Hn.
  apply find_some in Hfind as [Hin Hkey].
  apply andb_true_iff in Hkey as [Ew Eu].
  apply String.eqb_eq in Ew. apply String.eqb_eq in Eu.
  pose proof (Hbal wb Hin) as Hsum. pose proof (Hc wb Hin) as Hcount.
  rewrite Ew, Eu in Hsum, Hcount.
  assert (Hbets :
    bets (storeAfterBet slip1 u l w wb s2)
    = bets s ++ [betFor slip2 u l w s; betFor slip1 u l w s2]).
  { cbn [storeAfterBet bets]. unfold s2. cbn [storeAfterBet bets].
    now rewrite <- app_assoc. }
  assert (Hof : forall x st, betOf w u (betFor x u l w st) = true).
  { intros x st. unfold betOf, betFor. simpl. now rewrite !String.eqb_refl. }
  exists (patchBalance (WeekBalance.id wb) b n wb2),
    (betFor slip1 u l w s2), (betFor slip2 u l w s).
  split; [exact Hfind3|]. split; [exact Hbets|].
  split; [reflexivity|]. split; [reflexivity|].
  split; [exact Hb|]. split; [exact Hn|].
  rewrite Hbets. split.
  - rewrite Hb.
    change (bets s ++ [betFor slip2 u l w s; betFor slip1 u l w s2])
      with (bets s ++ [betFor slip2 u l w s] ++ [betFor slip1 u l w s2]).
    rewrite app_assoc, !staked_snoc, !Hof.
    unfold b. simpl Bet.stake. lra.
  - rewrite Hn. unfold n. rewrite Hcount.
    rewrite filter_app, length_app. simpl filter. rewrite !Hof.
    simpl List.length. lia.
Qed.

Lemma ledger_conservation_witness :
  900 + staked "w1" "ann" (bets storeAnnBob) == STARTING_BALANCE
  /\ (exists wb',
        find (balanceOf "w1" "ann")
          (week_balances
             (Overlap.twoPlacements slip100 slip100 "ann" "l1" "w1" "Ann"
                storeAnnBob))
        = Some wb'
        /\ WeekBalance.balance wb'
           + staked "w1" "ann"
               (bets
                  (Overlap.twoPlacements slip100 slip100 "ann" "l1" "w1"
                     "Ann" storeAnnBob))
           == STARTING_BALANCE + 100).
Proof.
  destruct (ledger_conservation storeAnnBob) as [Hseq Hover].
  - apply reach_balance. apply reach_bet. apply reach_empty.
  - split.
    + destruct (Hseq (WeekBalance.mk 0 "w1" "l1" "ann" "Ann" (1000 - 100) 0
                        1%Z None)) as [H _]; [left; reflexivity|].
      simpl in H. rewrite <- H. unfold Qeq. simpl. lia.
    + destruct (Hover slip100 slip100 "ann"%string "l1"%string
                  "w1"%string "Ann"%string
                  (WeekBalance.mk 0 "w1" "l1" "ann" "Ann" (1000 - 100) 0
                     1%Z None))
        as (wb' & _ & _ & Hf & _ & _ & _ & _ & _ & Hs & _).
      * reflexivity.
      * unfold Qle. simpl. lia.
      * unfold Qle. simpl. lia.
      * exists wb'. split; [exact Hf | exact Hs].
Defined.

(** X11.  A call of [placeBet], successful or not, leaves the rows of all
    other users and weeks as they are, keeps every bet and leg already
    stored, and adds at most one bet. *)
Theorem placeBet_frame (betSlip : Slip)
    (userId leagueId weekId displayName : string) (s : Store) :
  ledgerReach s ->
  let s' := snd (placeBet betSlip userId leagueId weekId displayName s) in
  (forall r,
      In r (week_balances s) ->
      (WeekBalance.weekid r, WeekBalance.userid r) <> (weekId, userId) ->
      In r (week_balances s'))
  /\ (exists added,
        bets s' = bets s ++ added /\ (List.length added <= 1)%nat)
  /\ (exists added, bet_legs s' = bet_legs s ++ added).
Proof.
  intros Hreach. cbv zeta.
  pose proof (ledgerReach_inv s Hreach) as Hinv.
  destruct (getOrCreate_writes weekId leagueId userId displayName s)
    as (wb & s1 & Hrun & Hold & Hnew & Hb & Hl).
  destruct (getOrCreate_inv _ _ _ _ s s1 wb Hinv Hrun)
    as ((_ & (_ & Hkeys & _) & _) & Hin & Hkey).
  assert (Hrows1 : forall r, In r (week_balances s) ->
                             In r (week_balances s1)).
  { intros r Hr.
    destruct (find (balanceOf weekId userId) (week_balances s)) as [d|] eqn:E.
    - destruct (Hold d eq_refl) as [_ ->]. exact Hr.
    - destruct (Hnew eq_refl) as [-> _]. apply in_or_app. now left. }
  rewrite (placeBet_cases betSlip userId leagueId weekId displayName
             s s1 wb Hrun).
  destruct (JS.lt (WeekBalance.balance wb) (stake betSlip)); simpl.
  - split; [intros r Hr _; now apply Hrows1|].
    split; [exists []; rewrite app_nil_r; split; [exact Hb | simpl; lia]|].
    exists []. now rewrite app_nil_r.
  - split.
    + intros r Hr Hne.
      apply in_map_iff. exists r. split; [|now apply Hrows1].
      apply patchBalance_other. intros E. apply Hne.
      assert (r = wb).
      { apply (NoDup_map_inj WeekBalance.id (week_balances s1)); trivial.
        - destruct (getOrCreate_inv _ _ _ _ s s1 wb Hinv Hrun)
            as ((_ & (Hids & _) & _) & _). exact Hids.
        - now apply Hrows1. }
      subst r. exact Hkey.
    + split.
      * eexists. rewrite Hb. split; [reflexivity | simpl; lia].
      * eexists. rewrite Hl. reflexivity.
Qed.

Lemma placeBet_frame_witness :
  In (firstBalance "w1" "l1" "bob" "Bob" 4)
    (week_balances
       (snd (placeBet slip100 "ann" "l1" "w1" "Ann" storeAnnBob))).
Proof.
  destruct (placeBet_frame slip100 "ann" "l1" "w1" "Ann" storeAnnBob)
    as (H & _).
  - apply reach_balance. apply reach_bet. apply reach_empty.
  - apply H; [right; left; reflexivity | discriminate].
Defined.

(** X12.  The bet [placeBet] stores is labelled "SGM" as soon as the slip has
    two selections or more and "Single" otherwise; it carries the stake, the
    odds and the payout of the slip as they were handed over.  A slip with
    picks on two different games is therefore stored as "SGM" although the
    slip itself does not count it as a same-game multi. *)
Theorem placeBet_betType (betSlip : Slip)
    (userId leagueId weekId displayName : string) (s s' : Store)
    (bet : Bet.t) :
  placeBet betSlip userId leagueId weekId displayName s
  = (Resolved bet, s') ->
  (Bet.betType bet = "SGM"%string <->
   (2 <= List.length (items betSlip))%nat)
  /\ (Bet.betType bet = "Single"%string <->
      (List.length (items betSlip) <= 1)%nat)
  /\ Bet.totalOdds bet = totalOdds betSlip
  /\ Bet.potentialPayout bet = potentialPayout betSlip
  /\ ((exists x y,
          In x (items betSlip) /\ In y (items betSlip)
          /\ BetSlip.gameId x <> BetSlip.gameId y) ->
      Bet.betType bet = "SGM"%string
      /\ BetSlip.isSGM (items betSlip) = false).
Proof.
  intros Hrun.
  destruct (getOrCreate_writes weekId leagueId userId displayName s)
    as (wb & s1 & Hread & _).
  rewrite (placeBet_cases betSlip userId leagueId weekId displayName
             s s1 wb Hread) in Hrun.
  destruct (JS.lt (WeekBalance.balance wb) (stake betSlip));
    [discriminate|].
  inversion Hrun; subst; clear Hrun. unfold betFor. simpl.
  assert (Hlabel :
    (if (1 <? Z.of_nat (List.length (items betSlip)))%Z
     then "SGM"%string else "Single"%string) = "SGM"%string
    <-> (2 <= List.length (items betSlip))%nat).
  { destruct (1 <? Z.of_nat (List.length (items betSlip)))%Z eqn:E.
    - apply Z.ltb_lt in E. split; [lia | reflexivity].
    - apply Z.ltb_ge in E. split; [discriminate | lia]. }
  split; [exact Hlabel|]. split.
  - destruct (1 <? Z.of_nat (List.length (items betSlip)))%Z eqn:E.
    + apply Z.ltb_lt in E. split; [discriminate | lia].
    + apply Z.ltb_ge in E. split; [lia | reflexivity].
  - split; [reflexivity|]. split; [reflexivity|].
    intros (x & y & Hx & Hy & Hne). split.
    + apply Hlabel.
      destruct (items betSlip) as [|a [|b r]]; simpl in *;
        [contradiction | | lia].
      destruct Hx as [<-|[]], Hy as [<-|[]]. now elim Hne.
    + apply isSGM_false. right. now exists x, y.
Qed.

Lemma placeBet_betType_witness :
  exists bet s',
    placeBet slipTwoGames "ann" "l1" "w1" "Ann" emptyStore
    = (Resolved bet, s')
    /\ Bet.betType bet = "SGM"%string
    /\ BetSlip.isSGM (items slipTwoGames) = false.
Proof.
  eexists. eexists. split; [reflexivity|].
  eapply (placeBet_betType slipTwoGames "ann" "l1" "w1" "Ann" emptyStore).
  - reflexivity.
  - exists lakersH2H, sunsH2H.
    split; [left; reflexivity|].
    split; [right; left; reflexivity | discriminate].
Defined.

End LedgerTheorems.

Section BetsTheorems.

Import Ledger LedgerViews Samples Samples2.

Variable parseDate : string -> option Z.

Lemma getUserBets_run (weekId userId : string) (s : Store) :
  Bets.getUserBets parseDate weekId userId s
  = (Resolved
       (map
          (fun b =>
             Bets.mkBetWithLegs b
               (filter (fun leg => Nat.eqb (BetLeg.betId leg) (Bet.id b))
                  (bet_legs s)))
          (JS.sort
             (fun a b =>
                Bets.dateDiff parseDate (Bet.createdAt b) (Bet.createdAt a))
             (filter (betOf weekId userId) (bets s)))),
     s).
Proof. reflexivity. Qed.

(** X13.  After a successful [placeBet], [getUserBets] for the same week and
    user resolves without writing, lists one bet more than were stored for
    the user before, and lists the bet just placed with one pending leg per
    selection of the slip, in the slip's order; every other entry is a bet
    stored before, with the legs it had before. *)
Theorem getUserBets_after_placeBet (betSlip : Slip)
    (userId leagueId weekId displayName : string) (s s' : Store)
    (placed : Bet.t) :
  ledgerReach s ->
  placeBet betSlip userId leagueId weekId displayName s
  = (Resolved placed, s') ->
  exists l,
    Bets.getUserBets parseDate weekId userId s' = (Resolved l, s')
    /\ List.length l
       = S (List.length (filter (betOf weekId userId) (bets s)))
    /\ (exists e,
          In e l /\ Bets.bet e = placed
          /\ Forall2 (pendingLegOf (Bet.id placed)) (Bets.legs e)
               (items betSlip))
    /\ (forall e,
          In e l -> Bets.bet e <> placed ->
          In (Bets.bet e) (bets s)
          /\ Bets.legs e
             = filter
                 (fun leg => Nat.eqb (BetLeg.betId leg) (Bet.id (Bets.bet e)))
                 (bet_legs s)).
Proof.
  intros Hreach Hrun.
  pose proof (ledgerReach_inv s Hreach) as Hinv.
  destruct (getOrCreate_writes weekId leagueId userId displayName s)
    as (wb & s1 & Hread & _ & _ & Hb & Hl).
  destruct (getOrCreate_inv _ _ _ _ s s1 wb Hinv Hread)
    as (((_ & Hi2 & Hi3) & _) & _ & _).
  rewrite (placeBet_cases betSlip userId leagueId weekId displayName
             s s1 wb Hread) in Hrun.
  destruct (JS.lt (WeekBalance.balance wb) (stake betSlip));
    [discriminate|].
  inversion Hrun; subst placed s'; clear Hrun.
  set (placed := betFor betSlip userId leagueId weekId s1).
  assert (Hmine : betOf weekId userId placed = true).
  { unfold betOf, placed, betFor. simpl. now rewrite !String.eqb_refl. }
  assert (Hfilter :
    filter (betOf weekId userId)
      (bets (storeAfterBet betSlip userId leagueId weekId wb s1))
    = filter (betOf weekId userId) (bets s) ++ [placed]).
  { unfold storeAfterBet. simpl. rewrite filter_app. simpl.
    fold placed. rewrite Hmine, Hb. reflexivity. }
  assert (Hnew :
    filter (fun leg => Nat.eqb (BetLeg.betId leg) (Bet.id placed))
      (bet_legs (storeAfterBet betSlip userId leagueId weekId wb s1))
    = legsFrom (nextId s1) (items betSlip) (S (nextId s1))).
  { unfold storeAfterBet. simpl. rewrite filter_app.
    rewrite filter_none, filter_all; [reflexivity| |].
    - intros x Hx. apply legsFrom_ids in Hx. apply Nat.eqb_eq. tauto.
    - intros x Hx. apply Hi3 in Hx. apply Nat.eqb_neq. lia. }
  eexists. split; [apply getUserBets_run|].
  split; [|split].
  - rewrite length_map.
    rewrite <- (Permutation_length (sort_perm _ _)).
    rewrite Hfilter, length_app. simpl. lia.
  - exists (Bets.mkBetWithLegs placed
              (legsFrom (nextId s1) (items betSlip) (S (nextId s1)))).
    split; [|split; [reflexivity | apply legsFrom_pending]].
    apply in_map_iff. exists placed. split; [now rewrite Hnew|].
    apply sort_In. rewrite Hfilter. apply in_or_app. right. now left.
  - intros e He Hne.
    apply in_map_iff in He. destruct He as (b & <- & Hin). simpl in *.
    apply sort_In in Hin. rewrite Hfilter in Hin.
    apply in_app_or in Hin. destruct Hin as [Hin|[<-|[]]];
      [|now elim Hne].
    apply filter_In in Hin. destruct Hin as [Hin _].
    split; [exact Hin|].
    unfold storeAfterBet. simpl. rewrite filter_app, Hl.
    rewrite (filter_none _ (legsFrom _ _ _)); [now rewrite app_nil_r|].
    intros x Hx. apply legsFrom_ids in Hx. apply Nat.eqb_neq.
    rewrite <- Hb in Hin. apply Hi2 in Hin. lia.
Qed.

End BetsTheorems.

Lemma getUserBets_after_placeBet_witness :
  exists l,
    Bets.getUserBets (fun _ => None) "w1" "ann"
      (snd (Ledger.placeBet Samples.slip100 "ann" "l1" "w1" "Ann"
              Samples2.storeAnnBob))
    = (Ledger.Resolved l,
       snd (Ledger.placeBet Samples.slip100 "ann" "l1" "w1" "Ann"
              Samples2.storeAnnBob))
    /\ List.length l = 2%nat.
Proof.
  destruct (getUserBets_after_placeBet (fun _ => None) Samples.slip100
              "ann" "l1" "w1" "Ann" Samples2.storeAnnBob
              (snd (Ledger.placeBet Samples.slip100 "ann" "l1" "w1" "Ann"
                      Samples2.storeAnnBob))
              (LedgerViews.betFor Samples.slip100 "ann" "l1" "w1"
                 Samples2.storeAnnBob))
    as (l & Hrun & Hlen & _).
  - apply LedgerViews.reach_balance. apply LedgerViews.reach_bet.
    apply LedgerViews.reach_empty.
  - reflexivity.
  - exists l. split; [exact Hrun | exact Hlen].
Defined.

Section VisibilityTheorems.

Import Ledger LedgerViews.

Variable parseDate : string -> option Z.

(** X14.  [getMemberBets] lists the bets [getUserBets] lists, in the same
    order, and writes nothing.  Details are never withheld from the member
    who owns the bets nor for a bet that is no longer pending.  For another
    viewer and a pending bet: mode "Hidden" always withholds them; mode
    "VisibleWhenLocked" shows them exactly when every leg has a valid game
    time before the instant of the call (so a pending bet without legs is
    shown, and one leg with an unreadable game time keeps the bet hidden);
    any other mode shows them. *)
Theorem getMemberBets_visibility (today : Z)
    (weekId memberId viewerId visibilityMode : string) (s : Store) :
  exists l l',
    Bets.getUserBets parseDate weekId memberId s = (Resolved l, s)
    /\ Bets.getMemberBets parseDate today weekId memberId viewerId
         visibilityMode s = (Resolved l', s)
    /\ map Bets.shown l' = l
    /\ forall e,
        In e l' ->
        let pending :=
          Bet.status (Bets.bet (Bets.shown e)) = "pending"%string in
        (memberId = viewerId -> Bets.showDetails e = true)
        /\ (~ pending -> Bets.showDetails e = true)
        /\ (memberId <> viewerId -> pending ->
            visibilityMode = "Hidden"%string ->
            Bets.showDetails e = false)
        /\ (memberId <> viewerId -> pending ->
            visibilityMode = "VisibleWhenLocked"%string ->
            (Bets.showDetails e = true <->
             forall leg,
               In leg (Bets.legs (Bets.shown e)) ->
               exists t,
                 parseDate (BetLeg.gameTime leg) = Some t /\ (t < today)%Z))
        /\ (visibilityMode <> "Hidden"%string ->
            visibilityMode <> "VisibleWhenLocked"%string ->
            Bets.showDetails e = true).
Proof.
  eexists. eexists. split; [apply getUserBets_run|].
  split; [unfold Bets.getMemberBets, bind; rewrite getUserBets_run;
          reflexivity|].
  split; [rewrite map_map; simpl; apply map_id|].
  intros e He. apply in_map_iff in He. destruct He as (b & <- & _).
  cbv zeta. simpl.
  destruct (String.eqb_spec memberId viewerId) as [Hv|Hv]; simpl.
  { repeat split; intros; try reflexivity; try contradiction. }
  destruct (String.eqb_spec (Bet.status (Bets.bet b)) "pending") as [Hp|Hp];
    simpl.
  2:{ destruct (String.eqb visibilityMode "Hidden");
      [|destruct (String.eqb visibilityMode "VisibleWhenLocked")];
      rewrite ?orb_true_r;
      repeat split; intros; try reflexivity; try contradiction. }
  destruct (String.eqb_spec visibilityMode "Hidden") as [Hh|Hh].
  { subst visibilityMode.
    repeat split; intros; try reflexivity; try contradiction;
      discriminate. }
  destruct (String.eqb_spec visibilityMode "VisibleWhenLocked") as [Hl|Hl].
  2:{ repeat split; intros; try reflexivity; try contradiction. }
  rewrite orb_false_r.
  split; [intros; contradiction|].
  split; [intros; contradiction|].
  split; [intros; contradiction|].
  split; [|intros; contradiction].
  intros _ _ _. rewrite forallb_forall. split.
  - intros H leg Hleg. specialize (H leg Hleg). unfold Bets.started in H.
    destruct (parseDate (BetLeg.gameTime leg)) as [t|]; [|discriminate].
    exists t. split; [reflexivity|]. now apply Z.ltb_lt.
  - intros H leg Hleg. destruct (H leg Hleg) as (t & Ht & Hlt).
    unfold Bets.started. rewrite Ht. now apply Z.ltb_lt.
Qed.

End VisibilityTheorems.

(** ** Stability of the sort *)

Section SortStable.

Variable A : Type.
Variable cmp : A -> A -> Q.
Variable q : A -> bool.

Lemma sortInsert_filter (x : A) (l : list A) :
  (forall y, In y l -> q x = true -> q y = true ->
             Qle_bool (cmp x y) 0 = true) ->
  filter q (JS.sortInsert cmp x l)
  = if q x then x :: filter q l else filter q l.
Proof.
  induction l as [|y r IH]; intros H.
  - simpl. destruct (q x); reflexivity.
  - cbn [JS.sortInsert]. destruct (Qle_bool (cmp x y) 0) eqn:E.
    + cbn [filter]. destruct (q x); reflexivity.
    + cbn [filter]. rewrite IH by (intros z Hz; apply H; now right).
      destruct (q x) eqn:Ex, (q y) eqn:Ey; try reflexivity.
      rewrite (H y) in E by (trivial; now left). discriminate.
Qed.

(** Elements the comparator does not tell apart keep their order. *)
Lemma sort_keeps_ties (l : list A) :
  (forall x y, In x l -> In y l -> q x = true -> q y = true ->
               Qle_bool (cmp x y) 0 = true) ->
  filter q (JS.sort cmp l) = filter q l.
Proof.
  induction l as [|x r IH]; intros H; [reflexivity|].
  cbn [JS.sort]. rewrite sortInsert_filter.
  - cbn [filter]. rewrite IH; [reflexivity|].
    intros a b Ha Hb. apply H; now right.
  - intros y Hy. apply H; [now left|].
    right. exact (proj1 (sort_In cmp r y) Hy).
Qed.

End SortStable.

(** ** Leagues *)

Section SeasonBoard.

Import Leagues.

Lemma getSeasonLeaderboard_run (leagueId : string) (s : Store) :
  getSeasonLeaderboard leagueId s
  = (Ledger.Resolved
       (JS.mapi
          (fun m i =>
             mkRankedMember m
               (JSString.orDefault
                  (JSString.orElse (LeagueMember.displayName m)
                     (LeagueMember.displayname m))
                  "Unknown")
               (i + 1)%Z)
          (JS.sort (fun a b => points b - points a)
             (membersOf leagueId s))),
     s).
Proof. reflexivity. Qed.

Lemma strOrNull_nonempty (a : option string) (x : string) :
  JS.strOrNull a = Some x -> a = Some x /\ x <> EmptyString.
Proof.
  unfold JS.strOrNull. destruct a as [[|c r]|]; try discriminate.
  intros H. inversion H; subst. split; [reflexivity | discriminate].
Qed.

(** X15.  The season leaderboard lists exactly the members of the league,
    each with rank = its 1-based position, in descending order of season
    points (a member without readable points counting as 0); members on the
    same points keep the order of the fetch.  The name shown is never
    empty: it is displayName, else displayname, else "Unknown".  Nothing is
    written. *)
Theorem getSeasonLeaderboard_ranking (leagueId : string) (s : Store) :
  exists board,
    getSeasonLeaderboard leagueId s = (Ledger.Resolved board, s)
    /\ Permutation (map member board) (membersOf leagueId s)
    /\ (forall k r, nth_error board k = Some r -> rank r = (Z.of_nat k + 1)%Z)
    /\ StronglySorted (fun a b => points b <= points a) (map member board)
    /\ (forall p,
          filter (fun m => Qeq_bool (points m) p) (map member board)
          = filter (fun m => Qeq_bool (points m) p) (membersOf leagueId s))
    /\ (forall r,
          In r board ->
          shownName r <> EmptyString
          /\ (LeagueMember.displayName (member r) = Some (shownName r)
              \/ LeagueMember.displayname (member r) = Some (shownName r)
              \/ shownName r = "Unknown"%string)).
Proof.
  eexists. split; [apply getSeasonLeaderboard_run|].
  set (rows := membersOf leagueId s).
  set (f := fun (m : LeagueMember.t) (i : Z) => mkRankedMember m _ _).
  assert (Hmap : forall l i, map member (JS.mapFrom f l i) = l).
  { intros l i. apply mapFrom_map. reflexivity. }
  unfold JS.mapi. rewrite Hmap.
  split; [apply Permutation_sym, sort_perm|].
  split.
  { intros k r H. apply mapFrom_nth in H as (a & _ & ->). simpl. lia. }
  split.
  { apply (sort_sorted (fun a b => points b - points a)
             (fun a b => points b <= points a) (fun _ => True)).
    - intros x y z _ _ _ Hxy Hyz. now apply Qle_trans with (points y).
    - intros x y _ _ H. apply Qle_bool_iff in H. lra.
    - intros x y _ _ H. cbv beta in H.
      destruct (Qlt_le_dec 0 (points y - points x)) as [Hlt|Hle]; [lra|].
      apply Qle_bool_iff in Hle. congruence.
    - apply Forall_forall. trivial. }
  split.
  { intros p. apply sort_keeps_ties. intros x y _ _ Hx Hy.
    apply Qeq_bool_iff in Hx, Hy. apply Qle_bool_iff. lra. }
  intros r Hr.
  assert (Hshape : forall l i, In r (JS.mapFrom f l i) ->
            shownName r
            = JSString.orDefault
                (JSString.orElse (LeagueMember.displayName (member r))
                   (LeagueMember.displayname (member r)))
                "Unknown").
  { induction l as [|m l IH]; intros i; simpl; [contradiction|].
    intros [<-|H]; [reflexivity | now apply (IH (i + 1)%Z)]. }
  rewrite (Hshape _ _ Hr).
  unfold JSString.orDefault, JSString.orElse.
  destruct (JS.strOrNull (LeagueMember.displayName (member r)))
    as [x|] eqn:E1.
  - apply strOrNull_nonempty in E1 as [E1 Hne].
    simpl. rewrite E1. unfold JS.strOrNull.
    destruct x; [now elim Hne|]. split; [discriminate | now left].
  - destruct (JS.strOrNull (LeagueMember.displayname (member r)))
      as [y|] eqn:E2.
    + apply strOrNull_nonempty in E2 as [E2 Hne]. rewrite E2.
      unfold JS.strOrNull. destruct y; [now elim Hne|].
      split; [discriminate | right; now left].
    + destruct (LeagueMember.displayname (member r)) as [[|c y]|];
        simpl in *; try discriminate;
        (split; [discriminate | right; now right]).
Qed.

End SeasonBoard.

Section LeagueFacts.

Import Leagues LeagueViews.

Variable docId : nat -> string.

Lemma createWeekForLeague_run (wall : Z) (leagueId : string) (s : Store) :
  createWeekForLeague wall leagueId s
  = (Ledger.Resolved (weekFor wall leagueId (Ledger.nextId (db s))),
     mkStore (drawn (db s)) (leagues s) (league_members s)
       (weeks s ++ [weekFor wall leagueId (Ledger.nextId (db s))])).
Proof.
  unfold createWeekForLeague, weekFor.
  destruct (Scheduler.getWeekBounds wall) as [a b]. reflexivity.
Qed.

Lemma createLeague_run (draw : nat -> nat) (wall : Z)
    (name userId displayName : string) (leagueType : option string)
    (s : Store) :
  let lg := leagueFor draw wall name userId leagueType s in
  createLeague docId draw wall name userId displayName leagueType s
  = (Ledger.Resolved lg,
     mkStore (drawn (drawn (drawn (db s))))
       (leagues s ++ [lg])
       (league_members s
        ++ [LeagueMember.mk (S (Ledger.nextId (db s))) (docId (League.id lg))
              userId (Some displayName) None (Some 0) true
              (Ledger.clock (db s))])
       (weeks s
        ++ [weekFor wall (docId (League.id lg))
              (S (S (Ledger.nextId (db s))))])).
Proof.
  cbv zeta. unfold createLeague. cbv zeta.
  unfold bind at 1. unfold now at 1.
  unfold bind at 1. unfold createLeagueDoc at 1. cbv zeta.
  unfold bind at 1. unfold now at 1.
  unfold bind at 1. unfold createLeagueMember at 1. cbv zeta.
  unfold bind at 1. rewrite createWeekForLeague_run.
  reflexivity.
Qed.

Lemma joinLeague_run (inviteCode userId displayName : string) (s : Store) :
  joinLeague docId inviteCode userId displayName s
  = match find
            (fun l =>
               String.eqb (League.inviteCode l)
                 (JSString.toUpperCase inviteCode))
            (leagues s) with
    | None => (Ledger.Rejected "League not found", s)
    | Some lg =>
        if existsb (memberOf (docId (League.id lg)) userId)
             (league_members s)
        then (Ledger.Rejected "Already a member of this league", s)
        else (Ledger.Resolved lg,
              storeAfterJoin docId lg userId displayName s)
    end.
Proof.
  unfold joinLeague, bind, getLeagueByCode, fetchLeagues, ret. simpl.
  destruct (find _ (leagues s)) as [lg|]; [|reflexivity].
  unfold fetchLeagueMembers.
  destruct (existsb _ (league_members s)); reflexivity.
Qed.

Lemma getCurrentWeek_run (wall : Z) (leagueId : string) (s : Store) :
  getCurrentWeek docId wall leagueId s
  = match find (currentWeekOf wall leagueId) (weeks s) with
    | Some w =>
        (Ledger.Resolved
           (mkWeekWithBalances w
              (filter
                 (fun b =>
                    String.eqb (WeekBalance.weekid b) (docId (WeekDoc.id w)))
                 (Ledger.week_balances (db s)))),
         s)
    | None =>
        let w := weekFor wall leagueId (Ledger.nextId (db s)) in
        (Ledger.Resolved
           (mkWeekWithBalances w
              (filter
                 (fun b =>
                    String.eqb (WeekBalance.weekid b) (docId (WeekDoc.id w)))
                 (Ledger.week_balances (db s)))),
         mkStore (drawn (db s)) (leagues s) (league_members s)
           (weeks s ++ [w]))
    end.
Proof.
  unfold getCurrentWeek. unfold bind at 1. unfold fetchWeeks at 1.
  unfold bind at 1.
  destruct (find (currentWeekOf wall leagueId) (weeks s)) as [w|].
  - reflexivity.
  - rewrite createWeekForLeague_run. reflexivity.
Qed.

End LeagueFacts.

Section LeagueInvariant.

Import Leagues LeagueViews.

Variable docId : nat -> string.
Hypothesis docId_inj : forall a b, docId a = docId b -> a = b.

Lemma NoDup_map_snoc {A B : Type} (f : A -> B) (l : list A) (x : A) :
  NoDup (map f l) ->
  (forall y, In y l -> f y <> f x) ->
  NoDup (map f (l ++ [x])).
Proof.
  intros Hn Hx. rewrite map_app. simpl.
  apply NoDup_app; [exact Hn | repeat constructor; intros [] |].
  intros b Hb [<-|[]]. apply in_map_iff in Hb as (y & Hy & Hin).
  now apply (Hx y).
Qed.

Lemma currentWeekOf_key (wall : Z) (leagueId : string) (w : WeekDoc.t) :
  currentWeekOf wall leagueId w = true
  <-> weekKey w
      = (leagueId, Scheduler.getWeekNumber wall,
         Scheduler.getSeasonYear wall).
Proof.
  unfold currentWeekOf, weekKey. rewrite !andb_true_iff.
  rewrite String.eqb_eq, !Z.eqb_eq. split.
  - intros [[-> ->] ->]. reflexivity.
  - intros H. inversion H. auto.
Qed.

Lemma memberOf_key (leagueId userId : string) (m : LeagueMember.t) :
  memberOf leagueId userId m = true <-> memberKey m = (leagueId, userId).
Proof.
  unfold memberOf, memberKey. rewrite andb_true_iff, !String.eqb_eq. split.
  - intros [-> ->]. reflexivity.
  - intros H. inversion H. auto.
Qed.

Lemma existsb_false {A : Type} (p : A -> bool) (l : list A) :
  existsb p l = false -> forall x, In x l -> p x = false.
Proof.
  intros H x Hx. destruct (p x) eqn:E; [|reflexivity].
  rewrite <- H. symmetry. apply existsb_exists. now exists x.
Qed.

Lemma createLeague_inv (draw : nat -> nat) (wall : Z)
    (name userId displayName : string) (leagueType : option string)
    (s : Store) :
  leagueInv docId s ->
  leagueInv docId
    (snd (createLeague docId draw wall name userId displayName leagueType
            s)).
Proof.
  intros (I1 & I2 & I3 & I4 & I5 & I6 & I7 & I8).
  pose proof (createLeague_run docId draw wall name userId displayName
                leagueType s) as Hrun.
  cbv zeta in Hrun. rewrite Hrun. clear Hrun. cbn [snd].
  set (lg := leagueFor draw wall name userId leagueType s).
  assert (Hid : League.id lg = Ledger.nextId (db s)) by reflexivity.
  assert (Hfresh : forall l, In l (leagues s) ->
                             docId (League.id l) <> docId (League.id lg)).
  { intros l Hl E. apply docId_inj in E. apply I1 in Hl. lia. }
  unfold leagueInv. cbn [db leagues league_members weeks].
  refine (conj _ (conj _ (conj _ (conj _ (conj _ (conj _ (conj _ _))))))).
  - intros l Hl. simpl. apply in_app_or in Hl as [Hl|[<-|[]]].
    + apply I1 in Hl. lia.
    + rewrite Hid. lia.
  - apply NoDup_map_snoc; [exact I2|].
    intros y Hy E. apply I1 in Hy. lia.
  - intros m Hm. apply in_app_or in Hm as [Hm|[<-|[]]].
    + destruct (I3 m Hm) as (l & Hl & E & Ha).
      exists l. split; [apply in_or_app; now left | now split].
    + exists lg. split; [apply in_or_app; right; now left|].
      split; reflexivity.
  - apply NoDup_map_snoc; [exact I4|].
    intros y Hy E. destruct (I3 y Hy) as (l & Hl & El & _).
    unfold memberKey in E. simpl in E. inversion E as [[E1 E2]].
    rewrite El in E1. now apply (Hfresh l Hl).
  - intros l Hl. apply in_app_or in Hl as [Hl|[<-|[]]].
    + destruct (I5 l Hl) as (m & Hm & Hk & Ha).
      exists m. split; [apply in_or_app; now left | now split].
    + eexists. split; [apply in_or_app; right; now left|].
      split; reflexivity.
  - intros w Hw. apply in_app_or in Hw as [Hw|[<-|[]]].
    + destruct (I6 w Hw) as (l & Hl & E).
      exists l. split; [apply in_or_app; now left | exact E].
    + exists lg. split; [apply in_or_app; right; now left | reflexivity].
  - apply NoDup_map_snoc; [exact I7|].
    intros y Hy E. destruct (I6 y Hy) as (l & Hl & El).
    unfold weekKey, weekFor in E. simpl in E. inversion E as [[E1 E2 E3]].
    rewrite El in E1. now apply (Hfresh l Hl).
  - intros l Hl. apply in_app_or in Hl as [Hl|[<-|[]]].
    + destruct (I8 l Hl) as (w & Hw & E).
      exists w. split; [apply in_or_app; now left | exact E].
    + eexists. split; [apply in_or_app; right; now left | reflexivity].
Qed.

Lemma joinLeague_inv (inviteCode userId displayName : string) (s : Store) :
  leagueInv docId s ->
  leagueInv docId (snd (joinLeague docId inviteCode userId displayName s)).
Proof.
  intros Hinv. rewrite joinLeague_run.
  destruct (find _ (leagues s)) as [lg|] eqn:Ef; [|exact Hinv].
  destruct (existsb _ (league_members s)) eqn:Ee; [exact Hinv|].
  cbn [snd]. destruct Hinv as (I1 & I2 & I3 & I4 & I5 & I6 & I7 & I8).
  apply find_some in Ef as [Hlg _].
  unfold leagueInv, storeAfterJoin.
  cbn [db leagues league_members weeks].
  refine (conj _ (conj I2 (conj _ (conj _ (conj _ (conj I6 (conj I7 I8))))))).
  - intros l Hl. simpl. apply I1 in Hl. lia.
  - intros m Hm. apply in_app_or in Hm as [Hm|[<-|[]]].
    + now apply I3.
    + exists lg. split; [exact Hlg|]. split; [reflexivity|].
      simpl. discriminate.
  - apply NoDup_map_snoc; [exact I4|].
    intros y Hy E. apply (existsb_false _ _ Ee) in Hy.
    apply (proj2 (memberOf_key (docId (League.id lg)) userId y)) in E.
    congruence.
  - intros l Hl. destruct (I5 l Hl) as (m & Hm & Hk & Ha).
    exists m. split; [apply in_or_app; now left | now split].
Qed.

Lemma getCurrentWeek_inv (wall : Z) (lg : League.t) (s : Store) :
  leagueInv docId s ->
  In lg (leagues s) ->
  leagueInv docId
    (snd (getCurrentWeek docId wall (docId (League.id lg)) s)).
Proof.
  intros Hinv Hlg. rewrite getCurrentWeek_run.
  destruct (find _ (weeks s)) as [w|] eqn:Ef; [exact Hinv|].
  cbv zeta. cbn [snd].
  destruct Hinv as (I1 & I2 & I3 & I4 & I5 & I6 & I7 & I8).
  unfold leagueInv. cbn [db leagues league_members weeks].
  refine (conj _ (conj I2 (conj I3 (conj I4 (conj I5 (conj _ (conj _ _))))))).
  - intros l Hl. simpl. apply I1 in Hl. lia.
  - intros w Hw. apply in_app_or in Hw as [Hw|[<-|[]]].
    + now apply I6.
    + exists lg. split; [exact Hlg | reflexivity].
  - apply NoDup_map_snoc; [exact I7|].
    intros y Hy E. apply (find_none _ _ Ef) in Hy.
    assert (currentWeekOf wall (docId (League.id lg)) y = true);
      [|congruence].
    apply currentWeekOf_key. rewrite E. reflexivity.
  - intros l Hl. destruct (I8 l Hl) as (w & Hw & E).
    exists w. split; [apply in_or_app; now left | exact E].
Qed.

Lemma leaguesReach_inv (s : Store) :
  leaguesReach docId s -> leagueInv docId s.
Proof.
  induction 1 as [d | s d Hs IH Hle | s draw wall name u dn lt Hs IH
                 | s code u dn Hs IH | s wall lg Hs IH Hlg].
  - unfold leagueInv. simpl.
    refine (conj _ (conj _ (conj _ (conj _ (conj _ (conj _ (conj _ _)))))));
      try apply NoDup_nil; intros; contradiction.
  - destruct IH as (I1 & I2 & I3 & I4 & I5 & I6 & I7 & I8).
    unfold leagueInv. cbn [db leagues league_members weeks].
    refine (conj _ (conj I2 (conj I3 (conj I4 (conj I5
             (conj I6 (conj I7 I8))))))).
    intros l Hl. apply I1 in Hl. lia.
  - now apply createLeague_inv.
  - now apply joinLeague_inv.
  - now apply getCurrentWeek_inv.
Qed.

End LeagueInvariant.

Section InviteCodes.

Import Leagues LeagueViews JSString.

Lemma charAt_chars (n : nat) :
  (n < 36)%nat ->
  exists c,
    charAt chars n = String c EmptyString
    /\ upperChar c = c
    /\ upperChar (lowerChar c) = c.
Proof.
  intros H.
  do 36 (destruct n as [|n];
         [eexists; split; [reflexivity | split; reflexivity]|]).
  lia.
Qed.

Lemma toUpperCase_app (a b : string) :
  toUpperCase (a ++ b) = (toUpperCase a ++ toUpperCase b)%string.
Proof.
  induction a as [|c a IH]; simpl; [reflexivity | now rewrite IH].
Qed.

Lemma toLowerCase_app (a b : string) :
  toLowerCase (a ++ b) = (toLowerCase a ++ toLowerCase b)%string.
Proof.
  induction a as [|c a IH]; simpl; [reflexivity | now rewrite IH].
Qed.

Lemma length_append (a b : string) :
  String.length (a ++ b) = (String.length a + String.length b)%nat.
Proof.
  induction a as [|c a IH]; simpl; [reflexivity | now rewrite IH].
Qed.

Lemma codeFrom_shape (draw : nat -> nat) (n i : nat) (code : string) :
  (forall j, (draw j < 36)%nat) ->
  toUpperCase code = code ->
  toUpperCase (toLowerCase code) = code ->
  String.length (codeFrom draw i n code) = (String.length code + n)%nat
  /\ toUpperCase (codeFrom draw i n code) = codeFrom draw i n code
  /\ toUpperCase (toLowerCase (codeFrom draw i n code))
     = codeFrom draw i n code.
Proof.
  intros Hd. revert i code.
  induction n as [|n IH]; intros i code H1 H2; simpl.
  - split; [lia | now split].
  - destruct (charAt_chars (draw i) (Hd i)) as (c & Ec & Hu & Hl).
    destruct (IH (S i) (code ++ charAt chars (draw i))%string)
      as (Ha & Hb & Hc).
    + rewrite toUpperCase_app, H1, Ec. simpl. now rewrite Hu.
    + rewrite toLowerCase_app, toUpperCase_app, H2, Ec. simpl.
      now rewrite Hl.
    + split; [|now split].
      rewrite Ha, length_append, Ec. simpl. lia.
Qed.

Lemma generateInviteCode_upper (draw : nat -> nat) :
  (forall i, (draw i < 36)%nat) ->
  toUpperCase (generateInviteCode draw) = generateInviteCode draw
  /\ toUpperCase (toLowerCase (generateInviteCode draw))
     = generateInviteCode draw.
Proof.
  intros Hd.
  destruct (codeFrom_shape draw INVITE_CODE_LENGTH 0 EmptyString Hd
              eq_refl eq_refl) as (_ & Hb & Hc).
  split; assumption.
Qed.

(** An invite code has INVITE_CODE_LENGTH = 6 characters, all capital
    letters or digits, so upper-casing leaves it as it is and the code typed
    in lower case finds the same league as the code itself. *)
Theorem generateInviteCode_shape (docId : nat -> string)
    (draw : nat -> nat) :
  (forall i, (draw i < 36)%nat) ->
  let code := generateInviteCode draw in
  String.length code = INVITE_CODE_LENGTH
  /\ toUpperCase code = code
  /\ (forall s, getLeagueByCode (toLowerCase code) s = getLeagueByCode code s).
Proof.
  intros Hd. cbv zeta. unfold generateInviteCode.
  destruct (codeFrom_shape draw INVITE_CODE_LENGTH 0 EmptyString Hd
              eq_refl eq_refl) as (Ha & Hb & Hc).
  split; [exact Ha|]. split; [exact Hb|].
  intros s. unfold getLeagueByCode. now rewrite Hb, Hc.
Qed.

Lemma drawAB12YZ_range (i : nat) : (drawAB12YZ i < 36)%nat.
Proof.
  unfold drawAB12YZ.
  do 6 (destruct i as [|i]; [simpl; lia|]). destruct i; simpl; lia.
Qed.

Lemma generateInviteCode_shape_witness :
  generateInviteCode drawAB12YZ = "AB12YZ"%string
  /\ String.length (generateInviteCode drawAB12YZ) = 6%nat.
Proof.
  split; [reflexivity|].
  destruct (generateInviteCode_shape tally drawAB12YZ) as (H & _).
  - intros i. unfold drawAB12YZ.
    do 6 (destruct i as [|i]; [simpl; lia|]). destruct i; simpl; lia.
  - exact H.
Defined.

End InviteCodes.

Section LeagueTheorems.

Import Leagues LeagueViews Samples3.

Variable docId : nat -> string.

(** X16.  When the code names a league and the user is not yet a member of
    it, [joinLeague] resolves with that league and adds the user as a member
    without admin rights on 0 points: the league has one member more,
    whatever its maxMembers and whether it is paused or not; leagues, weeks
    and the other members are left as they are. *)
Theorem joinLeague_no_capacity
    (inviteCode userId displayName : string) (s : Store) (lg : League.t) :
  getLeagueByCode inviteCode s = (Ledger.Resolved (Some lg), s) ->
  (forall m,
      In m (league_members s) ->
      memberKey m <> (docId (League.id lg), userId)) ->
  exists s1 m,
    joinLeague docId inviteCode userId displayName s
    = (Ledger.Resolved lg, s1)
    /\ league_members s1 = league_members s ++ [m]
    /\ memberKey m = (docId (League.id lg), userId)
    /\ LeagueMember.isAdmin m = false
    /\ points m == 0
    /\ List.length (membersOf (docId (League.id lg)) s1)
       = S (List.length (membersOf (docId (League.id lg)) s))
    /\ leagues s1 = leagues s
    /\ weeks s1 = weeks s.
Proof.
  intros Hfind Hnew.
  unfold getLeagueByCode, bind, fetchLeagues, ret in Hfind.
  inversion Hfind as [Hf]. clear Hfind.
  exists (storeAfterJoin docId lg userId displayName s).
  exists (memberFor docId lg userId displayName false s).
  rewrite joinLeague_run, Hf.
  assert (He : existsb (memberOf (docId (League.id lg)) userId)
                 (league_members s) = false).
  { apply not_true_is_false. intros E.
    apply existsb_exists in E as (m & Hm & Hk).
    apply memberOf_key in Hk. now apply (Hnew m). }
  rewrite He. split; [reflexivity|]. split; [reflexivity|].
  split; [reflexivity|]. split; [reflexivity|].
  split; [reflexivity|]. split; [|split; reflexivity].
  unfold membersOf, storeAfterJoin. cbn [league_members].
  rewrite filter_app, length_app. simpl.
  rewrite String.eqb_refl. simpl. lia.
Qed.

(** After a successful [joinLeague], joining again with the same code
    in any letter case, under any display name, is rejected with "Already a
    member of this league" and writes nothing. *)
Theorem joinLeague_twice
    (inviteCode userId displayName inviteCode' displayName' : string)
    (s s1 : Store) (lg : League.t) :
  joinLeague docId inviteCode userId displayName s
  = (Ledger.Resolved lg, s1) ->
  JSString.toUpperCase inviteCode' = JSString.toUpperCase inviteCode ->
  joinLeague docId inviteCode' userId displayName' s1
  = (Ledger.Rejected "Already a member of this league", s1).
Proof.
  intros Hrun Hcode. rewrite joinLeague_run in Hrun.
  destruct (find _ (leagues s)) as [l|] eqn:Ef; [|discriminate].
  destruct (existsb _ (league_members s)) eqn:Ee; [discriminate|].
  inversion Hrun; subst; clear Hrun.
  rewrite joinLeague_run. rewrite Hcode.
  unfold storeAfterJoin at 1. cbn [leagues]. rewrite Ef.
  unfold storeAfterJoin at 1. cbn [league_members].
  rewrite existsb_app. simpl. unfold memberOf at 2. simpl.
  rewrite !String.eqb_refl. simpl. rewrite orb_true_r. reflexivity.
Qed.

(** A rejected [joinLeague] has written nothing, and the only
    rejections are "League not found", when no league has the upper-cased
    code, and "Already a member of this league". *)
Theorem joinLeague_rejected
    (inviteCode userId displayName msg : string) (s s1 : Store) :
  joinLeague docId inviteCode userId displayName s
  = (Ledger.Rejected msg, s1) ->
  s1 = s
  /\ ((msg = "League not found"%string
       /\ forall l,
            In l (leagues s) ->
            League.inviteCode l <> JSString.toUpperCase inviteCode)
      \/ (msg = "Already a member of this league"%string
          /\ exists m,
               In m (league_members s) /\ LeagueMember.userId m = userId)).
Proof.
  rewrite joinLeague_run.
  destruct (find _ (leagues s)) as [l|] eqn:Ef.
  - destruct (existsb _ (league_members s)) eqn:Ee; [|discriminate].
    intros H. inversion H; subst. split; [reflexivity|]. right.
    split; [reflexivity|].
    apply existsb_exists in Ee as (m & Hm & Hk).
    apply memberOf_key in Hk. exists m. split; [exact Hm|].
    unfold memberKey in Hk. now inversion Hk.
  - intros H. inversion H; subst. split; [reflexivity|]. left.
    split; [reflexivity|]. intros l Hl E.
    apply (find_none _ _ Ef) in Hl. simpl in Hl.
    rewrite E, String.eqb_refl in Hl. discriminate.
Qed.

(** X17.  [getCurrentWeek] always resolves, also for a league that does not
    exist.  The week it returns is a week of that league with the week
    number and season year of the instant; a second call at the same
    instant returns the same answer and writes nothing.  The first call
    writes at most one document: a week, when none with these three keys was
    stored, "Active", with the bounds [getWeekBounds] gives.  The balances
    returned are the rows of that week in fetch order. *)
Theorem getCurrentWeek_idempotent (wall : Z) (leagueId : string)
    (s : Store) :
  exists r s1,
    getCurrentWeek docId wall leagueId s = (Ledger.Resolved r, s1)
    /\ getCurrentWeek docId wall leagueId s1 = (Ledger.Resolved r, s1)
    /\ weekKey (week r)
       = (leagueId, Scheduler.getWeekNumber wall,
          Scheduler.getSeasonYear wall)
    /\ (s1 = s
        \/ (weeks s1 = weeks s ++ [week r]
            /\ (forall w, In w (weeks s) -> weekKey w <> weekKey (week r))
            /\ WeekDoc.status (week r) = "Active"%string
            /\ (WeekDoc.startDate (week r), WeekDoc.endDate (week r))
               = Scheduler.getWeekBounds wall))
    /\ leagues s1 = leagues s
    /\ league_members s1 = league_members s
    /\ Ledger.week_balances (db s1) = Ledger.week_balances (db s)
    /\ balances r
       = filter
           (fun b =>
              String.eqb (WeekBalance.weekid b) (docId (WeekDoc.id (week r))))
           (Ledger.week_balances (db s)).
Proof.
  rewrite getCurrentWeek_run.
  destruct (find (currentWeekOf wall leagueId) (weeks s)) as [w|] eqn:Ef.
  - eexists. eexists. split; [reflexivity|].
    rewrite getCurrentWeek_run, Ef.
    split; [reflexivity|]. cbn [week balances].
    apply find_some in Ef as [_ Hk]. apply currentWeekOf_key in Hk.
    split; [exact Hk|]. split; [now left|]. repeat split.
  - cbv zeta. eexists. eexists. split; [reflexivity|].
    assert (Hk : currentWeekOf wall leagueId
                   (weekFor wall leagueId (Ledger.nextId (db s))) = true).
    { apply currentWeekOf_key. reflexivity. }
    rewrite getCurrentWeek_run. cbn [weeks].
    rewrite (find_app_absent _ _ _ Ef Hk).
    split; [reflexivity|]. cbn [week balances].
    split; [reflexivity|].
    split; [|repeat split].
    right. split; [reflexivity|]. split.
    + intros w Hw E. apply (find_none _ _ Ef) in Hw.
      assert (currentWeekOf wall leagueId w = true); [|congruence].
      apply currentWeekOf_key. rewrite E. reflexivity.
    + split; [reflexivity|]. unfold weekFor.
      cbn [WeekDoc.startDate WeekDoc.endDate].
      now destruct (Scheduler.getWeekBounds wall).
Qed.

(** X18.  The week returned is found by week number and season year alone.
    A week written for a league at one instant is therefore returned at any
    later instant with the same week number and season year, also when that
    instant lies after the end of the week: the seven-day count from
    22 October and the Tuesday-to-Monday bounds are not aligned. *)
Theorem getCurrentWeek_stale (wall wall' : Z) (leagueId : string)
    (s : Store) :
  (forall w, In w (weeks s) -> WeekDoc.leagueId w <> leagueId) ->
  Scheduler.getWeekNumber wall' = Scheduler.getWeekNumber wall ->
  Scheduler.getSeasonYear wall' = Scheduler.getSeasonYear wall ->
  (snd (Scheduler.getWeekBounds wall) < Scheduler.getAESTDate wall')%Z ->
  exists r s1 r',
    getCurrentWeek docId wall leagueId s = (Ledger.Resolved r, s1)
    /\ getCurrentWeek docId wall' leagueId s1 = (Ledger.Resolved r', s1)
    /\ week r' = week r
    /\ WeekDoc.endDate (week r') = snd (Scheduler.getWeekBounds wall)
    /\ (WeekDoc.endDate (week r') < Scheduler.getAESTDate wall')%Z.
Proof.
  intros Hnone Hn Hy Hlate.
  assert (Hno : forall t,
             find (currentWeekOf t leagueId) (weeks s) = None).
  { intros t.
    destruct (find (currentWeekOf t leagueId) (weeks s)) as [w|] eqn:E;
      [|reflexivity].
    apply find_some in E as [Hw Hk]. apply currentWeekOf_key in Hk.
    unfold weekKey in Hk. inversion Hk. now elim (Hnone w Hw). }
  rewrite getCurrentWeek_run, (Hno wall). cbv zeta.
  eexists. eexists. eexists. split; [reflexivity|].
  assert (Hk : currentWeekOf wall' leagueId
                 (weekFor wall leagueId (Ledger.nextId (db s))) = true).
  { apply currentWeekOf_key. unfold weekKey, weekFor.
    cbn [WeekDoc.leagueId WeekDoc.weekNumber WeekDoc.seasonYear].
    now rewrite Hn, Hy. }
  rewrite getCurrentWeek_run. cbn [weeks].
  rewrite (find_app_absent _ _ _ (Hno wall') Hk).
  split; [reflexivity|]. cbn [week].
  split; [reflexivity|]. split; [reflexivity|]. exact Hlate.
Qed.

End LeagueTheorems.

Section LeagueExamples.

Import Leagues LeagueViews Samples3.

Lemma tally_inj (a b : nat) : tally a = tally b -> a = b.
Proof.
  revert b. induction a as [|a IH]; intros [|b] H; simpl in H;
    try reflexivity; try discriminate.
  inversion H. f_equal. now apply IH.
Qed.

Lemma joinLeague_no_capacity_witness :
  exists s1,
    joinLeague tally "tiny01" "bob" "Bob" storeTiny
    = (Ledger.Resolved tiny, s1)
    /\ (League.maxMembers tiny
        < Z.of_nat (List.length (membersOf (tally 7) s1)))%Z.
Proof.
  destruct (joinLeague_no_capacity tally "tiny01" "bob" "Bob" storeTiny tiny)
    as (s1 & m & Hrun & _ & _ & _ & _ & Hlen & _).
  - reflexivity.
  - intros m [<-|[]]. discriminate.
  - exists s1. split; [exact Hrun|].
    change (tally (League.id tiny)) with (tally 7) in Hlen.
    rewrite Hlen. simpl. lia.
Defined.

Lemma joinLeague_twice_witness :
  joinLeague tally "TINY01" "bob" "Bobby"
    (snd (joinLeague tally "tiny01" "bob" "Bob" storeTiny))
  = (Ledger.Rejected "Already a member of this league",
     snd (joinLeague tally "tiny01" "bob" "Bob" storeTiny)).
Proof.
  apply (joinLeague_twice tally "tiny01" "bob" "Bob" "TINY01" "Bobby"
           storeTiny _ tiny); reflexivity.
Defined.

Lemma joinLeague_rejected_witness :
  snd (joinLeague tally "nope" "bob" "Bob" storeTiny) = storeTiny.
Proof.
  destruct (joinLeague_rejected tally "nope" "bob" "Bob" "League not found"
              storeTiny
              (snd (joinLeague tally "nope" "bob" "Bob" storeTiny)))
    as [H _].
  - reflexivity.
  - exact H.
Defined.

Lemma getCurrentWeek_stale_witness :
  exists r s1,
    getCurrentWeek tally nextTuesday "L"
      (snd (getCurrentWeek tally wednesday "L" noLeagues))
    = (Ledger.Resolved r, s1)
    /\ (WeekDoc.endDate (week r) < Scheduler.getAESTDate nextTuesday)%Z.
Proof.
  destruct (getCurrentWeek_stale tally wednesday nextTuesday "L" noLeagues)
    as (r & s1 & r' & Hrun & Hrun' & _ & _ & Hlate).
  - intros w [].
  - vm_compute. reflexivity.
  - vm_compute. reflexivity.
  - vm_compute. reflexivity.
  - exists r', s1. rewrite Hrun. split; [exact Hrun' | exact Hlate].
Defined.

End LeagueExamples.

Section LeagueReachable.

Import Leagues LeagueViews Samples3.

Variable docId : nat -> string.
Hypothesis docId_inj : forall a b, docId a = docId b -> a = b.

(** X19.  In every store the league functions produce from a database
    without leagues when they run one after another (identifiers being told
    apart by their string form): no user is a member of a league twice;
    every membership belongs to a league that exists; the creator of a
    league is an admin member of it and is the only admin it has; every
    league has a week, and no two weeks share league, week number and
    season year.  Two calls of [joinLeague] by one user with one code that
    overlap, both reading the members before either writes, store two
    memberships of that user in the league. *)
Theorem league_membership (s : Store) :
  leaguesReach docId s ->
  (forall m m',
      In m (league_members s) -> In m' (league_members s) ->
      LeagueMember.leagueId m = LeagueMember.leagueId m' ->
      LeagueMember.userId m = LeagueMember.userId m' ->
      m = m')
  /\ (forall m,
        In m (league_members s) ->
        exists l,
          In l (leagues s) /\ LeagueMember.leagueId m = docId (League.id l))
  /\ (forall l,
        In l (leagues s) ->
        exists m,
          In m (league_members s)
          /\ LeagueMember.leagueId m = docId (League.id l)
          /\ LeagueMember.userId m = League.createdBy l
          /\ LeagueMember.isAdmin m = true)
  /\ (forall l m,
        In l (leagues s) -> In m (league_members s) ->
        LeagueMember.leagueId m = docId (League.id l) ->
        LeagueMember.isAdmin m = true ->
        LeagueMember.userId m = League.createdBy l)
  /\ (forall l,
        In l (leagues s) ->
        exists w,
          In w (weeks s) /\ WeekDoc.leagueId w = docId (League.id l))
  /\ (forall w w',
        In w (weeks s) -> In w' (weeks s) ->
        weekKey w = weekKey w' -> w = w')
  /\ (forall inviteCode userId displayName lg,
        find
          (fun l =>
             String.eqb (League.inviteCode l)
               (JSString.toUpperCase inviteCode))
          (leagues s) = Some lg ->
        existsb (memberOf (docId (League.id lg)) userId) (league_members s)
        = false ->
        exists m m',
          league_members
            (LeagueOverlap.twoJoins docId inviteCode userId displayName s)
          = league_members s ++ [m; m']
          /\ m <> m'
          /\ memberKey m = (docId (League.id lg), userId)
          /\ memberKey m' = (docId (League.id lg), userId)).
Proof.
  intros Hreach.
  destruct (leaguesReach_inv docId docId_inj s Hreach)
    as (I1 & I2 & I3 & I4 & I5 & I6 & I7 & I8).
  split.
  { intros m m' Hm Hm' El Eu.
    apply (NoDup_map_inj memberKey (league_members s)); trivial.
    unfold memberKey. now rewrite El, Eu. }
  split.
  { intros m Hm. destruct (I3 m Hm) as (l & Hl & E & _). now exists l. }
  split.
  { intros l Hl. destruct (I5 l Hl) as (m & Hm & Hk & Ha).
    exists m. unfold memberKey in Hk. inversion Hk. auto. }
  split.
  { intros l m Hl Hm E Ha. destruct (I3 m Hm) as (l0 & Hl0 & E0 & Hc).
    rewrite E in E0. apply docId_inj in E0.
    assert (l = l0)
      by (apply (NoDup_map_inj League.id (leagues s)); trivial).
    subst l0. now apply Hc. }
  split; [exact I8|].
  split.
  { intros w w' Hw Hw' E.
    now apply (NoDup_map_inj weekKey (weeks s)). }
  intros inviteCode userId displayName lg Hfind Hnot.
  unfold LeagueOverlap.twoJoins, getLeagueByCode, fetchLeagues.
  unfold bind at 1. unfold ret. rewrite Hfind. cbv zeta.
  unfold LeagueOverlap.joinLeagueFrom. rewrite Hnot.
  unfold bind, now, createLeagueMember, ret. cbn [snd league_members].
  eexists. eexists. split; [now rewrite <- app_assoc|].
  split; [|split; reflexivity].
  intros E. apply (f_equal LeagueMember.id) in E. simpl in E. lia.
Qed.

(** X20.  [createLeague] always resolves.  In a store as above, the new
    league then has exactly one member, its creator, as admin on 0 points,
    and [getCurrentWeek] at the same instant returns, without writing, the
    week [createLeague] wrote.  When the draws are in range and no earlier
    league has the same invite code, the creator joining by the code is
    rejected as already a member and any other user joining by the code, in
    upper or lower case, gets the new league.  When an earlier league has
    the same code, nobody can join the new league by its code. *)
Theorem createLeague_then_join (draw : nat -> nat) (wall : Z)
    (name userId displayName : string) (leagueType : option string)
    (s : Store) :
  leaguesReach docId s ->
  exists lg s1,
    createLeague docId draw wall name userId displayName leagueType s
    = (Ledger.Resolved lg, s1)
    /\ League.inviteCode lg = generateInviteCode draw
    /\ League.createdBy lg = userId
    /\ (exists m,
          membersOf (docId (League.id lg)) s1 = [m]
          /\ LeagueMember.userId m = userId
          /\ LeagueMember.isAdmin m = true
          /\ points m == 0)
    /\ (exists r,
          getCurrentWeek docId wall (docId (League.id lg)) s1
          = (Ledger.Resolved r, s1)
          /\ In (week r) (weeks s1) /\ ~ In (week r) (weeks s))
    /\ ((forall i, (draw i < 36)%nat) ->
        (forall l, In l (leagues s) ->
                   League.inviteCode l <> generateInviteCode draw) ->
        (forall d,
            joinLeague docId (League.inviteCode lg) userId d s1
            = (Ledger.Rejected "Already a member of this league", s1))
        /\ (forall u d,
              u <> userId ->
              fst (joinLeague docId (League.inviteCode lg) u d s1)
              = Ledger.Resolved lg
              /\ fst (joinLeague docId
                        (JSString.toLowerCase (League.inviteCode lg)) u d s1)
                 = Ledger.Resolved lg))
    /\ ((forall i, (draw i < 36)%nat) ->
        (exists l, In l (leagues s)
                   /\ League.inviteCode l = generateInviteCode draw) ->
        forall u d,
          fst (joinLeague docId (League.inviteCode lg) u d s1)
          <> Ledger.Resolved lg).
Proof.
  intros Hreach.
  pose proof (leaguesReach_inv docId docId_inj s Hreach)
    as (I1 & I2 & I3 & I4 & I5 & I6 & I7 & I8).
  pose proof (createLeague_run docId draw wall name userId displayName
                leagueType s) as Hrun.
  cbv zeta in Hrun.
  set (lg := leagueFor draw wall name userId leagueType s) in *.
  assert (Hfresh : forall l, In l (leagues s) ->
                             docId (League.id l) <> docId (League.id lg)).
  { intros l Hl E. apply docId_inj in E. apply I1 in Hl.
    change (League.id lg) with (Ledger.nextId (db s)) in E. lia. }
  assert (Hold : forall m, In m (league_members s) ->
                           String.eqb (LeagueMember.leagueId m)
                             (docId (League.id lg)) = false).
  { intros m Hm. destruct (I3 m Hm) as (l & Hl & E & _).
    apply String.eqb_neq. rewrite E. now apply Hfresh. }
  eexists. eexists. split; [exact Hrun|].
  split; [reflexivity|]. split; [reflexivity|].
  split.
  { eexists. split.
    - unfold membersOf. cbn [league_members]. rewrite filter_app.
      rewrite (filter_none _ (league_members s)) by exact Hold.
      simpl. rewrite String.eqb_refl. reflexivity.
    - split; [reflexivity|]. split; reflexivity. }
  split.
  { rewrite getCurrentWeek_run. cbn [weeks].
    assert (Ef : find (currentWeekOf wall (docId (League.id lg))) (weeks s)
                 = None).
    { destruct (find (currentWeekOf wall (docId (League.id lg))) (weeks s))
        as [w|] eqn:E; [|reflexivity].
      apply find_some in E as [Hw Hk].
      apply currentWeekOf_key in Hk. unfold weekKey in Hk. inversion Hk.
      destruct (I6 w Hw) as (l & Hl & El).
      elim (Hfresh l Hl). congruence. }
    rewrite (find_app_absent _ _ _ Ef)
      by (apply currentWeekOf_key; reflexivity).
    eexists. split; [reflexivity|]. cbn [week].
    split; [apply in_or_app; right; now left|].
    intros Hw. destruct (I6 _ Hw) as (l & Hl & El).
    now apply (Hfresh l Hl). }
  split.
  { intros Hd Hcode.
    destruct (generateInviteCode_upper draw Hd) as [Hup Hlow].
    assert (Hnone : find
              (fun l => String.eqb (League.inviteCode l)
                          (generateInviteCode draw)) (leagues s) = None).
    { destruct (find _ (leagues s)) as [l|] eqn:E; [|reflexivity].
      apply find_some in E as [Hl Hk]. apply String.eqb_eq in Hk.
      now elim (Hcode l Hl). }
    assert (Hfind : find
              (fun l => String.eqb (League.inviteCode l)
                          (generateInviteCode draw)) (leagues s ++ [lg])
              = Some lg).
    { apply find_app_absent; [exact Hnone|]. apply String.eqb_refl. }
    split.
    - intros d. rewrite joinLeague_run. cbn [leagues league_members].
      change (League.inviteCode lg) with (generateInviteCode draw).
      rewrite Hup, Hfind. rewrite existsb_app. simpl.
      unfold memberOf at 2. simpl. rewrite !String.eqb_refl. simpl.
      rewrite orb_true_r. reflexivity.
    - intros u d Hu.
      assert (He : existsb (memberOf (docId (League.id lg)) u)
                (league_members s
                 ++ [LeagueMember.mk (S (Ledger.nextId (db s)))
                       (docId (League.id lg)) userId (Some displayName) None
                       (Some 0) true (Ledger.clock (db s))]) = false).
      { rewrite existsb_app. apply orb_false_iff. split.
        - apply not_true_is_false. intros E.
          apply existsb_exists in E as (m & Hm & Hk).
          unfold memberOf in Hk. rewrite (Hold m Hm) in Hk. discriminate.
        - simpl. unfold memberOf. simpl.
          apply String.eqb_neq in Hu. rewrite String.eqb_sym in Hu.
          now rewrite Hu, andb_false_r. }
      split; rewrite joinLeague_run; cbn [leagues league_members];
        change (League.inviteCode lg) with (generateInviteCode draw);
        rewrite ?Hlow, ?Hup, Hfind, He; reflexivity. }
  intros Hd (l0 & Hl0 & Ecode) u d.
  destruct (generateInviteCode_upper draw Hd) as [Hup _].
  rewrite joinLeague_run. cbn [leagues league_members].
  change (League.inviteCode lg) with (generateInviteCode draw).
  rewrite Hup.
  destruct (find
              (fun l => String.eqb (League.inviteCode l)
                          (generateInviteCode draw)) (leagues s))
    as [l|] eqn:Ef.
  - assert (Hf : find
              (fun l => String.eqb (League.inviteCode l)
                          (generateInviteCode draw)) (leagues s ++ [lg])
              = Some l).
    { clear - Ef. induction (leagues s) as [|y r IH]; simpl in *;
        [discriminate|].
      destruct (String.eqb (League.inviteCode y) (generateInviteCode draw));
        [exact Ef | now apply IH]. }
    rewrite Hf. apply find_some in Ef as [Hl _].
    destruct (existsb _ _); simpl; [discriminate|].
    intros E. inversion E as [E']. apply I1 in Hl. rewrite E' in Hl.
    change (League.id lg) with (Ledger.nextId (db s)) in Hl. lia.
  - apply (find_none _ _ Ef) in Hl0. simpl in Hl0.
    rewrite Ecode, String.eqb_refl in Hl0. discriminate.
Qed.

End LeagueReachable.

Section LeagueReachableExamples.

Import Leagues LeagueViews Samples3.

Lemma league_membership_witness :
  exists l,
    In l (leagues storeLeague)
    /\ firstLeagueId = tally (League.id l).
Proof.
  destruct (league_membership tally tally_inj storeLeague) as (_ & H & _).
  - apply reach_join. apply reach_create. apply reach_none.
  - destruct (H (LeagueMember.mk 3 firstLeagueId "bob" (Some "Bob"%string)
                   None (Some 0) false
                   (Ledger.clock Samples2.emptyStore)))
      as (l & Hl & E).
    + right. left. reflexivity.
    + exists l. split; [exact Hl | exact E].
Defined.

(** Cat joining the league twice at once is a member of it twice. *)
Example twoJoins_example :
  List.length
    (filter (memberOf firstLeagueId "cat")
       (league_members
          (LeagueOverlap.twoJoins tally "ab12yz" "cat" "Cat" storeLeague)))
  = 2%nat.
Proof.
  reflexivity.
Qed.

Lemma createLeague_then_join_witness :
  exists lg s1,
    createLeague tally drawAB12YZ sunday "Hoops" "ann" "Ann" None noLeagues
    = (Ledger.Resolved lg, s1)
    /\ League.inviteCode lg = "AB12YZ"%string
    /\ fst (joinLeague tally "ab12yz" "bob" "Bob" s1) = Ledger.Resolved lg.
Proof.
  destruct (createLeague_then_join tally tally_inj drawAB12YZ sunday "Hoops"
              "ann" "Ann" None noLeagues)
    as (lg & s1 & Hrun & Hcode & _ & _ & _ & Hjoin & _).
  - apply reach_none.
  - exists lg, s1. split; [exact Hrun|]. split; [exact Hcode|].
    destruct Hjoin as [_ Hother].
    + apply drawAB12YZ_range.
    + intros l [].
    + destruct (Hother "bob"%string "Bob"%string) as [_ Hlow];
        [discriminate|].
      rewrite Hcode in Hlow. exact Hlow.
Defined.

End LeagueReachableExamples.

(** ** The weekly period: closed form *)

Section SchedulerMore.

Import JSDate Scheduler SchedulerViews.
Local Open Scope Z_scope.

Lemma time_decomp (t : Z) : t = Day t * msPerDay + TimeWithinDay t.
Proof.
  unfold Day, TimeWithinDay, msPerDay. rewrite Z.mul_comm.
  apply Z.div_mod. lia.
Qed.

Lemma getWeekBounds_closed (wall : Z) :
  getWeekBounds wall
  = (tuesdayOf (Day (getAESTDate wall)) * msPerDay,
     tuesdayOf (Day (getAESTDate wall)) * msPerDay + (7 * msPerDay - 1)).
Proof.
  unfold getWeekBounds. cbv zeta.
  remember (getAESTDate wall) as now eqn:Enow.
  remember (Z.rem (getDay now + 5) 7) as k eqn:Ek.
  remember (setDate now (getDate now - k)) as moved eqn:Emoved.
  remember (setHours moved 0 0 0 0) as startDate eqn:Estart.
  remember (setDate startDate (getDate startDate + 6)) as moved' eqn:Emoved'.
  remember (setHours moved' 23 59 59 999) as endDate eqn:Eend.
  assert (Hw : 0 <= getDay now < 7)
    by (unfold getDay, WeekDay; apply Z.mod_pos_bound; lia).
  assert (Hk : k = (getDay now + 5) mod 7)
    by (rewrite Ek; apply Z.rem_mod_nonneg; lia).
  destruct (setDate_shift now (getDate now - k)) as [Hmd _].
  rewrite <- Emoved in Hmd.
  destruct (setHours_day moved 0 0 0 0) as [Hsd Hst];
    [unfold MakeTime, msPerDay; lia|].
  rewrite <- Estart in Hsd, Hst.
  destruct (setDate_shift startDate (getDate startDate + 6)) as [Hmd' _].
  rewrite <- Emoved' in Hmd'.
  destruct (setHours_day moved' 23 59 59 999) as [Hed Het];
    [unfold MakeTime, msPerDay; lia|].
  rewrite <- Eend in Hed, Het.
  change (MakeTime 0 0 0 0) with 0 in Hst.
  change (MakeTime 23 59 59 999) with (msPerDay - 1) in Het.
  assert (Hk' : k = (Day now + 2) mod 7).
  { rewrite Hk. unfold getDay, WeekDay.
    pose proof (Z.div_mod (Day now + 4) 7 ltac:(lia)).
    pose proof (Z.mod_pos_bound (Day now + 4) 7 ltac:(lia)).
    pose proof (Z.div_mod ((Day now + 4) mod 7 + 5) 7 ltac:(lia)).
    pose proof (Z.mod_pos_bound ((Day now + 4) mod 7 + 5) 7 ltac:(lia)).
    pose proof (Z.div_mod (Day now + 2) 7 ltac:(lia)).
    pose proof (Z.mod_pos_bound (Day now + 2) 7 ltac:(lia)).
    lia. }
  pose proof (time_decomp startDate) as Ds.
  pose proof (time_decomp endDate) as De.
  unfold tuesdayOf. rewrite <- Hk'.
  f_equal; unfold msPerDay in *; lia.
Qed.

Lemma tuesdayOf_spec (d : Z) :
  (tuesdayOf d + 2) mod 7 = 0 /\ tuesdayOf d <= d <= tuesdayOf d + 6.
Proof.
  unfold tuesdayOf.
  pose proof (Z.div_mod (d + 2) 7 ltac:(lia)).
  pose proof (Z.mod_pos_bound (d + 2) 7 ltac:(lia)).
  pose proof (Z.div_mod (d - (d + 2) mod 7 + 2) 7 ltac:(lia)).
  pose proof (Z.mod_pos_bound (d - (d + 2) mod 7 + 2) 7 ltac:(lia)).
  lia.
Qed.

Lemma tuesdayOf_unique (d t : Z) :
  (t + 2) mod 7 = 0 -> t <= d <= t + 6 -> tuesdayOf d = t.
Proof.
  intros Ht Hd. unfold tuesdayOf.
  pose proof (Z.div_mod (d + 2) 7 ltac:(lia)).
  pose proof (Z.mod_pos_bound (d + 2) 7 ltac:(lia)).
  pose proof (Z.div_mod (t + 2) 7 ltac:(lia)).
  lia.
Qed.

Lemma Day_bounds (t d : Z) :
  d * msPerDay <= t <= d * msPerDay + (7 * msPerDay - 1) ->
  d <= Day t <= d + 6.
Proof.
  intros H. pose proof (time_decomp t) as Dt.
  pose proof (TimeWithinDay_range t) as Ht.
  unfold msPerDay in *. lia.
Qed.

(** X21.  Two instants get the same week bounds exactly when the second one
    lies within the bounds of the first: the bounds depend on the week
    alone, not on the day or the time of day of the call. *)
Theorem getWeekBounds_same_week (wall wall' : Z) :
  fst (getWeekBounds wall) <= getAESTDate wall' <= snd (getWeekBounds wall)
  <-> getWeekBounds wall' = getWeekBounds wall.
Proof.
  rewrite !getWeekBounds_closed. cbn [fst snd].
  set (d := Day (getAESTDate wall)). set (d' := Day (getAESTDate wall')).
  destruct (tuesdayOf_spec d) as [Ht Hd].
  destruct (tuesdayOf_spec d') as [Ht' Hd'].
  split.
  - intros H. apply Day_bounds in H. fold d' in H.
    now rewrite (tuesdayOf_unique d' (tuesdayOf d) Ht H).
  - intros E. inversion E as [[E1 E2]].
    assert (Heq : tuesdayOf d' = tuesdayOf d) by (unfold msPerDay in E1; lia).
    pose proof (time_decomp (getAESTDate wall')) as Dt.
    pose proof (TimeWithinDay_range (getAESTDate wall')) as Hr.
    fold d' in Dt. unfold msPerDay in *. lia.
Qed.

Lemma getWeekBounds_same_week_witness :
  getWeekBounds 1730159999999 = getWeekBounds 1729990923123.
Proof.
  apply (proj1 (getWeekBounds_same_week 1729990923123 1730159999999)).
  vm_compute. split; discriminate.
Defined.

(** Weeks follow one another without gap or overlap: the instant
    after the end of a week opens the week that starts at that instant, and
    the instant before the start of a week belongs to the week that ends
    there. *)
Theorem getWeekBounds_consecutive (wall : Z) :
  let startDate := fst (getWeekBounds wall) in
  let endDate := snd (getWeekBounds wall) in
  getWeekBounds (endDate + 1) = (endDate + 1, endDate + 7 * msPerDay)
  /\ getWeekBounds (startDate - 1) = (startDate - 7 * msPerDay, startDate - 1).
Proof.
  cbv zeta. rewrite !getWeekBounds_closed. cbn [fst snd].
  set (d := Day (getAESTDate wall)).
  destruct (tuesdayOf_spec d) as [Ht Hd].
  assert (Hnext : Day (getAESTDate
                         (tuesdayOf d * msPerDay + (7 * msPerDay - 1) + 1))
                  = tuesdayOf d + 7).
  { unfold getAESTDate, Day, msPerDay.
    replace (tuesdayOf d * 86400000 + (7 * 86400000 - 1) + 1)
      with ((tuesdayOf d + 7) * 86400 * 1000) by lia.
    rewrite Z.div_mul by lia.
    replace (1000 * ((tuesdayOf d + 7) * 86400))
      with ((tuesdayOf d + 7) * 86400000) by lia.
    apply Z.div_mul. lia. }
  assert (Hprev : Day (getAESTDate (tuesdayOf d * msPerDay - 1))
                  = tuesdayOf d - 1).
  { unfold getAESTDate, Day, msPerDay.
    pose proof (Z.div_mod (tuesdayOf d * 86400000 - 1) 1000 ltac:(lia)).
    pose proof (Z.mod_pos_bound (tuesdayOf d * 86400000 - 1) 1000
                  ltac:(lia)).
    pose proof (Z.div_mod (1000 * ((tuesdayOf d * 86400000 - 1) / 1000))
                  86400000 ltac:(lia)).
    pose proof (Z.mod_pos_bound
                  (1000 * ((tuesdayOf d * 86400000 - 1) / 1000))
                  86400000 ltac:(lia)).
    lia. }
  rewrite Hnext, Hprev.
  rewrite (tuesdayOf_unique (tuesdayOf d + 7) (tuesdayOf d + 7)).
  - rewrite (tuesdayOf_unique (tuesdayOf d - 1) (tuesdayOf d - 7)).
    + unfold msPerDay. split; f_equal; lia.
    + pose proof (Z.div_mod (tuesdayOf d + 2) 7 ltac:(lia)).
      pose proof (Z.div_mod (tuesdayOf d - 7 + 2) 7 ltac:(lia)).
      pose proof (Z.mod_pos_bound (tuesdayOf d - 7 + 2) 7 ltac:(lia)).
      lia.
    + lia.
  - pose proof (Z.div_mod (tuesdayOf d + 2) 7 ltac:(lia)).
    pose proof (Z.div_mod (tuesdayOf d + 7 + 2) 7 ltac:(lia)).
    pose proof (Z.mod_pos_bound (tuesdayOf d + 7 + 2) 7 ltac:(lia)).
    lia.
  - lia.
Qed.

End SchedulerMore.

(** ** The week number and the season year *)

Section SeasonFacts.

Import JSDate Scheduler SeasonViews.
Local Open Scope Z_scope.

Lemma DayFromYear_step (y : Z) :
  DayFromYear (y + 1) = DayFromYear y + 365 + leapDay y.
Proof.
  assert (H : DayFromYear (y + 1) - DayFromYear y = 365
              \/ DayFromYear (y + 1) - DayFromYear y = 366).
  { unfold DayFromYear.
    pose proof (Z.div_mod (y - 1969) 4 ltac:(lia)).
    pose proof (Z.mod_pos_bound (y - 1969) 4 ltac:(lia)).
    pose proof (Z.div_mod (y - 1901) 100 ltac:(lia)).
    pose proof (Z.mod_pos_bound (y - 1901) 100 ltac:(lia)).
    pose proof (Z.div_mod (y - 1601) 400 ltac:(lia)).
    pose proof (Z.mod_pos_bound (y - 1601) 400 ltac:(lia)).
    pose proof (Z.div_mod (y + 1 - 1969) 4 ltac:(lia)).
    pose proof (Z.mod_pos_bound (y + 1 - 1969) 4 ltac:(lia)).
    pose proof (Z.div_mod (y + 1 - 1901) 100 ltac:(lia)).
    pose proof (Z.mod_pos_bound (y + 1 - 1901) 100 ltac:(lia)).
    pose proof (Z.div_mod (y + 1 - 1601) 400 ltac:(lia)).
    pose proof (Z.mod_pos_bound (y + 1 - 1601) 400 ltac:(lia)).
    lia. }
  unfold leapDay, InLeapYear.
  destruct (Z.eqb_spec (DayFromYear (y + 1) - DayFromYear y) 366); lia.
Qed.

Lemma leapDay_range (y : Z) : 0 <= leapDay y <= 1.
Proof. unfold leapDay. destruct (InLeapYear y); lia. Qed.

Lemma DayFromYear_mono (a b : Z) : a < b -> DayFromYear a < DayFromYear b.
Proof.
  intros H. pose proof (DayFromYear_bounds a).
  pose proof (DayFromYear_bounds b).
  lia.
Qed.

Lemma YearFromDay_unique (d y : Z) :
  DayFromYear y <= d < DayFromYear (y + 1) -> YearFromDay d = y.
Proof.
  intros H. pose proof (YearFromDay_spec d) as S.
  destruct (Z.lt_trichotomy (YearFromDay d) y) as [L|[E|G]]; [|exact E|].
  - assert (DayFromYear (YearFromDay d + 1) <= DayFromYear y).
    { destruct (Z.eq_dec (YearFromDay d + 1) y) as [->|N]; [lia|].
      apply Z.lt_le_incl, DayFromYear_mono. lia. }
    lia.
  - assert (DayFromYear (y + 1) <= DayFromYear (YearFromDay d)).
    { destruct (Z.eq_dec (y + 1) (YearFromDay d)) as [->|N]; [lia|].
      apply Z.lt_le_incl, DayFromYear_mono. lia. }
    lia.
Qed.

Lemma monthStart_9 (b : bool) : monthStart b 9 = 273 + (if b then 1 else 0).
Proof. destruct b; reflexivity. Qed.

(** Where the day of the year lies, by month. *)
Lemma MonthFromTime_october (t : Z) :
  let l := leapDay (YearFromTime t) in
  (MonthFromTime t <= 8 <-> DayWithinYear t < 273 + l)
  /\ (MonthFromTime t = 9 <-> 273 + l <= DayWithinYear t < 304 + l)
  /\ (10 <= MonthFromTime t <-> 304 + l <= DayWithinYear t).
Proof.
  cbv zeta. unfold MonthFromTime, leapDay. cbv zeta.
  generalize (DayWithinYear t) as d. intros d.
  destruct (InLeapYear (YearFromTime t));
    unfold monthStart; cbn [Z.eqb Pos.eqb];
    repeat match goal with
           | |- context [?a <? ?b] => destruct (Z.ltb_spec a b)
           end; lia.
Qed.

Lemma DayWithinYear_range (t : Z) :
  0 <= DayWithinYear t < 365 + leapDay (YearFromTime t).
Proof.
  unfold DayWithinYear, YearFromTime.
  pose proof (YearFromDay_spec (Day t)) as S.
  rewrite DayFromYear_step in S. lia.
Qed.

(** 22 October of year [y], at midnight. *)
Lemma seasonStart_fields (y : Z) :
  let t := seasonStartDay y * msPerDay in
  Day t = seasonStartDay y
  /\ TimeWithinDay t = 0
  /\ YearFromTime t = y
  /\ MonthFromTime t = 9
  /\ DateFromTime t = 22.
Proof.
  cbv zeta.
  assert (Hd : Day (seasonStartDay y * msPerDay) = seasonStartDay y)
    by (unfold Day, msPerDay; apply Z.div_mul; lia).
  assert (Ht : TimeWithinDay (seasonStartDay y * msPerDay) = 0)
    by (unfold TimeWithinDay, msPerDay; apply Z.mod_mul; lia).
  pose proof (leapDay_range y) as Hl.
  assert (Hy : YearFromTime (seasonStartDay y * msPerDay) = y).
  { unfold YearFromTime. rewrite Hd. apply YearFromDay_unique.
    rewrite DayFromYear_step. unfold seasonStartDay. lia. }
  assert (Hw : DayWithinYear (seasonStartDay y * msPerDay) = 294 + leapDay y).
  { unfold DayWithinYear. rewrite Hy, Hd. unfold seasonStartDay. lia. }
  assert (Hm : MonthFromTime (seasonStartDay y * msPerDay) = 9).
  { apply (proj1 (proj2 (MonthFromTime_october _))). rewrite Hw, Hy. lia. }
  repeat split; trivial.
  unfold DateFromTime. rewrite Hw, Hm, Hy, monthStart_9.
  unfold leapDay. destruct (InLeapYear y); lia.
Qed.

Lemma MakeDay_october22 (y : Z) : MakeDay y 9 22 = seasonStartDay y.
Proof.
  unfold MakeDay. cbv zeta.
  change (9 / 12) with 0. change (9 mod 12) with 9.
  rewrite Z.add_0_r, monthStart_9. unfold seasonStartDay, leapDay.
  destruct (InLeapYear y); lia.
Qed.

Lemma fromFields_october22 (y : Z) :
  ~ 0 <= y <= 99 -> fromFields y 9 22 = seasonStartDay y * msPerDay.
Proof.
  intros H. unfold fromFields. cbv zeta.
  assert (E : (0 <=? y) && (y <=? 99) = false).
  { apply andb_false_iff.
    destruct (Z.leb_spec 0 y); [right; apply Z.leb_gt; lia | now left]. }
  rewrite E, MakeDay_october22. unfold MakeDate.
  change (MakeTime 0 0 0 0) with 0. lia.
Qed.

Lemma setFullYear_october22 (y : Z) :
  setFullYear (seasonStartDay y * msPerDay) (y - 1)
  = seasonStartDay (y - 1) * msPerDay.
Proof.
  destruct (seasonStart_fields y) as (_ & Ht & _ & Hm & Hd).
  unfold setFullYear. rewrite Ht, Hm, Hd, MakeDay_october22.
  unfold MakeDate. lia.
Qed.

(** The season start [getWeekNumber] counts from: 22 October of this year
    when the instant is not before it, and of the year before
    otherwise. *)
Lemma getWeekNumber_closed (wall : Z) :
  let now := getAESTDate wall in
  let y := getFullYear now in
  ~ 0 <= y <= 99 ->
  getWeekNumber wall
  = Z.max 1
      ((now
        - (if Day now <? seasonStartDay y
           then seasonStartDay (y - 1) else seasonStartDay y) * msPerDay)
       / msPerWeek + 1).
Proof.
  cbv zeta. intros Hy. unfold getWeekNumber. cbv zeta.
  remember (getAESTDate wall) as now eqn:Enow.
  rewrite (fromFields_october22 _ Hy).
  unfold getFullYear in *.
  destruct (seasonStart_fields (YearFromTime now)) as (_ & _ & Hyear & _).
  rewrite Hyear, setFullYear_october22.
  pose proof (time_decomp now) as Dn.
  pose proof (TimeWithinDay_range now) as Hr.
  assert (E : (now <? seasonStartDay (YearFromTime now) * msPerDay)
              = (Day now <? seasonStartDay (YearFromTime now))).
  { unfold msPerDay in *.
    destruct (Z.ltb_spec now (seasonStartDay (YearFromTime now) * 86400000)),
      (Z.ltb_spec (Day now) (seasonStartDay (YearFromTime now)));
      try reflexivity; lia. }
  rewrite E.
  destruct (Day now <? seasonStartDay (YearFromTime now)); reflexivity.
Qed.

(** What the calendar fields of an instant say about its week number and
    season year. *)
Lemma getWeekNumber_by_month (wall : Z) :
  let now := getAESTDate wall in
  let y := getFullYear now in
  let m := getMonth now in
  let dt := getDate now in
  ~ 0 <= y <= 99 ->
  (10 <= m \/ (m = 9 /\ 22 <= dt) ->
   (now - seasonStartDay y * msPerDay) / msPerWeek + 1 = getWeekNumber wall
   /\ 0 <= Day now - seasonStartDay y < 71)
  /\ (m <= 8 \/ (m = 9 /\ dt < 22) ->
      (now - seasonStartDay (y - 1) * msPerDay) / msPerWeek + 1
      = getWeekNumber wall
      /\ Day now - seasonStartDay (y - 1) = DayWithinYear now + 71).
Proof.
  cbv zeta. intros Hy. rewrite (getWeekNumber_closed wall Hy).
  remember (getAESTDate wall) as now eqn:Enow.
  unfold getFullYear, getMonth, getDate in *.
  destruct (MonthFromTime_october now) as (M8 & M9 & M10).
  pose proof (DayWithinYear_range now) as Hw.
  pose proof (leapDay_range (YearFromTime now)) as Hl.
  pose proof (time_decomp now) as Dn.
  pose proof (TimeWithinDay_range now) as Hr.
  assert (Hdate : DateFromTime now
                  = DayWithinYear now
                    - monthStart (InLeapYear (YearFromTime now))
                        (MonthFromTime now) + 1) by reflexivity.
  assert (Hday : Day now = DayFromYear (YearFromTime now) + DayWithinYear now)
    by (unfold DayWithinYear; lia).
  assert (Hprev : DayFromYear (YearFromTime now)
                  = DayFromYear (YearFromTime now - 1) + 365
                    + leapDay (YearFromTime now - 1)).
  { rewrite <- DayFromYear_step. f_equal. lia. }
  split.
  - intros Hm.
    assert (Hge : 294 + leapDay (YearFromTime now) <= DayWithinYear now).
    { destruct Hm as [Hm|[Hm Hd]].
      - apply M10 in Hm. lia.
      - rewrite Hm, monthStart_9 in Hdate.
        fold (leapDay (YearFromTime now)) in Hdate.
        lia. }
    assert (E : (Day now <? seasonStartDay (YearFromTime now)) = false)
      by (apply Z.ltb_ge; unfold seasonStartDay; lia).
    rewrite E. unfold seasonStartDay in *.
    split; [|lia].
    symmetry. apply Z.max_r.
    assert (0 <= (now - (DayFromYear (YearFromTime now) + 294
                         + leapDay (YearFromTime now)) * msPerDay)
                 / msPerWeek); [|lia].
    apply Z.div_pos; unfold msPerWeek, msPerDay in *; lia.
  - intros Hm.
    assert (Hlt : DayWithinYear now < 294 + leapDay (YearFromTime now)).
    { destruct Hm as [Hm|[Hm Hd]].
      - apply M8 in Hm. lia.
      - rewrite Hm, monthStart_9 in Hdate.
        fold (leapDay (YearFromTime now)) in Hdate.
        lia. }
    assert (E : (Day now <? seasonStartDay (YearFromTime now)) = true)
      by (apply Z.ltb_lt; unfold seasonStartDay; lia).
    rewrite E. unfold seasonStartDay in *.
    split; [|lia].
    symmetry. apply Z.max_r.
    assert (0 <= (now - (DayFromYear (YearFromTime now - 1) + 294
                         + leapDay (YearFromTime now - 1)) * msPerDay)
                 / msPerWeek); [|lia].
    apply Z.div_pos; unfold msPerWeek, msPerDay in *; lia.
Qed.

End SeasonFacts.

Section SeasonTheorems.

Import JSDate Scheduler SeasonViews.
Local Open Scope Z_scope.

Lemma monthStart_8 (b : bool) : monthStart b 8 = 243 + (if b then 1 else 0).
Proof. destruct b; reflexivity. Qed.

Lemma DayWithinYear_fields (t : Z) :
  DayWithinYear t
  = monthStart (InLeapYear (YearFromTime t)) (MonthFromTime t)
    + DateFromTime t - 1.
Proof. unfold DateFromTime. lia. Qed.

Lemma week_quotient (now start lo hi : Z) :
  lo <= Day now - start < hi ->
  lo / 7 <= (now - start * msPerDay) / msPerWeek <= (hi - 1) / 7.
Proof.
  intros H.
  pose proof (time_decomp now) as Dn.
  pose proof (TimeWithinDay_range now) as Hr.
  unfold msPerWeek, msPerDay in *.
  pose proof (Z.div_mod (now - start * 86400000)
                (7 * 24 * 60 * 60 * 1000) ltac:(lia)).
  pose proof (Z.mod_pos_bound (now - start * 86400000)
                (7 * 24 * 60 * 60 * 1000) ltac:(lia)).
  pose proof (Z.div_mod lo 7 ltac:(lia)).
  pose proof (Z.mod_pos_bound lo 7 ltac:(lia)).
  pose proof (Z.div_mod (hi - 1) 7 ltac:(lia)).
  pose proof (Z.mod_pos_bound (hi - 1) 7 ltac:(lia)).
  lia.
Qed.

Lemma getSeasonYear_by_month (wall : Z) :
  let now := getAESTDate wall in
  (9 <= getMonth now -> getSeasonYear wall = getFullYear now + 1)
  /\ (getMonth now <= 8 -> getSeasonYear wall = getFullYear now).
Proof.
  cbv zeta. unfold getSeasonYear. cbv zeta.
  destruct (Z.leb_spec 9 (getMonth (getAESTDate wall))); split; intros;
    try reflexivity; lia.
Qed.

(** X22.  For an instant whose year is not one of 0 to 99, the week number
    lies between 1 and 53 (the lower bound Math.max enforces is never
    needed).  From 22 October to the end of the year it is at most 11 and
    the season year is the next year; from January to September it lies
    between 11 and 50 and the season year is the year itself; from 1 to 21
    October it is at least 50 although the season year is already the next
    year. *)
Theorem getWeekNumber_range (wall : Z) :
  let now := getAESTDate wall in
  let y := getFullYear now in
  let m := getMonth now in
  let dt := getDate now in
  ~ 0 <= y <= 99 ->
  1 <= getWeekNumber wall <= 53
  /\ (10 <= m \/ (m = 9 /\ 22 <= dt) ->
      getWeekNumber wall <= 11 /\ getSeasonYear wall = y + 1)
  /\ (m <= 8 ->
      11 <= getWeekNumber wall <= 50 /\ getSeasonYear wall = y)
  /\ (m = 9 /\ dt < 22 ->
      50 <= getWeekNumber wall /\ getSeasonYear wall = y + 1).
Proof.
  cbv zeta. intros Hy.
  destruct (getWeekNumber_by_month wall Hy) as [HA HB].
  destruct (getSeasonYear_by_month wall) as [S9 S8].
  remember (getAESTDate wall) as now eqn:Enow.
  unfold getFullYear, getMonth, getDate in *.
  destruct (MonthFromTime_october now) as (M8 & M9 & M10).
  pose proof (DayWithinYear_range now) as Hw.
  pose proof (DayWithinYear_fields now) as Hf.
  pose proof (leapDay_range (YearFromTime now)) as Hl.
  pose proof (MonthFromTime_range now) as Hm.
  assert (Hlate : 10 <= MonthFromTime now
                  \/ (MonthFromTime now = 9 /\ 22 <= DateFromTime now) ->
                  1 <= getWeekNumber wall <= 11).
  { intros C. destruct (HA C) as [<- Hd].
    pose proof (week_quotient now _ 0 71 Hd) as Q.
    change (0 / 7) with 0 in Q. change ((71 - 1) / 7) with 10 in Q. lia. }
  assert (Hspring : MonthFromTime now <= 8 ->
                    11 <= getWeekNumber wall <= 50).
  { intros C. destruct (HB (or_introl C)) as [<- Hd].
    apply M8 in C.
    assert (Hd' : 71 <= Day now - seasonStartDay (YearFromTime now - 1)
                  < 345) by lia.
    pose proof (week_quotient now _ 71 345 Hd') as Q.
    change (71 / 7) with 10 in Q. change ((345 - 1) / 7) with 49 in Q. lia. }
  assert (Hearly : MonthFromTime now = 9 /\ DateFromTime now < 22 ->
                   50 <= getWeekNumber wall <= 53).
  { intros C. destruct (HB (or_intror C)) as [<- Hd].
    destruct C as [C Cd]. pose proof (proj1 M9 C) as Hr.
    rewrite C, monthStart_9 in Hf.
    fold (leapDay (YearFromTime now)) in Hf.
    assert (Hd' : 344 <= Day now - seasonStartDay (YearFromTime now - 1)
                  < 366) by lia.
    pose proof (week_quotient now _ 344 366 Hd') as Q.
    change (344 / 7) with 49 in Q. change ((366 - 1) / 7) with 52 in Q.
    lia. }
  split.
  { destruct (Z.le_gt_cases (MonthFromTime now) 8) as [C|C].
    - specialize (Hspring C). lia.
    - destruct (Z.eq_dec (MonthFromTime now) 9) as [C9|C9].
      + destruct (Z.lt_ge_cases (DateFromTime now) 22) as [D|D].
        * specialize (Hearly (conj C9 D)). lia.
        * specialize (Hlate (or_intror (conj C9 D))). lia.
      + assert (C10 : 10 <= MonthFromTime now) by lia.
        specialize (Hlate (or_introl C10)). lia. }
  split.
  { intros C. split; [specialize (Hlate C); lia|].
    apply S9. destruct C as [C|[C _]]; lia. }
  split.
  { intros C. split; [now apply Hspring | now apply S8]. }
  intros C. split; [specialize (Hearly C); lia|].
  apply S9. destruct C as [C _]. lia.
Qed.

Lemma getWeekNumber_range_witness :
  50 <= getWeekNumber firstOfOctober
  /\ getSeasonYear firstOfOctober = 2026.
Proof.
  destruct (getWeekNumber_range firstOfOctober) as (_ & _ & _ & H).
  - vm_compute. intros [_ H]. now apply H.
  - apply H. vm_compute. split; reflexivity.
Defined.

(** X23.  The pair (week number, season year) that identifies a week is not
    unique over time: 1 October of a year and 30 September of the next year
    both give week 50 of the same season year, almost a year apart. *)
Theorem week_key_collision (wall wall' : Z) :
  let now := getAESTDate wall in
  let now' := getAESTDate wall' in
  let y := getFullYear now in
  ~ 0 <= y <= 99 ->
  ~ 0 <= y + 1 <= 99 ->
  getMonth now = 9 -> getDate now = 1 ->
  getFullYear now' = y + 1 -> getMonth now' = 8 -> getDate now' = 30 ->
  getWeekNumber wall = 50
  /\ getWeekNumber wall' = 50
  /\ getSeasonYear wall = y + 1
  /\ getSeasonYear wall' = y + 1
  /\ 363 * msPerDay < now' - now.
Proof.
  cbv zeta. intros Hy Hy' Hm Hd Hyear' Hm' Hd'.
  assert (Hy'' : ~ 0 <= getFullYear (getAESTDate wall') <= 99)
    by (rewrite Hyear'; exact Hy').
  destruct (getWeekNumber_by_month wall Hy) as [_ HB].
  destruct (getWeekNumber_by_month wall' Hy'') as [_ HB'].
  destruct (getSeasonYear_by_month wall) as [S9 _].
  destruct (getSeasonYear_by_month wall') as [_ S8'].
  remember (getAESTDate wall) as now eqn:Enow.
  remember (getAESTDate wall') as now' eqn:Enow'.
  unfold getFullYear, getMonth, getDate in *.
  pose proof (DayWithinYear_fields now) as Hf.
  pose proof (DayWithinYear_fields now') as Hf'.
  rewrite Hm, Hd, monthStart_9 in Hf.
  rewrite Hm', Hd', monthStart_8, Hyear' in Hf'.
  fold (leapDay (YearFromTime now)) in Hf.
  fold (leapDay (YearFromTime now + 1)) in Hf'.
  pose proof (leapDay_range (YearFromTime now)) as Hl.
  pose proof (leapDay_range (YearFromTime now + 1)) as Hl'.
  destruct HB as [En Hdiff]; [right; lia|].
  destruct HB' as [En' Hdiff']; [left; lia|].
  rewrite <- En, <- En'.
  assert (R : 344 <= Day now - seasonStartDay (YearFromTime now - 1) < 350)
    by lia.
  assert (R' : 343 <= Day now' - seasonStartDay (YearFromTime now' - 1)
               < 350) by lia.
  pose proof (week_quotient now _ 344 350 R) as Q.
  pose proof (week_quotient now' _ 343 350 R') as Q'.
  change (344 / 7) with 49 in Q. change (343 / 7) with 49 in Q'.
  change ((350 - 1) / 7) with 49 in Q, Q'.
  split; [lia|]. split; [lia|].
  split; [apply S9; lia|]. split; [rewrite S8', Hyear'; [reflexivity | lia]|].
  pose proof (time_decomp now) as Dn.
  pose proof (time_decomp now') as Dn'.
  pose proof (TimeWithinDay_range now) as Hr.
  pose proof (TimeWithinDay_range now') as Hr'.
  assert (Hday : Day now = DayFromYear (YearFromTime now) + DayWithinYear now)
    by (unfold DayWithinYear; lia).
  assert (Hday' : Day now'
                  = DayFromYear (YearFromTime now') + DayWithinYear now')
    by (unfold DayWithinYear; lia).
  rewrite Hyear', DayFromYear_step in Hday'.
  unfold msPerDay in *. lia.
Qed.

Lemma week_key_collision_witness :
  getWeekNumber firstOfOctober = getWeekNumber lastOfSeptember
  /\ getSeasonYear firstOfOctober = getSeasonYear lastOfSeptember.
Proof.
  destruct (week_key_collision firstOfOctober lastOfSeptember)
    as (H1 & H2 & H3 & H4 & _);
    try (vm_compute; reflexivity);
    try (vm_compute; intros [_ H]; now apply H).
  rewrite H1, H2, H3, H4. split; reflexivity.
Defined.

End SeasonTheorems.

(** ** The odds feed: key rotation *)

Section RotationFacts.

Import OddsFetch OddsFetchViews.

Variable J : Type.
Variable keys : list string.
Variable fetch : nat -> string -> reply J.
Variable url : string.
Variable start : nat.

Local Abbreviation n := (List.length keys).

Hypothesis keys_nonempty : (0 < n)%nat.

Lemma cursor_step (i : nat) :
  (((start + i) mod n + 1) mod n = (start + S i) mod n)%nat.
Proof.
  rewrite Nat.Div0.add_mod_idemp_l. f_equal. lia.
Qed.

Lemma usable_ok (r : reply J) (data : J) :
  usable r = Some data ->
  exists status,
    r = Response status (inl data) /\ ok status = true
    /\ ((status =? 401)%Z || (status =? 429)%Z) = false.
Proof.
  destruct r as [status [d|e]|e]; simpl; try discriminate.
  destruct (ok status) eqn:E; [|discriminate].
  intros H. inversion H; subst. exists status.
  split; [reflexivity|]. split; [exact E|].
  unfold ok in E. apply andb_true_iff in E as [E1 E2].
  apply Z.leb_le in E1. apply Z.leb_le in E2.
  apply orb_false_iff. split; apply Z.eqb_neq; lia.
Qed.

Lemma rotation_success (rounds i k : nat) (last : option failure)
    (data : J) :
  (i <= k < i + rounds)%nat ->
  usable (fetch k (request keys url start k)) = Some data ->
  (forall j, (i <= j < k)%nat ->
             usable (fetch j (request keys url start j)) = None) ->
  rotation J keys fetch url i rounds ((start + i) mod n) last
  = (inl data, ((start + k + 1) mod n)%nat).
Proof.
  revert i last. induction rounds as [|rounds IH]; intros i last Hk Hu Hnone.
  - lia.
  - cbn [rotation]. unfold getNextApiKey. rewrite cursor_step.
    fold (request keys url start i).
    destruct (Nat.eq_dec k i) as [->|Hne].
    + apply usable_ok in Hu as (status & -> & Hok & H4).
      rewrite H4, Hok. simpl. do 2 f_equal. lia.
    + assert (Hi : usable (fetch i (request keys url start i)) = None)
        by (apply Hnone; lia).
      assert (Hrec : forall l,
                rotation J keys fetch url (S i) rounds
                  ((start + S i) mod n) l
                = (inl data, ((start + k + 1) mod n)%nat)).
      { intros l. apply IH; [lia | exact Hu |].
        intros j Hj. apply Hnone. lia. }
      destruct (fetch i (request keys url start i)) as [status body|e];
        [|apply Hrec].
      destruct ((status =? 401)%Z || (status =? 429)%Z); [apply Hrec|].
      simpl in Hi. destruct (ok status); simpl; [|apply Hrec].
      destruct body; [discriminate | apply Hrec].
Qed.

Lemma rotation_failure (rounds i : nat) (last : option failure) :
  (forall j, (i <= j < i + rounds)%nat ->
             usable (fetch j (request keys url start j)) = None) ->
  exists e,
    rotation J keys fetch url i rounds ((start + i) mod n) last
    = (inr e, ((start + i + rounds) mod n)%nat)
    /\ ((forall j, (i <= j < i + rounds)%nat ->
                   keyRefused (fetch j (request keys url start j)) = true) ->
        e = match last with Some x => x | None => AllKeysExhausted end)
    /\ (forall j,
          (i <= j < i + rounds)%nat ->
          keyRefused (fetch j (request keys url start j)) = false ->
          (forall j', (j < j' < i + rounds)%nat ->
                      keyRefused (fetch j' (request keys url start j'))
                      = true) ->
          e = failureOf (fetch j (request keys url start j))).
Proof.
  revert i last. induction rounds as [|rounds IH]; intros i last Hnone.
  - eexists. split; [cbn [rotation]; do 2 f_equal; lia|].
    split; [reflexivity|]. intros j Hj. lia.
  - cbn [rotation]. unfold getNextApiKey. rewrite cursor_step.
    fold (request keys url start i).
    assert (Hi : usable (fetch i (request keys url start i)) = None)
      by (apply Hnone; lia).
    assert (Hrest : forall j, (S i <= j < S i + rounds)%nat ->
              usable (fetch j (request keys url start j)) = None)
      by (intros j Hj; apply Hnone; lia).
    assert (Hkeep :
      keyRefused (fetch i (request keys url start i)) = true ->
      exists e,
        rotation J keys fetch url (S i) rounds ((start + S i) mod n) last
        = (inr e, ((start + i + S rounds) mod n)%nat)
        /\ ((forall j, (i <= j < i + S rounds)%nat ->
                keyRefused (fetch j (request keys url start j)) = true) ->
            e = match last with Some x => x | None => AllKeysExhausted end)
        /\ (forall j,
              (i <= j < i + S rounds)%nat ->
              keyRefused (fetch j (request keys url start j)) = false ->
              (forall j', (j < j' < i + S rounds)%nat ->
                          keyRefused (fetch j' (request keys url start j'))
                          = true) ->
              e = failureOf (fetch j (request keys url start j)))).
    { intros Hr. destruct (IH (S i) last Hrest) as (e & He & Hall & Hlast).
      exists e. split; [rewrite He; do 2 f_equal; lia|]. split.
      - intros H. apply Hall. intros j Hj. apply H. lia.
      - intros j Hj Hf Hafter.
        destruct (Nat.eq_dec j i) as [->|Hne]; [congruence|].
        apply Hlast; [lia | exact Hf |].
        intros j' Hj'. apply Hafter. lia. }
    assert (Hset :
      keyRefused (fetch i (request keys url start i)) = false ->
      exists e,
        rotation J keys fetch url (S i) rounds ((start + S i) mod n)
          (Some (failureOf (fetch i (request keys url start i))))
        = (inr e, ((start + i + S rounds) mod n)%nat)
        /\ ((forall j, (i <= j < i + S rounds)%nat ->
                keyRefused (fetch j (request keys url start j)) = true) ->
            e = match last with Some x => x | None => AllKeysExhausted end)
        /\ (forall j,
              (i <= j < i + S rounds)%nat ->
              keyRefused (fetch j (request keys url start j)) = false ->
              (forall j', (j < j' < i + S rounds)%nat ->
                          keyRefused (fetch j' (request keys url start j'))
                          = true) ->
              e = failureOf (fetch j (request keys url start j)))).
    { intros Hr.
      destruct (IH (S i)
                  (Some (failureOf (fetch i (request keys url start i))))
                  Hrest) as (e & He & Hall & Hlast).
      exists e. split; [rewrite He; do 2 f_equal; lia|]. split.
      - intros H. rewrite H in Hr by lia. discriminate.
      - intros j Hj Hf Hafter.
        destruct (Nat.eq_dec j i) as [->|Hne].
        + apply Hall. intros j' Hj'. apply Hafter. lia.
        + apply Hlast; [lia | exact Hf |].
          intros j' Hj'. apply Hafter. lia. }
    destruct (fetch i (request keys url start i)) as [status body|e].
    + simpl in Hkeep, Hset, Hi.
      destruct ((status =? 401)%Z || (status =? 429)%Z);
        [now apply Hkeep|].
      destruct (ok status); simpl.
      * destruct body; [discriminate | now apply Hset].
      * now apply Hset.
    + now apply Hset.
Qed.

End RotationFacts.

Section RotationTheorems.

Import OddsFetch OddsFetchViews.





End RotationTheorems.

(** ** The week page and the slip panel *)

Section PageFacts.

Import Ledger LedgerViews BetSlip Page Samples Samples2.

Lemma lt_cases (a b : Q) :
  (JS.lt a b = true <-> a < b) /\ (JS.lt a b = false <-> b <= a).
Proof.
  unfold JS.lt. destruct (Qle_bool b a) eqn:E; simpl.
  - apply Qle_bool_iff in E. repeat split; try discriminate; trivial.
    intros H. now apply Qlt_not_le in H.
  - assert (H : a < b).
    { apply Qnot_le_lt. intros H. apply Qle_bool_iff in H. congruence. }
    repeat split; try discriminate; trivial.
    intros H'. now apply Qlt_not_le in H.
Qed.

Lemma Qle_bool_false (a b : Q) : Qle_bool a b = false <-> b < a.
Proof.
  split.
  - intros E. apply Qnot_le_lt. intros H. apply Qle_bool_iff in H.
    congruence.
  - intros H. apply not_true_is_false. intros E. apply Qle_bool_iff in E.
    now apply Qlt_not_le in H.
Qed.

Lemma min_le_r (a b : Q) : Page.min a b <= b.
Proof.
  unfold Page.min. destruct (Qle_bool a b) eqn:E.
  - now apply Qle_bool_iff.
  - apply Qle_refl.
Qed.

Lemma handlePlaceBet_guard (st : State) (placingBet : bool)
    (balance : option WeekBalance.t) (userId leagueId weekId : string)
    (pn un : option string) (call : M Bet.t) :
  handlePlaceBet st placingBet balance userId leagueId weekId pn un
  = Some call ->
  call = placeBet (slipObject st) userId leagueId weekId
           (displayNameOf pn un)
  /\ isEmpty (items st) = false
  /\ hasConflict (items st) = false
  /\ placingBet = false
  /\ 0 < stake st <= balanceProp balance.
Proof.
  unfold handlePlaceBet.
  destruct (isEmpty (items st)); [discriminate|].
  destruct (hasConflict (items st)); [discriminate|].
  destruct placingBet; [discriminate|]. simpl.
  destruct (Qle_bool (stake st) 0) eqn:E0; [discriminate|].
  destruct (JS.lt (balanceProp balance) (stake st)) eqn:E1; [discriminate|].
  simpl. intros H. inversion H.
  apply Qle_bool_false in E0. apply (proj2 (lt_cases _ _)) in E1.
  repeat split; trivial.
Qed.

(** X26.  The stake controls of the panel keep the selections and never set
    a stake above the balance shown (a disabled quick-stake button changes
    nothing).  On a rendered panel the place-bet button is enabled exactly
    when [handlePlaceBet] would go on to call [placeBet]; the stake is then
    positive and covered by the balance shown, and the slip has no
    conflict. *)
Theorem panel_guard (st : State) (placing : bool)
    (balance : option WeekBalance.t) (userId leagueId weekId : string)
    (pn un : option string) (c : control) :
  let b := balanceProp balance in
  items (press c b st) = items st
  /\ (press c b st = st \/ stake (press c b st) <= b)
  /\ (rendered st = true ->
      (placeDisabled placing b st = false <->
       exists call,
         handlePlaceBet st placing balance userId leagueId weekId pn un
         = Some call))
  /\ (placeDisabled placing b st = false ->
      0 < stake st <= b /\ getConflicts (items st) = []).
Proof.
  cbv zeta. split; [|split; [|split]].
  - destruct c as [p|a|]; simpl; try reflexivity.
    unfold quickStake. destruct (JS.lt _ a); reflexivity.
  - destruct c as [p|a|]; simpl.
    + right. apply min_le_r.
    + unfold quickStake. destruct (JS.lt _ a); [now left|].
      right. apply min_le_r.
    + right. apply Qle_refl.
  - unfold rendered, placeDisabled, handlePlaceBet. intros Hr.
    apply negb_true_iff in Hr. rewrite Hr. simpl.
    destruct (hasConflict (items st)); simpl.
    { rewrite orb_true_r. simpl. split; [discriminate|].
      intros [call H]. discriminate. }
    rewrite orb_false_r.
    destruct placing; simpl;
      [split; [discriminate | intros [call H]; discriminate]|].
    destruct (Qle_bool (stake st) 0 || JS.lt (balanceProp balance) (stake st));
      split; try discriminate; eauto.
    intros [call H]. discriminate.
  - unfold placeDisabled. intros H.
    apply orb_false_iff in H as [H H3].
    apply orb_false_iff in H as [H H2].
    apply orb_false_iff in H as [_ H1].
    apply Qle_bool_false in H2. apply (proj2 (lt_cases _ _)) in H3.
    split; [now split|].
    unfold hasConflict in H1. apply Z.ltb_ge in H1.
    destruct (getConflicts (items st)); [reflexivity | simpl in H1; lia].
Qed.

(** X27.  When [handlePlaceBet] goes on to call [placeBet] and the page's
    copy of the balance is the user's stored row, the call resolves: the bet
    stored carries the slip's positive stake and the payout stake times
    total odds, and the row is left on the former balance minus the stake,
    which is not negative.  When the stored row holds less than the stake
    (the page's copy being out of date), the call is rejected with
    "Insufficient balance" and nothing is written. *)
Theorem handlePlaceBet_fresh (st : State) (placingBet : bool)
    (balance : option WeekBalance.t) (userId leagueId weekId : string)
    (pn un : option string) (call : M Bet.t) (s : Store)
    (row : WeekBalance.t) :
  handlePlaceBet st placingBet balance userId leagueId weekId pn un
  = Some call ->
  find (balanceOf weekId userId) (week_balances s) = Some row ->
  (balance = Some row ->
   exists bet s' row',
     call s = (Resolved bet, s')
     /\ Bet.stake bet = stake st
     /\ 0 < Bet.stake bet
     /\ Bet.potentialPayout bet == Bet.stake bet * Bet.totalOdds bet
     /\ find (balanceOf weekId userId) (week_balances s') = Some row'
     /\ WeekBalance.balance row' == WeekBalance.balance row - stake st
     /\ 0 <= WeekBalance.balance row' < WeekBalance.balance row)
  /\ (WeekBalance.balance row < stake st ->
      call s = (Rejected "Insufficient balance", s)).
Proof.
  intros Hcall Hrow.
  apply handlePlaceBet_guard in Hcall as (-> & _ & _ & _ & Hpos & Hle).
  pose proof (getOrCreate_existing weekId leagueId userId
                (displayNameOf pn un) s row Hrow) as Hread.
  split.
  - intros ->. simpl in Hle.
    destruct (placeBet_after_read weekId leagueId userId
                (displayNameOf pn un) (slipObject st) s s row Hread Hle)
      as (bet & s' & row' & Hrun & Hfind & Hbal & _ & _ & _ & Hstake & _).
    exists bet, s', row'. split; [exact Hrun|].
    split; [exact Hstake|]. split; [now rewrite Hstake|].
    split.
    { rewrite (placeBet_cases _ _ _ _ _ _ _ _ Hread) in Hrun.
      destruct (JS.lt _ _); [discriminate|].
      inversion Hrun; subst. unfold betFor, slipObject. simpl.
      unfold potentialPayout. reflexivity. }
    split; [exact Hfind|]. rewrite Hbal. simpl.
    split; [reflexivity|]. split; lra.
  - intros Hlt.
    rewrite (placeBet_cases _ _ _ _ _ _ _ _ Hread).
    change (Ledger.stake (slipObject st)) with (stake st).
    now rewrite (lt_true _ _ Hlt).
Qed.

Lemma handlePlaceBet_fresh_witness :
  exists bet s',
    placeBet (slipObject (mkState [lakersH2H] 100)) "ann" "l1" "w1" "Ann"
      store0
    = (Resolved bet, s')
    /\ Bet.stake bet = 100.
Proof.
  destruct (handlePlaceBet_fresh (mkState [lakersH2H] 100) false
              (Some (row 1 "ann" 200 0 3%Z None)) "ann" "l1" "w1"
              (Some "Ann"%string) None
              (placeBet (slipObject (mkState [lakersH2H] 100)) "ann" "l1"
                 "w1" "Ann")
              store0 (row 1 "ann" 200 0 3%Z None))
    as [H _].
  - reflexivity.
  - reflexivity.
  - destruct (H eq_refl) as (bet & s' & _ & Hrun & Hstake & _).
    exists bet, s'. split; [exact Hrun | exact Hstake].
Defined.

Lemma getOrCreate_range (weekId leagueId userId displayName : string)
    (s s1 : Store) (wb : WeekBalance.t) :
  (forall r, In r (week_balances s) ->
             0 <= WeekBalance.balance r <= STARTING_BALANCE) ->
  getOrCreateUserBalance weekId leagueId userId displayName s
  = (Resolved wb, s1) ->
  (forall r, In r (week_balances s1) ->
             0 <= WeekBalance.balance r <= STARTING_BALANCE)
  /\ 0 <= WeekBalance.balance wb <= STARTING_BALANCE.
Proof.
  intros Hall Hrun.
  destruct (getOrCreate_cases weekId leagueId userId displayName s)
    as [(d & Hfind & Heq)|(Hfind & Heq)];
    rewrite Heq in Hrun; inversion Hrun; subst; clear Hrun.
  - split; [exact Hall|]. apply Hall. now apply find_some in Hfind.
  - assert (H1000 : 0 <= WeekBalance.balance
                           (firstBalance weekId leagueId userId displayName
                              (nextId s)) <= STARTING_BALANCE).
    { simpl. unfold STARTING_BALANCE. split; [discriminate|apply Qle_refl]. }
    split; [|exact H1000]. simpl. intros r Hr.
    apply in_app_or in Hr as [Hr|[<-|[]]]; [now apply Hall | exact H1000].
Qed.

(** X28.  In every store the page produces from an empty database, every
    balance lies between 0 and STARTING_BALANCE.  The service alone does not
    give this: [placeBet] does not look at the sign of the stake, and a slip
    with a negative stake raises the balance of the row. *)
Theorem page_balances_in_range :
  (forall s r,
      pageReach s -> In r (week_balances s) ->
      0 <= WeekBalance.balance r <= STARTING_BALANCE)
  /\ (forall betSlip userId leagueId weekId displayName s row,
        find (balanceOf weekId userId) (week_balances s) = Some row ->
        Ledger.stake betSlip < 0 ->
        Ledger.stake betSlip <= WeekBalance.balance row ->
        exists bet s' row',
          placeBet betSlip userId leagueId weekId displayName s
          = (Resolved bet, s')
          /\ find (balanceOf weekId userId) (week_balances s') = Some row'
          /\ WeekBalance.balance row < WeekBalance.balance row').
Proof.
  split.
  - intros s r Hreach. revert r.
    induction Hreach as [n c | s w l u d Hs IH
                        | s st placing balance u l w pn un call Hs IH Hcall].
    + intros r [].
    + destruct (getOrCreate_writes w l u d s) as (wb & s1 & Hrun & _).
      rewrite Hrun. simpl.
      now destruct (getOrCreate_range w l u d s s1 wb IH Hrun).
    + apply handlePlaceBet_guard in Hcall as (-> & _ & _ & _ & Hpos & _).
      destruct (getOrCreate_writes w l u (displayNameOf pn un) s)
        as (wb & s1 & Hrun & _).
      destruct (getOrCreate_range _ _ _ _ s s1 wb IH Hrun) as [Hall Hwb].
      rewrite (placeBet_cases _ _ _ _ _ _ _ _ Hrun).
      change (Ledger.stake (slipObject st)) with (stake st).
      destruct (JS.lt (WeekBalance.balance wb) (stake st)) eqn:E;
        [exact Hall|].
      apply (proj2 (lt_cases _ _)) in E.
      simpl. intros r Hr. apply in_map_iff in Hr as (r0 & <- & Hr0).
      unfold patchBalance.
      destruct (Nat.eqb (WeekBalance.id r0) (WeekBalance.id wb));
        [|now apply Hall].
      simpl. change (Ledger.stake (slipObject st)) with (stake st).
      split; lra.
  - intros betSlip userId leagueId weekId displayName s row Hrow Hneg Hle.
    pose proof (getOrCreate_existing weekId leagueId userId displayName
                  s row Hrow) as Hread.
    destruct (placeBet_after_read weekId leagueId userId displayName
                betSlip s s row Hread Hle)
      as (bet & s' & row' & Hrun & Hfind & Hbal & _).
    exists bet, s', row'. split; [exact Hrun|]. split; [exact Hfind|].
    rewrite Hbal. lra.
Qed.

End PageFacts.

(** ** The odds feed: player props *)

Section PlayerPropFacts.

Import PlayerProps PlayerPropViews.

Lemma fold_left_flat_map {A B C : Type} (f : A -> C -> A) (g : B -> list C)
    (l : list B) (a : A) :
  fold_left f (flat_map g l) a
  = fold_left (fun a x => fold_left f (g x) a) l a.
Proof.
  revert a. induction l as [|x r IH]; intros a; simpl; [reflexivity|].
  now rewrite fold_left_app, IH.
Qed.

Lemma visitMarket_entries (m : PropMap) (market : Market.t) :
  visitMarket m market = fold_left step (marketEntries market) m.
Proof.
  unfold visitMarket, marketEntries.
  destruct (OddsVocabulary.mapPropType (Market.key market)) as [t|];
    [|reflexivity].
  revert m. induction (Market.outcomes market) as [|o r IH]; intros m;
    simpl; [reflexivity | apply IH].
Qed.

Lemma seen_visited (bookmakers : list Bookmaker.t) :
  fold_left visitBookmaker (JS.sort byPreference bookmakers) []
  = fold_left step (visited bookmakers) [].
Proof.
  unfold visited. rewrite fold_left_flat_map.
  generalize (@nil (string * PlayerProp)).
  induction (JS.sort byPreference bookmakers) as [|b r IH]; intros m;
    simpl; [reflexivity|].
  rewrite <- IH. f_equal. unfold visitBookmaker.
  rewrite fold_left_flat_map.
  revert m. induction (Bookmaker.markets b) as [|mk ms IHm]; intros m;
    simpl; [reflexivity|].
  now rewrite <- IHm, visitMarket_entries.
Qed.

Lemma has_get (k : string) (m : PropMap) :
  has k m = match get k m with Some _ => true | None => false end.
Proof.
  induction m as [|[k' v] r IH]; simpl; [reflexivity|].
  destruct (String.eqb k' k); simpl; [reflexivity | exact IH].
Qed.

Lemma get_set (k k' : string) (v : PlayerProp) (m : PropMap) :
  get k (PlayerProps.set k' v m)
  = match get k m with
    | Some x => Some x
    | None => if String.eqb k' k then Some v else None
    end.
Proof.
  unfold PlayerProps.set. induction m as [|[k0 v0] r IH]; simpl.
  - reflexivity.
  - destruct (String.eqb k0 k); [reflexivity | exact IH].
Qed.

Lemma get_update (k k' : string) (f : PlayerProp -> PlayerProp)
    (m : PropMap) :
  get k (update k' f m)
  = if String.eqb k' k then option_map f (get k m) else get k m.
Proof.
  induction m as [|[k0 v0] r IH]; simpl.
  - now destruct (String.eqb k' k).
  - destruct (String.eqb k0 k') eqn:E1; simpl.
    + apply String.eqb_eq in E1. subst k0.
      destruct (String.eqb k' k); reflexivity.
    + destruct (String.eqb k0 k) eqn:E3; [|exact IH].
      apply String.eqb_eq in E3. subst k0.
      rewrite String.eqb_sym in E1. now rewrite E1.
Qed.

Lemma keys_update (k : string) (f : PlayerProp -> PlayerProp)
    (m : PropMap) :
  map fst (update k f m) = map fst m.
Proof.
  induction m as [|[k0 v0] r IH]; simpl; [reflexivity|].
  destruct (String.eqb k0 k); simpl; [reflexivity | now rewrite IH].
Qed.

Lemma get_In (k : string) (v : PlayerProp) (m : PropMap) :
  NoDup (map fst m) -> (In (k, v) m <-> get k m = Some v).
Proof.
  induction m as [|[k0 v0] r IH]; simpl; intros Hn.
  - split; [contradiction | discriminate].
  - inversion Hn as [|? ? Hnot Hr]; subst.
    destruct (String.eqb_spec k0 k) as [->|Hne].
    + split.
      * intros [E|Hin]; [now inversion E|].
        elim Hnot. apply in_map_iff. now exists (k, v).
      * intros E. inversion E. now left.
    + rewrite <- (IH Hr). split.
      * intros [E|Hin]; [inversion E; contradiction | exact Hin].
      * intros Hin. now right.
Qed.

Lemma summarise_snoc (es : list entry) (e : entry) :
  summarise (es ++ [e])
  = match summarise es with
    | None => Some (create (fst e) (snd e))
    | Some p => Some (overwrite (snd e) p)
    end.
Proof.
  destruct es as [|e0 r]; simpl; [reflexivity|].
  now rewrite fold_left_app.
Qed.

(** After the loops, the Map holds for every key the prop made of the
    entries of that key, and every key once. *)
Lemma seen_summarise (es : list entry) :
  NoDup (map fst (fold_left step es []))
  /\ forall k,
       get k (fold_left step es [])
       = summarise (filter (fun e => String.eqb (entryKey e) k) es).
Proof.
  induction es as [|e es IH] using rev_ind.
  - split; [constructor | reflexivity].
  - destruct IH as [Hn Hget]. rewrite fold_left_app. simpl.
    set (m := fold_left step es []) in *.
    assert (Estep :
      step m e
      = if negb (has (entryKey e) m)
        then PlayerProps.set (entryKey e) (create (fst e) (snd e)) m
        else update (entryKey e) (overwrite (snd e)) m) by reflexivity.
    rewrite Estep, has_get, (Hget (entryKey e)).
    destruct (summarise (filter (fun e0 => String.eqb (entryKey e0)
                                             (entryKey e)) es))
      as [p|] eqn:Es; simpl.
    + split; [now rewrite keys_update|].
      intros k. rewrite get_update, filter_app. simpl.
      destruct (String.eqb_spec (entryKey e) k) as [<-|Hk].
      * rewrite summarise_snoc, Hget, Es. reflexivity.
      * rewrite app_nil_r. apply Hget.
    + split.
      * unfold PlayerProps.set. rewrite map_app. simpl.
        apply NoDup_app; [exact Hn | repeat constructor; intros [] |].
        intros k Hk [<-|[]].
        apply in_map_iff in Hk as ([k' v] & E & Hin). simpl in E. subst k'.
        apply (get_In _ _ _ Hn) in Hin.
        rewrite Hget, Es in Hin. discriminate.
      * intros k. rewrite get_set, filter_app. simpl.
        destruct (String.eqb_spec (entryKey e) k) as [<-|Hk].
        -- rewrite summarise_snoc, Hget, Es. reflexivity.
        -- rewrite app_nil_r, Hget.
           destruct (summarise
                       (filter (fun e0 => String.eqb (entryKey e0) k) es));
             reflexivity.
Qed.

(** What the overwrites keep, and which prices survive them. *)
Lemma overwrites_spec (e : entry) (r : list entry) :
  let p := fold_left (fun p e' => overwrite (snd e') p) r
             (create (fst e) (snd e)) in
  playerName p = Outcome.description (snd e)
  /\ propType p = fst e
  /\ playerId p
     = JSString.toLowerCase
         (replaceSpaces (Outcome.description (snd e)) false)
  /\ line p = Outcome.point (snd e)
  /\ (forall x, find isOver (rev (e :: r)) = Some x ->
                overOdds p = Outcome.price (snd x))
  /\ (truthy (underOdds p) = true ->
      exists x,
        find (fun y => negb (isOver y)) (rev (e :: r)) = Some x
        /\ underOdds p = Outcome.price (snd x)).
Proof.
  cbv zeta. induction r as [|y r IH] using rev_ind.
  - simpl. repeat split.
    + intros x. unfold isOver.
      destruct (String.eqb (Outcome.name (snd e)) "Over");
        [|discriminate].
      intros H. now inversion H.
    + unfold isOver.
      destruct (String.eqb_spec (Outcome.name (snd e)) "Under") as [E|E].
      * intros _. exists e. rewrite E. simpl. split; reflexivity.
      * simpl. discriminate.
  - rewrite fold_left_app. cbn [fold_left].
    destruct IH as (H1 & H2 & H3 & H4 & H5 & H6).
    assert (Hrev : rev (e :: r ++ [y]) = y :: rev (e :: r)).
    { change (e :: r ++ [y]) with ((e :: r) ++ [y]).
      now rewrite rev_app_distr. }
    rewrite Hrev. cbn [find].
    set (p := fold_left (fun p e' => overwrite (snd e') p) r
                (create (fst e) (snd e))) in *.
    destruct (isOver y) eqn:Ey; unfold overwrite; unfold isOver in Ey;
      rewrite Ey;
      cbn [playerName propType playerId line overOdds underOdds negb].
    + repeat split; trivial.
      intros x H. now inversion H.
    + repeat split; trivial.
      intros _. exists y. split; reflexivity.
Qed.

Lemma keyOf_inj (d1 d2 t1 t2 : string) :
  hyphenFree t1 = true -> hyphenFree t2 = true ->
  keyOf d1 t1 = keyOf d2 t2 -> d1 = d2 /\ t1 = t2.
Proof.
  unfold keyOf. intros H1 H2. revert d2.
  assert (Hno : forall t d u, hyphenFree t = true ->
                  t <> (d ++ String "-" u)%string).
  { intros t d. revert t. induction d as [|c d IH]; intros t u Ht E.
    - subst t. simpl in Ht. discriminate.
    - subst t. simpl in Ht. apply andb_true_iff in Ht as [_ Ht].
      now apply (IH _ u Ht). }
  induction d1 as [|c d1 IH]; intros [|c2 d2] E; simpl in E.
  - inversion E. auto.
  - inversion E as [[Ec Et]]. now elim (Hno t1 d2 t2 H1).
  - inversion E as [[Ec Et]]. symmetry in Et. now elim (Hno t2 d1 t1 H2).
  - inversion E as [[Ec Et]]. destruct (IH d2 Et) as [-> ->]. auto.
Qed.

Lemma mapPropType_vocabulary (k t : string) :
  OddsVocabulary.mapPropType k = Some t -> In t propTypes.
Proof.
  unfold OddsVocabulary.mapPropType, OddsVocabulary.lookup, propTypes.
  repeat match goal with
         | |- context [String.eqb ?a k] => destruct (String.eqb a k)
         end; simpl; intros H; inversion H; subst; simpl; auto 10.
Qed.

Lemma propTypes_hyphenFree (t : string) :
  In t propTypes -> hyphenFree t = true.
Proof.
  intros [<-|[<-|[<-|[<-|[<-|[]]]]]]; reflexivity.
Qed.

Lemma visited_types (bookmakers : list Bookmaker.t) (e : entry) :
  In e (visited bookmakers) -> In (fst e) propTypes.
Proof.
  unfold visited. intros H.
  apply in_flat_map in H as (b & _ & H).
  apply in_flat_map in H as (mk & _ & H).
  unfold marketEntries in H.
  destruct (OddsVocabulary.mapPropType (Market.key mk)) as [t|] eqn:E;
    [|contradiction].
  apply in_map_iff in H as (o & <- & _). simpl.
  now apply (mapPropType_vocabulary (Market.key mk)).
Qed.

Lemma find_filter {A : Type} (q1 q2 : A -> bool) (l : list A) :
  find (fun x => q1 x && q2 x) l = find q2 (filter q1 l).
Proof.
  induction l as [|x r IH]; simpl; [reflexivity|].
  destruct (q1 x); simpl; [|exact IH].
  destruct (q2 x); [reflexivity | exact IH].
Qed.

Lemma filter_rev {A : Type} (q : A -> bool) (l : list A) :
  filter q (rev l) = rev (filter q l).
Proof.
  induction l as [|x r IH]; simpl; [reflexivity|].
  rewrite filter_app, IH. simpl. destruct (q x); simpl;
    [reflexivity | now rewrite app_nil_r].
Qed.

Lemma find_head {A : Type} (q : A -> bool) (l : list A) (x : A)
    (r : list A) :
  filter q l = x :: r -> find q l = Some x.
Proof.
  induction l as [|y l IH]; simpl; [discriminate|].
  destruct (q y); [intros H; now inversion H | exact IH].
Qed.

(** X29.  [parsePlayerProps] returns at most one prop per player and prop
    type.  Each prop returned has a prop type of the vocabulary, both odds
    present and other than 0, and the player's name with white space
    replaced and in lower case as identifier.  Its line is the one of the
    first outcome visited for the player and prop type (bookmakers on the
    preferred list coming first), while its over and under odds are the
    prices of the last outcome visited that is, respectively is not, named
    "Over": line and odds can come from different bookmakers. *)
Theorem parsePlayerProps_spec (bookmakers : list Bookmaker.t) :
  NoDup (map (fun p => (playerName p, propType p))
           (parsePlayerProps bookmakers))
  /\ forall p,
       In p (parsePlayerProps bookmakers) ->
       In (propType p) propTypes
       /\ truthy (overOdds p) = true
       /\ truthy (underOdds p) = true
       /\ playerId p
          = JSString.toLowerCase (replaceSpaces (playerName p) false)
       /\ (exists e,
             find (about p) (visited bookmakers) = Some e
             /\ line p = Outcome.point (snd e))
       /\ (exists e,
             find (fun e => about p e && isOver e)
               (rev (visited bookmakers)) = Some e
             /\ overOdds p = Outcome.price (snd e))
       /\ (exists e,
             find (fun e => about p e && negb (isOver e))
               (rev (visited bookmakers)) = Some e
             /\ underOdds p = Outcome.price (snd e)).
Proof.
  unfold parsePlayerProps. cbv zeta. rewrite seen_visited.
  destruct (seen_summarise (visited bookmakers)) as [Hn Hget].
  set (es := visited bookmakers) in *.
  set (m := fold_left step es []) in *.
  (* every value of the Map is the summary of the entries about it *)
  assert (Hval : forall k p, In (k, p) m ->
    exists e r,
      filter (fun x => String.eqb (entryKey x) k) es = e :: r
      /\ k = entryKey e
      /\ In e es
      /\ p = fold_left (fun p e' => overwrite (snd e') p) r
               (create (fst e) (snd e))).
  { intros k p Hin. apply (get_In _ _ _ Hn) in Hin. rewrite Hget in Hin.
    destruct (filter (fun x => String.eqb (entryKey x) k) es)
      as [|e r] eqn:Ef; [discriminate|].
    simpl in Hin. inversion Hin as [Hp].
    assert (He : In e (filter (fun x => String.eqb (entryKey x) k) es))
      by (rewrite Ef; now left).
    apply filter_In in He as [He Hk]. apply String.eqb_eq in Hk.
    exists e, r. auto. }
  assert (Habout : forall k p e r,
    filter (fun x => String.eqb (entryKey x) k) es = e :: r ->
    k = entryKey e -> In e es ->
    p = fold_left (fun p e' => overwrite (snd e') p) r
          (create (fst e) (snd e)) ->
    filter (about p) es = e :: r).
  { intros k p e r Hf Hk He Hp. rewrite <- Hf.
    destruct (overwrites_spec e r) as (H1 & H2 & _). cbv zeta in H1, H2.
    rewrite <- Hp in H1, H2.
    apply filter_ext_in. intros x Hx. unfold about. rewrite H1, H2, Hk.
    unfold entryKey.
    destruct (String.eqb_spec
                (keyOf (Outcome.description (snd x)) (fst x))
                (keyOf (Outcome.description (snd e)) (fst e))) as [E|E].
    - apply keyOf_inj in E as [-> ->];
        [now rewrite !String.eqb_refl | |];
        apply propTypes_hyphenFree; now apply (visited_types bookmakers).
    - apply andb_false_iff.
      destruct (String.eqb_spec (Outcome.description (snd x))
                  (Outcome.description (snd e))) as [Ed|Ed];
        [|now left].
      right. apply String.eqb_neq. intros Et. apply E.
      now rewrite Ed, Et. }
  split.
  - (* one prop per player and prop type *)
    assert (Hkeys : forall k p, In (k, p) m ->
              k = keyOf (playerName p) (propType p)).
    { intros k p Hin. destruct (Hval k p Hin) as (e & r & _ & Hk & _ & Hp).
      destruct (overwrites_spec e r) as (H1 & H2 & _).
      cbv zeta in H1, H2. rewrite <- Hp in H1, H2.
      now rewrite H1, H2. }
    clearbody m. clear Hget Hval Habout.
    induction m as [|[k p] r IH]; simpl; [constructor|].
    inversion Hn as [|? ? Hnot Hr]; subst.
    assert (IH' := IH Hr (fun k' p' H => Hkeys k' p' (or_intror H))).
    destruct (truthy (overOdds p) && truthy (underOdds p)); [|exact IH'].
    simpl. constructor; [|exact IH'].
    intros Hin. apply in_map_iff in Hin as (p' & E & Hp').
    apply filter_In in Hp' as [Hp' _].
    apply in_map_iff in Hp' as ([k' p''] & Ep & Hin'). simpl in Ep.
    subst p''. apply Hnot. apply in_map_iff. exists (k', p').
    split; [|exact Hin']. simpl.
    rewrite (Hkeys k' p' (or_intror Hin')), (Hkeys k p (or_introl eq_refl)).
    inversion E. reflexivity.
  - intros p Hp. apply filter_In in Hp as [Hp Ht].
    apply andb_true_iff in Ht as [Hover Hunder].
    apply in_map_iff in Hp as ([k p'] & Ep & Hin). simpl in Ep. subst p'.
    destruct (Hval k p Hin) as (e & r & Hf & Hk & He & Hpe).
    pose proof (Habout k p e r Hf Hk He Hpe) as Hab.
    destruct (overwrites_spec e r) as (H1 & H2 & H3 & H4 & H5 & H6).
    cbv zeta in H1, H2, H3, H4, H5, H6.
    rewrite <- Hpe in H1, H2, H3, H4, H5, H6.
    split; [rewrite H2; now apply (visited_types bookmakers)|].
    split; [exact Hover|]. split; [exact Hunder|].
    split; [now rewrite H3, H1|].
    split; [exists e; split; [now apply find_head with r | exact H4]|].
    rewrite !find_filter, !filter_rev, Hab.
    split.
    + destruct (find isOver (rev (e :: r))) as [x|] eqn:Ex.
      * exists x. split; [exact Ex | now apply H5].
      * (* no outcome named Over: the over odds would be absent *)
        exfalso.
        assert (Hnone : overOdds p = None).
        { rewrite Hpe. clear - Ex.
          assert (Hall : forall y, In y (e :: r) -> isOver y = false).
          { intros y Hy. apply (find_none _ _ Ex). now apply -> in_rev. }
          clear Ex. revert Hall.
          induction r as [|y r IH] using rev_ind; intros Hall.
          - simpl. pose proof (Hall e (or_introl eq_refl)) as H.
            unfold isOver in H. now rewrite H.
          - rewrite fold_left_app. simpl. unfold overwrite.
            assert (Hy : isOver y = false)
              by (apply Hall; right; apply in_or_app; right; now left).
            unfold isOver in Hy. rewrite Hy. simpl. apply IH.
            intros z [<-|Hz]; apply Hall; [now left|].
            right. apply in_or_app. now left. }
        rewrite Hnone in Hover. discriminate.
    + destruct (H6 Hunder) as (x & Hx & Hprice).
      exists x. split; [exact Hx | exact Hprice].
Qed.

(** The preferred bookmaker gives the line, the other one the odds. *)
Example parsePlayerProps_mixes :
  parsePlayerProps [other; tab]
  = [mkPlayerProp "lebron_james" "LeBron James" "player_points"
       (Some (51 # 2)) (Some (21 # 10)) (Some (17 # 10))].
Proof.
  reflexivity.
Qed.

End PlayerPropFacts.

(** ** The week page: the games shown *)

Section DisplayGames.

Import JSDate WeekPage.
Local Open Scope Z_scope.

Variable parseLocal : string -> option Z.

Lemma gameDay_bounds (t : Z) :
  setHours t 0 0 0 0 = Day t * msPerDay
  /\ setDate (setHours t 0 0 0 0) (getDate (setHours t 0 0 0 0) + 1)
     = (Day t + 1) * msPerDay.
Proof.
  destruct (setHours_day t 0 0 0 0) as [Hd Ht];
    [unfold MakeTime, msPerDay; lia|].
  change (MakeTime 0 0 0 0) with 0 in Ht.
  pose proof (time_decomp (setHours t 0 0 0 0)) as D.
  rewrite Hd, Ht in D.
  remember (setHours t 0 0 0 0) as a eqn:Ea.
  destruct (setDate_shift a (getDate a + 1)) as [Hd' Ht'].
  pose proof (time_decomp (setDate a (getDate a + 1))) as D'.
  rewrite Hd', Ht', Hd, Ht in D'.
  split; [lia|]. rewrite D'. unfold msPerDay. lia.
Qed.

(** X30.  The games shown are games of the list, in the order of the list.
    A league without type or of type "Season", and a week without start
    date, show them all.  Any other league shows exactly the games whose
    commence time is a valid date on the local calendar day of the week's
    start; when the start date is not a valid date it shows none. *)
Theorem getDisplayGames_day (games : list Game.t)
    (leagueType startDate : option string) :
  (isSeasonLeague leagueType = true \/ JS.strOrNull startDate = None ->
   getDisplayGames parseLocal games leagueType startDate = games)
  /\ (isSeasonLeague leagueType = false ->
      forall sd,
        JS.strOrNull startDate = Some sd ->
        exists keep,
          getDisplayGames parseLocal games leagueType startDate
          = filter keep games
          /\ forall g,
               keep g = true <->
               exists ct gameTime start,
                 JS.strOrNull (Game.commenceTime g) = Some ct
                 /\ parseLocal ct = Some gameTime
                 /\ parseLocal sd = Some start
                 /\ Day gameTime = Day start).
Proof.
  split.
  - intros H. unfold getDisplayGames. destruct games as [|g r];
      [reflexivity|].
    destruct (isSeasonLeague leagueType); [reflexivity|].
    destruct H as [H|H]; [discriminate|]. now rewrite H.
  - intros Hs sd Hsd.
    exists (onGameDay parseLocal
              (option_map (fun t => setHours t 0 0 0 0) (parseLocal sd))
              (option_map (fun t => setDate t (getDate t + 1))
                 (option_map (fun t => setHours t 0 0 0 0)
                    (parseLocal sd)))).
    split.
    + unfold getDisplayGames. rewrite Hs, Hsd.
      destruct games; reflexivity.
    + intros g. unfold onGameDay.
      destruct (JS.strOrNull (Game.commenceTime g)) as [ct|].
      2:{ split; [discriminate|]. intros (? & ? & ? & H & _).
          discriminate. }
      destruct (parseLocal ct) as [gt|] eqn:Ect.
      2:{ split; [discriminate|]. intros (? & ? & ? & H & H' & _).
          inversion H; subst. congruence. }
      destruct (parseLocal sd) as [t0|] eqn:Esd; cbn [option_map].
      2:{ split; [discriminate|]. intros (? & ? & ? & _ & _ & H & _).
          discriminate. }
      destruct (gameDay_bounds t0) as [-> ->].
      pose proof (time_decomp gt) as Dg.
      pose proof (TimeWithinDay_range gt) as Rg.
      rewrite andb_true_iff, Z.leb_le, Z.ltb_lt. split.
      * intros [H1 H2]. exists ct, gt, t0.
        repeat split; trivial. unfold msPerDay in *. lia.
      * intros (ct' & gt' & t0' & E1 & E2 & E3 & Hday).
        inversion E1; subst ct'. rewrite Ect in E2.
        inversion E2; inversion E3; subst.
        unfold msPerDay in *. lia.
Qed.

End DisplayGames.

Lemma getDisplayGames_day_witness :
  WeekPage.getDisplayGames WeekPage.sampleDates
    [WeekPage.tuesdayGame; WeekPage.wednesdayGame]
    (Some "OneOff"%string) (Some "2024-10-22T00:00"%string)
  = [WeekPage.tuesdayGame].
Proof.
  destruct (getDisplayGames_day WeekPage.sampleDates
              [WeekPage.tuesdayGame; WeekPage.wednesdayGame]
              (Some "OneOff"%string) (Some "2024-10-22T00:00"%string))
    as [_ H].
  destruct (H eq_refl "2024-10-22T00:00"%string eq_refl)
    as (keep & -> & Hkeep).
  assert (H1 : keep WeekPage.tuesdayGame = true).
  { apply Hkeep. exists "2024-10-22T19:30"%string.
    exists 1729625400000%Z, 1729555200000%Z. repeat split. }
  assert (H2 : keep WeekPage.wednesdayGame = false).
  { apply not_true_is_false. intros E. apply Hkeep in E.
    destruct E as (ct & gt & t0 & E1 & E2 & E3 & Hd).
    inversion E1; subst. inversion E2; subst. inversion E3; subst.
    vm_compute in Hd. discriminate. }
  simpl. now rewrite H1, H2.
Defined.
